(** * kvmtool VFIO-PCI passthrough: interrupts, MSI-X table, capability chain
      and the AArch64 vCPU reset, embedded from [vfio/pci.c] and
      [arm/aarch64/kvm-cpu.c]. *)

From Stdlib Require Import ZArith Lia Bool.
From stdpp Require Import base list.

Local Open Scope Z_scope.

(** ** Machine integers and bytes *)

Definition wrap (bits : Z) (z : Z) : Z := z mod 2 ^ bits.
Definition u8 := wrap 8.
Definition u16 := wrap 16.
Definition u32 := wrap 32.
Definition u64 := wrap 64.

(** A C scalar used as a condition. *)
Definition truthy (z : Z) : bool := negb (z =? 0).

(** Little-endian load and store over byte lists. *)
Fixpoint le_load (bs : list Z) : Z :=
  match bs with
  | [] => 0
  | b :: rest => b + 256 * le_load rest
  end.

Fixpoint le_bytes (n : nat) (z : Z) : list Z :=
  match n with
  | O => []
  | S k => z mod 256 :: le_bytes k (z / 256)
  end.

(** [memcpy(dst + off, src, length src)] when the range lies inside [dst]. *)
Definition memcpy_at (dst : list Z) (off : nat) (src : list Z) : list Z :=
  take off dst ++ src ++ drop (off + length src) dst.

(** [memcpy(out, src + off, n)]. *)
Definition bytes_at (src : list Z) (off n : nat) : list Z :=
  take n (drop off src).

Definition load8 (m : list Z) (off : nat) : Z := le_load (bytes_at m off 1).
Definition load16 (m : list Z) (off : nat) : Z := le_load (bytes_at m off 2).
Definition load32 (m : list Z) (off : nat) : Z := le_load (bytes_at m off 4).

(** ** Constants of the PCI and VFIO interfaces *)

Definition PCI_STATUS_CAP_LIST := 0x10.
Definition PCI_STD_HEADER_SIZEOF := 64.
Definition PCI_DEV_CFG_SIZE_LEGACY := 256.
Definition PCI_CAP_ID_MSI := 0x05.
Definition PCI_CAP_ID_EXP := 0x10.
Definition PCI_CAP_ID_MSIX := 0x11.
Definition PCI_CAP_MSIX_SIZEOF := 12.
Definition PCI_CAP_EXP_RC_ENDPOINT_SIZEOF_V1 := 12.

Definition PCI_MSI_FLAGS := 2.
Definition PCI_MSI_FLAGS_ENABLE := 0x0001.
Definition PCI_MSI_FLAGS_QMASK := 0x000e.
Definition PCI_MSI_FLAGS_QSIZE := 0x0070.
Definition PCI_MSI_FLAGS_64BIT := 0x0080.
Definition PCI_MSI_FLAGS_MASKBIT := 0x0100.
Definition PCI_MSI_MASK_32 := 12.
Definition PCI_MSI_MASK_64 := 16.

Definition PCI_MSIX_FLAGS := 2.
Definition PCI_MSIX_FLAGS_QSIZE := 0x07FF.
Definition PCI_MSIX_FLAGS_MASKALL := 0x4000.
Definition PCI_MSIX_FLAGS_ENABLE := 0x8000.
Definition PCI_MSIX_ENTRY_SIZE := 16.
Definition PCI_MSIX_ENTRY_VECTOR_CTRL := 12.
Definition PCI_MSIX_ENTRY_CTRL_MASKBIT := 1.

Definition VFIO_IRQ_SET_DATA_NONE := 1.
Definition VFIO_IRQ_SET_DATA_EVENTFD := 4.
Definition VFIO_IRQ_SET_ACTION_UNMASK := 16.
Definition VFIO_IRQ_SET_ACTION_TRIGGER := 32.

Definition VFIO_PCI_INTX_IRQ_INDEX := 0.
Definition VFIO_PCI_MSI_IRQ_INDEX := 1.
Definition VFIO_PCI_MSIX_IRQ_INDEX := 2.

(** [include/kvm/vfio.h] *)
Definition VFIO_PCI_MSI_STATE_ENABLED := 1.
Definition VFIO_PCI_MSI_STATE_MASKED := 2.
Definition VFIO_PCI_MSI_STATE_EMPTY := 4.

Definition VFIO_PCI_IRQ_MODE_INTX := 1.
Definition VFIO_PCI_IRQ_MODE_MSI := 2.
Definition VFIO_PCI_IRQ_MODE_MSIX := 4.

(** ** The state macros of [vfio/pci.c] *)

Definition msi_is_enabled (state : Z) : Z := Z.land state VFIO_PCI_MSI_STATE_ENABLED.
Definition msi_is_masked (state : Z) : Z := Z.land state VFIO_PCI_MSI_STATE_MASKED.
Definition msi_is_empty (state : Z) : Z := Z.land state VFIO_PCI_MSI_STATE_EMPTY.

Definition msi_update_state (state : Z) (val : bool) (bit : Z) : Z :=
  if val then Z.lor state bit else Z.land state (Z.lnot bit).
Definition msi_set_enabled (state : Z) (val : bool) : Z :=
  msi_update_state state val VFIO_PCI_MSI_STATE_ENABLED.
Definition msi_set_masked (state : Z) (val : bool) : Z :=
  msi_update_state state val VFIO_PCI_MSI_STATE_MASKED.
Definition msi_set_empty (state : Z) (val : bool) : Z :=
  msi_update_state state val VFIO_PCI_MSI_STATE_EMPTY.

(** ** Data model *)

(** [struct vfio_pci_msi_entry]; [config] is the 16-byte table entry
    (address_lo, address_hi, data, ctrl). *)
Record vfio_pci_msi_entry := mk_entry {
  config : list Z;
  gsi : Z;
  eventfd : Z;
  e_guest_state : Z;
  e_host_state : Z
}.

(** [struct vfio_irq_set] with its trailing payload. *)
Record vfio_irq_set := mk_irq_set {
  flags : Z;
  index : Z;
  start : Z;
  count : Z;
  data : list Z
}.

(** [struct vfio_pci_msi_common]; the [data] of [irq_set] is the
    [eventfds] array of the source. *)
Record vfio_pci_msi_common := mk_common {
  pos : Z;
  guest_state : Z;
  host_state : Z;
  info_index : Z;
  irq_set : vfio_irq_set;
  nr_entries : Z;
  entries : list vfio_pci_msi_entry
}.

Record vfio_pci_msix_table := mk_table {
  size : Z;
  bar : Z;
  guest_phys_addr : Z
}.

Record vfio_pci_msix_pba := mk_pba {
  pba_size : Z;
  pba_bar : Z;
  pba_guest_phys_addr : Z
}.

(** [struct vfio_pci_device]; [hdr] is the 256-byte virtual header. *)
Record vfio_pci_device := mk_pdev {
  hdr : list Z;
  irq_modes : Z;
  intx_fd : Z;
  unmask_fd : Z;
  intx_gsi : Z;
  msi : vfio_pci_msi_common;
  msix : vfio_pci_msi_common;
  msix_table : vfio_pci_msix_table;
  msix_pba : vfio_pci_msix_pba
}.

(** Requests that leave the process. *)
Inductive host_call :=
| SET_IRQS (irq : vfio_irq_set)
| Eventfd
| Close (fd : Z)
| AddMsixRoute (msg : list Z) (devid : Z)
| UpdateMsixRoute (gsi : Z) (msg : list Z)
| AddIrqfd (gsi trigger_fd resample_fd : Z)
| DelIrqfd (gsi trigger_fd : Z)
| PwriteCfg (offset : Z) (bytes : list Z)
| PreadCfg (offset sz : Z)
| GET_REGION_INFO (index : Z).

Inductive loglevel := LOG_ERROR | LOG_WARNING.

(** The device together with the part of the host it talks to: the
    descriptor table of the process, the irqfd bindings held by KVM as
    (gsi, trigger fd) pairs, the journal of requests with their results
    (newest first) and the diagnostics printed. *)
Record world := mk_world {
  pdev : vfio_pci_device;
  dev_num : Z;
  open_fds : list Z;
  irqfds : list (Z * Z);
  errno : Z;
  log : list (host_call * Z);
  diag : list loglevel
}.

Definition set_pdev (p : vfio_pci_device) (w : world) : world :=
  mk_world p (dev_num w) (open_fds w) (irqfds w) (errno w) (log w) (diag w).
Definition set_open_fds (o : list Z) (w : world) : world :=
  mk_world (pdev w) (dev_num w) o (irqfds w) (errno w) (log w) (diag w).
Definition set_irqfds (r : list (Z * Z)) (w : world) : world :=
  mk_world (pdev w) (dev_num w) (open_fds w) r (errno w) (log w) (diag w).
Definition set_errno (e : Z) (w : world) : world :=
  mk_world (pdev w) (dev_num w) (open_fds w) (irqfds w) e (log w) (diag w).
Definition push_log (c : host_call) (r : Z) (w : world) : world :=
  mk_world (pdev w) (dev_num w) (open_fds w) (irqfds w) (errno w)
           ((c, r) :: log w) (diag w).
Definition push_diag (l : loglevel) (w : world) : world :=
  mk_world (pdev w) (dev_num w) (open_fds w) (irqfds w) (errno w) (log w)
           (l :: diag w).

Definition set_intx_fd (fd : Z) (p : vfio_pci_device) : vfio_pci_device :=
  mk_pdev (hdr p) (irq_modes p) fd (unmask_fd p) (intx_gsi p) (msi p) (msix p)
          (msix_table p) (msix_pba p).
Definition set_unmask_fd (fd : Z) (p : vfio_pci_device) : vfio_pci_device :=
  mk_pdev (hdr p) (irq_modes p) (intx_fd p) fd (intx_gsi p) (msi p) (msix p)
          (msix_table p) (msix_pba p).
Definition set_hdr (h : list Z) (p : vfio_pci_device) : vfio_pci_device :=
  mk_pdev h (irq_modes p) (intx_fd p) (unmask_fd p) (intx_gsi p) (msi p)
          (msix p) (msix_table p) (msix_pba p).

(** [msix ? &pdev->msix : &pdev->msi] *)
Definition msis_of (is_msix : bool) (p : vfio_pci_device) : vfio_pci_msi_common :=
  if is_msix then msix p else msi p.
Definition set_msis (is_msix : bool) (m : vfio_pci_msi_common)
    (p : vfio_pci_device) : vfio_pci_device :=
  if is_msix
  then mk_pdev (hdr p) (irq_modes p) (intx_fd p) (unmask_fd p) (intx_gsi p)
               (msi p) m (msix_table p) (msix_pba p)
  else mk_pdev (hdr p) (irq_modes p) (intx_fd p) (unmask_fd p) (intx_gsi p)
               m (msix p) (msix_table p) (msix_pba p).

Definition set_guest_state (s : Z) (m : vfio_pci_msi_common) : vfio_pci_msi_common :=
  mk_common (pos m) s (host_state m) (info_index m) (irq_set m) (nr_entries m)
            (entries m).
Definition set_host_state (s : Z) (m : vfio_pci_msi_common) : vfio_pci_msi_common :=
  mk_common (pos m) (guest_state m) s (info_index m) (irq_set m) (nr_entries m)
            (entries m).
Definition set_entries (es : list vfio_pci_msi_entry) (m : vfio_pci_msi_common)
    : vfio_pci_msi_common :=
  mk_common (pos m) (guest_state m) (host_state m) (info_index m) (irq_set m)
            (nr_entries m) es.
Definition set_eventfds (fds : list Z) (m : vfio_pci_msi_common)
    : vfio_pci_msi_common :=
  mk_common (pos m) (guest_state m) (host_state m) (info_index m)
            (mk_irq_set (flags (irq_set m)) (index (irq_set m))
                        (start (irq_set m)) (count (irq_set m)) fds)
            (nr_entries m) (entries m).
Definition eventfds (m : vfio_pci_msi_common) : list Z := data (irq_set m).

(** ** A state monad with a fault outcome *)

(** [Fault] stands for an access outside an allocated object or another
    step on which the C standard puts no meaning; [Died] for a process
    ended by [die] or by a failed [assert]. *)
Inductive result (A : Type) : Type :=
| Ok (a : A) (w : world)
| Fault
| Died.
Arguments Ok {A} a w.
Arguments Fault {A}.
Arguments Died {A}.

Definition M (A : Type) : Type := world -> result A.

Definition ret {A} (a : A) : M A := fun w => Ok a w.
Definition bind {A B} (c : M A) (k : A -> M B) : M B :=
  fun w => match c w with
           | Ok a w' => k a w'
           | Fault => Fault
           | Died => Died
           end.
Definition fault {A} : M A := fun _ => Fault.
Definition die {A} : M A := fun _ => Died.
Definition get : M world := fun w => Ok w w.
Definition modify (f : world -> world) : M unit := fun w => Ok tt (f w).

Notation "x <- c ;; k" := (bind c (fun x => k))
  (at level 100, c at next level, right associativity).
Notation "c ;;; k" := (bind c (fun _ => k))
  (at level 100, right associativity).

Definition get_pdev : M vfio_pci_device := fun w => Ok (pdev w) w.
Definition modify_pdev (f : vfio_pci_device -> vfio_pci_device) : M unit :=
  modify (fun w => set_pdev (f (pdev w)) w).
Definition get_msis (is_msix : bool) : M vfio_pci_msi_common :=
  fun w => Ok (msis_of is_msix (pdev w)) w.
Definition modify_msis (is_msix : bool)
    (f : vfio_pci_msi_common -> vfio_pci_msi_common) : M unit :=
  modify_pdev (fun p => set_msis is_msix (f (msis_of is_msix p)) p).

Definition pr_err : M unit := modify (push_diag LOG_ERROR).
Definition pr_warning : M unit := modify (push_diag LOG_WARNING).

(** [&msis->entries[i]], read. *)
Definition entry_at (is_msix : bool) (i : nat) : M vfio_pci_msi_entry :=
  fun w => match entries (msis_of is_msix (pdev w)) !! i with
           | Some e => Ok e w
           | None => Fault
           end.

(** [msis->entries[i] = e]. *)
Definition put_entry (is_msix : bool) (i : nat) (e : vfio_pci_msi_entry)
    (w : world) : world :=
  let m := msis_of is_msix (pdev w) in
  set_pdev (set_msis is_msix (set_entries (<[i:=e]> (entries m)) m) (pdev w)) w.
Definition store_entry (is_msix : bool) (i : nat) (e : vfio_pci_msi_entry) : M unit :=
  fun w => if decide (i < length (entries (msis_of is_msix (pdev w))))%nat
           then Ok tt (put_entry is_msix i e w)
           else Fault.

(** [eventfds[i]], read and written. *)
Definition eventfd_at (is_msix : bool) (i : nat) : M Z :=
  fun w => match eventfds (msis_of is_msix (pdev w)) !! i with
           | Some fd => Ok fd w
           | None => Fault
           end.
Definition put_eventfd (is_msix : bool) (i : nat) (fd : Z) (w : world) : world :=
  let m := msis_of is_msix (pdev w) in
  set_pdev (set_msis is_msix (set_eventfds (<[i:=fd]> (eventfds m)) m) (pdev w)) w.
Definition store_eventfd (is_msix : bool) (i : nat) (fd : Z) : M unit :=
  fun w => if decide (i < length (eventfds (msis_of is_msix (pdev w))))%nat
           then Ok tt (put_eventfd is_msix i fd w)
           else Fault.

Definition set_entry_eventfd (fd : Z) (e : vfio_pci_msi_entry) : vfio_pci_msi_entry :=
  mk_entry (config e) (gsi e) fd (e_guest_state e) (e_host_state e).
Definition set_entry_gsi (g : Z) (e : vfio_pci_msi_entry) : vfio_pci_msi_entry :=
  mk_entry (config e) g (eventfd e) (e_guest_state e) (e_host_state e).
Definition set_entry_guest (s : Z) (e : vfio_pci_msi_entry) : vfio_pci_msi_entry :=
  mk_entry (config e) (gsi e) (eventfd e) s (e_host_state e).
Definition set_entry_host (s : Z) (e : vfio_pci_msi_entry) : vfio_pci_msi_entry :=
  mk_entry (config e) (gsi e) (eventfd e) (e_guest_state e) s.
Definition set_entry_config (c : list Z) (e : vfio_pci_msi_entry) : vfio_pci_msi_entry :=
  mk_entry c (gsi e) (eventfd e) (e_guest_state e) (e_host_state e).

(** [entry->config.msg]: the first twelve bytes of the table entry;
    [entry->config.ctrl]: the last four. *)
Definition config_msg (e : vfio_pci_msi_entry) : list Z := take 12 (config e).
Definition config_ctrl (e : vfio_pci_msi_entry) : Z := load32 (config e) 12.

(** An early [return v] inside a C function: [Some v] leaves, [None]
    goes on with the rest of the body. *)
Definition or_continue (c : M (option Z)) (k : M Z) : M Z :=
  o <- c ;;
  match o with
  | Some v => ret v
  | None => k
  end.
Notation "c ;;? k" := (or_continue c k) (at level 100, right associativity).

(** The lowest descriptor that is not open, as POSIX hands them out. *)
Fixpoint lowest_free (fuel : nat) (n : Z) (open : list Z) : Z :=
  match fuel with
  | O => n
  | S f => if bool_decide (n ∈ open) then lowest_free f (n + 1) open else n
  end.
Definition fresh_fd (open : list Z) : Z := lowest_free (length open) 0 open.

Section Host.

(** [host n] is what the host answers to the [n]-th request of the run:
    a negative number is a failure, always. *)
Variable host : nat -> Z.

(** ** Host requests *)

Definition answer : M Z := fun w => Ok (host (length (log w))) w.

(** [ioctl(vdev->fd, VFIO_DEVICE_SET_IRQS, irq)] *)
Definition ioctl_SET_IRQS (irq : vfio_irq_set) : M Z :=
  r <- answer ;;
  modify (push_log (SET_IRQS irq) r) ;;;
  ret r.

(** [eventfd(0, 0)]: -1 with [errno] set on failure, else the lowest free
    descriptor, which is then open. *)
Definition sys_eventfd : M Z :=
  r <- answer ;;
  if r <? 0 then
    modify (fun w => push_log Eventfd (-1) (set_errno (- r) w)) ;;;
    ret (-1)
  else
    w <- get ;;
    let fd := fresh_fd (open_fds w) in
    modify (fun w => push_log Eventfd fd (set_open_fds (fd :: open_fds w) w)) ;;;
    ret fd.

(** [close(fd)] *)
Definition sys_close (fd : Z) : M unit :=
  modify (fun w => push_log (Close fd) 0
                     (set_open_fds (filter (fun x => x <> fd) (open_fds w)) w)).

(** Modelled from the spec: [irq__add_msix_route] of kvmtool's irq layer,
    "add an MSI-X interrupt route (returns a GSI)"; negative on failure. *)
Definition irq__add_msix_route (msg : list Z) (devid : Z) : M Z :=
  r <- answer ;;
  modify (push_log (AddMsixRoute msg devid) r) ;;;
  ret r.

(** Modelled from the spec: [irq__update_msix_route], "update an MSI-X
    interrupt route"; its result is not used by the callers. *)
Definition irq__update_msix_route (g : Z) (msg : list Z) : M unit :=
  r <- answer ;;
  modify (push_log (UpdateMsixRoute g msg) r).

(** Modelled from the spec: [irq__add_irqfd], "add an IRQ-fd binding of
    (GSI, trigger-fd, optional resample-fd)": 0 and the binding is
    installed, or a negative result and nothing changes. *)
Definition irq__add_irqfd (g trigger_fd resample_fd : Z) : M Z :=
  r <- answer ;;
  if r <? 0 then
    modify (push_log (AddIrqfd g trigger_fd resample_fd) r) ;;;
    ret r
  else
    modify (fun w => push_log (AddIrqfd g trigger_fd resample_fd) 0
                       (set_irqfds ((g, trigger_fd) :: irqfds w) w)) ;;;
    ret 0.

(** Modelled from the spec: [irq__del_irqfd], "remove an IRQ-fd binding". *)
Definition irq__del_irqfd (g trigger_fd : Z) : M unit :=
  modify (fun w => push_log (DelIrqfd g trigger_fd) 0
                     (set_irqfds (filter (fun r => r <> (g, trigger_fd)) (irqfds w)) w)).

(** ** INTx *)

Definition vfio_pci_disable_intx : M unit :=
  p <- get_pdev ;;
  let gsi := intx_gsi p in
  let irq_set := mk_irq_set
      (Z.lor VFIO_IRQ_SET_DATA_NONE VFIO_IRQ_SET_ACTION_TRIGGER)
      VFIO_PCI_INTX_IRQ_INDEX 0 0 [] in
  if intx_fd p =? -1 then ret tt
  else
    ioctl_SET_IRQS irq_set ;;;
    irq__del_irqfd gsi (intx_fd p) ;;;
    sys_close (intx_fd p) ;;;
    sys_close (unmask_fd p) ;;;
    modify_pdev (set_intx_fd (-1)).

Definition vfio_pci_enable_intx : M Z :=
  p <- get_pdev ;;
  let gsi := intx_gsi p in
  if negb (intx_fd p =? -1) then ret 0
  else
    trigger_fd <- sys_eventfd ;;
    if trigger_fd <? 0 then pr_err ;;; ret trigger_fd
    else
      unmask_fd <- sys_eventfd ;;
      if unmask_fd <? 0 then
        pr_err ;;; sys_close trigger_fd ;;; ret unmask_fd
      else
        let err_close (r : Z) : M Z :=
          sys_close trigger_fd ;;; sys_close unmask_fd ;;; ret r in
        let err_delete_line (r : Z) : M Z :=
          irq__del_irqfd gsi trigger_fd ;;; err_close r in
        let trigger := mk_irq_set
            (Z.lor VFIO_IRQ_SET_DATA_EVENTFD VFIO_IRQ_SET_ACTION_TRIGGER)
            VFIO_PCI_INTX_IRQ_INDEX 0 1 [trigger_fd] in
        let unmask := mk_irq_set
            (Z.lor VFIO_IRQ_SET_DATA_EVENTFD VFIO_IRQ_SET_ACTION_UNMASK)
            VFIO_PCI_INTX_IRQ_INDEX 0 1 [unmask_fd] in
        r <- irq__add_irqfd gsi trigger_fd unmask_fd ;;
        if truthy r then err_close r
        else
          r <- ioctl_SET_IRQS trigger ;;
          if r <? 0 then pr_err ;;; err_delete_line r
          else
            r <- ioctl_SET_IRQS unmask ;;
            if r <? 0 then
              pr_err ;;;
              (* err_remove_event *)
              ioctl_SET_IRQS (mk_irq_set
                  (Z.lor VFIO_IRQ_SET_DATA_NONE VFIO_IRQ_SET_ACTION_TRIGGER)
                  VFIO_PCI_INTX_IRQ_INDEX 0 0 [trigger_fd]) ;;;
              err_delete_line r
            else
              modify_pdev (fun p => set_unmask_fd unmask_fd (set_intx_fd trigger_fd p)) ;;;
              ret 0.

(** ** The state machine shared by MSI and MSI-X *)

(** The fd a vector contributes to SET_IRQS:
    [entry->gsi >= 0 ? entry->eventfd : -1]. *)
Definition entry_fd (e : vfio_pci_msi_entry) : Z :=
  if gsi e >=? 0 then eventfd e else -1.

(** First loop of [vfio_pci_enable_msis]: fill [eventfds] for the bulk
    request, tracking [empty]. *)
Fixpoint fill_eventfds (is_msix : bool) (idxs : list nat) (empty : bool) : M bool :=
  match idxs with
  | [] => ret empty
  | i :: rest =>
      e <- entry_at is_msix i ;;
      store_eventfd is_msix i (entry_fd e) ;;;
      fill_eventfds is_msix rest (if entry_fd e >=? 0 then false else empty)
  end.

(** Second loop of [vfio_pci_enable_msis]: one request per vector whose
    fd changed; a failure breaks out with that result. *)
Fixpoint update_vectors (is_msix : bool) (idxs : list nat) (r0 : Z) : M Z :=
  match idxs with
  | [] => ret r0
  | i :: rest =>
      e <- entry_at is_msix i ;;
      let fd := entry_fd e in
      cur <- eventfd_at is_msix i ;;
      if fd =? cur then update_vectors is_msix rest r0
      else
        m <- get_msis is_msix ;;
        let single := mk_irq_set
            (Z.lor VFIO_IRQ_SET_DATA_EVENTFD VFIO_IRQ_SET_ACTION_TRIGGER)
            (info_index m) (Z.of_nat i) 1 [fd] in
        r <- ioctl_SET_IRQS single ;;
        if r <? 0 then pr_err ;;; ret r
        else
          store_eventfd is_msix i fd ;;;
          m <- get_msis is_msix ;;
          (if truthy (msi_is_empty (host_state m)) && (fd >=? 0)
           then modify_msis is_msix
                  (fun m => set_host_state (msi_set_empty (host_state m) false) m)
           else ret tt) ;;;
          update_vectors is_msix rest r
  end.

Definition vector_indices (m : vfio_pci_msi_common) : list nat :=
  seq 0 (Z.to_nat (nr_entries m)).

Definition vfio_pci_enable_msis (is_msix : bool) : M Z :=
  m <- get_msis is_msix ;;
  if negb (truthy (msi_is_enabled (guest_state m))) then ret 0
  else
    p <- get_pdev ;;
    (if truthy (Z.land (irq_modes p) VFIO_PCI_IRQ_MODE_INTX)
     then vfio_pci_disable_intx else ret tt) ;;;
    if negb (truthy (msi_is_enabled (host_state m)))
       || (negb (truthy (msi_is_masked (guest_state m)))
           && truthy (msi_is_empty (host_state m)))
    then
      empty <- fill_eventfds is_msix (vector_indices m) true ;;
      m <- get_msis is_msix ;;
      r <- ioctl_SET_IRQS (irq_set m) ;;
      if r <? 0 then pr_err ;;; ret r
      else
        modify_msis is_msix
          (fun m => set_host_state
                      (msi_set_empty (msi_set_enabled (host_state m) true) empty) m) ;;;
        ret 0
    else if truthy (msi_is_masked (guest_state m)) then ret 0
    else update_vectors is_msix (vector_indices m) 0.

Definition vfio_pci_disable_msis (is_msix : bool) : M Z :=
  m <- get_msis is_msix ;;
  let irq_set := mk_irq_set
      (Z.lor VFIO_IRQ_SET_DATA_NONE VFIO_IRQ_SET_ACTION_TRIGGER)
      (info_index m) 0 0 [] in
  if negb (truthy (msi_is_enabled (host_state m))) then ret 0
  else
    r <- ioctl_SET_IRQS irq_set ;;
    if r <? 0 then pr_err ;;; ret r
    else
      modify_msis is_msix
        (fun m => set_host_state
                    (msi_set_empty (msi_set_enabled (host_state m) false) true) m) ;;;
      p <- get_pdev ;;
      r <- (if truthy (Z.land (irq_modes p) VFIO_PCI_IRQ_MODE_INTX)
            then vfio_pci_enable_intx else ret r) ;;
      ret (if r >=? 0 then 0 else r).

Definition vfio_pci_update_msi_entry (is_msix : bool) (i : nat) : M Z :=
  (e <- entry_at is_msix i ;;
   if eventfd e <? 0 then
     fd <- sys_eventfd ;;
     store_entry is_msix i (set_entry_eventfd fd e) ;;;
     if fd <? 0 then
       w <- get ;; pr_err ;;; ret (Some (- errno w))
     else ret None
   else ret None) ;;?
  (* Allocate IRQ if necessary *)
  (e <- entry_at is_msix i ;;
   if gsi e <? 0 then
     w <- get ;;
     r <- irq__add_msix_route (config_msg e) (Z.shiftl (dev_num w) 3) ;;
     if r <? 0 then pr_err ;;; ret (Some r)
     else store_entry is_msix i (set_entry_gsi r e) ;;; ret None
   else
     irq__update_msix_route (gsi e) (config_msg e) ;;; ret None) ;;?
  e <- entry_at is_msix i ;;
  if msi_is_masked (e_guest_state e) =? msi_is_masked (e_host_state e) then ret 0
  else
    (if truthy (msi_is_masked (e_host_state e)) then
       r <- irq__add_irqfd (gsi e) (eventfd e) (-1) ;;
       if r <? 0 then pr_err ;;; ret (Some r) else ret None
     else
       irq__del_irqfd (gsi e) (eventfd e) ;;; ret None) ;;?
    store_entry is_msix i
      (set_entry_host
         (msi_set_masked (e_host_state e) (truthy (msi_is_masked (e_guest_state e)))) e) ;;;
    ret 0.

(** ** MSI-X table emulation *)

(** [addr] is a 64-bit guest-physical address, [data] the [len]-byte
    buffer of the access; the result is the buffer after the access.  A
    copy that would run past the 16-byte [config] member is a [Fault]. *)
Definition vfio_pci_msix_table_access (addr : Z) (data : list Z) (len : Z)
    (is_write : bool) : M (list Z) :=
  p <- get_pdev ;;
  let offset := u64 (addr - guest_phys_addr (msix_table p)) in
  if offset >=? size (msix_table p) then pr_err ;;; ret data
  else
    let vector := Z.to_nat (offset / PCI_MSIX_ENTRY_SIZE) in
    let field := offset mod PCI_MSIX_ENTRY_SIZE in
    if (negb (len =? 4) && negb (len =? 8)) || truthy (Z.land addr (u32 (len - 1)))
    then pr_warning ;;; ret data
    else
      entry <- entry_at true vector ;;
      if field + len >? PCI_MSIX_ENTRY_SIZE then fault
      else if negb is_write then
        ret (bytes_at (config entry) (Z.to_nat field) (Z.to_nat len)
               ++ drop (Z.to_nat len) data)
      else
        store_entry true vector
          (set_entry_config
             (memcpy_at (config entry) (Z.to_nat field) (take (Z.to_nat len) data))
             entry) ;;;
        (* did the access touch the vector control register? *)
        if field + len <=? PCI_MSIX_ENTRY_VECTOR_CTRL then ret data
        else
          entry <- entry_at true vector ;;
          store_entry true vector
            (set_entry_guest
               (msi_set_masked (e_guest_state entry)
                  (truthy (Z.land (config_ctrl entry) PCI_MSIX_ENTRY_CTRL_MASKBIT)))
               entry) ;;;
          r <- vfio_pci_update_msi_entry true vector ;;
          (if r <? 0 then pr_err else ret tt) ;;;
          r <- vfio_pci_enable_msis true ;;
          (if truthy r then pr_err else ret tt) ;;;
          ret data.

(** ** Capability writes in configuration space *)

Definition vfio_pci_msix_cap_write (off : Z) (data : list Z) (sz : Z) : M unit :=
  p <- get_pdev ;;
  let enable_pos := PCI_MSIX_FLAGS + 1 in
  let off := u16 (off - pos (msix p)) in
  (* does the access intersect the byte with the Enable bit? *)
  if (off >? enable_pos) || (off + sz <=? enable_pos) then ret tt
  else
    match data !! Z.to_nat (enable_pos - off) with
    | None => fault
    | Some b =>
        let flags := u16 (Z.shiftl b 8) in
        modify_msis true
          (fun m => set_guest_state
             (msi_set_masked (guest_state m)
                (truthy (Z.land flags PCI_MSIX_FLAGS_MASKALL))) m) ;;;
        let enable := truthy (Z.land flags PCI_MSIX_FLAGS_ENABLE) in
        modify_msis true
          (fun m => set_guest_state (msi_set_enabled (guest_state m) enable) m) ;;;
        if enable then
          r <- vfio_pci_enable_msis true ;;
          if truthy r then pr_err else ret tt
        else
          r <- vfio_pci_disable_msis true ;;
          if truthy r then pr_err else ret tt
    end.

(** [1 << i] and [x << i] on [int]: no meaning from 32 bits on. *)
Definition shl_int (x : Z) (i : nat) : M Z :=
  if decide (i < 32)%nat then ret (u32 (Z.shiftl x (Z.of_nat i))) else fault.

(** "Set mask to current state" *)
Fixpoint current_mask (idxs : list nat) (mask : Z) : M Z :=
  match idxs with
  | [] => ret mask
  | i :: rest =>
      entry <- entry_at false i ;;
      b <- shl_int (Z.b2z (truthy (msi_is_masked (e_guest_state entry)))) i ;;
      current_mask rest (Z.lor mask b)
  end.

(** "Update states if necessary" *)
Fixpoint apply_mask (idxs : list nat) (mask : Z) : M unit :=
  match idxs with
  | [] => ret tt
  | i :: rest =>
      b <- shl_int 1 i ;;
      let masked := truthy (Z.land mask b) in
      entry <- entry_at false i ;;
      (if negb (Z.b2z masked =? msi_is_masked (e_guest_state entry)) then
         store_entry false i
           (set_entry_guest (msi_set_masked (e_guest_state entry) masked) entry) ;;;
         vfio_pci_update_msi_entry false i ;;;
         ret tt
       else ret tt) ;;;
      apply_mask rest mask
  end.

(** [off] is already relative to the capability. *)
Definition vfio_pci_msi_vector_write (off : Z) (data : list Z) (sz : Z) : M Z :=
  p <- get_pdev ;;
  let cap := Z.to_nat (pos (msi p)) in
  let ctrl := load16 (hdr p) (cap + 2) in
  if negb (truthy (Z.land ctrl PCI_MSI_FLAGS_MASKBIT)) then ret 0
  else
    let mask_pos :=
      if truthy (Z.land ctrl PCI_MSI_FLAGS_64BIT)
      then PCI_MSI_MASK_64 else PCI_MSI_MASK_32 in
    if (off >=? mask_pos + 4) || (u32 (off + sz) <=? mask_pos) then ret 0
    else
      mask <- current_mask (vector_indices (msi p)) 0 ;;
      (* the intersection of the access and the register *)
      let start := Z.max off mask_pos in
      let limit := Z.min (u32 (off + sz)) (mask_pos + 4) in
      let mask := le_load (memcpy_at (le_bytes 4 mask) (Z.to_nat (start - mask_pos))
                    (bytes_at data (Z.to_nat (start - off)) (Z.to_nat (limit - start)))) in
      apply_mask (vector_indices (msi p)) mask ;;;
      ret 1.

(** The loop of [vfio_pci_msi_cap_write] that creates the routes of the
    requested vectors; [msg] is (address_lo, address_hi, data). *)
Fixpoint program_vectors (idxs : list nat) (nr_vectors : Z) (msg : Z * Z * Z) : M unit :=
  match idxs with
  | [] => ret tt
  | i :: rest =>
      let '(lo, hi, d) := msg in
      let d := u32 (Z.lor (u32 (Z.land d (Z.lnot (nr_vectors - 1)))) (Z.of_nat i)) in
      entry <- entry_at false i ;;
      store_entry false i
        (set_entry_config
           (memcpy_at (config entry) 0 (le_bytes 4 lo ++ le_bytes 4 hi ++ le_bytes 4 d))
           entry) ;;;
      vfio_pci_update_msi_entry false i ;;;
      program_vectors rest nr_vectors (lo, hi, d)
  end.

Definition vfio_pci_msi_cap_write (off : Z) (data : list Z) (sz : Z) : M unit :=
  p <- get_pdev ;;
  let cap := Z.to_nat (pos (msi p)) in
  let off := u16 (off - pos (msi p)) in
  (* is the guest updating mask bits? *)
  r <- vfio_pci_msi_vector_write off data sz ;;
  if truthy r then ret tt
  (* only modify routes when the guest pokes the enable bit *)
  else if (off >? PCI_MSI_FLAGS) || (u32 (off + sz) <=? PCI_MSI_FLAGS) then ret tt
  else
    match data !! Z.to_nat (PCI_MSI_FLAGS - off) with
    | None => fault
    | Some ctrl =>
        modify_msis false
          (fun m => set_guest_state
             (msi_set_enabled (guest_state m)
                (truthy (Z.land ctrl PCI_MSI_FLAGS_ENABLE))) m) ;;;
        m <- get_msis false ;;
        if negb (truthy (msi_is_enabled (guest_state m))) then
          vfio_pci_disable_msis false ;;; ret tt
        else
          (* create routes for the requested vectors *)
          let nr_vectors := Z.shiftl 1 (Z.shiftr (Z.land ctrl PCI_MSI_FLAGS_QSIZE) 4) in
          p <- get_pdev ;;
          let cap_ctrl := load16 (hdr p) (cap + 2) in
          let msg :=
            if truthy (Z.land cap_ctrl PCI_MSI_FLAGS_64BIT)
            then (load32 (hdr p) (cap + 4), load32 (hdr p) (cap + 8),
                  load16 (hdr p) (cap + 12))
            else (load32 (hdr p) (cap + 4), 0, load16 (hdr p) (cap + 8)) in
          program_vectors (seq 0 (Z.to_nat nr_vectors)) nr_vectors msg ;;;
          r <- vfio_pci_enable_msis false ;;
          if truthy r then pr_err else ret tt
    end.

Definition PCI_ROM_ADDRESS := 0x30.

(** [pwrite]/[pread] on the configuration region of the device fd. *)
Definition pwrite_cfg (offset : Z) (bytes : list Z) : M Z :=
  r <- answer ;; modify (push_log (PwriteCfg offset bytes) r) ;;; ret r.
Definition pread_cfg (offset sz : Z) : M Z :=
  r <- answer ;; modify (push_log (PreadCfg offset sz) r) ;;; ret r.

Definition vfio_pci_cfg_write (offset : Z) (data : list Z) (sz : Z) : M unit :=
  (* assert(sz <= 4) *)
  if sz >? 4 then die
  else if offset =? PCI_ROM_ADDRESS then ret tt
  else
    r <- pwrite_cfg offset (take (Z.to_nat sz) data) ;;
    (if negb (r =? sz) then pr_warning else ret tt) ;;;
    (* handle MSI write now, since it might update the hardware capability *)
    p <- get_pdev ;;
    (if truthy (Z.land (irq_modes p) VFIO_PCI_IRQ_MODE_MSIX)
     then vfio_pci_msix_cap_write offset data sz else ret tt) ;;;
    (if truthy (Z.land (irq_modes p) VFIO_PCI_IRQ_MODE_MSI)
     then vfio_pci_msi_cap_write offset data sz else ret tt) ;;;
    r <- pread_cfg offset sz ;;
    if negb (r =? sz) then pr_warning else ret tt.

(** ** Interrupt set-up at device bring-up *)

Definition ENODEV := 19.
Definition EINVAL := 22.
Definition VFIO_IRQ_INFO_EVENTFD := 1.
Definition VFIO_IRQ_INFO_AUTOMASKED := 4.
Definition PCI_INTERRUPT_LINE := 0x3c.

(** What [VFIO_DEVICE_GET_IRQ_INFO] answers for an index: the result of
    the ioctl, [count] and [flags]. *)
Variable irq_info : Z -> Z * Z * Z.
(** The offset between IRQ lines and GSIs of the architecture, and the
    line [pci__assign_irq] gives the device (both outside these sources). *)
Variable KVM_IRQ_OFFSET : Z.
Variable assigned_irq_line : Z.

(** The loop at the end of [vfio_pci_init_msis]. *)
Fixpoint init_entries (is_msix : bool) (idxs : list nat) : M unit :=
  match idxs with
  | [] => ret tt
  | i :: rest =>
      entry <- entry_at is_msix i ;;
      store_entry is_msix i
        (mk_entry (config entry) (-1) (-1)
                  (msi_set_masked (e_guest_state entry) false)
                  (msi_set_masked (e_host_state entry) true)) ;;;
      store_eventfd is_msix i (-1) ;;;
      init_entries is_msix rest
  end.

(** [malloc] is taken to succeed; [vfio_pci_reserve_irq_fds] only touches
    the descriptor limit of the process. *)
Definition vfio_pci_init_msis (is_msix : bool) : M Z :=
  m <- get_msis is_msix ;;
  let nr := nr_entries m in
  let '(r, info_count, info_flags) := irq_info (info_index m) in
  if truthy r || (info_count =? 0) then pr_err ;;; ret (- ENODEV)
  else if negb (truthy (Z.land info_flags VFIO_IRQ_INFO_EVENTFD)) then
    pr_err ;;; ret (- EINVAL)
  else if negb (info_count =? nr) then pr_err ;;; ret (- EINVAL)
  else
    modify_msis is_msix
      (fun m => mk_common (pos m) (guest_state m) (host_state m) (info_index m)
         (mk_irq_set (Z.lor VFIO_IRQ_SET_DATA_EVENTFD VFIO_IRQ_SET_ACTION_TRIGGER)
                     (info_index m) 0 nr (replicate (Z.to_nat nr) 0))
         (nr_entries m) (entries m)) ;;;
    init_entries is_msix (seq 0 (Z.to_nat nr)) ;;;
    ret 0.

Definition set_intx_gsi (g : Z) (p : vfio_pci_device) : vfio_pci_device :=
  mk_pdev (hdr p) (irq_modes p) (intx_fd p) (unmask_fd p) g (msi p) (msix p)
          (msix_table p) (msix_pba p).

Definition vfio_pci_init_intx : M Z :=
  let '(r, info_count, info_flags) := irq_info VFIO_PCI_INTX_IRQ_INDEX in
  if truthy r || (info_count =? 0) then pr_err ;;; ret (- ENODEV)
  else if negb (truthy (Z.land info_flags VFIO_IRQ_INFO_EVENTFD)) then
    pr_err ;;; ret (- EINVAL)
  else if negb (truthy (Z.land info_flags VFIO_IRQ_INFO_AUTOMASKED)) then
    pr_err ;;; ret (- EINVAL)
  else
    modify_pdev (fun p =>
      set_intx_fd (-1)
        (set_intx_gsi (u32 (load8 (hdr p) (Z.to_nat PCI_INTERRUPT_LINE) - KVM_IRQ_OFFSET))
           p)) ;;;
    ret 0.

Definition set_info_index (ix : Z) (m : vfio_pci_msi_common) : vfio_pci_msi_common :=
  mk_common (pos m) (guest_state m) (host_state m) ix (irq_set m) (nr_entries m)
            (entries m).

Definition vfio_pci_configure_dev_irqs : M Z :=
  p <- get_pdev ;;
  (if truthy (Z.land (irq_modes p) VFIO_PCI_IRQ_MODE_MSIX) then
     modify_msis true (set_info_index VFIO_PCI_MSIX_IRQ_INDEX) ;;;
     r <- vfio_pci_init_msis true ;;
     ret (if truthy r then Some r else None)
   else ret None) ;;?
  (if truthy (Z.land (irq_modes p) VFIO_PCI_IRQ_MODE_MSI) then
     modify_msis false (set_info_index VFIO_PCI_MSI_IRQ_INDEX) ;;;
     r <- vfio_pci_init_msis false ;;
     ret (if truthy r then Some r else None)
   else ret None) ;;?
  if truthy (Z.land (irq_modes p) VFIO_PCI_IRQ_MODE_INTX) then
    (* pci__assign_irq *)
    modify_pdev (fun p =>
      set_hdr (<[Z.to_nat PCI_INTERRUPT_LINE := assigned_irq_line]> (hdr p)) p) ;;;
    r <- vfio_pci_init_intx ;;
    if truthy r then ret r else vfio_pci_enable_intx
  else ret 0.

End Host.

(** ** Allocation of the vector arrays at bring-up *)

Definition ENOMEM := 12.
Definition PCI_MSIX_TABLE_BIR := 0x07.
Definition PCI_MSIX_PBA_OFFSET := 0xfffffff8.

(** [include/kvm/util.h] *)
Definition is_power_of_two (x : Z) : bool :=
  if x >? 0 then Z.land x (x - 1) =? 0 else false.

(** Modelled from the spec: the [ALIGN] and [DIV_ROUND_UP] macros of
    kvmtool's kernel compatibility headers, which are not among the
    sources: "rounded up to 8-byte multiple", and the ceiling of a
    quotient. *)
Definition ALIGN (x a : Z) : Z := (x + a - 1) / a * a.
Definition DIV_ROUND_UP (n d : Z) : Z := (n + d - 1) / d.

(** A vector as [calloc] leaves it. *)
Definition zero_entry : vfio_pci_msi_entry := mk_entry (replicate 16 0) 0 0 0 0.

Definition set_nr_entries (n : Z) (es : list vfio_pci_msi_entry)
    (m : vfio_pci_msi_common) : vfio_pci_msi_common :=
  mk_common (pos m) (guest_state m) (host_state m) (info_index m) (irq_set m) n es.

Definition set_msix_table (t : vfio_pci_msix_table) (p : vfio_pci_device)
    : vfio_pci_device :=
  mk_pdev (hdr p) (irq_modes p) (intx_fd p) (unmask_fd p) (intx_gsi p) (msi p)
          (msix p) t (msix_pba p).
Definition set_msix_pba (b : vfio_pci_msix_pba) (p : vfio_pci_device)
    : vfio_pci_device :=
  mk_pdev (hdr p) (irq_modes p) (intx_fd p) (unmask_fd p) (intx_gsi p) (msi p)
          (msix p) (msix_table p) b.

(** [calloc] is taken to succeed. *)
Definition vfio_pci_create_msi_cap : M Z :=
  p <- get_pdev ;;
  let cap := Z.to_nat (pos (msi p)) in
  let ctrl := load16 (hdr p) (cap + 2) in
  let nr := Z.shiftl 1 (Z.shiftr (Z.land ctrl PCI_MSI_FLAGS_QMASK) 1) in
  modify_pdev (fun p =>
    set_msis false (set_nr_entries nr (replicate (Z.to_nat nr) zero_entry) (msi p)) p) ;;;
  ret 0.

Section Regions.

(** What [VFIO_DEVICE_GET_REGION_INFO] answers for a region: the result
    of the ioctl, [errno] and [info.size]. *)
Variable region_answer : Z -> Z * Z * Z.
(** The page size the MMIO windows are rounded to, and the windows
    [pci_get_mmio_block] hands out for the table and for the PBA
    (0 when the space is used up). *)
Variable MAX_PAGE_SIZE : Z.
Variable table_block pba_block : Z.

Definition vfio_pci_get_region_info (idx : Z) : Z * Z :=
  let '(r, err, sz) := region_answer idx in
  if truthy r then (- err, sz)
  else if truthy sz && negb (is_power_of_two sz) then (- EINVAL, sz)
  else (0, sz).

Definition vfio_pci_create_msix_table : M Z :=
  p <- get_pdev ;;
  let cap := Z.to_nat (pos (msix p)) in
  let msix_ctrl := load16 (hdr p) (cap + 2) in
  let table_offset := load32 (hdr p) (cap + 4) in
  let pba_offset := load32 (hdr p) (cap + 8) in
  let table_bar := Z.land table_offset PCI_MSIX_TABLE_BIR in
  let pba_bar := Z.land pba_offset PCI_MSIX_TABLE_BIR in
  let nr := Z.land msix_ctrl PCI_MSIX_FLAGS_QSIZE + 1 in
  (* MSIX table and PBA must support QWORD accesses. *)
  let table_size := ALIGN (nr * PCI_MSIX_ENTRY_SIZE) 8 in
  let pba_sz := ALIGN (DIV_ROUND_UP nr 64) 8 in
  modify_pdev (fun p =>
    set_msix_pba (mk_pba pba_sz pba_bar (pba_guest_phys_addr (msix_pba p)))
      (set_msix_table (mk_table table_size table_bar (guest_phys_addr (msix_table p)))
         p)) ;;;
  let new_entries :=
    replicate (Z.to_nat nr)
      (set_entry_config (replicate 12 0 ++ le_bytes 4 PCI_MSIX_ENTRY_CTRL_MASKBIT)
                        zero_entry) in
  let '(r, info_size) := vfio_pci_get_region_info table_bar in
  if truthy r then ret r
  else if negb (truthy info_size) then ret (- EINVAL)
  else
    modify_pdev (fun p =>
      set_msix_table (mk_table table_size table_bar (u32 table_block)) p) ;;;
    if negb (truthy (u32 table_block)) then pr_err ;;; ret (- ENOMEM)
    else
      (if table_bar =? pba_bar then
         let pba_bar_offset := Z.land pba_offset PCI_MSIX_PBA_OFFSET in
         (* Sanity checks. *)
         if table_size >? pba_bar_offset then die
         else if pba_bar_offset + pba_sz >? info_size then die
         else
           modify_pdev (fun p =>
             set_msix_pba (mk_pba pba_sz pba_bar (u32 (u32 table_block + pba_bar_offset)))
                          p) ;;;
           ret None
       else
         let '(r, info_size) := vfio_pci_get_region_info pba_bar in
         if truthy r then ret (Some r)
         else if negb (truthy info_size) then ret (Some (- EINVAL))
         else
           modify_pdev (fun p =>
             set_msix_pba (mk_pba pba_sz pba_bar (u32 pba_block)) p) ;;;
           if negb (truthy (u32 pba_block)) then pr_err ;;; ret (Some (- ENOMEM))
           else ret None) ;;?
      modify_pdev (fun p => set_msis true (set_nr_entries nr new_entries (msix p)) p) ;;;
      ret 0.

End Regions.

(** * Reasoning about runs *)

(** [wp c Q w]: if [c] returns from [w], the result and the world it
    leaves satisfy [Q]. *)
Definition wp {A} (c : M A) (Q : A -> world -> Prop) (w : world) : Prop :=
  match c w with
  | Ok a w' => Q a w'
  | Fault | Died => True
  end.

(** ** MSI-X table accesses *)

(** An access the handler turns away: wrong length, misaligned address,
    or an offset at or past the end of the table. *)
Definition bad_table_access (p : vfio_pci_device) (addr len : Z) : Prop :=
  (len <> 4 /\ len <> 8)
  \/ Z.land addr (len - 1) <> 0
  \/ size (msix_table p) <= u64 (addr - guest_phys_addr (msix_table p)).

(** C5 as the specification words it: an access that is turned away is
    warned. *)
Definition bad_access_warned_as_stated : Prop :=
  forall host w addr data len is_write d w',
    bad_table_access (pdev w) addr len ->
    vfio_pci_msix_table_access host addr data len is_write w = Ok d w' ->
    diag w' = LOG_WARNING :: diag w.

(** What a guest read of [len] bytes at [addr] gets back. *)
Definition read_back (host : nat -> Z) (w : world) (addr len : Z) : option (list Z) :=
  match vfio_pci_msix_table_access host addr (replicate (Z.to_nat len) 0) len false w with
  | Ok d _ => Some d
  | _ => None
  end.

(** ** States of a passed-through device *)

Definition has_mode (w : world) (mode : Z) : bool :=
  truthy (Z.land (irq_modes (pdev w)) mode).

(** Vector [i] of the MSI-X ([true]) or MSI ([false]) capability. *)
Definition vec (w : world) (is_msix : bool) (i : nat) : option vfio_pci_msi_entry :=
  entries (msis_of is_msix (pdev w)) !! i.

(** INTx is armed on the host when the device has the mode and holds a
    trigger descriptor. *)
Definition intx_armed (w : world) : Prop :=
  has_mode w VFIO_PCI_IRQ_MODE_INTX = true /\ intx_fd (pdev w) <> -1.

Definition host_enabled (w : world) (is_msix : bool) : Prop :=
  msi_is_enabled (host_state (msis_of is_msix (pdev w))) <> 0.

(** The state [vfio_pci_configure_dev_regions] hands to the interrupt
    set-up: descriptors are non-negative, KVM holds bindings on open
    descriptors only, the vector arrays have [nr_entries] elements, a
    capability the device lacks has none, and the capability states are
    still zero. *)
Record boot_ok (w : world) : Prop := {
  boot_open_nonneg : Forall (fun fd => 0 <= fd) (open_fds w);
  boot_routes_open : Forall (fun r => r.2 ∈ open_fds w) (irqfds w);
  boot_length : forall b,
    length (entries (msis_of b (pdev w))) = Z.to_nat (nr_entries (msis_of b (pdev w)));
  boot_absent_msi :
    has_mode w VFIO_PCI_IRQ_MODE_MSI = false -> entries (msi (pdev w)) = [];
  boot_absent_msix :
    has_mode w VFIO_PCI_IRQ_MODE_MSIX = false -> entries (msix (pdev w)) = [];
  boot_states : forall b,
    host_state (msis_of b (pdev w)) = 0 /\ guest_state (msis_of b (pdev w)) = 0
}.

Definition set_table_addr (a : Z) (p : vfio_pci_device) : vfio_pci_device :=
  set_msix_table (mk_table (size (msix_table p)) (bar (msix_table p)) a) p.

(** What reaches the device once its interrupts are set up: the writes
    of the guest to configuration space, its accesses to the MSI-X table,
    and what the generic PCI layer does around them, storing into the
    header and moving the table when its BAR is programmed. *)
Inductive guest_access :=
| CfgWrite (offset : Z) (data : list Z) (sz : Z)
| TableAccess (addr : Z) (data : list Z) (len : Z) (is_write : bool)
| HdrStore (h : list Z)
| BarActivate (a : Z).

(** ** What the handlers rely on *)

(** A write of [sz] bytes at [offset] that covers the Message Control
    byte of the MSI capability [m] with the enable bit set and a
    Multiple Message Enable field that asks for more vectors than the
    capability has: the overrunning write, on which
    [vfio_pci_msi_cap_write] indexes [entries] past its end. *)
Definition msi_ctrl_overruns (m : vfio_pci_msi_common) (offset : Z) (data : list Z)
    (sz : Z) : bool :=
  let off := u16 (offset - pos m) in
  (off <=? PCI_MSI_FLAGS) && (PCI_MSI_FLAGS <? off + sz)
  && match data !! Z.to_nat (PCI_MSI_FLAGS - off) with
     | Some ctrl =>
         truthy (Z.land ctrl PCI_MSI_FLAGS_ENABLE)
         && (nr_entries m <? Z.shiftl 1 (Z.shiftr (Z.land ctrl PCI_MSI_FLAGS_QSIZE) 4))
     | None => false
     end.

Definition cfg_write_overruns (p : vfio_pci_device) (offset : Z) (data : list Z)
    (sz : Z) : bool :=
  truthy (Z.land (irq_modes p) VFIO_PCI_IRQ_MODE_MSI)
  && msi_ctrl_overruns (msi p) offset data sz.

Definition mode_of (is_msix : bool) : Z :=
  if is_msix then VFIO_PCI_IRQ_MODE_MSIX else VFIO_PCI_IRQ_MODE_MSI.

(** The arrays of a capability have [nr_entries] elements. *)
Definition arrays_ok (m : vfio_pci_msi_common) : Prop :=
  length (entries m) = Z.to_nat (nr_entries m)
  /\ length (eventfds m) = Z.to_nat (nr_entries m).

(** Index [i] is inside both arrays of capability [b]. *)
Definition in_arrays (w0 : world) (b : bool) (i : nat) : Prop :=
  (i < length (entries (msis_of b (pdev w0))))%nat
  /\ (i < length (eventfds (msis_of b (pdev w0))))%nat.

(** The layout bring-up leaves and no handler changes: the arrays of a
    capability the device has hold [nr_entries] elements; an MSI
    capability has at most 32 vectors, the most the PCI specification
    allows and the most the 32-bit mask register can name; the MSI-X
    table is no larger than its vectors and lies at a multiple of 8. *)
Record sized (w : world) : Prop := {
  sized_arrays : forall b,
    has_mode w (mode_of b) = true -> arrays_ok (msis_of b (pdev w));
  sized_msi :
    has_mode w VFIO_PCI_IRQ_MODE_MSI = true -> nr_entries (msi (pdev w)) <= 32;
  sized_table :
    has_mode w VFIO_PCI_IRQ_MODE_MSIX = true ->
    size (msix_table (pdev w)) <= PCI_MSIX_ENTRY_SIZE * nr_entries (msix (pdev w))
    /\ guest_phys_addr (msix_table (pdev w)) mod 8 = 0
}.

(** The part of the device [sized] and the bounds of a write depend on. *)
Definition cap_shape (m : vfio_pci_msi_common) : Z * Z * nat * nat :=
  (pos m, nr_entries m, length (entries m), length (eventfds m)).
Definition shape (w : world) :=
  (irq_modes (pdev w), msix_table (pdev w),
   cap_shape (msi (pdev w)), cap_shape (msix (pdev w))).

(** The part of it that the bounds of a write depend on. *)
Definition layout (w : world) :=
  (irq_modes (pdev w), cap_shape (msi (pdev w)), cap_shape (msix (pdev w))).

(** The accesses a device [p] is given: writes to configuration space
    of at most four bytes out of a buffer that holds them, other than the
    overrunning write; table accesses when the device has MSI-X, for which
    alone the handler is registered; a table moved to a multiple of 8. *)
Definition access_ok (p : vfio_pci_device) (a : guest_access) : Prop :=
  match a with
  | CfgWrite offset data sz =>
      0 <= sz <= 4 /\ (Z.to_nat sz <= length data)%nat
      /\ cfg_write_overruns p offset data sz = false
  | TableAccess addr data len is_write =>
      truthy (Z.land (irq_modes p) VFIO_PCI_IRQ_MODE_MSIX) = true
  | HdrStore h => True
  | BarActivate a => a mod 8 = 0
  end.

Section Machine.

Variable host : nat -> Z.
Variable irq_info : Z -> Z * Z * Z.
Variable KVM_IRQ_OFFSET : Z.
Variable assigned_irq_line : Z.

Definition configured (w : world) : Prop :=
  exists w0,
    boot_ok w0
    /\ vfio_pci_configure_dev_irqs host irq_info KVM_IRQ_OFFSET assigned_irq_line w0
       = Ok 0 w.

Definition access (a : guest_access) : M unit :=
  match a with
  | CfgWrite offset data sz => vfio_pci_cfg_write host offset data sz
  | TableAccess addr data len is_write =>
      vfio_pci_msix_table_access host addr data len is_write ;;; ret tt
  | HdrStore h => modify_pdev (set_hdr h)
  | BarActivate a => modify_pdev (set_table_addr a)
  end.

(** The accesses of [l], first to last; a run that does not return
    stops the sequence. *)
Fixpoint run_accesses (l : list guest_access) : M unit :=
  match l with
  | [] => ret tt
  | a :: rest => access a ;;; run_accesses rest
  end.

End Machine.

(** ** A sample device *)

Definition blank_common (cap_pos : Z) : vfio_pci_msi_common :=
  mk_common cap_pos 0 0 0 (mk_irq_set 0 0 0 0 []) 0 [].

(** A header with an MSI capability at 0x50 (32-bit, one vector) and an
    MSI-X capability at 0x60 (three vectors, table in BAR 0 at offset 0,
    PBA in BAR 0 at offset 0x800). *)
Definition sample_hdr : list Z :=
  memcpy_at
    (memcpy_at (replicate 256 0) 0x50 [0x05; 0x60; 0x00; 0x00])
    0x60 [0x11; 0x00; 0x02; 0x00; 0; 0; 0; 0; 0; 0x08; 0; 0].

(** The device before its vector arrays are allocated; descriptors 0, 1
    and 2 are open as in any process. *)
Definition sample_blank (modes : Z) : world :=
  mk_world
    (mk_pdev sample_hdr modes 0 0 0 (blank_common 0x50) (blank_common 0x60)
             (mk_table 0 0 0) (mk_pba 0 0 0))
    1 [0; 1; 2] [] 0 [] [].

Definition sample_region (idx : Z) : Z * Z * Z := (0, 0, 0x1000).
Definition sample_irq_info (idx : Z) : Z * Z * Z :=
  if idx =? VFIO_PCI_MSIX_IRQ_INDEX then (0, 3, 1)
  else if idx =? VFIO_PCI_MSI_IRQ_INDEX then (0, 1, 1)
  else (0, 1, 5).

(** A host on which every request succeeds, and one that fails request
    [k] only. *)
Definition host_ok (n : nat) : Z := Z.of_nat n.
Definition host_failing (k : nat) (n : nat) : Z :=
  if decide (n = k) then -1 else Z.of_nat n.

(** The world a computation leaves, or the one it started from. *)
Definition after {A} (c : M A) (w : world) : world :=
  match c w with
  | Ok _ w' => w'
  | _ => w
  end.

(** The sample device after its arrays are allocated for the modes it
    has, and after interrupt set-up on a given host. *)
Definition sample_boot (modes : Z) : world :=
  let w := sample_blank modes in
  let w := if has_mode w VFIO_PCI_IRQ_MODE_MSIX
           then after (vfio_pci_create_msix_table sample_region 0x10000 0x20000) w
           else w in
  if has_mode w VFIO_PCI_IRQ_MODE_MSI then after vfio_pci_create_msi_cap w else w.

Definition sample_configured (host : nat -> Z) (modes : Z) : world :=
  after (vfio_pci_configure_dev_irqs host sample_irq_info 0 9) (sample_boot modes).

(** ** What a run leaves alone *)

(** The journal of [w'] extends that of [w] by requests that satisfy [P]. *)
Definition log_ext (P : host_call * Z -> Prop) (w w' : world) : Prop :=
  exists evs, log w' = evs ++ log w /\ Forall P evs.

(** A request other than SET_IRQS. *)
Definition quiet (ev : host_call * Z) : Prop :=
  match ev.1 with
  | SET_IRQS _ => False
  | _ => True
  end.

(** A request other than a SET_IRQS on interrupt index [idx]. *)
Definition off_index (idx : Z) (ev : host_call * Z) : Prop :=
  match ev.1 with
  | SET_IRQS irq => index irq <> idx
  | _ => True
  end.

(** Everything of a capability but the contents of its vectors, and
    everything of the device but the contents of the vectors. *)
Definition cap_hdr (m : vfio_pci_msi_common)
    : Z * Z * Z * Z * vfio_irq_set * Z * nat :=
  (pos m, guest_state m, host_state m, info_index m, irq_set m, nr_entries m,
   length (entries m)).
Definition dev_hdr (p : vfio_pci_device) :=
  (hdr p, irq_modes p, intx_fd p, unmask_fd p, intx_gsi p, msix_table p,
   msix_pba p, cap_hdr (msi p), cap_hdr (msix p)).

(** A run that touched vectors only, without any SET_IRQS. *)
Definition frame (w w' : world) : Prop :=
  dev_hdr (pdev w') = dev_hdr (pdev w) /\ dev_num w' = dev_num w
  /\ log_ext quiet w w'.

(** A SET_IRQS, if any, on the INTx index. *)
Definition intx_only (ev : host_call * Z) : Prop :=
  match ev.1 with
  | SET_IRQS irq => index irq = VFIO_PCI_INTX_IRQ_INDEX
  | _ => True
  end.

(** A run of the INTx code: both capabilities are as before. *)
Definition intx_step (w w' : world) : Prop :=
  (msi (pdev w'), msix (pdev w'), hdr (pdev w'), irq_modes (pdev w'),
   intx_gsi (pdev w'), msix_table (pdev w'), msix_pba (pdev w'), dev_num w')
  = (msi (pdev w), msix (pdev w), hdr (pdev w), irq_modes (pdev w),
     intx_gsi (pdev w), msix_table (pdev w), msix_pba (pdev w), dev_num w)
  /\ log_ext intx_only w w'.

(** The part of a capability that SET_IRQS traffic leaves alone. *)
Definition cap_static (m : vfio_pci_msi_common) :=
  (pos m, guest_state m, info_index m, nr_entries m, entries m,
   flags (irq_set m), index (irq_set m), start (irq_set m), count (irq_set m),
   length (data (irq_set m))).

(** A run that at most rewrote [host_state] and [eventfds] of one
    capability and talked to the host about it. *)
Definition cap_step (b : bool) (w w' : world) : Prop :=
  cap_static (msis_of b (pdev w')) = cap_static (msis_of b (pdev w))
  /\ msis_of (negb b) (pdev w') = msis_of (negb b) (pdev w)
  /\ (hdr (pdev w'), irq_modes (pdev w'), intx_fd (pdev w'), unmask_fd (pdev w'),
      intx_gsi (pdev w'), msix_table (pdev w'), msix_pba (pdev w'),
      dev_num w', open_fds w', irqfds w')
     = (hdr (pdev w), irq_modes (pdev w), intx_fd (pdev w), unmask_fd (pdev w),
        intx_gsi (pdev w), msix_table (pdev w), msix_pba (pdev w),
        dev_num w, open_fds w, irqfds w).

(** Among the requests [evs], a SET_IRQS on interrupt index [idx] that
    the host turned down. *)
Definition failed_SET_IRQS (idx : Z) (evs : list (host_call * Z)) : Prop :=
  exists irq r, (SET_IRQS irq, r) ∈ evs /\ index irq = idx /\ r < 0.

(** The sample device once the guest has set the enable bit of its MSI-X
    capability, before the host side is reconciled. *)
Definition sample_enabling (host : nat -> Z) (modes : Z) : world :=
  after (modify_msis true (set_guest_state VFIO_PCI_MSI_STATE_ENABLED))
        (sample_configured host modes).


(** The sample device with its MSI-X table allocated. *)
Definition sample_tabled : world :=
  after (vfio_pci_create_msix_table sample_region 0x10000 0x20000) (sample_blank 5).

(** [twp c Q w]: [c] returns from [w], and the result and the world it
    leaves satisfy [Q]. *)
Definition twp {A} (c : M A) (Q : A -> world -> Prop) (w : world) : Prop :=
  match c w with
  | Ok a w' => Q a w'
  | Fault | Died => False
  end.

(** The request that disarms a capability: no data, count 0. *)
Definition disarm_request (idx : Z) : vfio_irq_set :=
  mk_irq_set (Z.lor VFIO_IRQ_SET_DATA_NONE VFIO_IRQ_SET_ACTION_TRIGGER) idx 0 0 [].

(** C6 as the specification words it: whenever a capability that is
    enabled on the host is disabled on a device with INTx, the capability
    ends up disarmed and INTx armed. *)
Definition fallback_as_stated : Prop :=
  forall host b w r w',
    host_enabled w b ->
    has_mode w VFIO_PCI_IRQ_MODE_INTX = true ->
    vfio_pci_disable_msis host b w = Ok r w' ->
    ~ host_enabled w' b /\ intx_armed w'.

(** The sample device with MSI-X enabled by a guest write of the enable
    bit (byte 0x63 of configuration space). *)
Definition sample_msix_on (host : nat -> Z) : world :=
  after (vfio_pci_cfg_write host 0x62 [0x00; 0x80] 2) (sample_configured host 5).


(** ** Mutual exclusion of the interrupt modes *)

(** At most one of INTx, MSI and MSI-X is enabled on the host. *)
Definition mode_exclusion (w : world) : Prop :=
  ~ (intx_armed w /\ host_enabled w false)
  /\ ~ (intx_armed w /\ host_enabled w true)
  /\ ~ (host_enabled w false /\ host_enabled w true).

(** C1 as the specification words it. *)
Definition exclusion_as_stated : Prop :=
  forall host irq_info irq_offset line w0 l w,
    configured host irq_info irq_offset line w0 ->
    run_accesses host l w0 = Ok tt w ->
    mode_exclusion w.

(** The device exposes at most one of MSI and MSI-X. *)
Definition single_capability (modes : Z) : Prop :=
  ~ (truthy (Z.land modes VFIO_PCI_IRQ_MODE_MSI) = true
     /\ truthy (Z.land modes VFIO_PCI_IRQ_MODE_MSIX) = true).

(** What the exclusion depends on. *)
Definition kview (w : world) : Z * Z * Z * Z :=
  (irq_modes (pdev w), intx_fd (pdev w), host_state (msi (pdev w)),
   host_state (msix (pdev w))).

(** A capability the device lacks is not enabled on the host, and while
    INTx is armed neither capability is. *)
Definition excl_inv (modes : Z) (w : world) : Prop :=
  irq_modes (pdev w) = modes
  /\ (forall b, has_mode w (mode_of b) = false -> ~ host_enabled w b)
  /\ (intx_armed w -> forall b, ~ host_enabled w b).

(** What tearing INTx down adds to the journal, newest first. *)
Definition intx_teardown (r : Z) (w : world) : list (host_call * Z) :=
  [(Close (unmask_fd (pdev w)), 0);
   (Close (intx_fd (pdev w)), 0);
   (DelIrqfd (intx_gsi (pdev w)) (intx_fd (pdev w)), 0);
   (SET_IRQS (disarm_request VFIO_PCI_INTX_IRQ_INDEX), r)].

(** The sample device with MSI, MSI-X and INTx after the guest has set
    the enable bits of both capabilities. *)
Definition sample_both_on : world :=
  after (vfio_pci_cfg_write host_ok 0x52 [0x01] 1)
    (after (vfio_pci_cfg_write host_ok 0x62 [0x00; 0x80] 2)
       (sample_configured host_ok 7)).

(** ** Vectors, descriptors and irqfd bindings *)

(** What ties the vectors to the host: descriptors handed out by the
    kernel are non-negative; KVM holds bindings on open descriptors only;
    a vector's eventfd, once allocated, is open and is no other vector's;
    a host-masked vector has no binding on its eventfd, a host-unmasked
    one has its (gsi, eventfd) binding and no other on that eventfd; the
    two INTx descriptors, while INTx is armed, are open, are no vector's,
    and carry the INTx binding only. *)
Record vec_inv (w : world) : Prop := {
  inv_open_nonneg : forall fd, fd ∈ open_fds w -> 0 <= fd;
  inv_route_open : forall g fd, (g, fd) ∈ irqfds w -> fd ∈ open_fds w;
  inv_vec_open : forall b i e,
    vec w b i = Some e -> 0 <= eventfd e -> eventfd e ∈ open_fds w;
  inv_vec_distinct : forall b i e b' i' e',
    vec w b i = Some e -> vec w b' i' = Some e' ->
    0 <= eventfd e -> eventfd e = eventfd e' -> b = b' /\ i = i';
  inv_vec_masked : forall b i e,
    vec w b i = Some e -> msi_is_masked (e_host_state e) <> 0 ->
    forall g, (g, eventfd e) ∉ irqfds w;
  inv_vec_unmasked : forall b i e,
    vec w b i = Some e -> msi_is_masked (e_host_state e) = 0 ->
    0 <= eventfd e /\ 0 <= gsi e /\ (gsi e, eventfd e) ∈ irqfds w
    /\ forall g, (g, eventfd e) ∈ irqfds w -> g = gsi e;
  inv_intx_open : intx_armed w ->
    intx_fd (pdev w) ∈ open_fds w /\ unmask_fd (pdev w) ∈ open_fds w;
  inv_intx_vec : intx_armed w -> forall b i e,
    vec w b i = Some e ->
    eventfd e <> intx_fd (pdev w) /\ eventfd e <> unmask_fd (pdev w);
  inv_intx_route : intx_armed w ->
    (forall g, (g, intx_fd (pdev w)) ∈ irqfds w -> g = intx_gsi (pdev w))
    /\ forall g, (g, unmask_fd (pdev w)) ∉ irqfds w
}.

(** What [vec_inv] depends on. *)
Definition vec_view (w : world) :=
  (entries (msi (pdev w)), entries (msix (pdev w)), irq_modes (pdev w),
   intx_fd (pdev w), unmask_fd (pdev w), intx_gsi (pdev w), open_fds w, irqfds w).

(** The per-vector statement of C3: host-masked exactly when no irqfd
    binding is installed for the vector's gsi and eventfd. *)
Definition mask_route_law (w : world) : Prop :=
  forall b i e,
    vec w b i = Some e ->
    (msi_is_masked (e_host_state e) <> 0 <-> (gsi e, eventfd e) ∉ irqfds w).

(** A vector as [vfio_pci_init_msis] leaves it. *)
Definition vector_initial (e : vfio_pci_msi_entry) : Prop :=
  gsi e = -1 /\ eventfd e = -1 /\ msi_is_masked (e_host_state e) <> 0.

(** [w'] has the vectors of [w] except that vector [i] of capability [b]
    is [e']. *)
Definition vec_upd (w w' : world) (b : bool) (i : nat) (e' : vfio_pci_msi_entry) : Prop :=
  forall b' i',
    vec w' b' i' = if decide (b' = b /\ i' = i) then Some e' else vec w b' i'.

(** The INTx fields and the modes of [w'] are those of [w]. *)
Definition intx_same (w w' : world) : Prop :=
  (irq_modes (pdev w'), intx_fd (pdev w'), unmask_fd (pdev w'), intx_gsi (pdev w'))
  = (irq_modes (pdev w), intx_fd (pdev w), unmask_fd (pdev w), intx_gsi (pdev w)).

(** ** Interrupt set-up *)

(** Every vector of capability [b] is as [vfio_pci_init_msis] leaves it. *)
Definition vectors_initial (w : world) (b : bool) : Prop :=
  forall i e, vec w b i = Some e -> vector_initial e.

(** What initialising the vectors of capability [b] leaves alone. *)
Definition init_same (b : bool) (w w' : world) : Prop :=
  msis_of (negb b) (pdev w') = msis_of (negb b) (pdev w)
  /\ (hdr (pdev w'), irq_modes (pdev w'), intx_fd (pdev w'), unmask_fd (pdev w'),
      intx_gsi (pdev w'), open_fds w', irqfds w')
     = (hdr (pdev w), irq_modes (pdev w), intx_fd (pdev w), unmask_fd (pdev w),
        intx_gsi (pdev w), open_fds w, irqfds w)
  /\ length (entries (msis_of b (pdev w'))) = length (entries (msis_of b (pdev w)))
  /\ (host_state (msis_of b (pdev w')), guest_state (msis_of b (pdev w')))
     = (host_state (msis_of b (pdev w)), guest_state (msis_of b (pdev w))).

(** ** The bulk request of a capability *)

(** The request [vfio_pci_enable_msis] sends for the whole range: the
    capability's [irq_set] with one slot per vector, holding the vector's
    eventfd once it has a route and -1 otherwise. *)
Definition bulk_request (m : vfio_pci_msi_common) : vfio_irq_set :=
  mk_irq_set (flags (irq_set m)) (index (irq_set m)) (start (irq_set m))
             (count (irq_set m)) (entry_fd <$> entries m).

(** The test that sends [vfio_pci_enable_msis] to the bulk request. *)
Definition wants_bulk (m : vfio_pci_msi_common) : bool :=
  negb (truthy (msi_is_enabled (host_state m)))
  || (negb (truthy (msi_is_masked (guest_state m)))
      && truthy (msi_is_empty (host_state m))).

(** * The vCPU reset of [arm/aarch64/kvm-cpu.c] *)

Module Aarch64.

(** Constants of [asm/ptrace.h] (Linux arm64 UAPI). *)
Definition PSR_MODE_EL0t := 0x0.
Definition PSR_MODE_EL1h := 0x5.
Definition PSR_MODE_MASK := 0xf.
Definition PSR_MODE32_BIT := 0x10.
Definition PSR_F_BIT := 0x40.
Definition PSR_I_BIT := 0x80.
Definition PSR_A_BIT := 0x100.
Definition PSR_D_BIT := 0x200.

(** Constants the source file defines itself. *)
Definition COMPAT_PSR_F_BIT := 0x40.
Definition COMPAT_PSR_I_BIT := 0x80.
Definition COMPAT_PSR_E_BIT := 0x200.
Definition COMPAT_PSR_MODE_SVC := 0x13.
Definition SCTLR_EL1_E0E_MASK := Z.shiftl 1 24.
Definition SCTLR_EL1_EE_MASK := Z.shiftl 1 25.

(** The registers the file names through [ARM64_CORE_REG] and
    [ARM64_SYS_REG]. *)
Inductive reg : Type :=
| REG_PSTATE
| REG_X (n : nat)
| REG_PC
| REG_SCTLR_EL1.

#[global] Instance reg_eq_dec : EqDecision reg.
Proof. solve_decision. Defined.

Inductive endianness : Type := VIRTIO_ENDIAN_LE | VIRTIO_ENDIAN_BE.

Inductive kvm_call : Type :=
| KVM_SET_ONE_REG (r : reg) (v : Z)
| KVM_GET_ONE_REG (r : reg)
| sched_setaffinity.

(** The fields of [struct kvm] the reset reads; [vcpu_affinity_cpuset]
    says whether the pointer is non-null. *)
Record kvm := mk_kvm {
  dtb_guest_start : Z;
  kern_guest_start : Z;
  aarch32_guest : bool;
  vcpu_affinity_cpuset : bool
}.

(** A vCPU: its number, the registers KVM holds for it, and the journal
    of the system calls made on its behalf, newest first. *)
Record kvm_cpu := mk_cpu {
  cpu_id : Z;
  regs : reg -> Z;
  calls : list (kvm_call * Z)
}.

(** A run either returns or ends the process ([die], [die_perror]). *)
Inductive run (A : Type) : Type :=
| Returned (a : A) (c : kvm_cpu)
| Exited.
Arguments Returned {A} a c.
Arguments Exited {A}.

Definition V (A : Type) : Type := kvm_cpu -> run A.
Definition vret {A} (a : A) : V A := fun c => Returned a c.
Definition vbind {A B} (m : V A) (k : A -> V B) : V B :=
  fun c => match m c with
           | Returned a c' => k a c'
           | Exited => Exited
           end.
Definition vdie {A} : V A := fun _ => Exited.

Notation "x <~ m ;; k" := (vbind m (fun x => k))
  (at level 100, m at next level, right associativity).
Notation "m ;;~ k" := (vbind m (fun _ => k))
  (at level 100, right associativity).

Definition set_reg (r : reg) (v : Z) (f : reg -> Z) : reg -> Z :=
  fun r' => if decide (r' = r) then v else f r'.

Section Kernel.

(** The result of the n-th system call. *)
Variable host : nat -> Z.
Variable the_kvm : kvm.

(** [ioctl(vcpu->vcpu_fd, KVM_SET_ONE_REG, &reg)]: the register takes
    the value when the call succeeds. *)
Definition set_one_reg (r : reg) (v : Z) : V Z :=
  fun c =>
    let a := host (length (calls c)) in
    Returned a
      (mk_cpu (cpu_id c)
              (if a <? 0 then regs c else set_reg r v (regs c))
              ((KVM_SET_ONE_REG r v, a) :: calls c)).

(** [ioctl(vcpu->vcpu_fd, KVM_GET_ONE_REG, &reg)]: the result and the
    value read. *)
Definition get_one_reg (r : reg) : V (Z * Z) :=
  fun c =>
    let a := host (length (calls c)) in
    Returned (a, regs c r)
      (mk_cpu (cpu_id c) (regs c) ((KVM_GET_ONE_REG r, a) :: calls c)).

Definition call_setaffinity : V Z :=
  fun c =>
    let a := host (length (calls c)) in
    Returned a (mk_cpu (cpu_id c) (regs c) ((sched_setaffinity, a) :: calls c)).

(** [data = v; reg.id = r; if (ioctl(...) < 0) die_perror(...)] *)
Definition write_or_die (r : reg) (v : Z) : V unit :=
  a <~ set_one_reg r v ;;
  if a <? 0 then vdie else vret tt.

Definition reset_vcpu_aarch32 : V unit :=
  (* pstate = all interrupts masked *)
  write_or_die REG_PSTATE
    (Z.lor (Z.lor COMPAT_PSR_I_BIT COMPAT_PSR_F_BIT) COMPAT_PSR_MODE_SVC) ;;~
  (* Secondary cores are stopped awaiting PSCI wakeup *)
  fun c =>
    if negb (cpu_id c =? 0) then Returned tt c
    else
      (write_or_die (REG_X 0) 0 ;;~
       (* r1 = machine type (-1) *)
       write_or_die (REG_X 1) (u64 (-1)) ;;~
       (* r2 = physical address of the device tree blob *)
       write_or_die (REG_X 2) (dtb_guest_start the_kvm) ;;~
       (* pc = start of kernel image *)
       write_or_die REG_PC (kern_guest_start the_kvm)) c.

Definition reset_vcpu_aarch64 : V unit :=
  (* pstate = all interrupts masked *)
  write_or_die REG_PSTATE
    (Z.lor (Z.lor (Z.lor (Z.lor PSR_D_BIT PSR_A_BIT) PSR_I_BIT) PSR_F_BIT)
           PSR_MODE_EL1h) ;;~
  (* x1...x3 = 0 *)
  write_or_die (REG_X 1) 0 ;;~
  write_or_die (REG_X 2) 0 ;;~
  write_or_die (REG_X 3) 0 ;;~
  (* Secondary cores are stopped awaiting PSCI wakeup *)
  fun c =>
    if cpu_id c =? 0 then
      ((* x0 = physical address of the device tree blob *)
       write_or_die (REG_X 0) (dtb_guest_start the_kvm) ;;~
       (* pc = start of kernel image *)
       write_or_die REG_PC (kern_guest_start the_kvm)) c
    else Returned tt c.

Definition kvm_cpu__reset_vcpu : V unit :=
  (if vcpu_affinity_cpuset the_kvm then
     r <~ call_setaffinity ;;
     if r =? -1 then vdie else vret tt
   else vret tt) ;;~
  if aarch32_guest the_kvm then reset_vcpu_aarch32 else reset_vcpu_aarch64.

Definition kvm_cpu__get_endianness : V endianness :=
  got <~ get_one_reg REG_PSTATE ;;
  let '(a, psr) := got in
  if a <? 0 then vdie
  else if truthy (Z.land psr PSR_MODE32_BIT) then
    vret (if truthy (Z.land psr COMPAT_PSR_E_BIT)
          then VIRTIO_ENDIAN_BE else VIRTIO_ENDIAN_LE)
  else
    got <~ get_one_reg REG_SCTLR_EL1 ;;
    let '(a, sctlr) := got in
    if a <? 0 then vdie
    else
      let sctlr :=
        if Z.land psr PSR_MODE_MASK =? PSR_MODE_EL0t
        then Z.land sctlr SCTLR_EL1_E0E_MASK
        else Z.land sctlr SCTLR_EL1_EE_MASK in
      vret (if truthy sctlr then VIRTIO_ENDIAN_BE else VIRTIO_ENDIAN_LE).

End Kernel.

(** The first [n] system calls after those in [c] succeed. *)
Definition calls_succeed (host : nat -> Z) (c : kvm_cpu) (n : nat) : Prop :=
  forall k, (k < n)%nat -> 0 <= host (k + length (calls c))%nat.

(** The pstate the AArch64 reset writes: D, A, I and F masked, EL1h. *)
Definition reset_pstate : Z := 0x3c5.

(** A sample machine and vCPUs 0 and 1 before their reset. *)
Definition sample_kvm : kvm := mk_kvm 0x4fe00000 0x40080000 false false.
Definition sample_cpu (id : Z) : kvm_cpu := mk_cpu id (fun _ => 0xdead) [].

End Aarch64.

(** * The capability chain of the virtual header *)

(** Modelled from the spec: the header is the 256-byte legacy PCI
    configuration space, so the fields [status], [header_type],
    [capabilities] and [irq_pin] of [struct pci_device_header] lie at
    their standard offsets.  [status] is a 16-bit field; CAP_LIST is bit 4
    of its low byte, the byte at offset 6, and the two statements that
    touch [status] change no other bit. *)
Definition PCI_STATUS := 0x06.
Definition PCI_CAPABILITY_LIST := 0x34.
Definition PCI_HEADER_TYPE := 0x0e.
Definition PCI_INTERRUPT_PIN := 0x3d.
Definition PCI_HEADER_TYPE_NORMAL := 0.
Definition VFIO_PCI_CONFIG_REGION_INDEX := 7.
Definition EIO := 5.
Definition EOPNOTSUPP := 95.

(** A byte of [pdev->hdr], read and written.  The header is taken to be
    the 256 bytes of the legacy configuration space; an access past them
    is a [Fault]. *)
Definition hdr_at (off : Z) : M Z :=
  fun w => match hdr (pdev w) !! Z.to_nat off with
           | Some v => Ok v w
           | None => Fault
           end.
Definition hdr_put (off v : Z) : M unit :=
  fun w => if decide (Z.to_nat off < length (hdr (pdev w)))%nat
           then Ok tt (set_pdev (set_hdr (<[Z.to_nat off := v]> (hdr (pdev w))) (pdev w)) w)
           else Fault.

Definition set_pos (p : Z) (m : vfio_pci_msi_common) : vfio_pci_msi_common :=
  mk_common p (guest_state m) (host_state m) (info_index m) (irq_set m)
            (nr_entries m) (entries m).
Definition set_irq_modes (modes : Z) (p : vfio_pci_device) : vfio_pci_device :=
  mk_pdev (hdr p) modes (intx_fd p) (unmask_fd p) (intx_gsi p) (msi p) (msix p)
          (msix_table p) (msix_pba p).

Definition vfio_pci_msi_cap_size (ctrl : Z) : Z :=
  10 + (if truthy (Z.land ctrl PCI_MSI_FLAGS_64BIT) then 4 else 0)
     + (if truthy (Z.land ctrl PCI_MSI_FLAGS_MASKBIT) then 10 else 0).

(** [cap_hdr] is the capability at [pos] of [pdev->hdr]. *)
Definition vfio_pci_cap_size (pos : Z) : M Z :=
  ty <- hdr_at pos ;;
  if ty =? PCI_CAP_ID_MSIX then ret PCI_CAP_MSIX_SIZEOF
  else if ty =? PCI_CAP_ID_MSI then
    lo <- hdr_at (pos + 2) ;;
    hi <- hdr_at (pos + 3) ;;
    ret (vfio_pci_msi_cap_size (lo + 256 * hi))
  else if ty =? PCI_CAP_ID_EXP then
    (* We don't emulate any of the link, slot and root complex
       properties, so ignore them. *)
    ret PCI_CAP_EXP_RC_ENDPOINT_SIZEOF_V1
  else pr_err ;;; ret 0.

(** [while (last->next) last = PCI_CAP(virt_hdr, last->next)]: [None]
    when [fuel] rounds do not reach the end of the list. *)
Fixpoint last_cap (fuel : nat) (virt_hdr : list Z) (last : Z) : M (option Z) :=
  match fuel with
  | O => ret None
  | S k =>
      match virt_hdr !! Z.to_nat (last + 1) with
      | None => fault
      | Some next =>
          if next =? 0 then ret (Some last) else last_cap k virt_hdr next
      end
  end.

(** The function returns 0 on every path; the result here is the
    buffer [virt_hdr] after the call, or [None] when the walk to the end
    of the list ran out of [fuel]. *)
Definition vfio_pci_add_cap (fuel : nat) (virt_hdr : list Z) (pos : Z)
    : M (option (list Z)) :=
  hdr_put (pos + 1) 0 ;;;
  caps <- hdr_at PCI_CAPABILITY_LIST ;;
  linked <- (if caps =? 0 then
               hdr_put PCI_CAPABILITY_LIST (u8 pos) ;;;
               st <- hdr_at PCI_STATUS ;;
               hdr_put PCI_STATUS (Z.lor st PCI_STATUS_CAP_LIST) ;;;
               ret (Some virt_hdr)
             else
               l <- last_cap fuel virt_hdr caps ;;
               match l with
               | None => ret None
               | Some last =>
                   if decide (Z.to_nat (last + 1) < length virt_hdr)%nat
                   then ret (Some (<[Z.to_nat (last + 1) := u8 pos]> virt_hdr))
                   else fault
               end) ;;
  match linked with
  | None => ret None
  | Some virt_hdr =>
      sz <- vfio_pci_cap_size pos ;;
      p <- get_pdev ;;
      if (pos + sz <=? Z.of_nat (length virt_hdr))
         && (pos + sz <=? Z.of_nat (length (hdr p)))
      then ret (Some (memcpy_at virt_hdr (Z.to_nat pos)
                        (bytes_at (hdr p) (Z.to_nat pos) (Z.to_nat sz))))
      else fault
  end.

Section Caps.

(** [arch_has_pci_exp()] *)
Variable arch_has_pci_exp : bool.

(** The loop [for (; pos; pos = next)] of [vfio_pci_parse_caps]. *)
Fixpoint parse_loop (fuel fuel' : nat) (pos : Z) (virt_hdr : list Z)
    : M (option (list Z)) :=
  match fuel with
  | O => ret None
  | S k =>
      if pos =? 0 then ret (Some virt_hdr)
      else
        ty <- hdr_at pos ;;
        next <- hdr_at (pos + 1) ;;
        if ty =? PCI_CAP_ID_MSIX then
          r <- vfio_pci_add_cap fuel' virt_hdr pos ;;
          match r with
          | None => ret None
          | Some virt_hdr =>
              modify_msis true (set_pos pos) ;;;
              modify_pdev (fun p =>
                set_irq_modes (Z.lor (irq_modes p) VFIO_PCI_IRQ_MODE_MSIX) p) ;;;
              parse_loop k fuel' next virt_hdr
          end
        else if ty =? PCI_CAP_ID_MSI then
          r <- vfio_pci_add_cap fuel' virt_hdr pos ;;
          match r with
          | None => ret None
          | Some virt_hdr =>
              modify_msis false (set_pos pos) ;;;
              modify_pdev (fun p =>
                set_irq_modes (Z.lor (irq_modes p) VFIO_PCI_IRQ_MODE_MSI) p) ;;;
              parse_loop k fuel' next virt_hdr
          end
        else if ty =? PCI_CAP_ID_EXP then
          if negb arch_has_pci_exp then parse_loop k fuel' next virt_hdr
          else
            r <- vfio_pci_add_cap fuel' virt_hdr pos ;;
            match r with
            | None => ret None
            | Some virt_hdr => parse_loop k fuel' next virt_hdr
            end
        else parse_loop k fuel' next virt_hdr
  end.

(** [None] when a loop ran out of fuel. *)
Definition vfio_pci_parse_caps (fuel : nat) : M (option Z) :=
  st <- hdr_at PCI_STATUS ;;
  if negb (truthy (Z.land st PCI_STATUS_CAP_LIST)) then ret (Some 0)
  else
    let virt_hdr := replicate (Z.to_nat PCI_DEV_CFG_SIZE_LEGACY) 0 in
    caps <- hdr_at PCI_CAPABILITY_LIST ;;
    let pos := Z.land caps (Z.lnot 3) in
    hdr_put PCI_STATUS (Z.land st (Z.lnot PCI_STATUS_CAP_LIST)) ;;;
    hdr_put PCI_CAPABILITY_LIST 0 ;;;
    r <- parse_loop fuel fuel pos virt_hdr ;;
    match r with
    | None => ret None
    | Some virt_hdr =>
        (* Wipe remaining capabilities *)
        p <- get_pdev ;;
        let pos := Z.to_nat PCI_STD_HEADER_SIZEOF in
        let size := Z.to_nat (PCI_DEV_CFG_SIZE_LEGACY - PCI_STD_HEADER_SIZEOF) in
        if decide (pos + size <= length (hdr p))%nat then
          modify_pdev (set_hdr (memcpy_at (hdr p) pos (bytes_at virt_hdr pos size))) ;;;
          ret (Some 0)
        else fault
    end.

(** The host, and what the device answers at bring-up: the number of
    regions, the [size] field of [info] once the
    VFIO_DEVICE_GET_REGION_INFO ioctl is done (the function looks at this
    field, never at the result of the ioctl), and the contents of
    [pdev->hdr] once the 256-byte [pread] of the configuration space is
    done.  The results of the two requests are the host's. *)
Variable host : nat -> Z.
Variable num_regions : Z.
Variable config_size : Z.
Variable config_bytes : list Z.

(** [ioctl(vdev->fd, VFIO_DEVICE_GET_REGION_INFO, info)] *)
Definition ioctl_GET_REGION_INFO (idx : Z) : M Z :=
  r <- answer host ;; modify (push_log (GET_REGION_INFO idx) r) ;;; ret r.

(** Modelled from the spec: the region array of the device context, which
    the VFIO core (outside these sources) allocates, has one slot per
    region the device reports, [num_regions] of them, as the checks of
    lines 524, 576 and 1075 of [pci.c] also take it; [vdev->regions[idx]]
    is inside the array when [idx] is below [num_regions] only. *)
Definition region_slot (idx : Z) : bool := (0 <=? idx) && (idx <? num_regions).

Definition vfio_pci_parse_cfg_space (fuel : nat) : M (option Z) :=
  let sz := PCI_DEV_CFG_SIZE_LEGACY in
  if num_regions <? VFIO_PCI_CONFIG_REGION_INDEX then pr_err ;;; ret (Some (- ENODEV))
  else if negb (region_slot VFIO_PCI_CONFIG_REGION_INDEX) then fault
  else
    ioctl_GET_REGION_INFO VFIO_PCI_CONFIG_REGION_INDEX ;;;
    if negb (truthy config_size) then pr_err ;;; ret (Some (- EINVAL))
    else
      (* Read standard headers and capabilities *)
      n <- pread_cfg host 0 sz ;;
      modify_pdev (set_hdr config_bytes) ;;;
      if negb (n =? sz) then pr_err ;;; ret (Some (- EIO))
      else
        (* Strip bit 7, that indicates multifunction *)
        ht <- hdr_at PCI_HEADER_TYPE ;;
        hdr_put PCI_HEADER_TYPE (Z.land ht 0x7f) ;;;
        if negb (Z.land ht 0x7f =? PCI_HEADER_TYPE_NORMAL) then
          pr_err ;;; ret (Some (- EOPNOTSUPP))
        else
          pin <- hdr_at PCI_INTERRUPT_PIN ;;
          (if truthy pin then
             modify_pdev (fun p =>
               set_irq_modes (Z.lor (irq_modes p) VFIO_PCI_IRQ_MODE_INTX) p)
           else ret tt) ;;;
          r <- vfio_pci_parse_caps fuel ;;
          match r with
          | None => ret None
          | Some _ => ret (Some 0)
          end.

End Caps.

(** The CAP_LIST bit of [status] and a non-zero [capabilities] pointer go
    together. *)
Definition cap_list_consistent (h : list Z) : Prop :=
  exists st caps,
    h !! Z.to_nat PCI_STATUS = Some st
    /\ h !! Z.to_nat PCI_CAPABILITY_LIST = Some caps
    /\ (Z.land st PCI_STATUS_CAP_LIST <> 0 <-> caps <> 0).

(** The types [vfio_pci_parse_caps] keeps. *)
Definition kept_type (ty : Z) : bool :=
  (ty =? PCI_CAP_ID_MSIX) || (ty =? PCI_CAP_ID_MSI) || (ty =? PCI_CAP_ID_EXP).

(** ** The sample device driven the way a Linux guest drives MSI-X *)

(** MSI-X enabled with all vectors masked (control word 0xC000), on the
    sample device with INTx and MSI-X. *)
Definition sample_masked : world :=
  after (vfio_pci_cfg_write host_ok 0x62 [0x00; 0xC0] 2) (sample_configured host_ok 5).

(** Then vector 0 programmed: address 0xFEE00000, data 0x41, unmasked. *)
Definition sample_vector0 : world :=
  after (vfio_pci_msix_table_access host_ok 0x1000c [0; 0; 0; 0] 4 true)
    (after (vfio_pci_msix_table_access host_ok 0x10008 [0x41; 0; 0; 0] 4 true)
       (after (vfio_pci_msix_table_access host_ok 0x10000
                 [0; 0; 0xE0; 0xFE; 0; 0; 0; 0] 8 true)
          sample_masked)).

(** The sample device with MSI-X enabled and masked, after
    [vfio_pci_update_msi_entry] on its first vector. *)
Definition sample_updated : world :=
  after (vfio_pci_update_msi_entry host_ok true 0) sample_masked.

(** The sample device with INTx, MSI and MSI-X before interrupt set-up. *)
Definition sample_boot_all : world := sample_boot 7.

(** The sample device after the guest set the MSI-X enable bit in
    [guest_state], on a host that accepts every request, and what
    [vfio_pci_enable_msis] makes of it. *)
Definition sample_enabled : world :=
  after (vfio_pci_enable_msis host_ok true) (sample_enabling host_ok 5).

(** The unmasking write of the last step of the guest's sequence. *)
Definition sample_unmasked : world :=
  after (vfio_pci_cfg_write host_ok 0x62 [0x00; 0x80] 2) sample_vector0.

(** The accesses that lead the sample device there: MSI-X enabled with
    every vector masked, vector 0 programmed and unmasked in the table,
    then the function mask lifted. *)
Definition sample_accesses : list guest_access :=
  [CfgWrite 0x62 [0x00; 0xC0] 2;
   TableAccess 0x10000 [0; 0; 0xE0; 0xFE; 0; 0; 0; 0] 8 true;
   TableAccess 0x10008 [0x41; 0; 0; 0] 4 true;
   TableAccess 0x1000c [0; 0; 0; 0] 4 true;
   CfgWrite 0x62 [0x00; 0x80] 2].

(** The sample device with MSI-X enabled and masked after the write
    that unmasks its first vector in the table. *)
Definition sample_ctrl_written : world :=
  after (vfio_pci_msix_table_access host_ok 0x1000c [0; 0; 0; 0] 4 true) sample_masked.

(** The number of KVM_SET_ONE_REG calls of each reset: the boot CPU gets
    its entry registers as well. *)
Definition reset_calls (aarch32 : bool) (c : Aarch64.kvm_cpu) : nat :=
  if Aarch64.cpu_id c =? 0 then (if aarch32 then 5 else 6)%nat
  else (if aarch32 then 1 else 4)%nat.

(** The registers each reset leaves on a host that stores what
    KVM_SET_ONE_REG passes. *)
Definition regs_after_reset64 (k : Aarch64.kvm) (c : Aarch64.kvm_cpu)
    (r : Aarch64.reg) : Z :=
  match r with
  | Aarch64.REG_PSTATE => Aarch64.reset_pstate
  | Aarch64.REG_X 1 | Aarch64.REG_X 2 | Aarch64.REG_X 3 => 0
  | Aarch64.REG_X 0 =>
      if Aarch64.cpu_id c =? 0 then Aarch64.dtb_guest_start k else Aarch64.regs c r
  | Aarch64.REG_PC =>
      if Aarch64.cpu_id c =? 0 then Aarch64.kern_guest_start k else Aarch64.regs c r
  | _ => Aarch64.regs c r
  end.

Definition regs_after_reset32 (k : Aarch64.kvm) (c : Aarch64.kvm_cpu)
    (r : Aarch64.reg) : Z :=
  match r with
  | Aarch64.REG_PSTATE => 0xd3
  | Aarch64.REG_X 0 => if Aarch64.cpu_id c =? 0 then 0 else Aarch64.regs c r
  | Aarch64.REG_X 1 => if Aarch64.cpu_id c =? 0 then 2 ^ 64 - 1 else Aarch64.regs c r
  | Aarch64.REG_X 2 =>
      if Aarch64.cpu_id c =? 0 then Aarch64.dtb_guest_start k else Aarch64.regs c r
  | Aarch64.REG_PC =>
      if Aarch64.cpu_id c =? 0 then Aarch64.kern_guest_start k else Aarch64.regs c r
  | _ => Aarch64.regs c r
  end.

(** The calls each reset makes, newest first. *)
Definition calls_of_reset64 (k : Aarch64.kvm) (c : Aarch64.kvm_cpu)
    : list Aarch64.kvm_call :=
  (if Aarch64.cpu_id c =? 0
   then [Aarch64.KVM_SET_ONE_REG Aarch64.REG_PC (Aarch64.kern_guest_start k);
         Aarch64.KVM_SET_ONE_REG (Aarch64.REG_X 0) (Aarch64.dtb_guest_start k)]
   else [])
  ++ [Aarch64.KVM_SET_ONE_REG (Aarch64.REG_X 3) 0;
      Aarch64.KVM_SET_ONE_REG (Aarch64.REG_X 2) 0;
      Aarch64.KVM_SET_ONE_REG (Aarch64.REG_X 1) 0;
      Aarch64.KVM_SET_ONE_REG Aarch64.REG_PSTATE Aarch64.reset_pstate].

Definition calls_of_reset32 (k : Aarch64.kvm) (c : Aarch64.kvm_cpu)
    : list Aarch64.kvm_call :=
  (if Aarch64.cpu_id c =? 0
   then [Aarch64.KVM_SET_ONE_REG Aarch64.REG_PC (Aarch64.kern_guest_start k);
         Aarch64.KVM_SET_ONE_REG (Aarch64.REG_X 2) (Aarch64.dtb_guest_start k);
         Aarch64.KVM_SET_ONE_REG (Aarch64.REG_X 1) (2 ^ 64 - 1);
         Aarch64.KVM_SET_ONE_REG (Aarch64.REG_X 0) 0]
   else [])
  ++ [Aarch64.KVM_SET_ONE_REG Aarch64.REG_PSTATE 0xd3].

(** A sample machine with a 32-bit guest. *)
Definition sample_kvm32 : Aarch64.kvm := Aarch64.mk_kvm 0x4fe00000 0x40080000 true false.

(** The endianness [kvm_cpu__get_endianness] reports for a vCPU that was
    just reset: a 32-bit guest starts little-endian, a 64-bit guest with
    the endianness SCTLR_EL1.EE selects for EL1. *)
Definition endianness_at_reset (k : Aarch64.kvm) (c : Aarch64.kvm_cpu)
    : Aarch64.endianness :=
  if Aarch64.aarch32_guest k then Aarch64.VIRTIO_ENDIAN_LE
  else if Z.testbit (Aarch64.regs c Aarch64.REG_SCTLR_EL1) 25
       then Aarch64.VIRTIO_ENDIAN_BE else Aarch64.VIRTIO_ENDIAN_LE.

(** A vCPU of a big-endian 64-bit guest before its reset: SCTLR_EL1.EE
    is set. *)
Definition sample_cpu_be : Aarch64.kvm_cpu :=
  Aarch64.mk_cpu 0
    (fun r => match r with Aarch64.REG_SCTLR_EL1 => 0x2000000 | _ => 0 end) [].

Definition sample_cpu_be_reset : Aarch64.kvm_cpu :=
  match Aarch64.kvm_cpu__reset_vcpu host_ok Aarch64.sample_kvm sample_cpu_be with
  | Aarch64.Returned _ c' => c'
  | Aarch64.Exited => sample_cpu_be
  end.

(** ** The capability list of a header *)

Definition byte_at (h : list Z) (off : Z) : Z := default 0 (h !! Z.to_nat off).

(** The offsets visited from [pos] by following the [next] bytes until
    the null offset; [None] when [fuel] nodes do not reach it or a node
    lies outside the buffer. *)
Fixpoint cap_chain (fuel : nat) (h : list Z) (pos : Z) : option (list Z) :=
  match fuel with
  | O => None
  | S k =>
      if pos =? 0 then Some []
      else match h !! Z.to_nat (pos + 1) with
           | None => None
           | Some next => cons pos <$> cap_chain k h next
           end
  end.

(** The capabilities the parse keeps on this architecture. *)
Definition cap_kept (exp : bool) (h : list Z) (p : Z) : bool :=
  (byte_at h p =? PCI_CAP_ID_MSIX) || (byte_at h p =? PCI_CAP_ID_MSI)
  || ((byte_at h p =? PCI_CAP_ID_EXP) && exp).
Definition kept_caps (exp : bool) (h : list Z) (ps : list Z) : list Z :=
  filter (fun p => cap_kept exp h p = true) ps.

(** The bytes [vfio_pci_cap_size] counts for the capability at [p]; a
    capability of another type takes the two bytes of its header. *)
Definition cap_len (h : list Z) (p : Z) : Z :=
  if byte_at h p =? PCI_CAP_ID_MSIX then PCI_CAP_MSIX_SIZEOF
  else if byte_at h p =? PCI_CAP_ID_MSI
       then vfio_pci_msi_cap_size (byte_at h (p + 2) + 256 * byte_at h (p + 3))
  else if byte_at h p =? PCI_CAP_ID_EXP then PCI_CAP_EXP_RC_ENDPOINT_SIZEOF_V1
  else 2.

(** A capability that lies between the standard header and the end of
    the configuration space, and two capabilities that do not overlap. *)
Definition cap_fits (h0 : list Z) (p : Z) : Prop :=
  PCI_STD_HEADER_SIZEOF <= p /\ p + cap_len h0 p <= PCI_DEV_CFG_SIZE_LEGACY.
Definition cap_apart (h0 : list Z) (p q : Z) : Prop :=
  p + cap_len h0 p <= q \/ q + cap_len h0 q <= p.

(** No two capabilities of the list overlap. *)
Fixpoint caps_apart (h : list Z) (ps : list Z) : Prop :=
  match ps with
  | [] => True
  | p :: rest => Forall (cap_apart h p) rest /\ caps_apart h rest
  end.

(** A header the device may present: 256 bytes, CAP_LIST set, and a
    capability list [ps] that starts at [capabilities & ~3], ends, and
    whose capabilities lie apart from one another between the standard
    header and the end of the configuration space. *)
Definition chain_ok (h : list Z) (ps : list Z) : Prop :=
  length h = Z.to_nat PCI_DEV_CFG_SIZE_LEGACY
  /\ truthy (Z.land (byte_at h PCI_STATUS) PCI_STATUS_CAP_LIST) = true
  /\ cap_chain (S (length ps)) h (Z.land (byte_at h PCI_CAPABILITY_LIST) (Z.lnot 3))
     = Some ps
  /\ Forall (cap_fits h) ps
  /\ caps_apart h ps.

(** [ps] is the list that starts at [pos] in [h]. *)
Fixpoint is_chain (h : list Z) (pos : Z) (ps : list Z) : Prop :=
  match ps with
  | [] => pos = 0
  | p :: rest =>
      pos = p /\ p <> 0
      /\ exists next, h !! Z.to_nat (p + 1) = Some next /\ is_chain h next rest
  end.

(** In [v] every capability of [ks] points to the one after it and the
    last one to nothing. *)
Fixpoint links (v : list Z) (ks : list Z) : Prop :=
  match ks with
  | [] => True
  | p :: rest => v !! Z.to_nat (p + 1) = Some (hd 0 rest) /\ links v rest
  end.

(** The offset [i] lies in one of the capabilities [ks] of [h]. *)
Definition in_caps (h : list Z) (ks : list Z) (i : Z) : Prop :=
  exists p, p ∈ ks /\ p <= i < p + cap_len h p.

(** The interrupt modes the capabilities [ps] of [h] add. *)
Definition modes_of_caps (h : list Z) (ps : list Z) : Z :=
  Z.lor (if existsb (fun p => byte_at h p =? PCI_CAP_ID_MSI) ps
         then VFIO_PCI_IRQ_MODE_MSI else 0)
        (if existsb (fun p => byte_at h p =? PCI_CAP_ID_MSIX) ps
         then VFIO_PCI_IRQ_MODE_MSIX else 0).

(** A header with four capabilities: power management at 0x40, MSI
    (64-bit, no mask bits) at 0x50, a vendor capability at 0x70 and MSI-X
    at 0x60, linked in this order. *)
Definition sample_device_hdr : list Z :=
  <[Z.to_nat PCI_STATUS := 0x10]>
    (<[Z.to_nat PCI_CAPABILITY_LIST := 0x40]>
       (memcpy_at
          (memcpy_at
             (memcpy_at
                (memcpy_at (replicate 256 0) 0x40 [0x01; 0x50; 0x03; 0x00])
                0x50 [0x05; 0x70; 0x80; 0x00; 0xAA; 0xBB])
             0x70 [0x09; 0x60; 0x08; 0x77])
          0x60 [0x11; 0x00; 0x02; 0x00; 0; 0; 0; 0; 0; 0x08; 0; 0])).

Definition sample_unparsed : world :=
  mk_world
    (mk_pdev sample_device_hdr VFIO_PCI_IRQ_MODE_INTX 0 0 0 (blank_common 0)
             (blank_common 0) (mk_table 0 0 0) (mk_pba 0 0 0))
    1 [0; 1; 2] [] 0 [] [].

(** What holds between the iterations of the loop of
    [vfio_pci_parse_caps], for the header [h0] it started from, the
    capabilities [ks] added so far and the scratch buffer [v]: the header
    has lost nothing but the [next] bytes of [ks], its [capabilities] and
    CAP_LIST say whether [ks] is empty, and [v] holds the capabilities
    [ks], linked in order, and zeroes elsewhere. *)
Record parse_inv (h0 : list Z) (ks : list Z) (v : list Z) (h : list Z) : Prop := {
  pi_len_h : length h = Z.to_nat PCI_DEV_CFG_SIZE_LEGACY;
  pi_len_v : length v = Z.to_nat PCI_DEV_CFG_SIZE_LEGACY;
  pi_hi : forall i,
    PCI_STD_HEADER_SIZEOF <= i < PCI_DEV_CFG_SIZE_LEGACY ->
    (forall p, p ∈ ks -> i <> p + 1) ->
    h !! Z.to_nat i = h0 !! Z.to_nat i;
  pi_lo : forall i,
    0 <= i < PCI_STD_HEADER_SIZEOF -> i <> PCI_STATUS -> i <> PCI_CAPABILITY_LIST ->
    h !! Z.to_nat i = h0 !! Z.to_nat i;
  pi_caps : h !! Z.to_nat PCI_CAPABILITY_LIST = Some (hd 0 ks);
  pi_status :
    h !! Z.to_nat PCI_STATUS
    = Some (let st := Z.land (byte_at h0 PCI_STATUS) (Z.lnot PCI_STATUS_CAP_LIST) in
            match ks with [] => st | _ => Z.lor st PCI_STATUS_CAP_LIST end);
  pi_zero : forall i,
    0 <= i < PCI_DEV_CFG_SIZE_LEGACY -> ~ in_caps h0 ks i -> v !! Z.to_nat i = Some 0;
  pi_copy : forall p i,
    p ∈ ks -> p <= i < p + cap_len h0 p -> i <> p + 1 ->
    v !! Z.to_nat i = h0 !! Z.to_nat i;
  pi_links : links v ks
}.

(** What the parse leaves alone: everything but the header, the modes
    and the two capability offsets. *)
Definition parse_frame (w w' : world) : Prop :=
  (intx_fd (pdev w'), unmask_fd (pdev w'), intx_gsi (pdev w'), msix_table (pdev w'),
   msix_pba (pdev w'), dev_num w', open_fds w', irqfds w', errno w', log w', diag w')
  = (intx_fd (pdev w), unmask_fd (pdev w), intx_gsi (pdev w), msix_table (pdev w),
     msix_pba (pdev w), dev_num w, open_fds w, irqfds w, errno w, log w, diag w)
  /\ forall b,
      set_pos 0 (msis_of b (pdev w')) = set_pos 0 (msis_of b (pdev w)).

(** The offset the parse records for MSI ([false]) or MSI-X ([true]):
    that of the last such capability of the list. *)
Definition cap_id_of (is_msix : bool) : Z :=
  if is_msix then PCI_CAP_ID_MSIX else PCI_CAP_ID_MSI.
Definition recorded_pos (h : list Z) (ps : list Z) (is_msix : bool) (old : Z) : Z :=
  default old (last (filter (fun p => byte_at h p = cap_id_of is_msix) ps)).

(** What the loop of [vfio_pci_parse_caps] has recorded in the device
    [w] after the capabilities [ks] of the header [h0] of [w0]: their
    modes and, for MSI and MSI-X, the offset of the last one. *)
Definition parse_recorded (h0 : list Z) (w0 : world) (ks : list Z) (w : world) : Prop :=
  irq_modes (pdev w) = Z.lor (irq_modes (pdev w0)) (modes_of_caps h0 ks)
  /\ forall b, pos (msis_of b (pdev w))
               = recorded_pos h0 ks b (pos (msis_of b (pdev w0))).

(** The capability list of [sample_device_hdr], and the device after the
    parse on an architecture with PCI Express emulation. *)
Definition sample_caps : list Z := [0x40; 0x50; 0x70; 0x60].
Definition sample_parsed : world :=
  after (vfio_pci_parse_caps true 5) sample_unparsed.

(** A header whose only capability, of a vendor-specific type at 0x40,
    names itself as the next one. *)
Definition sample_looping_hdr : list Z :=
  <[Z.to_nat PCI_STATUS := 0x10]>
    (<[Z.to_nat PCI_CAPABILITY_LIST := 0x40]>
       (memcpy_at (replicate 256 0) 0x40 [0x09; 0x40; 0x08; 0x00])).

Definition sample_looping : world :=
  mk_world
    (mk_pdev sample_looping_hdr 0 0 0 0 (blank_common 0) (blank_common 0)
             (mk_table 0 0 0) (mk_pba 0 0 0))
    1 [0; 1; 2] [] 0 [] [].

(** The MSI-X table as the guest reads it: where it lies and the
    [config] bytes of every vector. *)
Definition table_view (w : world) : vfio_pci_msix_table * list (list Z) :=
  (msix_table (pdev w), config <$> entries (msix (pdev w))).

(** The sample device with MSI-X enabled and masked after the guest
    wrote the address of its second vector. *)
Definition sample_addr_written : world :=
  after (vfio_pci_msix_table_access host_ok 0x10010
           [0x00; 0x10; 0xE0; 0xFE; 0x01; 0x00; 0x00; 0x00] 8 true) sample_masked.

(** The first function of a multifunction device: bit 7 of
    [header_type] is set, INTA# is wired, and the capabilities are those
    of [sample_device_hdr]. *)
Definition sample_config_bytes : list Z :=
  <[Z.to_nat PCI_INTERRUPT_PIN := 1]>
    (<[Z.to_nat PCI_HEADER_TYPE := 0x80]> sample_device_hdr).

(** * Proofs *)

Lemma wp_ret {A} (a : A) Q w : Q a w -> wp (ret a) Q w.
Proof. exact id. Qed.

Lemma wp_bind {A B} (c : M A) (k : A -> M B) Q w :
  wp c (fun a => wp (k a) Q) w -> wp (bind c k) Q w.
Proof. unfold wp, bind. destruct (c w); auto. Qed.

Lemma wp_mono {A} (c : M A) (Q Q' : A -> world -> Prop) w :
  wp c Q w -> (forall a w', Q a w' -> Q' a w') -> wp c Q' w.
Proof. unfold wp. destruct (c w); auto. Qed.

Lemma wp_elim {A} (c : M A) Q w a w' : wp c Q w -> c w = Ok a w' -> Q a w'.
Proof. unfold wp. intros H E. rewrite E in H. exact H. Qed.

Lemma wp_intro {A} (c : M A) (Q : A -> world -> Prop) w :
  (forall a w', c w = Ok a w' -> Q a w') -> wp c Q w.
Proof. unfold wp. destruct (c w); auto. Qed.

Lemma wp_or_continue (c : M (option Z)) (k : M Z) Q w :
  wp c (fun o w' => match o with Some v => Q v w' | None => wp k Q w' end) w ->
  wp (c ;;? k) Q w.
Proof.
  intros H. unfold or_continue. apply wp_bind.
  eapply wp_mono; [exact H|]. intros [v|] w' Hv; [apply wp_ret|]; exact Hv.
Qed.

(** ** MSI-X table accesses *)

Lemma u32_small z : 0 <= z < 2 ^ 32 -> u32 z = z.
Proof. intros H. unfold u32, wrap. apply Z.mod_small. exact H. Qed.

Lemma table_access_rejects host w addr data len is_write :
  bad_table_access (pdev w) addr len ->
  vfio_pci_msix_table_access host addr data len is_write w
  = Ok data (push_diag
               (if u64 (addr - guest_phys_addr (msix_table (pdev w)))
                   >=? size (msix_table (pdev w))
                then LOG_ERROR else LOG_WARNING) w).
Proof.
  intros Hbad. unfold vfio_pci_msix_table_access, bind, get_pdev.
  destruct (u64 (addr - guest_phys_addr (msix_table (pdev w)))
            >=? size (msix_table (pdev w))) eqn:Hoff.
  - reflexivity.
  - assert (Hchk : (negb (len =? 4) && negb (len =? 8))
                   || truthy (Z.land addr (u32 (len - 1))) = true).
    { destruct Hbad as [[H4 H8]|[Hal|Hsz]].
      - apply Z.eqb_neq in H4, H8. rewrite H4, H8. reflexivity.
      - destruct (Z.eqb_spec len 4) as [->|N4].
        + simpl. unfold truthy. apply negb_true_iff, Z.eqb_neq. exact Hal.
        + destruct (Z.eqb_spec len 8) as [->|N8]; [|reflexivity].
          simpl. unfold truthy. apply negb_true_iff, Z.eqb_neq. exact Hal.
      - rewrite Z.geb_leb in Hoff. apply Z.leb_gt in Hoff. lia. }
    rewrite Hchk. reflexivity.
Qed.

Lemma table_read_ignores_diag host lvl w addr len :
  read_back host (push_diag lvl w) addr len = read_back host w addr len.
Proof.
  unfold read_back, vfio_pci_msix_table_access, bind, get_pdev.
  change (pdev (push_diag lvl w)) with (pdev w).
  destruct (u64 _ >=? _); [reflexivity|].
  destruct (_ || _); [reflexivity|].
  unfold entry_at.
  change (pdev (push_diag lvl w)) with (pdev w).
  destruct (_ !! _); [|reflexivity].
  destruct (_ >? _); reflexivity.
Qed.

(** C5, amended. An access to the MSI-X table whose length is neither 4
    nor 8, whose address is not aligned to its length, or whose offset is
    at or beyond [table.size] returns with exactly one diagnostic printed
    and nothing else changed: the device, the descriptor table, the irqfd
    bindings and the journal of host requests are those of before, and a
    later read of any entry gives what it gave before.  The diagnostic is
    an error when the offset is at or beyond [table.size], which the
    handler tests first, and a warning in the other cases. *)
Theorem msix_table_bad_access_ignored host w addr data len is_write :
  bad_table_access (pdev w) addr len ->
  exists w',
    vfio_pci_msix_table_access host addr data len is_write w = Ok data w'
    /\ pdev w' = pdev w /\ log w' = log w
    /\ open_fds w' = open_fds w /\ irqfds w' = irqfds w
    /\ (size (msix_table (pdev w))
        <= u64 (addr - guest_phys_addr (msix_table (pdev w))) ->
        diag w' = LOG_ERROR :: diag w)
    /\ (u64 (addr - guest_phys_addr (msix_table (pdev w)))
        < size (msix_table (pdev w)) ->
        diag w' = LOG_WARNING :: diag w)
    /\ forall addr' len', read_back host w' addr' len' = read_back host w addr' len'.
Proof.
  intros Hbad.
  pose proof (table_access_rejects host w addr data len is_write Hbad) as E.
  eexists. split; [exact E|].
  repeat split; try reflexivity.
  - intros Hsz. apply Z.geb_le in Hsz. rewrite Hsz. reflexivity.
  - intros Hsz. destruct (_ >=? _) eqn:Hoff; [|reflexivity].
    rewrite Z.geb_leb in Hoff. apply Z.leb_le in Hoff. lia.
  - intros. apply table_read_ignores_diag.
Qed.

(** A two-byte write at offset 0 of the table of the sample device. *)
Lemma msix_table_bad_access_ignored_witness :
  bad_table_access (pdev (sample_configured host_ok 5)) 0x10000 2
  /\ exists w',
      vfio_pci_msix_table_access host_ok 0x10000 [0xAA; 0xBB] 2 true
        (sample_configured host_ok 5) = Ok [0xAA; 0xBB] w'
      /\ pdev w' = pdev (sample_configured host_ok 5)
      /\ log w' = log (sample_configured host_ok 5)
      /\ open_fds w' = open_fds (sample_configured host_ok 5)
      /\ irqfds w' = irqfds (sample_configured host_ok 5)
      /\ (size (msix_table (pdev (sample_configured host_ok 5)))
          <= u64 (0x10000 - guest_phys_addr
                              (msix_table (pdev (sample_configured host_ok 5)))) ->
          diag w' = LOG_ERROR :: diag (sample_configured host_ok 5))
      /\ (u64 (0x10000 - guest_phys_addr
                           (msix_table (pdev (sample_configured host_ok 5))))
          < size (msix_table (pdev (sample_configured host_ok 5))) ->
          diag w' = LOG_WARNING :: diag (sample_configured host_ok 5))
      /\ forall addr' len',
          read_back host_ok w' addr' len'
          = read_back host_ok (sample_configured host_ok 5) addr' len'.
Proof.
  assert (H : bad_table_access (pdev (sample_configured host_ok 5)) 0x10000 2).
  { left. split; discriminate. }
  split; [exact H|].
  exact (msix_table_bad_access_ignored host_ok (sample_configured host_ok 5)
           0x10000 [0xAA; 0xBB] 2 true H).
Defined.

(** C5 as worded fails: a four-byte read at the first offset past the
    table of the sample device is turned away with an error message, not
    a warning. *)
Lemma bad_access_beyond_table_is_an_error : ~ bad_access_warned_as_stated.
Proof.
  intros H.
  assert (Hbad : bad_table_access (pdev (sample_configured host_ok 5)) 0x10030 4).
  { right. right. vm_compute. discriminate. }
  assert (Hrun : vfio_pci_msix_table_access host_ok 0x10030 [0; 0; 0; 0] 4 false
                   (sample_configured host_ok 5)
                 = Ok [0; 0; 0; 0] (push_diag LOG_ERROR (sample_configured host_ok 5))).
  { vm_compute. reflexivity. }
  specialize (H _ _ _ _ _ _ _ _ Hbad Hrun). discriminate H.
Qed.

Lemma ALIGN_entries n : ALIGN (n * PCI_MSIX_ENTRY_SIZE) 8 = 16 * n.
Proof.
  unfold ALIGN, PCI_MSIX_ENTRY_SIZE.
  replace (n * 16 + 8 - 1) with (7 + (2 * n) * 8) by lia.
  rewrite Z.div_add by lia. change (7 / 8) with 0. lia.
Qed.

Lemma wp_get Q w : Q w w -> wp get Q w.
Proof. exact id. Qed.
Lemma wp_modify f (Q : unit -> world -> Prop) w : Q tt (f w) -> wp (modify f) Q w.
Proof. exact id. Qed.
Lemma wp_get_pdev Q w : Q (pdev w) w -> wp get_pdev Q w.
Proof. exact id. Qed.
Lemma wp_modify_pdev f (Q : unit -> world -> Prop) w :
  Q tt (set_pdev (f (pdev w)) w) -> wp (modify_pdev f) Q w.
Proof. exact id. Qed.
Lemma wp_get_msis b Q w : Q (msis_of b (pdev w)) w -> wp (get_msis b) Q w.
Proof. exact id. Qed.
Lemma wp_modify_msis b f (Q : unit -> world -> Prop) w :
  Q tt (set_pdev (set_msis b (f (msis_of b (pdev w))) (pdev w)) w) ->
  wp (modify_msis b f) Q w.
Proof. exact id. Qed.
Lemma wp_fault {A} (Q : A -> world -> Prop) w : wp fault Q w.
Proof. exact I. Qed.
Lemma wp_die {A} (Q : A -> world -> Prop) w : wp die Q w.
Proof. exact I. Qed.
Lemma wp_pr_err (Q : unit -> world -> Prop) w :
  Q tt (push_diag LOG_ERROR w) -> wp pr_err Q w.
Proof. exact id. Qed.
Lemma wp_pr_warning (Q : unit -> world -> Prop) w :
  Q tt (push_diag LOG_WARNING w) -> wp pr_warning Q w.
Proof. exact id. Qed.
Lemma wp_answer host Q w : Q (host (length (log w))) w -> wp (answer host) Q w.
Proof. exact id. Qed.

Lemma wp_entry_at b i Q w :
  (forall e, vec w b i = Some e -> Q e w) -> wp (entry_at b i) Q w.
Proof.
  intros H. unfold wp, entry_at. unfold vec in H.
  destruct (entries (msis_of b (pdev w)) !! i); auto.
Qed.
Lemma wp_store_entry b i e (Q : unit -> world -> Prop) w :
  ((i < length (entries (msis_of b (pdev w))))%nat -> Q tt (put_entry b i e w)) ->
  wp (store_entry b i e) Q w.
Proof. intros H. unfold wp, store_entry. destruct (decide _); auto. Qed.
Lemma wp_eventfd_at b i Q w :
  (forall fd, eventfds (msis_of b (pdev w)) !! i = Some fd -> Q fd w) ->
  wp (eventfd_at b i) Q w.
Proof.
  intros H. unfold wp, eventfd_at.
  destruct (eventfds (msis_of b (pdev w)) !! i); auto.
Qed.
Lemma wp_store_eventfd b i fd (Q : unit -> world -> Prop) w :
  ((i < length (eventfds (msis_of b (pdev w))))%nat -> Q tt (put_eventfd b i fd w)) ->
  wp (store_eventfd b i fd) Q w.
Proof. intros H. unfold wp, store_eventfd. destruct (decide _); auto. Qed.

(** The length of the journal of a chain of setters. *)
Ltac log_len :=
  cbn [log length push_log push_diag set_errno set_open_fds set_irqfds set_pdev
       put_entry put_eventfd].

(** One step through a computation: binds, returns, the primitives, and
    case analysis on the conditions met on the way. *)
Ltac wp_step :=
  lazymatch goal with
  | |- wp (bind _ _) _ _ => apply wp_bind
  | |- wp (or_continue _ _) _ _ => apply wp_or_continue
  | |- wp (ret _) _ _ => apply wp_ret
  | |- wp get _ _ => apply wp_get
  | |- wp (modify _) _ _ => apply wp_modify
  | |- wp get_pdev _ _ => apply wp_get_pdev
  | |- wp (modify_pdev _) _ _ => apply wp_modify_pdev
  | |- wp (get_msis _) _ _ => apply wp_get_msis
  | |- wp (modify_msis _ _) _ _ => apply wp_modify_msis
  | |- wp fault _ _ => apply wp_fault
  | |- wp die _ _ => apply wp_die
  | |- wp pr_err _ _ => apply wp_pr_err
  | |- wp pr_warning _ _ => apply wp_pr_warning
  | |- wp (answer _) _ _ => apply wp_answer; log_len
  | |- wp (entry_at _ _) _ _ => apply wp_entry_at; intros ? ?
  | |- wp (store_entry _ _ _) _ _ => apply wp_store_entry; intros ?
  | |- wp (eventfd_at _ _) _ _ => apply wp_eventfd_at; intros ? ?
  | |- wp (store_eventfd _ _ _) _ _ => apply wp_store_eventfd; intros ?
  | |- wp (if ?c then _ else _) _ _ => destruct c eqn:?
  | |- wp (match ?c with Some _ => _ | None => _ end) _ _ => destruct c eqn:?
  | |- wp (let '(_, _) := ?c in _) _ _ => destruct c eqn:?
  | |- match ?o with Some _ => _ | None => _ end => destruct o eqn:?
  end; cbv beta.
Ltac wp_steps := repeat wp_step.

(** Projections through the setters. *)
Ltac proj :=
  cbn [pdev dev_num open_fds irqfds errno log diag
       set_pdev set_open_fds set_irqfds set_errno push_log push_diag
       hdr irq_modes intx_fd unmask_fd intx_gsi msi msix msix_table msix_pba
       set_intx_fd set_unmask_fd set_hdr set_intx_gsi set_msix_table set_msix_pba
       set_table_addr msis_of set_msis
       pos guest_state host_state info_index irq_set nr_entries entries
       set_guest_state set_host_state set_entries set_eventfds set_nr_entries
       set_info_index eventfds
       flags index start count data size bar guest_phys_addr] in *.

Lemma create_msix_table_layout region_answer table_block pba_block w0 w1 :
  vfio_pci_create_msix_table region_answer table_block pba_block w0 = Ok 0 w1 ->
  exists nr,
    0 < nr
    /\ nr = Z.land (load16 (hdr (pdev w0)) (Z.to_nat (pos (msix (pdev w0))) + 2))
                   PCI_MSIX_FLAGS_QSIZE + 1
    /\ nr_entries (msix (pdev w1)) = nr
    /\ length (entries (msix (pdev w1))) = Z.to_nat nr
    /\ size (msix_table (pdev w1)) = ALIGN (nr * PCI_MSIX_ENTRY_SIZE) 8.
Proof.
  intros H.
  set (nr := Z.land (load16 (hdr (pdev w0)) (Z.to_nat (pos (msix (pdev w0))) + 2))
                    PCI_MSIX_FLAGS_QSIZE + 1).
  assert (Hnr : 0 < nr).
  { assert (Hnn := Z.land_nonneg
                (load16 (hdr (pdev w0)) (Z.to_nat (pos (msix (pdev w0))) + 2))
                PCI_MSIX_FLAGS_QSIZE).
    unfold nr, PCI_MSIX_FLAGS_QSIZE in *. lia. }
  exists nr. split; [exact Hnr|]. split; [reflexivity|].
  refine (wp_elim _
    (fun r w1 => r = 0 -> nr_entries (msix (pdev w1)) = nr
                 /\ length (entries (msix (pdev w1))) = Z.to_nat nr
                 /\ size (msix_table (pdev w1)) = ALIGN (nr * PCI_MSIX_ENTRY_SIZE) 8)
    _ _ _ _ H eq_refl).
  unfold vfio_pci_create_msix_table. wp_steps; proj; intros E;
    try (subst; discriminate); try (vm_compute in E; discriminate E).
  all: repeat split; try reflexivity; apply length_replicate.
Qed.

(** C10. With the table and the vector array as [vfio_pci_create_msix_table]
    leaves them, [table.size] is exactly [16 * nr_entries], so for any
    guest-chosen address whose offset passes the range check the vector
    index [offset / 16] is below [msix.nr_entries] and names an element of
    the array. *)
Theorem msix_table_index_in_bounds region_answer table_block pba_block w0 w1 :
  vfio_pci_create_msix_table region_answer table_block pba_block w0 = Ok 0 w1 ->
  size (msix_table (pdev w1)) = 16 * nr_entries (msix (pdev w1))
  /\ forall w addr,
      size (msix_table (pdev w)) = size (msix_table (pdev w1)) ->
      nr_entries (msix (pdev w)) = nr_entries (msix (pdev w1)) ->
      length (entries (msix (pdev w))) = length (entries (msix (pdev w1))) ->
      let offset := u64 (addr - guest_phys_addr (msix_table (pdev w))) in
      offset < size (msix_table (pdev w)) ->
      offset / PCI_MSIX_ENTRY_SIZE < nr_entries (msix (pdev w))
      /\ is_Some (entries (msix (pdev w)) !! Z.to_nat (offset / PCI_MSIX_ENTRY_SIZE)).
Proof.
  intros H. destruct (create_msix_table_layout _ _ _ _ _ H)
    as (nr & Hpos & _ & Hnr & Hlen & Hsz).
  rewrite ALIGN_entries in Hsz. split; [lia|].
  intros w addr Es En El offset Hlt.
  assert (H0 : 0 <= offset) by (apply Z.mod_pos_bound; reflexivity).
  assert (Hq : offset / PCI_MSIX_ENTRY_SIZE < nr).
  { unfold PCI_MSIX_ENTRY_SIZE. apply Z.div_lt_upper_bound; lia. }
  split; [lia|].
  apply lookup_lt_is_Some. rewrite El, Hlen.
  assert (0 <= offset / PCI_MSIX_ENTRY_SIZE)
    by (unfold PCI_MSIX_ENTRY_SIZE; apply Z.div_pos; lia).
  lia.
Qed.

Lemma msix_table_index_in_bounds_witness :
  size (msix_table (pdev sample_tabled)) = 16 * nr_entries (msix (pdev sample_tabled))
  /\ forall w addr,
      size (msix_table (pdev w)) = size (msix_table (pdev sample_tabled)) ->
      nr_entries (msix (pdev w)) = nr_entries (msix (pdev sample_tabled)) ->
      length (entries (msix (pdev w))) = length (entries (msix (pdev sample_tabled))) ->
      let offset := u64 (addr - guest_phys_addr (msix_table (pdev w))) in
      offset < size (msix_table (pdev w)) ->
      offset / PCI_MSIX_ENTRY_SIZE < nr_entries (msix (pdev w))
      /\ is_Some (entries (msix (pdev w)) !! Z.to_nat (offset / PCI_MSIX_ENTRY_SIZE)).
Proof.
  refine (msix_table_index_in_bounds sample_region 0x10000 0x20000
            (sample_blank 5) sample_tabled _).
  vm_compute. reflexivity.
Defined.

(** ** The vector loop of the MSI capability write *)

(** C4. On the sample device, whose MSI capability advertises one vector
    ([nr_entries = 1]), a one-byte guest write of 0x51 to the MSI control
    register (enable, Multiple Message Enable = 5) makes the loop of
    [vfio_pci_msi_cap_write] run to 32 vectors and leave the array at
    index 1. *)
Theorem msi_cap_write_overruns_entries :
  nr_entries (msi (pdev (sample_configured host_ok 3))) = 1
  /\ length (entries (msi (pdev (sample_configured host_ok 3)))) = 1%nat
  /\ vfio_pci_cfg_write host_ok 0x52 [0x51] 1 (sample_configured host_ok 3) = Fault.
Proof. repeat split; vm_compute; reflexivity. Qed.

(** * The interrupt state machine *)

(** ** Journal extensions *)

(** Projections other than [pdev] see through the array stores. *)
Ltac proj_put :=
  cbn [pdev dev_num open_fds irqfds errno log diag
       set_pdev set_open_fds set_irqfds set_errno push_log push_diag
       put_entry put_eventfd].


Lemma log_ext_refl P w : log_ext P w w.
Proof. exists []. split; [reflexivity|constructor]. Qed.

Lemma log_ext_trans P w1 w2 w3 :
  log_ext P w1 w2 -> log_ext P w2 w3 -> log_ext P w1 w3.
Proof.
  intros (e1 & H1 & F1) (e2 & H2 & F2). exists (e2 ++ e1). split.
  - rewrite H2, H1. apply app_assoc.
  - apply Forall_app. split; assumption.
Qed.

Lemma log_ext_mono (P P' : host_call * Z -> Prop) w w' :
  (forall ev, P ev -> P' ev) -> log_ext P w w' -> log_ext P' w w'.
Proof.
  intros HP (e & H & F). exists e. split; [exact H|].
  eapply Forall_impl; eauto.
Qed.

Lemma log_ext_cons (P : host_call * Z -> Prop) w0 w w' ev :
  log w' = ev :: log w -> P ev -> log_ext P w0 w -> log_ext P w0 w'.
Proof.
  intros Hl Hp (e & H & F). exists (ev :: e). split.
  - rewrite Hl, H. reflexivity.
  - constructor; assumption.
Qed.

Lemma log_ext_app (P : host_call * Z -> Prop) w0 w w' evs :
  log_ext P w0 w -> log w' = evs ++ log w -> Forall P evs -> log_ext P w0 w'.
Proof.
  intros H Hl Hp. eapply log_ext_trans; [exact H|]. exists evs. auto.
Qed.

Lemma cons_app_eq {A} (a : A) l evs t : l = evs ++ t -> a :: l = (a :: evs) ++ t.
Proof. intros ->. reflexivity. Qed.

Lemma nil_app_eq {A} (t : list A) : t = [] ++ t.
Proof. reflexivity. Qed.

(** [log W = ?evs ++ log w] for a chain of setters [W] over [w]. *)
Ltac chain_eq := first [ apply nil_app_eq | apply cons_app_eq; chain_eq ].
Ltac log_chain := proj_put; chain_eq.

Lemma log_ext_same (P : host_call * Z -> Prop) w0 w w' :
  log w' = log w -> log_ext P w0 w -> log_ext P w0 w'.
Proof. intros Hl (e & H & F). exists e. rewrite Hl. auto. Qed.

(** ** Projections through array stores *)

Lemma dev_hdr_put_entry b i e w :
  dev_hdr (pdev (put_entry b i e w)) = dev_hdr (pdev w).
Proof.
  unfold put_entry, dev_hdr, cap_hdr. destruct b; proj;
    rewrite length_insert; reflexivity.
Qed.

Lemma vec_put_entry b i e w b' i' :
  (i < length (entries (msis_of b (pdev w))))%nat ->
  vec (put_entry b i e w) b' i'
  = if decide (b' = b /\ i' = i) then Some e else vec w b' i'.
Proof.
  intros Hi. unfold vec, put_entry.
  destruct (decide (b' = b /\ i' = i)) as [[-> ->]|N].
  - destruct b; proj; apply list_lookup_insert_eq; exact Hi.
  - destruct b, b'; proj; try reflexivity;
      apply list_lookup_insert_ne; intros ->; apply N; auto.
Qed.

Lemma entries_put_eventfd b i fd w b' :
  entries (msis_of b' (pdev (put_eventfd b i fd w))) = entries (msis_of b' (pdev w)).
Proof. unfold put_eventfd. destruct b, b'; reflexivity. Qed.

Lemma vec_put_eventfd b i fd w b' i' :
  vec (put_eventfd b i fd w) b' i' = vec w b' i'.
Proof. unfold vec. rewrite entries_put_eventfd. reflexivity. Qed.

Lemma log_put_entry b i e w : log (put_entry b i e w) = log w.
Proof. reflexivity. Qed.
Lemma open_fds_put_entry b i e w : open_fds (put_entry b i e w) = open_fds w.
Proof. reflexivity. Qed.
Lemma irqfds_put_entry b i e w : irqfds (put_entry b i e w) = irqfds w.
Proof. reflexivity. Qed.
Lemma errno_put_entry b i e w : errno (put_entry b i e w) = errno w.
Proof. reflexivity. Qed.
Lemma dev_num_put_entry b i e w : dev_num (put_entry b i e w) = dev_num w.
Proof. reflexivity. Qed.
Lemma log_put_eventfd b i e w : log (put_eventfd b i e w) = log w.
Proof. reflexivity. Qed.
Lemma open_fds_put_eventfd b i e w : open_fds (put_eventfd b i e w) = open_fds w.
Proof. reflexivity. Qed.
Lemma irqfds_put_eventfd b i e w : irqfds (put_eventfd b i e w) = irqfds w.
Proof. reflexivity. Qed.
Lemma dev_num_put_eventfd b i e w : dev_num (put_eventfd b i e w) = dev_num w.
Proof. reflexivity. Qed.

Ltac norm_hdr :=
  repeat (proj;
          match goal with
          | |- context [dev_hdr (pdev (put_entry ?b ?i ?e ?w))] =>
              rewrite (dev_hdr_put_entry b i e w)
          end);
  proj.

(** ** Frames *)

Lemma frame_refl w : frame w w.
Proof. repeat split. apply log_ext_refl. Qed.

Lemma frame_trans w1 w2 w3 : frame w1 w2 -> frame w2 w3 -> frame w1 w3.
Proof.
  intros (A1 & B1 & C1) (A2 & B2 & C2). repeat split.
  - congruence.
  - congruence.
  - eapply log_ext_trans; eauto.
Qed.

(** A frame goal whose last world is a chain of setters over the world
    of a frame at hand. *)
Ltac frame_leaf :=
  lazymatch goal with
  | HR : frame ?w0 ?w |- frame ?w0 _ =>
      let A := fresh in let B := fresh in let C := fresh in
      destruct HR as (A & B & C);
      split; [|split];
      [ rewrite <- A; norm_hdr; reflexivity
      | rewrite <- B; proj_put; reflexivity
      | eapply (log_ext_app _ _ _ _ _ C); [log_chain | repeat constructor] ]
  end.

Ltac unfold_host :=
  unfold ioctl_SET_IRQS, sys_eventfd, sys_close, irq__add_msix_route,
    irq__update_msix_route, irq__add_irqfd, irq__del_irqfd, pwrite_cfg, pread_cfg.

Lemma update_msi_entry_frame host b i w0 w :
  frame w0 w ->
  wp (vfio_pci_update_msi_entry host b i) (fun _ w' => frame w0 w') w.
Proof.
  intros HR. unfold vfio_pci_update_msi_entry. unfold_host.
  wp_steps; frame_leaf.
Qed.

(** ** The INTx code and the SET_IRQS loops *)

Ltac projp :=
  cbn [pdev dev_num open_fds irqfds errno log diag
       set_pdev set_open_fds set_irqfds set_errno push_log push_diag
       hdr irq_modes intx_fd unmask_fd intx_gsi msi msix msix_table msix_pba
       set_intx_fd set_unmask_fd set_hdr set_intx_gsi set_msix_table set_msix_pba
       set_table_addr msis_of set_msis negb
       pos guest_state host_state info_index irq_set nr_entries entries
       set_guest_state set_host_state set_entries set_eventfds set_nr_entries
       set_info_index eventfds
       flags index start count data size bar guest_phys_addr
       put_entry put_eventfd] in *.

Lemma intx_step_refl w : intx_step w w.
Proof. split; [reflexivity|apply log_ext_refl]. Qed.

Lemma intx_step_trans w1 w2 w3 : intx_step w1 w2 -> intx_step w2 w3 -> intx_step w1 w3.
Proof.
  intros (A1 & C1) (A2 & C2). split; [congruence|eapply log_ext_trans; eauto].
Qed.

Ltac intx_leaf :=
  lazymatch goal with
  | HR : intx_step ?w0 ?w |- intx_step ?w0 _ =>
      let A := fresh in let C := fresh in
      destruct HR as (A & C);
      split;
      [ rewrite <- A; projp; reflexivity
      | eapply (log_ext_app _ _ _ _ _ C);
        [log_chain | repeat constructor] ]
  end.

Lemma disable_intx_step host w0 w :
  intx_step w0 w ->
  wp (vfio_pci_disable_intx host)
     (fun _ w' => intx_step w0 w'
                  /\ intx_fd (pdev w') = -1
                  /\ (intx_fd (pdev w) = -1 -> w' = w)) w.
Proof.
  intros HR. unfold vfio_pci_disable_intx. unfold_host. wp_steps.
  - apply Z.eqb_eq in Heqb. auto.
  - apply Z.eqb_neq in Heqb. split; [intx_leaf|]. split; [reflexivity|].
    intros E. contradiction.
Qed.

Lemma enable_intx_step host w0 w :
  intx_step w0 w ->
  wp (vfio_pci_enable_intx host) (fun _ w' => intx_step w0 w') w.
Proof.
  intros HR. unfold vfio_pci_enable_intx. unfold_host.
  wp_steps; intx_leaf.
Qed.

Lemma cap_step_refl b w : cap_step b w w.
Proof. repeat split. Qed.

Lemma cap_step_trans b w1 w2 w3 : cap_step b w1 w2 -> cap_step b w2 w3 -> cap_step b w1 w3.
Proof. intros (A1 & B1 & C1) (A2 & B2 & C2). repeat split; congruence. Qed.

Ltac cap_leaf :=
  lazymatch goal with
  | HR : cap_step ?b ?w0 ?w |- cap_step ?b ?w0 _ =>
      let A := fresh in let B := fresh in let C := fresh in
      destruct HR as (A & B & C);
      split; [|split];
      [ rewrite <- A | rewrite <- B | rewrite <- C ];
      destruct b; unfold cap_static; projp; rewrite ?length_insert; reflexivity
  end.

Lemma fill_eventfds_step b idxs : forall empty w0 w,
  cap_step b w0 w ->
  host_state (msis_of b (pdev w)) = host_state (msis_of b (pdev w0)) ->
  log w = log w0 ->
  wp (fill_eventfds b idxs empty)
     (fun _ w' => cap_step b w0 w'
                  /\ host_state (msis_of b (pdev w')) = host_state (msis_of b (pdev w0))
                  /\ log w' = log w0) w.
Proof.
  induction idxs as [|i rest IH]; intros empty w0 w HR Hh Hl; cbn [fill_eventfds].
  - wp_steps. auto.
  - wp_steps. apply IH.
    + cap_leaf.
    + rewrite <- Hh. destruct b; reflexivity.
    + exact Hl.
Qed.

Lemma update_vectors_step host b idxs : forall r0 w0 w,
  cap_step b w0 w ->
  host_state (msis_of b (pdev w)) = host_state (msis_of b (pdev w0)) ->
  msi_is_empty (host_state (msis_of b (pdev w0))) = 0 ->
  wp (update_vectors host b idxs r0)
     (fun _ w' => cap_step b w0 w'
                  /\ host_state (msis_of b (pdev w')) = host_state (msis_of b (pdev w0))) w.
Proof.
  induction idxs as [|i rest IH]; intros r0 w0 w HR Hh He; cbn [update_vectors].
  - wp_steps. auto.
  - unfold_host. wp_steps.
    + apply IH; assumption.
    + split; [cap_leaf|]. rewrite <- Hh. destruct b; reflexivity.
    + exfalso. apply andb_true_iff in Heqb2 as [Ht _].
      assert (Hs : host_state (msis_of b (pdev
                (put_eventfd b i (entry_fd e)
                   (push_log
                      (SET_IRQS
                         {| flags := Z.lor VFIO_IRQ_SET_DATA_EVENTFD VFIO_IRQ_SET_ACTION_TRIGGER;
                            index := info_index (msis_of b (pdev w));
                            start := Z.of_nat i; count := 1; data := [entry_fd e] |})
                      (host (length (log w))) w))))
              = host_state (msis_of b (pdev w))) by (destruct b; reflexivity).
      rewrite Hs, Hh, He in Ht. discriminate Ht.
    + apply IH; [cap_leaf| |exact He]. rewrite <- Hh. destruct b; reflexivity.
Qed.

Lemma intx_step_msis b w w' : intx_step w w' -> msis_of b (pdev w') = msis_of b (pdev w).
Proof. intros (A & _). destruct b; cbn [msis_of]; congruence. Qed.

Lemma intx_step_modes w w' : intx_step w w' -> irq_modes (pdev w') = irq_modes (pdev w).
Proof. intros (A & _). congruence. Qed.

Lemma maybe_disable_intx host (c : bool) w :
  wp (if c then vfio_pci_disable_intx host else ret tt)
     (fun _ w1 => intx_step w w1
                  /\ (c = true -> intx_fd (pdev w1) = -1)
                  /\ (c = false \/ intx_fd (pdev w) = -1 -> w1 = w)) w.
Proof.
  destruct c.
  - eapply wp_mono; [apply (disable_intx_step host w w (intx_step_refl w))|].
    intros _ w1 (A & B & C). split; [exact A|]. split; [auto|].
    intros [E|E]; [discriminate E|auto].
  - apply wp_ret. split; [apply intx_step_refl|]. split; [discriminate|auto].
Qed.


Lemma failed_intx idx evs :
  failed_SET_IRQS idx evs -> Forall intx_only evs ->
  idx <> VFIO_PCI_INTX_IRQ_INDEX -> False.
Proof.
  intros (irq' & r' & Hin & Hix & Hr) Hf Hidx.
  rewrite Forall_forall in Hf. specialize (Hf _ Hin). cbn in Hf. congruence.
Qed.


Lemma maybe_enable_intx host (c : bool) r w :
  wp (if c then vfio_pci_enable_intx host else ret r)
     (fun _ w1 => intx_step w w1) w.
Proof.
  destruct c.
  - apply (enable_intx_step host w w (intx_step_refl w)).
  - apply wp_ret, intx_step_refl.
Qed.






(** ** Runs that are shown to return *)

Lemma twp_ret {A} (a : A) (Q : A -> world -> Prop) w : Q a w -> twp (ret a) Q w.
Proof. exact id. Qed.
Lemma twp_bind {A B} (c : M A) (k : A -> M B) Q w :
  twp c (fun a => twp (k a) Q) w -> twp (bind c k) Q w.
Proof. unfold twp, bind. destruct (c w); auto. Qed.
Lemma twp_mono {A} (c : M A) (Q Q' : A -> world -> Prop) w :
  twp c Q w -> (forall a w', Q a w' -> Q' a w') -> twp c Q' w.
Proof. unfold twp. destruct (c w); auto. Qed.
Lemma twp_elim {A} (c : M A) Q w :
  twp c Q w -> exists a w', c w = Ok a w' /\ Q a w'.
Proof. unfold twp. destruct (c w); [eauto|contradiction..]. Qed.
Lemma twp_wp {A} (c : M A) Q w : twp c Q w -> wp c Q w.
Proof. unfold twp, wp. destruct (c w); auto. Qed.
Lemma twp_get Q w : Q w w -> twp get Q w.
Proof. exact id. Qed.
Lemma twp_modify f (Q : unit -> world -> Prop) w : Q tt (f w) -> twp (modify f) Q w.
Proof. exact id. Qed.
Lemma twp_get_pdev Q w : Q (pdev w) w -> twp get_pdev Q w.
Proof. exact id. Qed.
Lemma twp_modify_pdev f (Q : unit -> world -> Prop) w :
  Q tt (set_pdev (f (pdev w)) w) -> twp (modify_pdev f) Q w.
Proof. exact id. Qed.
Lemma twp_get_msis b Q w : Q (msis_of b (pdev w)) w -> twp (get_msis b) Q w.
Proof. exact id. Qed.
Lemma twp_modify_msis b f (Q : unit -> world -> Prop) w :
  Q tt (set_pdev (set_msis b (f (msis_of b (pdev w))) (pdev w)) w) ->
  twp (modify_msis b f) Q w.
Proof. exact id. Qed.
Lemma twp_pr_err (Q : unit -> world -> Prop) w :
  Q tt (push_diag LOG_ERROR w) -> twp pr_err Q w.
Proof. exact id. Qed.
Lemma twp_pr_warning (Q : unit -> world -> Prop) w :
  Q tt (push_diag LOG_WARNING w) -> twp pr_warning Q w.
Proof. exact id. Qed.
Lemma twp_answer host Q w : Q (host (length (log w))) w -> twp (answer host) Q w.
Proof. exact id. Qed.
Lemma twp_or_continue (c : M (option Z)) (k : M Z) Q w :
  twp c (fun o w' => match o with Some v => Q v w' | None => twp k Q w' end) w ->
  twp (c ;;? k) Q w.
Proof.
  intros H. unfold or_continue. apply twp_bind.
  eapply twp_mono; [exact H|]. intros [v|] w' Hv; [apply twp_ret|]; exact Hv.
Qed.
Lemma twp_entry_at b i e Q w :
  vec w b i = Some e -> Q e w -> twp (entry_at b i) Q w.
Proof. intros H HQ. unfold twp, entry_at. unfold vec in H. rewrite H. exact HQ. Qed.
Lemma twp_store_entry b i e (Q : unit -> world -> Prop) w :
  (i < length (entries (msis_of b (pdev w))))%nat -> Q tt (put_entry b i e w) ->
  twp (store_entry b i e) Q w.
Proof.
  intros H HQ. unfold twp, store_entry. destruct (decide _); [exact HQ|contradiction].
Qed.
Lemma twp_eventfd_at b i fd Q w :
  eventfds (msis_of b (pdev w)) !! i = Some fd -> Q fd w -> twp (eventfd_at b i) Q w.
Proof. intros H HQ. unfold twp, eventfd_at. rewrite H. exact HQ. Qed.
Lemma twp_store_eventfd b i fd (Q : unit -> world -> Prop) w :
  (i < length (eventfds (msis_of b (pdev w))))%nat -> Q tt (put_eventfd b i fd w) ->
  twp (store_eventfd b i fd) Q w.
Proof.
  intros H HQ. unfold twp, store_eventfd. destruct (decide _); [exact HQ|contradiction].
Qed.

Ltac twp_step :=
  lazymatch goal with
  | |- twp (bind _ _) _ _ => apply twp_bind
  | |- twp (or_continue _ _) _ _ => apply twp_or_continue
  | |- twp (ret _) _ _ => apply twp_ret
  | |- twp get _ _ => apply twp_get
  | |- twp (modify _) _ _ => apply twp_modify
  | |- twp get_pdev _ _ => apply twp_get_pdev
  | |- twp (modify_pdev _) _ _ => apply twp_modify_pdev
  | |- twp (get_msis _) _ _ => apply twp_get_msis
  | |- twp (modify_msis _ _) _ _ => apply twp_modify_msis
  | |- twp pr_err _ _ => apply twp_pr_err
  | |- twp pr_warning _ _ => apply twp_pr_warning
  | |- twp (answer _) _ _ => apply twp_answer; log_len
  | |- twp (if ?c then _ else _) _ _ => destruct c eqn:?
  | |- twp (let '(_, _) := ?c in _) _ _ => destruct c eqn:?
  end; cbv beta.
Ltac twp_steps := repeat twp_step.

(** ** Bits of the state words *)

Lemma lor_land_absorb h b : Z.lor (Z.land h b) b = b.
Proof.
  apply Z.bits_inj'. intros n Hn. rewrite Z.lor_spec, Z.land_spec.
  destruct (Z.testbit h n), (Z.testbit b n); reflexivity.
Qed.

Lemma is_enabled_set h v :
  msi_is_enabled (msi_set_enabled h v) = if v then 1 else 0.
Proof.
  unfold msi_is_enabled, msi_set_enabled, msi_update_state,
    VFIO_PCI_MSI_STATE_ENABLED. destruct v.
  - rewrite Z.land_lor_distr_l. apply lor_land_absorb.
  - rewrite <- Z.land_assoc. apply Z.land_0_r.
Qed.
Lemma is_masked_set h v :
  msi_is_masked (msi_set_masked h v) = if v then 2 else 0.
Proof.
  unfold msi_is_masked, msi_set_masked, msi_update_state,
    VFIO_PCI_MSI_STATE_MASKED. destruct v.
  - rewrite Z.land_lor_distr_l. apply lor_land_absorb.
  - rewrite <- Z.land_assoc. apply Z.land_0_r.
Qed.
Lemma is_empty_set h v :
  msi_is_empty (msi_set_empty h v) = if v then 4 else 0.
Proof.
  unfold msi_is_empty, msi_set_empty, msi_update_state,
    VFIO_PCI_MSI_STATE_EMPTY. destruct v.
  - rewrite Z.land_lor_distr_l. apply lor_land_absorb.
  - rewrite <- Z.land_assoc. apply Z.land_0_r.
Qed.
Lemma is_enabled_set_empty h v : msi_is_enabled (msi_set_empty h v) = msi_is_enabled h.
Proof.
  unfold msi_is_enabled, msi_set_empty, msi_update_state,
    VFIO_PCI_MSI_STATE_ENABLED, VFIO_PCI_MSI_STATE_EMPTY. destruct v.
  - rewrite Z.land_lor_distr_l. apply Z.lor_0_r.
  - rewrite <- Z.land_assoc. reflexivity.
Qed.
Lemma is_enabled_set_masked h v : msi_is_enabled (msi_set_masked h v) = msi_is_enabled h.
Proof.
  unfold msi_is_enabled, msi_set_masked, msi_update_state,
    VFIO_PCI_MSI_STATE_ENABLED, VFIO_PCI_MSI_STATE_MASKED. destruct v.
  - rewrite Z.land_lor_distr_l. apply Z.lor_0_r.
  - rewrite <- Z.land_assoc. reflexivity.
Qed.
Lemma is_masked_set_enabled h v : msi_is_masked (msi_set_enabled h v) = msi_is_masked h.
Proof.
  unfold msi_is_masked, msi_set_enabled, msi_update_state,
    VFIO_PCI_MSI_STATE_ENABLED, VFIO_PCI_MSI_STATE_MASKED. destruct v.
  - rewrite Z.land_lor_distr_l. apply Z.lor_0_r.
  - rewrite <- Z.land_assoc. reflexivity.
Qed.
Lemma is_empty_set_enabled h v : msi_is_empty (msi_set_enabled h v) = msi_is_empty h.
Proof.
  unfold msi_is_empty, msi_set_enabled, msi_update_state,
    VFIO_PCI_MSI_STATE_ENABLED, VFIO_PCI_MSI_STATE_EMPTY. destruct v.
  - rewrite Z.land_lor_distr_l. apply Z.lor_0_r.
  - rewrite <- Z.land_assoc. reflexivity.
Qed.

Lemma masked_bit h :
  Z.land h VFIO_PCI_MSI_STATE_MASKED = 0 \/ Z.land h VFIO_PCI_MSI_STATE_MASKED = 2.
Proof.
  unfold VFIO_PCI_MSI_STATE_MASKED.
  assert (E : Z.land h (2 ^ 1) = if Z.testbit h 1 then 2 ^ 1 else 0).
  { apply Z.bits_inj'. intros n Hn. rewrite Z.land_spec, Z.pow2_bits_eqb by lia.
    destruct (Z.eqb_spec 1 n) as [<-|Hne].
    - destruct (Z.testbit h 1); reflexivity.
    - rewrite andb_false_r. destruct (Z.testbit h 1).
      + rewrite Z.pow2_bits_eqb by lia. symmetry. apply Z.eqb_neq. exact Hne.
      + symmetry. apply Z.bits_0. }
  change (2 ^ 1) with 2 in E. rewrite E. destruct (Z.testbit h 1); auto.
Qed.

(** ** Descriptors *)

Lemma lowest_free_ge fuel : forall n open, n <= lowest_free fuel n open.
Proof.
  induction fuel as [|f IH]; intros n open; cbn [lowest_free]; [lia|].
  destruct (bool_decide (n ∈ open)); [|lia].
  specialize (IH (n + 1) open). lia.
Qed.

Lemma fresh_fd_nonneg open : 0 <= fresh_fd open.
Proof. apply lowest_free_ge. Qed.

(** ** Falling back to INTx *)

Ltac proj_put_all :=
  cbn [pdev dev_num open_fds irqfds errno log diag
       set_pdev set_open_fds set_irqfds set_errno push_log push_diag
       put_entry put_eventfd length] in *.

Lemma disable_msis_runs host b w :
  host_enabled w b ->
  has_mode w VFIO_PCI_IRQ_MODE_INTX = true ->
  twp (vfio_pci_disable_msis host b)
    (fun r w' =>
       (exists evs,
          log w' = evs ++ (SET_IRQS (disarm_request (info_index (msis_of b (pdev w)))),
                           host (length (log w))) :: log w)
       /\ (host (length (log w)) < 0 -> r = host (length (log w)) /\ pdev w' = pdev w)
       /\ (0 <= host (length (log w)) ->
           ~ host_enabled w' b
           /\ msi_is_empty (host_state (msis_of b (pdev w'))) <> 0
           /\ (intx_fd (pdev w) <> -1 ->
               r = 0 /\ intx_fd (pdev w') = intx_fd (pdev w))
           /\ (intx_fd (pdev w) = -1 ->
               (forall k, (1 <= k <= 5)%nat -> 0 <= host (k + length (log w))%nat) ->
               r = 0 /\ intx_armed w'
               /\ (intx_gsi (pdev w'), intx_fd (pdev w')) ∈ irqfds w'))) w.
Proof.
  intros Hen Hmode. unfold vfio_pci_disable_msis, vfio_pci_enable_intx. unfold_host.
  unfold host_enabled, has_mode, intx_armed in *.
  twp_step. twp_step.
  twp_step.
  { exfalso. unfold truthy in *. apply negb_true_iff, negb_false_iff, Z.eqb_eq in Heqb0.
    contradiction. }
  twp_steps.
  all: proj_put_all.
  all: repeat match goal with
         | H : negb _ = true |- _ => apply negb_true_iff in H
         | H : negb _ = false |- _ => apply negb_false_iff in H
         | H : (_ <? 0) = true |- _ => apply Z.ltb_lt in H
         | H : (_ <? 0) = false |- _ => apply Z.ltb_ge in H
         | H : (_ =? _) = true |- _ => apply Z.eqb_eq in H
         | H : (_ =? _) = false |- _ => apply Z.eqb_neq in H
         end.
  all: (split; [eexists; log_chain|]).
  all: (split; [intros Hneg; try lia; split; reflexivity|]).
  all: intros Hpos; try lia.
  all: destruct b; projp.
  all: try congruence.
  all: (split; [rewrite is_enabled_set_empty, is_enabled_set; intros X; apply X; reflexivity|]).
  all: (split; [rewrite is_empty_set; discriminate|]).
  all: (split; [intros Harmed; try congruence; split; reflexivity|]).
  all: intros Hun Hall; try congruence.
  all: pose proof (Hall 1%nat ltac:(lia)) as H1;
       pose proof (Hall 2%nat ltac:(lia)) as H2;
       pose proof (Hall 3%nat ltac:(lia)) as H3;
       pose proof (Hall 4%nat ltac:(lia)) as H4;
       pose proof (Hall 5%nat ltac:(lia)) as H5;
       cbn [Nat.add] in H1, H2, H3, H4, H5; try lia.
  all: try (exfalso;
            match goal with
            | H : fresh_fd ?l < 0 |- _ => pose proof (fresh_fd_nonneg l); lia
            end).
  all: try (exfalso; unfold truthy in *;
            match goal with
            | H : negb (0 =? 0) = true |- _ => discriminate H
            end).
  all: split; [reflexivity|]; split; [split|apply list_elem_of_here].
  all: try exact Hmode.
  all: pose proof (fresh_fd_nonneg (open_fds w)); lia.
Qed.

(** The fall-back to INTx.  Disabling a capability that is enabled on the
    host, on a device with INTx, always returns and always sends the disarming
    SET_IRQS (no data, count 0) first.  When the host turns that request
    down the device is left as it was.  When it accepts, the capability's
    [host_state] loses ENABLED and gains EMPTY, and INTx is armed
    afterwards: it stays armed if it was, and otherwise it is armed with
    an irqfd binding on [intx_gsi] provided the two eventfds, the irqfd
    and the two INTx SET_IRQS requests that follow succeed. *)
Theorem disable_msis_falls_back_to_intx host b w :
  host_enabled w b ->
  has_mode w VFIO_PCI_IRQ_MODE_INTX = true ->
  exists r w',
    vfio_pci_disable_msis host b w = Ok r w'
    /\ (exists evs,
          log w' = evs ++ (SET_IRQS (disarm_request (info_index (msis_of b (pdev w)))),
                           host (length (log w))) :: log w)
    /\ (host (length (log w)) < 0 -> r = host (length (log w)) /\ pdev w' = pdev w)
    /\ (0 <= host (length (log w)) ->
        ~ host_enabled w' b
        /\ msi_is_empty (host_state (msis_of b (pdev w'))) <> 0
        /\ (intx_fd (pdev w) <> -1 ->
            r = 0 /\ intx_fd (pdev w') = intx_fd (pdev w))
        /\ (intx_fd (pdev w) = -1 ->
            (forall k, (1 <= k <= 5)%nat -> 0 <= host (k + length (log w))%nat) ->
            r = 0 /\ intx_armed w'
            /\ (intx_gsi (pdev w'), intx_fd (pdev w')) ∈ irqfds w')).
Proof.
  intros Hen Hmode. apply twp_elim. apply disable_msis_runs; assumption.
Qed.

Lemma disable_msis_falls_back_to_intx_witness :
  exists r w',
    vfio_pci_disable_msis host_ok true (sample_msix_on host_ok) = Ok r w'
    /\ r = 0 /\ ~ host_enabled w' true /\ intx_armed w'.
Proof.
  assert (Hen : host_enabled (sample_msix_on host_ok) true).
  { vm_compute. discriminate. }
  assert (Hmode : has_mode (sample_msix_on host_ok) VFIO_PCI_IRQ_MODE_INTX = true).
  { vm_compute. reflexivity. }
  destruct (disable_msis_falls_back_to_intx host_ok true (sample_msix_on host_ok)
              Hen Hmode) as (r & w' & E & _ & _ & Hok).
  exists r, w'. split; [exact E|].
  assert (Hpos : 0 <= host_ok (length (log (sample_msix_on host_ok)))).
  { unfold host_ok. lia. }
  destruct (Hok Hpos) as (Hdis & _ & _ & Harm).
  assert (Hfd : intx_fd (pdev (sample_msix_on host_ok)) = -1).
  { vm_compute. reflexivity. }
  destruct (Harm Hfd) as (Hr & Ha & _).
  { intros k _. unfold host_ok. lia. }
  auto.
Defined.

(** On the sample device with MSI-X enabled, the host turns the
    disarming request down: the capability stays enabled and INTx stays
    torn down. *)
Lemma fallback_fails_when_host_refuses : ~ fallback_as_stated.
Proof.
  intros H.
  destruct (H (host_failing 12) true (sample_msix_on (host_failing 12)) (-1)
              (after (vfio_pci_disable_msis (host_failing 12) true)
                     (sample_msix_on (host_failing 12)))) as (Hdis & _).
  - vm_compute. discriminate.
  - vm_compute. reflexivity.
  - vm_compute. reflexivity.
  - apply Hdis. vm_compute. discriminate.
Qed.


(** ** Mutual exclusion of the modes *)

Lemma excl_inv_kview modes w w' :
  kview w' = kview w -> excl_inv modes w -> excl_inv modes w'.
Proof.
  unfold kview. intros E (Hm & Habs & Harm).
  injection E as E1 E2 E3 E4.
  assert (Hen : forall b, host_enabled w' b <-> host_enabled w b).
  { intros []; unfold host_enabled; cbn [msis_of]; rewrite ?E3, ?E4; reflexivity. }
  assert (Hmo : forall m, has_mode w' m = has_mode w m).
  { intros m. unfold has_mode. rewrite E1. reflexivity. }
  split; [congruence|]. split.
  - intros b Hb. rewrite Hen. apply Habs. rewrite <- Hmo. exact Hb.
  - intros (Ha1 & Ha2) b. rewrite Hen. apply Harm. split.
    + rewrite <- Hmo. exact Ha1.
    + congruence.
Qed.

Lemma frame_kview w w' : frame w w' -> kview w' = kview w.
Proof.
  intros (A & _). unfold dev_hdr, cap_hdr in A. unfold kview.
  injection A as A1 A2 A3 A4 A5 A6 A7 A8 A9 A10 A11 A12 A13 A14 A15 A16 A17 A18 A19 A20 A21.
  congruence.
Qed.

Lemma excl_inv_frame modes w w' : frame w w' -> excl_inv modes w -> excl_inv modes w'.
Proof. intros F. apply excl_inv_kview, frame_kview, F. Qed.

Lemma current_mask_same idxs : forall mask w,
  wp (current_mask idxs mask) (fun _ w' => w' = w) w.
Proof.
  induction idxs as [|i rest IH]; intros mask w; cbn [current_mask].
  - wp_steps. reflexivity.
  - unfold shl_int. wp_steps. apply IH.
Qed.

Lemma apply_mask_frame host idxs mask : forall w0 w,
  frame w0 w -> wp (apply_mask host idxs mask) (fun _ w' => frame w0 w') w.
Proof.
  induction idxs as [|i rest IH]; intros w0 w HR; cbn [apply_mask].
  - wp_steps. exact HR.
  - unfold shl_int. wp_steps.
    + eapply wp_mono; [apply (update_msi_entry_frame host false i w0); frame_leaf|].
      intros r w1 HR1. cbv beta. wp_steps. apply IH. exact HR1.
    + apply IH. exact HR.
Qed.

Lemma program_vectors_frame host idxs nr : forall msg w0 w,
  frame w0 w -> wp (program_vectors host idxs nr msg) (fun _ w' => frame w0 w') w.
Proof.
  induction idxs as [|i rest IH]; intros [[lo hi] d] w0 w HR; cbn [program_vectors].
  - wp_steps. exact HR.
  - wp_steps.
    eapply wp_mono; [apply (update_msi_entry_frame host false i w0); frame_leaf|].
    intros r w1 HR1. cbv beta. wp_steps. apply IH. exact HR1.
Qed.

Lemma msi_vector_write_frame host off bytes sz w0 w :
  frame w0 w ->
  wp (vfio_pci_msi_vector_write host off bytes sz) (fun _ w' => frame w0 w') w.
Proof.
  intros HR. unfold vfio_pci_msi_vector_write. wp_steps; try exact HR.
  eapply wp_mono; [apply current_mask_same|].
  intros mask w1 ->. cbv beta. wp_steps.
  eapply wp_mono; [apply (apply_mask_frame host _ _ w0 w HR)|].
  intros ? w2 HR2. cbv beta. wp_steps. exact HR2.
Qed.

Lemma excl_none modes w :
  irq_modes (pdev w) = modes -> (forall b, ~ host_enabled w b) -> excl_inv modes w.
Proof. intros Hm Hn. split; [exact Hm|]. split; auto. Qed.

Lemma excl_unarmed modes w b w' :
  excl_inv modes w ->
  has_mode w (mode_of b) = true ->
  irq_modes (pdev w') = irq_modes (pdev w) ->
  ~ intx_armed w' ->
  host_state (msis_of (negb b) (pdev w')) = host_state (msis_of (negb b) (pdev w)) ->
  excl_inv modes w'.
Proof.
  intros (Hm & Habs & _) Hb Hmo Hna Hot. split; [congruence|]. split.
  - intros b' Hb'. unfold has_mode in Hb', Hb. rewrite Hmo in Hb'.
    destruct (Bool.eqb_spec b' b) as [->|Hne]; [congruence|].
    assert (b' = negb b) as -> by (destruct b, b'; try reflexivity; congruence).
    unfold host_enabled. rewrite Hot. apply Habs. exact Hb'.
  - intros Ha. contradiction.
Qed.

Lemma cap_step_other b w w' :
  cap_step b w w' ->
  irq_modes (pdev w') = irq_modes (pdev w)
  /\ intx_fd (pdev w') = intx_fd (pdev w)
  /\ msis_of (negb b) (pdev w') = msis_of (negb b) (pdev w).
Proof. intros (_ & B & C). injection C as ?. auto. Qed.

Lemma enable_msis_excl host b modes w :
  excl_inv modes w ->
  has_mode w (mode_of b) = true ->
  wp (vfio_pci_enable_msis host b) (fun _ w' => excl_inv modes w') w.
Proof.
  intros HK Hb. unfold vfio_pci_enable_msis.
  wp_step. wp_step. wp_step; [wp_steps; exact HK|].
  wp_step. wp_step. wp_step.
  eapply wp_mono; [apply maybe_disable_intx|].
  intros ? w1 (HI & Hfd & _). cbv beta.
  assert (Hm := intx_step_msis (negb b) _ _ HI).
  assert (Hmo := intx_step_modes _ _ HI).
  assert (Hna : ~ intx_armed w1).
  { intros (Ha1 & Ha2). apply Ha2, Hfd. unfold has_mode in Ha1.
    rewrite Hmo in Ha1. exact Ha1. }
  assert (Hfin : forall w', irq_modes (pdev w') = irq_modes (pdev w1) ->
                  intx_fd (pdev w') = intx_fd (pdev w1) ->
                  msis_of (negb b) (pdev w') = msis_of (negb b) (pdev w1) ->
                  excl_inv modes w').
  { intros w' E1 E2 E3. apply (excl_unarmed modes w b); auto; try congruence.
    intros (Ha1 & Ha2). apply Hna. split; [|congruence].
    unfold has_mode in *. congruence. }
  wp_step.
  - wp_step.
    eapply wp_mono;
      [apply (fill_eventfds_step b _ _ w1 w1 (cap_step_refl b w1) eq_refl eq_refl)|].
    intros empty w2 (HC & _ & _). cbv beta.
    destruct (cap_step_other _ _ _ HC) as (C1 & C2 & C3).
    unfold_host. wp_steps; apply Hfin; destruct b; projp; congruence.
  - wp_step; [wp_steps; apply Hfin; reflexivity|].
    eapply wp_mono.
    + apply (update_vectors_step host b _ 0 w1 w1 (cap_step_refl b w1) eq_refl).
      rewrite (intx_step_msis b _ _ HI).
      apply orb_false_iff in Heqb1 as [_ Hb'].
      cbn [negb andb] in Hb'. unfold truthy in Hb'.
      apply negb_false_iff, Z.eqb_eq in Hb'. exact Hb'.
    + intros r w' (HC & _).
      destruct (cap_step_other _ _ _ HC) as (C1 & C2 & C3).
      apply Hfin; assumption.
Qed.


Lemma has_mode_other modes b :
  single_capability modes ->
  truthy (Z.land modes (mode_of b)) = true ->
  truthy (Z.land modes (mode_of (negb b))) = false.
Proof.
  intros Hs Hb. destruct (truthy (Z.land modes (mode_of (negb b)))) eqn:E; [|reflexivity].
  exfalso. apply Hs. destruct b; cbn [mode_of negb] in *; auto.
Qed.

Lemma disable_msis_excl host b modes w :
  single_capability modes ->
  excl_inv modes w ->
  has_mode w (mode_of b) = true ->
  wp (vfio_pci_disable_msis host b) (fun _ w' => excl_inv modes w') w.
Proof.
  intros Hs HK Hb. unfold vfio_pci_disable_msis. unfold_host.
  wp_step. wp_step. wp_step; [wp_steps; exact HK|].
  wp_step. wp_step. wp_step. wp_step. wp_step. wp_step. wp_step. wp_step.
  - wp_steps. revert HK. apply excl_inv_kview. reflexivity.
  - wp_step. wp_step. wp_step. wp_step. wp_step.
    eapply wp_mono; [apply maybe_enable_intx|].
    intros r' w' HI. cbv beta. wp_steps.
    destruct HK as (Hm & Habs & _).
    apply excl_none.
    + rewrite (intx_step_modes _ _ HI). destruct b; projp; exact Hm.
    + intros b'. unfold host_enabled. rewrite (intx_step_msis b' _ _ HI).
      destruct (Bool.eqb_spec b' b) as [->|Hne].
      * destruct b; projp; rewrite is_enabled_set_empty, is_enabled_set;
          intros X; apply X; reflexivity.
      * assert (b' = negb b) as -> by (destruct b, b'; try reflexivity; congruence).
        assert (Hno : ~ host_enabled w (negb b)).
        { apply Habs. unfold has_mode in *. rewrite Hm in *.
          apply has_mode_other; assumption. }
        unfold host_enabled in Hno. destruct b; projp; exact Hno.
Qed.

Lemma excl_inv_guest modes b g w :
  excl_inv modes w ->
  excl_inv modes
    (set_pdev (set_msis b (set_guest_state g (msis_of b (pdev w))) (pdev w)) w).
Proof. apply excl_inv_kview. destruct b; reflexivity. Qed.

Lemma has_mode_guest m b g w :
  has_mode (set_pdev (set_msis b (set_guest_state g (msis_of b (pdev w))) (pdev w)) w) m
  = has_mode w m.
Proof. destruct b; reflexivity. Qed.

Lemma msix_cap_write_excl host off bytes sz modes w :
  single_capability modes ->
  excl_inv modes w ->
  has_mode w VFIO_PCI_IRQ_MODE_MSIX = true ->
  wp (vfio_pci_msix_cap_write host off bytes sz) (fun _ w' => excl_inv modes w') w.
Proof.
  intros Hs HK Hb. unfold vfio_pci_msix_cap_write.
  wp_step. wp_step. wp_step; [wp_steps; exact HK|].
  wp_step; [|wp_steps].
  wp_step. wp_step. wp_step. wp_step. wp_step.
  - wp_step. eapply wp_mono.
    + apply (enable_msis_excl host true modes).
      * apply excl_inv_guest, excl_inv_guest, HK.
      * exact Hb.
    + intros r w' HK'. cbv beta. wp_steps; revert HK'; apply excl_inv_kview; reflexivity.
  - wp_step. eapply wp_mono.
    + apply (disable_msis_excl host true modes _ Hs).
      * apply excl_inv_guest, excl_inv_guest, HK.
      * exact Hb.
    + intros r w' HK'. cbv beta. wp_steps; revert HK'; apply excl_inv_kview; reflexivity.
Qed.

Lemma msi_cap_write_excl host off bytes sz modes w :
  single_capability modes ->
  excl_inv modes w ->
  has_mode w VFIO_PCI_IRQ_MODE_MSI = true ->
  wp (vfio_pci_msi_cap_write host off bytes sz) (fun _ w' => excl_inv modes w') w.
Proof.
  intros Hs HK Hb. unfold vfio_pci_msi_cap_write.
  wp_step. wp_step. wp_step.
  eapply wp_mono; [apply (msi_vector_write_frame host _ _ _ w w (frame_refl w))|].
  intros r w1 HF. cbv beta.
  assert (HK1 := excl_inv_frame _ _ _ HF HK).
  assert (Hb1 : has_mode w1 VFIO_PCI_IRQ_MODE_MSI = true).
  { pose proof (frame_kview _ _ HF) as E. unfold kview in E. injection E as E1 _ _ _.
    unfold has_mode in *. congruence. }
  wp_step; [wp_steps; exact HK1|].
  wp_step; [wp_steps; exact HK1|].
  wp_step; [|wp_steps].
  wp_step. wp_step. wp_step. wp_step. wp_step.
  - wp_step. eapply wp_mono.
    + apply (disable_msis_excl host false modes _ Hs).
      * apply excl_inv_guest, HK1.
      * exact Hb1.
    + intros r' w' HK'. cbv beta. wp_steps. exact HK'.
  - wp_step. wp_step. wp_step.
    eapply wp_mono; [apply (program_vectors_frame host _ _ _ _ _ (frame_refl _))|].
    intros ? w2 HF2. cbv beta. wp_step.
    eapply wp_mono.
    + apply (enable_msis_excl host false modes).
      * apply (excl_inv_frame _ _ _ HF2). apply excl_inv_guest, HK1.
      * pose proof (frame_kview _ _ HF2) as E. unfold kview in E.
        injection E as E1 _ _ _. unfold has_mode in *. rewrite E1. exact Hb1.
    + intros r' w' HK'. cbv beta.
      wp_steps; revert HK'; apply excl_inv_kview; reflexivity.
Qed.

(** ** The invariant on vectors, descriptors and bindings *)

Lemma vec_inv_view w w' : vec_view w' = vec_view w -> vec_inv w -> vec_inv w'.
Proof.
  unfold vec_view. intros E H. injection E as E1 E2 E3 E4 E5 E6 E7 E8.
  assert (Hv : forall b i, vec w' b i = vec w b i).
  { intros [] i; unfold vec; cbn [msis_of]; congruence. }
  assert (Ha : intx_armed w' <-> intx_armed w).
  { unfold intx_armed, has_mode. rewrite E3, E4. reflexivity. }
  destruct H. constructor; rewrite ?E4, ?E5, ?E6, ?E7, ?E8;
    try setoid_rewrite Hv; try rewrite Ha; assumption.
Qed.

Lemma vec_inv_law w : vec_inv w -> mask_route_law w.
Proof.
  intros H b i e Hv. split.
  - intros Hm. exact (inv_vec_masked w H b i e Hv Hm (gsi e)).
  - intros Hn Hm.
    destruct (Z.eq_dec (msi_is_masked (e_host_state e)) 0) as [E|E]; [|contradiction].
    destruct (inv_vec_unmasked w H b i e Hv E) as (_ & _ & Hin & _).
    contradiction.
Qed.

Lemma filter_le_mono (n : Z) (open : list Z) :
  (length (filter (fun x => (n + 1 <= x)%Z) open)
   <= length (filter (fun x => (n <= x)%Z) open))%nat.
Proof.
  induction open as [|a l IH]; [reflexivity|].
  rewrite !filter_cons. repeat case_decide; cbn [length]; lia.
Qed.

Lemma filter_le_shrink (n : Z) (open : list Z) :
  n ∈ open ->
  (length (filter (fun x => (n + 1 <= x)%Z) open)
   < length (filter (fun x => (n <= x)%Z) open))%nat.
Proof.
  induction open as [|a l IH]; intros Hin.
  - apply elem_of_nil in Hin. contradiction.
  - rewrite !filter_cons. pose proof (filter_le_mono n l).
    apply elem_of_cons in Hin as [<-|Hin].
    + repeat case_decide; cbn [length]; lia.
    + specialize (IH Hin). repeat case_decide; cbn [length]; lia.
Qed.

Lemma lowest_free_fresh fuel : forall (n : Z) (open : list Z),
  (length (filter (fun x => (n <= x)%Z) open) <= fuel)%nat ->
  lowest_free fuel n open ∉ open.
Proof.
  induction fuel as [|f IH]; intros n open Hlen; cbn [lowest_free].
  - intros Hin. pose proof (filter_le_shrink n open Hin). lia.
  - destruct (bool_decide (n ∈ open)) eqn:E.
    + apply bool_decide_eq_true in E. apply IH.
      pose proof (filter_le_shrink n open E). lia.
    + apply bool_decide_eq_false in E. exact E.
Qed.

Lemma fresh_fd_fresh (open : list Z) : fresh_fd open ∉ open.
Proof. apply lowest_free_fresh. apply length_filter. Qed.

Lemma intx_same_armed w w' : intx_same w w' -> (intx_armed w' <-> intx_armed w).
Proof.
  unfold intx_same, intx_armed, has_mode. intros E. injection E as -> -> _ _.
  reflexivity.
Qed.

(** Case analysis on which vector a lookup in the updated world hits. *)
Ltac vcase Hupd H :=
  rewrite Hupd in H;
  let Hd := fresh "Hd" in
  destruct (decide _) as [[-> ->]|Hd] in H;
  [ injection H as <- | ].

Lemma neg_not_routed w fd g : vec_inv w -> fd < 0 -> (g, fd) ∉ irqfds w.
Proof.
  intros H Hneg Hin. apply (inv_route_open w H) in Hin.
  apply (inv_open_nonneg w H) in Hin. lia.
Qed.

Lemma unmasked_alloc w b i e :
  vec_inv w -> vec w b i = Some e -> eventfd e < 0 ->
  msi_is_masked (e_host_state e) <> 0.
Proof.
  intros H Hv Hneg E. destruct (inv_vec_unmasked w H b i e Hv E) as (Hp & _). lia.
Qed.

(** A store into a vector that changes neither its host state nor an
    allocated eventfd, nor the gsi of an unmasked vector. *)
Lemma vec_inv_update w w' b i e e' :
  vec_inv w -> vec w b i = Some e ->
  vec_upd w w' b i e' -> intx_same w w' ->
  open_fds w' = open_fds w -> irqfds w' = irqfds w ->
  e_host_state e' = e_host_state e ->
  (eventfd e' = eventfd e \/ (eventfd e < 0 /\ eventfd e' < 0)) ->
  (gsi e' = gsi e \/ msi_is_masked (e_host_state e) <> 0) ->
  vec_inv w'.
Proof.
  intros H Hv Hupd Hint Ho Hr Hh Hfd Hg.
  pose proof (intx_same_armed _ _ Hint) as Harm.
  unfold intx_same in Hint. injection Hint as I1 I2 I3 I4.
  destruct H as [P1 P2 P3 P4 P5 P6 P7 P8 P9].
  assert (Hnr : forall fd g, fd < 0 -> (g, fd) ∉ irqfds w).
  { intros fd g Hneg Hin. apply P2, P1 in Hin. lia. }
  constructor; rewrite ?Ho, ?Hr, ?I2, ?I3, ?I4; try rewrite Harm; auto.
  - intros b1 i1 e1 H1 Hp. vcase Hupd H1; [|eauto].
    destruct Hfd as [E|[_ E]]; [|lia]. rewrite E in *. eauto.
  - intros b1 i1 e1 b2 i2 e2 H1 H2 Hp He.
    vcase Hupd H1; vcase Hupd H2; auto.
    + destruct Hfd as [E|[_ E]]; [|lia]. rewrite E in *.
      destruct (P4 _ _ _ _ _ _ Hv H2 Hp He) as [-> ->]. exfalso. apply Hd. auto.
    + destruct Hfd as [E|[_ E]]; [|lia]. rewrite E in *.
      destruct (P4 _ _ _ _ _ _ H1 Hv Hp He) as [-> ->]. exfalso. apply Hd. auto.
    + eauto.
  - intros b1 i1 e1 H1 Hm. vcase Hupd H1; [|eauto].
    rewrite Hh in Hm. destruct Hfd as [E|[_ E]]; [rewrite E; eauto|].
    intros g. apply Hnr. exact E.
  - intros b1 i1 e1 H1 Hm. vcase Hupd H1; [|eauto].
    rewrite Hh in Hm. destruct (P6 _ _ _ Hv Hm) as (A & B & C & D).
    destruct Hfd as [E|[E _]]; [|lia]. destruct Hg as [G|G]; [|contradiction].
    rewrite E, G. auto.
  - intros Ha b1 i1 e1 H1. vcase Hupd H1; [|eauto].
    destruct Hfd as [E|[_ E]]; [rewrite E; eauto|].
    destruct (P7 Ha) as [A B]. apply P1 in A, B. lia.
Qed.

(** A fresh eventfd for a vector that had none. *)
Lemma vec_inv_alloc w w' b i e :
  vec_inv w -> vec w b i = Some e -> eventfd e < 0 ->
  vec_upd w w' b i (set_entry_eventfd (fresh_fd (open_fds w)) e) ->
  intx_same w w' ->
  open_fds w' = fresh_fd (open_fds w) :: open_fds w -> irqfds w' = irqfds w ->
  vec_inv w'.
Proof.
  intros H Hv Hneg Hupd Hint Ho Hr.
  pose proof (intx_same_armed _ _ Hint) as Harm.
  pose proof (unmasked_alloc _ _ _ _ H Hv Hneg) as Hmasked.
  unfold intx_same in Hint. injection Hint as I1 I2 I3 I4.
  pose proof (fresh_fd_fresh (open_fds w)) as Hfresh.
  pose proof (fresh_fd_nonneg (open_fds w)) as Hnn.
  set (fd := fresh_fd (open_fds w)) in *.
  destruct H as [P1 P2 P3 P4 P5 P6 P7 P8 P9].
  constructor; rewrite ?Ho, ?Hr, ?I2, ?I3, ?I4; try rewrite Harm; auto.
  - intros x Hx. apply elem_of_cons in Hx as [->|Hx]; auto.
  - intros g x Hx. apply elem_of_cons. right. eauto.
  - intros b1 i1 e1 H1 Hp. apply elem_of_cons. vcase Hupd H1; [left; reflexivity|].
    right. eauto.
  - intros b1 i1 e1 b2 i2 e2 H1 H2 Hp He.
    vcase Hupd H1; vcase Hupd H2; auto.
    + cbn [eventfd set_entry_eventfd] in *. exfalso. apply Hfresh.
      rewrite He. apply (P3 _ _ _ H2). lia.
    + cbn [eventfd set_entry_eventfd] in *. exfalso. apply Hfresh.
      rewrite <- He. apply (P3 _ _ _ H1). lia.
    + eauto.
  - intros b1 i1 e1 H1 Hm. vcase Hupd H1; [|eauto].
    intros g Hin. apply P2 in Hin. contradiction.
  - intros b1 i1 e1 H1 Hm. vcase Hupd H1; [|eauto]. contradiction.
  - intros Ha. destruct (P7 Ha). split; apply elem_of_cons; auto.
  - intros Ha b1 i1 e1 H1. vcase Hupd H1; [|eauto].
    destruct (P7 Ha) as [A B]. cbn [eventfd set_entry_eventfd].
    split; intros E; apply Hfresh; rewrite E; assumption.
Qed.

(** Installing the irqfd binding of a masked vector and unmasking it. *)
Lemma vec_inv_unmask w w' b i e h' :
  vec_inv w -> vec w b i = Some e ->
  msi_is_masked (e_host_state e) <> 0 -> 0 <= eventfd e -> 0 <= gsi e ->
  msi_is_masked h' = 0 ->
  vec_upd w w' b i (set_entry_host h' e) -> intx_same w w' ->
  open_fds w' = open_fds w -> irqfds w' = (gsi e, eventfd e) :: irqfds w ->
  vec_inv w'.
Proof.
  intros H Hv Hm Hfd Hg Hh' Hupd Hint Ho Hr.
  pose proof (intx_same_armed _ _ Hint) as Harm.
  unfold intx_same in Hint. injection Hint as I1 I2 I3 I4.
  destruct H as [P1 P2 P3 P4 P5 P6 P7 P8 P9].
  constructor; rewrite ?Ho, ?Hr, ?I2, ?I3, ?I4; try rewrite Harm; auto.
  - intros g x Hx. apply elem_of_cons in Hx as [E|Hx]; [|eauto].
    injection E as -> ->. eauto.
  - intros b1 i1 e1 H1 Hp. vcase Hupd H1; cbn [eventfd set_entry_host] in *; eauto.
  - intros b1 i1 e1 b2 i2 e2 H1 H2 Hp He.
    vcase Hupd H1; vcase Hupd H2; auto; cbn [eventfd set_entry_host] in *.
    + destruct (P4 _ _ _ _ _ _ Hv H2 Hp He) as [-> ->]. exfalso. apply Hd. auto.
    + destruct (P4 _ _ _ _ _ _ H1 Hv Hp He) as [-> ->]. exfalso. apply Hd. auto.
    + eauto.
  - intros b1 i1 e1 H1 Hm1. vcase Hupd H1; [contradiction|].
    intros g Hin. apply elem_of_cons in Hin as [E|Hin]; [|exact (P5 _ _ _ H1 Hm1 g Hin)].
    injection E as -> E.
    destruct (Z.eq_dec (eventfd e1) (-1)) as [Hneg|Hpos].
    + lia.
    + assert (0 <= eventfd e1) by lia.
      destruct (P4 _ _ _ _ _ _ H1 Hv ltac:(assumption) E) as [-> ->].
      apply Hd. auto.
  - intros b1 i1 e1 H1 Hm1. vcase Hupd H1; cbn [eventfd gsi set_entry_host].
    + split; [exact Hfd|]. split; [exact Hg|]. split; [apply list_elem_of_here|].
      intros g Hin. apply elem_of_cons in Hin as [E|Hin]; [congruence|].
      exfalso. exact (P5 _ _ _ Hv Hm g Hin).
    + destruct (P6 _ _ _ H1 Hm1) as (A & B & C & D).
      split; [exact A|]. split; [exact B|]. split; [apply list_elem_of_further, C|].
      intros g Hin. apply elem_of_cons in Hin as [E|Hin]; [|auto].
      injection E as -> E.
      destruct (P4 _ _ _ _ _ _ H1 Hv A E) as [-> ->]. exfalso. apply Hd. auto.
  - intros Ha b1 i1 e1 H1. vcase Hupd H1; cbn [eventfd set_entry_host] in *; eauto.
  - intros Ha. destruct (P9 Ha) as [A B]. destruct (P8 Ha _ _ _ Hv) as [C D].
    split.
    + intros g Hin. apply elem_of_cons in Hin as [E|Hin]; [congruence|auto].
    + intros g Hin. apply elem_of_cons in Hin as [E|Hin]; [congruence|].
      exact (B g Hin).
Qed.

(** Removing the irqfd binding of an unmasked vector and masking it. *)
Lemma vec_inv_mask w w' b i e h' :
  vec_inv w -> vec w b i = Some e ->
  msi_is_masked (e_host_state e) = 0 -> msi_is_masked h' <> 0 ->
  vec_upd w w' b i (set_entry_host h' e) -> intx_same w w' ->
  open_fds w' = open_fds w ->
  irqfds w' = filter (fun r => r <> (gsi e, eventfd e)) (irqfds w) ->
  vec_inv w'.
Proof.
  intros H Hv Hm Hh' Hupd Hint Ho Hr.
  pose proof (intx_same_armed _ _ Hint) as Harm.
  unfold intx_same in Hint. injection Hint as I1 I2 I3 I4.
  destruct H as [P1 P2 P3 P4 P5 P6 P7 P8 P9].
  destruct (P6 _ _ _ Hv Hm) as (Q1 & Q2 & Q3 & Q4).
  constructor; rewrite ?Ho, ?Hr, ?I2, ?I3, ?I4; try rewrite Harm; auto.
  - intros g x Hx. apply list_elem_of_filter in Hx as [_ Hx]. eauto.
  - intros b1 i1 e1 H1 Hp. vcase Hupd H1; cbn [eventfd set_entry_host] in *; eauto.
  - intros b1 i1 e1 b2 i2 e2 H1 H2 Hp He.
    vcase Hupd H1; vcase Hupd H2; auto; cbn [eventfd set_entry_host] in *.
    + destruct (P4 _ _ _ _ _ _ Hv H2 Hp He) as [-> ->]. exfalso. apply Hd. auto.
    + destruct (P4 _ _ _ _ _ _ H1 Hv Hp He) as [-> ->]. exfalso. apply Hd. auto.
    + eauto.
  - intros b1 i1 e1 H1 Hm1. vcase Hupd H1; cbn [eventfd set_entry_host] in *.
    + intros g Hin. apply list_elem_of_filter in Hin as [Hne Hin].
      apply Hne. rewrite (Q4 g Hin). reflexivity.
    + intros g Hin. apply list_elem_of_filter in Hin as [_ Hin].
      exact (P5 _ _ _ H1 Hm1 g Hin).
  - intros b1 i1 e1 H1 Hm1. vcase Hupd H1; cbn [e_host_state set_entry_host] in *;
      [contradiction|].
    destruct (P6 _ _ _ H1 Hm1) as (A & B & C & D).
    split; [exact A|]. split; [exact B|]. split.
    + apply list_elem_of_filter. split; [|exact C]. intros E. injection E as _ E.
      destruct (P4 _ _ _ _ _ _ H1 Hv A E) as [-> ->]. apply Hd. auto.
    + intros g Hin. apply list_elem_of_filter in Hin as [_ Hin]. auto.
  - intros Ha b1 i1 e1 H1. vcase Hupd H1; cbn [eventfd set_entry_host] in *; eauto.
  - intros Ha. destruct (P9 Ha) as [A B]. split.
    + intros g Hin. apply list_elem_of_filter in Hin as [_ Hin]. auto.
    + intros g Hin. apply list_elem_of_filter in Hin as [_ Hin]. exact (B g Hin).
Qed.

(** The vectors and INTx fields as before, more descriptors open, the
    same bindings. *)
Lemma vec_inv_sets w w' :
  vec_inv w ->
  (forall b i, vec w' b i = vec w b i) -> intx_same w w' ->
  (forall fd, fd ∈ open_fds w -> fd ∈ open_fds w') ->
  (forall fd, fd ∈ open_fds w' -> 0 <= fd) ->
  (forall r, r ∈ irqfds w' <-> r ∈ irqfds w) ->
  vec_inv w'.
Proof.
  intros H Hvec Hint Hsub Hnn Hr.
  pose proof (intx_same_armed _ _ Hint) as Harm.
  unfold intx_same in Hint. injection Hint as I1 I2 I3 I4.
  destruct H as [P1 P2 P3 P4 P5 P6 P7 P8 P9].
  constructor; rewrite ?I2, ?I3, ?I4; try rewrite Harm;
    try setoid_rewrite Hvec; try setoid_rewrite Hr; eauto.
  - intros Ha. destruct (P7 Ha). auto.
Qed.

(** [vec] through the setters that leave the device alone. *)
Lemma vec_push_diag l w b i : vec (push_diag l w) b i = vec w b i.
Proof. reflexivity. Qed.
Lemma vec_push_log c r w b i : vec (push_log c r w) b i = vec w b i.
Proof. reflexivity. Qed.
Lemma vec_set_errno x w b i : vec (set_errno x w) b i = vec w b i.
Proof. reflexivity. Qed.
Lemma vec_set_open_fds x w b i : vec (set_open_fds x w) b i = vec w b i.
Proof. reflexivity. Qed.
Lemma vec_set_irqfds x w b i : vec (set_irqfds x w) b i = vec w b i.
Proof. reflexivity. Qed.

Ltac vec_strip :=
  repeat match goal with
         | |- context [vec (push_diag ?l ?w) ?b ?i] => rewrite (vec_push_diag l w b i)
         | |- context [vec (push_log ?c ?r ?w) ?b ?i] => rewrite (vec_push_log c r w b i)
         | |- context [vec (set_errno ?x ?w) ?b ?i] => rewrite (vec_set_errno x w b i)
         | |- context [vec (set_open_fds ?x ?w) ?b ?i] => rewrite (vec_set_open_fds x w b i)
         | |- context [vec (set_irqfds ?x ?w) ?b ?i] => rewrite (vec_set_irqfds x w b i)
         | |- context [vec (put_eventfd ?b0 ?i0 ?x ?w) ?b ?i] =>
             rewrite (vec_put_eventfd b0 i0 x w b i)
         end.

(** [vec_upd w W b i e'] for a chain [W] with one [put_entry b i e']. *)
Ltac vec_upd_solve :=
  let b' := fresh "b'" in let i' := fresh "i'" in
  intros b' i'; vec_strip;
  rewrite vec_put_entry by assumption;
  vec_strip; reflexivity.

Lemma vec_lt w b i e :
  vec w b i = Some e -> (i < length (entries (msis_of b (pdev w))))%nat.
Proof. unfold vec. apply lookup_lt_Some. Qed.

Ltac intx_same_solve := unfold intx_same; destruct_bools; reflexivity
with destruct_bools :=
  repeat match goal with
         | b : bool |- _ => destruct b
         end.

Lemma update_msi_entry_inv host b i w :
  vec_inv w ->
  wp (vfio_pci_update_msi_entry host b i) (fun _ w' => vec_inv w') w.
Proof.
  intros HI. unfold vfio_pci_update_msi_entry.
  (* the eventfd *)
  apply wp_or_continue.
  eapply (wp_mono _ (fun o w1 =>
            vec_inv w1 /\ (o = None -> exists e, vec w1 b i = Some e /\ 0 <= eventfd e))).
  { unfold_host. wp_steps.
    - split; [|discriminate].
      eapply (vec_inv_update w _ b i e (set_entry_eventfd (-1) e) HI H);
        [vec_upd_solve | intx_same_solve | reflexivity | reflexivity
        | reflexivity | | left; reflexivity].
      right. apply Z.ltb_lt in Heqb0. cbn. lia.
    - discriminate.
    - pose proof (fresh_fd_nonneg (open_fds w)) as Hnn.
      apply Z.ltb_lt in Heqb2. lia.
    - split.
      + apply Z.ltb_lt in Heqb0.
        eapply (vec_inv_alloc w _ b i e HI H Heqb0);
          [vec_upd_solve | intx_same_solve | reflexivity | reflexivity].
      + intros _. eexists. split.
        * vec_strip. rewrite vec_put_entry by assumption.
          rewrite decide_True by auto. reflexivity.
        * apply fresh_fd_nonneg.
    - split; [exact HI|]. intros _. exists e. split; [assumption|].
      apply Z.ltb_ge in Heqb0. exact Heqb0. }
  intros o w1 (HI1 & Hfd1). destruct o as [v|]; [exact HI1|].
  destruct (Hfd1 eq_refl) as (e1 & He1 & Hp1). clear Hfd1 HI w.
  (* the route *)
  apply wp_or_continue.
  eapply (wp_mono _ (fun o w2 =>
            vec_inv w2
            /\ (o = None -> exists e, vec w2 b i = Some e /\ 0 <= eventfd e /\ 0 <= gsi e))).
  { unfold_host. wp_steps.
    all: assert (e = e1) as -> by congruence.
    - split; [|discriminate]. revert HI1. apply vec_inv_view. reflexivity.
    - split.
      + eapply (vec_inv_update w1 _ b i e1
                  (set_entry_gsi (host (length (log w1))) e1) HI1 He1);
          [vec_upd_solve | intx_same_solve | reflexivity | reflexivity
          | reflexivity | left; reflexivity |].
        right. intros E.
        destruct (inv_vec_unmasked w1 HI1 b i e1 He1 E) as (_ & Hg & _).
        apply Z.ltb_lt in Heqb0. lia.
      + intros _. eexists. split; [|split].
        * vec_strip. rewrite vec_put_entry by assumption.
          rewrite decide_True by auto. reflexivity.
        * exact Hp1.
        * apply Z.ltb_ge in Heqb1. exact Heqb1.
    - split.
      + revert HI1. apply vec_inv_view. reflexivity.
      + intros _. exists e1. split; [exact He1|]. split; [exact Hp1|].
        apply Z.ltb_ge in Heqb0. exact Heqb0. }
  intros o w2 (HI2 & Hg2). destruct o as [v|]; [exact HI2|].
  destruct (Hg2 eq_refl) as (e2 & He2 & Hp2 & Hgs2). clear Hg2 HI1 He1 Hp1 e1 w1.
  (* the irqfd *)
  wp_step. wp_step. assert (e = e2) as -> by congruence.
  wp_step; [wp_steps; exact HI2|].
  apply Z.eqb_neq in Heqb0.
  unfold_host. wp_steps.
  - revert HI2. apply vec_inv_view. reflexivity.
  - congruence.
  - discriminate.
  - assert (Hm : msi_is_masked (e_host_state e2) <> 0).
    { unfold truthy in Heqb1. apply negb_true_iff, Z.eqb_neq in Heqb1. exact Heqb1. }
    eapply (vec_inv_unmask w2 _ b i e2 _ HI2 He2 Hm Hp2 Hgs2);
      [| vec_upd_solve | intx_same_solve | reflexivity | reflexivity].
    rewrite is_masked_set.
    destruct (truthy (msi_is_masked (e_guest_state e2))) eqn:Eg; [|reflexivity].
    exfalso. unfold truthy in Eg. apply negb_true_iff, Z.eqb_neq in Eg.
    apply Heqb0. unfold msi_is_masked in *.
    pose proof (masked_bit (e_guest_state e2)). pose proof (masked_bit (e_host_state e2)).
    lia.
  - assert (Hm : msi_is_masked (e_host_state e2) = 0).
    { unfold truthy in Heqb1. apply negb_false_iff, Z.eqb_eq in Heqb1. exact Heqb1. }
    eapply (vec_inv_mask w2 _ b i e2 _ HI2 He2 Hm);
      [| vec_upd_solve | intx_same_solve | reflexivity | reflexivity].
    rewrite is_masked_set.
    destruct (truthy (msi_is_masked (e_guest_state e2))) eqn:Eg; [discriminate|].
    exfalso. unfold truthy in Eg. apply negb_false_iff, Z.eqb_eq in Eg.
    apply Heqb0. congruence.
Qed.


(** Arming INTx on two fresh descriptors. *)
Lemma vec_inv_arm w w' t u :
  vec_inv w ->
  t ∉ open_fds w -> u ∉ open_fds w -> 0 <= t -> 0 <= u -> t <> u ->
  (forall b i, vec w' b i = vec w b i) ->
  irq_modes (pdev w') = irq_modes (pdev w) ->
  intx_gsi (pdev w') = intx_gsi (pdev w) ->
  intx_fd (pdev w') = t -> unmask_fd (pdev w') = u ->
  (forall fd, fd ∈ open_fds w' <-> fd = u \/ fd = t \/ fd ∈ open_fds w) ->
  (forall r, r ∈ irqfds w' <-> r = (intx_gsi (pdev w), t) \/ r ∈ irqfds w) ->
  vec_inv w'.
Proof.
  intros H Ht Hu Htn Hun Htu Hvec Hmo Hgsi Hfd Hufd Hopen Hirq.
  destruct H as [P1 P2 P3 P4 P5 P6 P7 P8 P9].
  assert (Hvt : forall b i e, vec w b i = Some e -> eventfd e <> t /\ eventfd e <> u).
  { intros b i e Hv.
    destruct (Z_lt_le_dec (eventfd e) 0) as [Hneg|Hpos]; [lia|].
    pose proof (P3 _ _ _ Hv Hpos). split; intros E; rewrite E in *; contradiction. }
  constructor; rewrite ?Hfd, ?Hufd, ?Hgsi; try setoid_rewrite Hvec;
    try setoid_rewrite Hopen; try setoid_rewrite Hirq.
  - intros fd [->|[->|Hin]]; auto.
  - intros g fd [E|Hin]; [injection E as -> ->; auto|]. right. right. eauto.
  - intros b i e Hv Hp. right. right. eauto.
  - eauto.
  - intros b i e Hv Hm g [E|Hin].
    + injection E as _ E. destruct (Hvt _ _ _ Hv). contradiction.
    + exact (P5 _ _ _ Hv Hm g Hin).
  - intros b i e Hv Hm. destruct (P6 _ _ _ Hv Hm) as (A & B & C & D).
    repeat split; auto. intros g [E|Hin]; [|auto].
    injection E as _ E. destruct (Hvt _ _ _ Hv). contradiction.
  - intros _. auto.
  - intros _ b i e Hv. apply (Hvt _ _ _ Hv).
  - intros _. split.
    + intros g [E|Hin]; [congruence|]. apply P2 in Hin. contradiction.
    + intros g [E|Hin]; [congruence|]. apply P2 in Hin. contradiction.
Qed.

(** Tearing INTx down. *)
Lemma vec_inv_disarm w w' :
  vec_inv w -> intx_armed w ->
  (forall b i, vec w' b i = vec w b i) ->
  irq_modes (pdev w') = irq_modes (pdev w) ->
  intx_fd (pdev w') = -1 ->
  open_fds w' = filter (fun x => x <> unmask_fd (pdev w))
                  (filter (fun x => x <> intx_fd (pdev w)) (open_fds w)) ->
  irqfds w' = filter (fun r => r <> (intx_gsi (pdev w), intx_fd (pdev w))) (irqfds w) ->
  vec_inv w'.
Proof.
  intros H Ha Hvec Hmo Hfd Hopen Hirq.
  destruct H as [P1 P2 P3 P4 P5 P6 P7 P8 P9].
  destruct (P9 Ha) as [R1 R2].
  assert (Hna : ~ intx_armed w') by (intros [_ X]; contradiction).
  constructor; try (intros X; contradiction);
    rewrite ?Hopen, ?Hirq; try setoid_rewrite Hvec.
  - intros fd Hin. apply list_elem_of_filter in Hin as [_ Hin].
    apply list_elem_of_filter in Hin as [_ Hin]. auto.
  - intros g fd Hin. apply list_elem_of_filter in Hin as [Hne Hin].
    apply list_elem_of_filter. split.
    + intros ->. exact (R2 g Hin).
    + apply list_elem_of_filter. split; [|eauto].
      intros ->. apply Hne. rewrite (R1 g Hin). reflexivity.
  - intros b i e Hv Hp. destruct (P8 Ha _ _ _ Hv) as [A B].
    apply list_elem_of_filter. split; [exact B|].
    apply list_elem_of_filter. split; [exact A|]. eauto.
  - eauto.
  - intros b i e Hv Hm g Hin. apply list_elem_of_filter in Hin as [_ Hin].
    exact (P5 _ _ _ Hv Hm g Hin).
  - intros b i e Hv Hm. destruct (P6 _ _ _ Hv Hm) as (A & B & C & D).
    destruct (P8 Ha _ _ _ Hv) as [E1 E2].
    repeat split; auto.
    + apply list_elem_of_filter. split; [|exact C]. intros E. injection E as _ E.
      contradiction.
    + intros g Hin. apply list_elem_of_filter in Hin as [_ Hin]. auto.
Qed.

Lemma elem_of_filter_ne (x y : Z) (l : list Z) :
  x ∈ filter (fun z => z <> y) l <-> x <> y /\ x ∈ l.
Proof. rewrite list_elem_of_filter. reflexivity. Qed.

Lemma disable_intx_inv host w :
  vec_inv w -> has_mode w VFIO_PCI_IRQ_MODE_INTX = true ->
  wp (vfio_pci_disable_intx host) (fun _ w' => vec_inv w') w.
Proof.
  intros HI Hmode. unfold vfio_pci_disable_intx. unfold_host. wp_steps; [exact HI|].
  apply Z.eqb_neq in Heqb.
  apply (vec_inv_disarm w); try reflexivity; auto.
  split; assumption.
Qed.

(** Conditions met on the way, as facts about integers. *)
Ltac zify_bools :=
  repeat match goal with
         | H : (_ <? _) = true |- _ => apply Z.ltb_lt in H
         | H : (_ <? _) = false |- _ => apply Z.ltb_ge in H
         | H : (_ =? _) = true |- _ => apply Z.eqb_eq in H
         | H : (_ =? _) = false |- _ => apply Z.eqb_neq in H
         | H : (_ >=? _) = true |- _ => rewrite Z.geb_leb in H; apply Z.leb_le in H
         | H : (_ >=? _) = false |- _ => rewrite Z.geb_leb in H; apply Z.leb_gt in H
         | H : negb _ = true |- _ => apply negb_true_iff in H
         | H : negb _ = false |- _ => apply negb_false_iff in H
         | H : truthy _ = _ |- _ => unfold truthy in H
         end.

(** Membership in the descriptor and binding tables after closes and
    deletions. *)
Ltac mem_close :=
  subst; auto; try contradiction; try congruence;
  try match goal with
      | H : (_, _) = (_, _) |- _ => injection H; intros; subst; eauto
      end.
Ltac mem_solve :=
  proj; intros;
  repeat (rewrite list_elem_of_filter in * || rewrite elem_of_cons in * );
  solve [intuition mem_close].

Lemma enable_intx_inv host w :
  vec_inv w -> has_mode w VFIO_PCI_IRQ_MODE_INTX = true ->
  wp (vfio_pci_enable_intx host) (fun _ w' => vec_inv w') w.
Proof.
  intros HI Hmode. unfold vfio_pci_enable_intx. unfold_host.
  pose proof (fresh_fd_fresh (open_fds w)) as Ft.
  pose proof (fresh_fd_nonneg (open_fds w)) as Nt.
  pose proof (fresh_fd_fresh (fresh_fd (open_fds w) :: open_fds w)) as Fu.
  pose proof (fresh_fd_nonneg (fresh_fd (open_fds w) :: open_fds w)) as Nu.
  wp_steps.
  all: try exact HI.
  all: zify_bools; try lia.
  all: proj.
  all: set (t := fresh_fd (open_fds w)) in *.
  all: set (u := fresh_fd (t :: open_fds w)) in *.
  all: assert (Hut : u <> t) by (intros E; apply Fu; rewrite E; apply list_elem_of_here).
  all: assert (Huo : u ∉ open_fds w) by (intros E; apply Fu; apply list_elem_of_further, E).
  all: assert (Hgt : forall g, (g, t) ∉ irqfds w)
    by (intros g E; apply Ft; exact (inv_route_open w HI _ _ E)).
  all: pose proof (inv_open_nonneg w HI) as Hnn.
  all: clear Fu.
  all: try (apply (vec_inv_sets w _ HI);
            [ intros; reflexivity | reflexivity | mem_solve | mem_solve | mem_solve ]).
  apply (vec_inv_arm w _ t u HI); try reflexivity; auto.
  - proj. intros fd. rewrite !elem_of_cons. reflexivity.
  - proj. intros r. rewrite elem_of_cons. reflexivity.
Qed.

(** ** The invariant through the capability code *)

Lemma wp_conj {A} (c : M A) (Q1 Q2 : A -> world -> Prop) w :
  wp c Q1 w -> wp c Q2 w -> wp c (fun a w' => Q1 a w' /\ Q2 a w') w.
Proof. unfold wp. destruct (c w); auto. Qed.

Lemma cap_step_vec_view b w w' : cap_step b w w' -> vec_view w' = vec_view w.
Proof.
  intros (A & B & C). unfold cap_static in A. unfold vec_view.
  injection A as A1 A2 A3 A4 A5 A6 A7 A8 A9 A10.
  injection C as C1 C2 C3 C4 C5 C6 C7 C8 C9 C10.
  destruct b; cbn [msis_of negb] in *; congruence.
Qed.

Lemma cap_step_inv b w w' : cap_step b w w' -> vec_inv w -> vec_inv w'.
Proof. intros H. apply vec_inv_view, (cap_step_vec_view b), H. Qed.

Lemma update_vectors_cap host b idxs : forall r0 w0 w,
  cap_step b w0 w ->
  wp (update_vectors host b idxs r0) (fun _ w' => cap_step b w0 w') w.
Proof.
  induction idxs as [|i rest IH]; intros r0 w0 w HR; cbn [update_vectors].
  - wp_steps. exact HR.
  - unfold_host. wp_steps; try (apply IH); try assumption; cap_leaf.
Qed.

(** A store into a vector that keeps its host state, eventfd and gsi. *)
Lemma vec_inv_store b i e e' w :
  vec_inv w -> vec w b i = Some e ->
  e_host_state e' = e_host_state e -> eventfd e' = eventfd e -> gsi e' = gsi e ->
  vec_inv (put_entry b i e' w).
Proof.
  intros HI Hv Hh Hf Hg. pose proof (vec_lt _ _ _ _ Hv) as Hlt.
  eapply (vec_inv_update w _ b i e e' HI Hv);
    [vec_upd_solve | intx_same_solve | reflexivity | reflexivity
    | exact Hh | left; exact Hf | left; exact Hg].
Qed.

Lemma maybe_disable_intx_inv host w :
  vec_inv w ->
  wp (if truthy (Z.land (irq_modes (pdev w)) VFIO_PCI_IRQ_MODE_INTX)
      then vfio_pci_disable_intx host else ret tt)
     (fun _ w1 => vec_inv w1) w.
Proof.
  intros HI. destruct (truthy _) eqn:E.
  - apply disable_intx_inv; assumption.
  - apply wp_ret. exact HI.
Qed.

Lemma enable_msis_inv host b w :
  vec_inv w ->
  wp (vfio_pci_enable_msis host b) (fun _ w' => vec_inv w') w.
Proof.
  intros HI. unfold vfio_pci_enable_msis.
  wp_step. wp_step. wp_step; [wp_steps; exact HI|].
  wp_step. wp_step. wp_step.
  eapply wp_mono; [apply (maybe_disable_intx_inv host w HI)|].
  intros ? w1 HI1. cbv beta.
  wp_step.
  - wp_step.
    eapply wp_mono;
      [apply (fill_eventfds_step b _ _ w1 w1 (cap_step_refl b w1) eq_refl eq_refl)|].
    intros empty w2 (HC & _ & _). cbv beta.
    pose proof (cap_step_inv _ _ _ HC HI1) as HI2.
    unfold_host. wp_steps; revert HI2; apply vec_inv_view; destruct b; reflexivity.
  - wp_step; [wp_steps; exact HI1|].
    eapply wp_mono; [apply (update_vectors_cap host b _ 0 w1 w1 (cap_step_refl b w1))|].
    intros r w' HC. exact (cap_step_inv _ _ _ HC HI1).
Qed.

Lemma disable_msis_inv host b w :
  vec_inv w ->
  wp (vfio_pci_disable_msis host b) (fun _ w' => vec_inv w') w.
Proof.
  intros HI. unfold vfio_pci_disable_msis.
  wp_step. wp_step. wp_step; [wp_steps; exact HI|].
  unfold ioctl_SET_IRQS.
  wp_step. wp_step. wp_step. wp_step. wp_step. wp_step. wp_step. wp_step.
  - wp_steps. revert HI. apply vec_inv_view. reflexivity.
  - wp_step. wp_step. wp_step. wp_step. wp_step.
    match goal with
    | |- wp _ _ ?w1 => assert (HI1 : vec_inv w1)
    end.
    { revert HI. apply vec_inv_view. destruct b; reflexivity. }
    lazymatch goal with
    | |- wp (if ?c then _ else _) _ _ => destruct c eqn:E
    end.
    + eapply wp_mono; [apply (enable_intx_inv host _ HI1)|].
      * unfold has_mode. destruct b; exact E.
      * intros r' w' HI'. cbv beta. wp_steps. exact HI'.
    + wp_steps. exact HI1.
Qed.

Lemma apply_mask_inv host idxs mask : forall w,
  vec_inv w -> wp (apply_mask host idxs mask) (fun _ w' => vec_inv w') w.
Proof.
  induction idxs as [|i rest IH]; intros w HI; cbn [apply_mask].
  - wp_steps. exact HI.
  - unfold shl_int. wp_steps.
    + eapply wp_mono; [apply (update_msi_entry_inv host false i)|].
      * apply (vec_inv_store false i e); auto.
      * intros r w1 HI1. cbv beta. wp_steps. apply IH. exact HI1.
    + apply IH. exact HI.
Qed.

Lemma program_vectors_inv host idxs nr : forall msg w,
  vec_inv w -> wp (program_vectors host idxs nr msg) (fun _ w' => vec_inv w') w.
Proof.
  induction idxs as [|i rest IH]; intros [[lo hi] d] w HI; cbn [program_vectors].
  - wp_steps. exact HI.
  - wp_steps.
    eapply wp_mono; [apply (update_msi_entry_inv host false i)|].
    + apply (vec_inv_store false i e); auto.
    + intros r w1 HI1. cbv beta. wp_steps. apply IH. exact HI1.
Qed.

Lemma msi_vector_write_inv host off bytes sz w :
  vec_inv w ->
  wp (vfio_pci_msi_vector_write host off bytes sz) (fun _ w' => vec_inv w') w.
Proof.
  intros HI. unfold vfio_pci_msi_vector_write. wp_steps; try exact HI.
  eapply wp_mono; [apply current_mask_same|].
  intros mask w1 ->. cbv beta. wp_steps.
  eapply wp_mono; [apply (apply_mask_inv host _ _ w HI)|].
  intros ? w2 HI2. cbv beta. wp_steps. exact HI2.
Qed.

Lemma vec_inv_guest b g w :
  vec_inv w ->
  vec_inv (set_pdev (set_msis b (set_guest_state g (msis_of b (pdev w))) (pdev w)) w).
Proof. apply vec_inv_view. destruct b; reflexivity. Qed.

Lemma msix_cap_write_inv host off bytes sz w :
  vec_inv w ->
  wp (vfio_pci_msix_cap_write host off bytes sz) (fun _ w' => vec_inv w') w.
Proof.
  intros HI. unfold vfio_pci_msix_cap_write.
  wp_step. wp_step. wp_step; [wp_steps; exact HI|].
  wp_step; [|wp_steps].
  wp_step. wp_step. wp_step. wp_step. wp_step.
  - wp_step. eapply wp_mono.
    + apply (enable_msis_inv host true). apply vec_inv_guest, vec_inv_guest, HI.
    + intros r w' HI'. cbv beta. wp_steps; revert HI'; apply vec_inv_view; reflexivity.
  - wp_step. eapply wp_mono.
    + apply (disable_msis_inv host true). apply vec_inv_guest, vec_inv_guest, HI.
    + intros r w' HI'. cbv beta. wp_steps; revert HI'; apply vec_inv_view; reflexivity.
Qed.

Lemma msi_cap_write_inv host off bytes sz w :
  vec_inv w ->
  wp (vfio_pci_msi_cap_write host off bytes sz) (fun _ w' => vec_inv w') w.
Proof.
  intros HI. unfold vfio_pci_msi_cap_write.
  wp_step. wp_step. wp_step.
  eapply wp_mono; [apply (msi_vector_write_inv host _ _ _ w HI)|].
  intros r w1 HI1. cbv beta.
  wp_step; [wp_steps; exact HI1|].
  wp_step; [wp_steps; exact HI1|].
  wp_step; [|wp_steps].
  wp_step. wp_step. wp_step. wp_step. wp_step.
  - wp_step. eapply wp_mono.
    + apply (disable_msis_inv host false). apply vec_inv_guest, HI1.
    + intros r' w' HI'. cbv beta. wp_steps. exact HI'.
  - wp_step. wp_step. wp_step.
    eapply wp_mono; [apply (program_vectors_inv host)|].
    + apply vec_inv_guest, HI1.
    + intros ? w2 HI2. cbv beta. wp_step.
      eapply wp_mono; [apply (enable_msis_inv host false _ HI2)|].
      intros r' w' HI'. cbv beta.
      wp_steps; revert HI'; apply vec_inv_view; reflexivity.
Qed.

Lemma vec_inv_push_log c r w : vec_inv w -> vec_inv (push_log c r w).
Proof. apply vec_inv_view. reflexivity. Qed.
Lemma vec_inv_push_diag l w : vec_inv w -> vec_inv (push_diag l w).
Proof. apply vec_inv_view. reflexivity. Qed.
Lemma vec_inv_set_errno x w : vec_inv w -> vec_inv (set_errno x w).
Proof. apply vec_inv_view. reflexivity. Qed.
Lemma vec_inv_put_eventfd b i fd w : vec_inv w -> vec_inv (put_eventfd b i fd w).
Proof. apply vec_inv_view. destruct b; reflexivity. Qed.
Lemma vec_inv_host b h w :
  vec_inv w ->
  vec_inv (set_pdev (set_msis b (set_host_state h (msis_of b (pdev w))) (pdev w)) w).
Proof. apply vec_inv_view. destruct b; reflexivity. Qed.

(** The invariant at the end of a chain of stores that keep the host
    state, eventfd and gsi of the vectors. *)
Ltac inv_close :=
  lazymatch goal with
  | H : vec_inv ?w |- vec_inv ?w => exact H
  | |- vec_inv (push_log _ _ _) => apply vec_inv_push_log; inv_close
  | |- vec_inv (push_diag _ _) => apply vec_inv_push_diag; inv_close
  | |- vec_inv (set_errno _ _) => apply vec_inv_set_errno; inv_close
  | |- vec_inv (put_eventfd _ _ _ _) => apply vec_inv_put_eventfd; inv_close
  | |- vec_inv (put_entry ?b ?i _ ?w) =>
      match goal with
      | Hv : vec w b i = Some ?e |- _ =>
          apply (vec_inv_store b i e); [inv_close | exact Hv | reflexivity ..]
      end
  | |- vec_inv (set_pdev (set_msis _ (set_guest_state _ _) _) _) =>
      apply vec_inv_guest; inv_close
  | |- vec_inv (set_pdev (set_msis _ (set_host_state _ _) _) _) =>
      apply vec_inv_host; inv_close
  end.

Ltac inv_intro :=
  let H := fresh "HI" in intros ? ? H; cbv beta in H; cbv beta.

(** A step that takes the calls into the capability code as a whole. *)
Ltac inv_step :=
  lazymatch goal with
  | |- wp (vfio_pci_update_msi_entry _ _ _) _ _ =>
      eapply wp_mono; [apply update_msi_entry_inv; inv_close | inv_intro]
  | |- wp (vfio_pci_enable_msis _ _) _ _ =>
      eapply wp_mono; [apply enable_msis_inv; inv_close | inv_intro]
  | |- wp (vfio_pci_disable_msis _ _) _ _ =>
      eapply wp_mono; [apply disable_msis_inv; inv_close | inv_intro]
  | |- wp (vfio_pci_msix_cap_write _ _ _ _) _ _ =>
      eapply wp_mono; [apply msix_cap_write_inv; inv_close | inv_intro]
  | |- wp (vfio_pci_msi_cap_write _ _ _ _) _ _ =>
      eapply wp_mono; [apply msi_cap_write_inv; inv_close | inv_intro]
  | _ => wp_step
  end.

Lemma msix_table_access_inv host addr buf len is_write w :
  vec_inv w ->
  wp (vfio_pci_msix_table_access host addr buf len is_write)
     (fun _ w' => vec_inv w') w.
Proof.
  intros HI. unfold vfio_pci_msix_table_access.
  repeat inv_step; inv_close.
Qed.

Lemma cfg_write_inv host offset bytes sz w :
  vec_inv w ->
  wp (vfio_pci_cfg_write host offset bytes sz) (fun _ w' => vec_inv w') w.
Proof.
  intros HI. unfold vfio_pci_cfg_write, pwrite_cfg, pread_cfg.
  repeat inv_step; inv_close.
Qed.

(** ** What the INTx code does to descriptors and bindings *)

Lemma enable_intx_runs host w :
  twp (vfio_pci_enable_intx host)
    (fun r w' =>
       (intx_fd (pdev w) <> -1 -> r = 0 /\ w' = w)
       /\ (intx_fd (pdev w) = -1 ->
           (r = 0
            /\ 0 <= intx_fd (pdev w') /\ 0 <= unmask_fd (pdev w')
            /\ intx_fd (pdev w') <> unmask_fd (pdev w')
            /\ (intx_fd (pdev w') ∉ open_fds w) /\ (unmask_fd (pdev w') ∉ open_fds w)
            /\ open_fds w' = unmask_fd (pdev w') :: intx_fd (pdev w') :: open_fds w
            /\ irqfds w' = (intx_gsi (pdev w), intx_fd (pdev w')) :: irqfds w)
           \/ (r < 0 /\ pdev w' = pdev w
               /\ (forall fd, fd ∈ open_fds w' <-> fd ∈ open_fds w)
               /\ (forall x, x ∈ irqfds w' -> x ∈ irqfds w)))) w.
Proof.
  unfold vfio_pci_enable_intx. unfold_host.
  pose proof (fresh_fd_fresh (open_fds w)) as Ft.
  pose proof (fresh_fd_nonneg (open_fds w)) as Nt.
  pose proof (fresh_fd_fresh (fresh_fd (open_fds w) :: open_fds w)) as Fu.
  pose proof (fresh_fd_nonneg (fresh_fd (open_fds w) :: open_fds w)) as Nu.
  twp_steps.
  all: zify_bools; try lia.
  all: proj.
  all: set (t := fresh_fd (open_fds w)) in *.
  all: set (u := fresh_fd (t :: open_fds w)) in *.
  all: assert (Hut : u <> t) by (intros E; apply Fu; rewrite E; apply list_elem_of_here).
  all: assert (Huo : u ∉ open_fds w) by (intros E; apply Fu; apply list_elem_of_further, E).
  all: clear Fu; try lia.
  all: (split; [intros Hne; try contradiction; split; reflexivity|]).
  all: intros Hfd; try contradiction.
  all: try (right; split; [lia|]; split; [reflexivity|]; split; mem_solve).
  left. repeat split; auto.
Qed.

Lemma disable_intx_runs host w :
  twp (vfio_pci_disable_intx host)
    (fun _ w' =>
       (intx_fd (pdev w) = -1 -> w' = w)
       /\ (intx_fd (pdev w) <> -1 ->
           pdev w' = set_intx_fd (-1) (pdev w)
           /\ open_fds w'
              = filter (fun x => x <> unmask_fd (pdev w))
                  (filter (fun x => x <> intx_fd (pdev w)) (open_fds w))
           /\ irqfds w'
              = filter (fun x => x <> (intx_gsi (pdev w), intx_fd (pdev w))) (irqfds w)
           /\ log w' = intx_teardown (host (length (log w))) w ++ log w)) w.
Proof.
  unfold vfio_pci_disable_intx. unfold_host. twp_steps; zify_bools.
  - split; [reflexivity|]. intros X. contradiction.
  - split; [intros X; contradiction|]. intros _. repeat split.
Qed.

(** ** Interrupt set-up *)

Lemma vec_inv_initial w :
  (forall fd, fd ∈ open_fds w -> 0 <= fd) ->
  (forall g fd, (g, fd) ∈ irqfds w -> fd ∈ open_fds w) ->
  (forall b, vectors_initial w b) ->
  ~ intx_armed w ->
  vec_inv w.
Proof.
  intros Hnn Hro Hini Hna.
  assert (Hno : forall g, (g, -1) ∉ irqfds w).
  { intros g Hin. apply Hro, Hnn in Hin. lia. }
  constructor; try (intros Ha; contradiction); auto.
  - intros b i e Hv Hp. destruct (Hini b i e Hv) as (_ & E & _). lia.
  - intros b i e b' i' e' Hv _ Hp. destruct (Hini b i e Hv) as (_ & E & _). lia.
  - intros b i e Hv _ g. destruct (Hini b i e Hv) as (_ & -> & _). apply Hno.
  - intros b i e Hv Hm. destruct (Hini b i e Hv) as (_ & _ & E). contradiction.
Qed.

Lemma init_same_refl b w : init_same b w w.
Proof. repeat split. Qed.

Lemma init_entries_spec b idxs : forall w0 w,
  init_same b w0 w ->
  wp (init_entries b idxs)
     (fun _ w' =>
        init_same b w0 w'
        /\ (forall i e, i ∈ idxs -> vec w' b i = Some e -> vector_initial e)
        /\ (forall i, i ∉ idxs -> vec w' b i = vec w b i)) w.
Proof.
  induction idxs as [|i rest IH]; intros w0 w HS; cbn [init_entries].
  - wp_steps. split; [exact HS|]. split; [|reflexivity].
    intros i e Hin. apply elem_of_nil in Hin. contradiction.
  - wp_steps.
    eapply wp_mono; [apply (IH w0)|].
    + destruct HS as (A & B & C & D). split; [|split; [|split]].
      * rewrite <- A. destruct b; reflexivity.
      * rewrite <- B. destruct b; reflexivity.
      * rewrite <- C. destruct b; projp; rewrite length_insert; reflexivity.
      * rewrite <- D. destruct b; reflexivity.
    + intros ? w' (HS' & Hin' & Hout'). split; [exact HS'|]. split.
      * intros i' e' Hi' Hv'.
        destruct (decide (i' ∈ rest)) as [Hr|Hr]; [exact (Hin' i' e' Hr Hv')|].
        apply elem_of_cons in Hi' as [->|Hi']; [|contradiction].
        rewrite (Hout' i Hr) in Hv'. revert Hv'. vec_strip.
        rewrite vec_put_entry by assumption. rewrite decide_True by auto.
        intros E. injection E as <-. unfold vector_initial.
        cbn [gsi eventfd e_host_state]. split; [reflexivity|].
        split; [reflexivity|].
        change (msi_is_masked (msi_set_masked (e_host_state e) true) <> 0).
        rewrite is_masked_set. discriminate.
      * intros i' Hi'. rewrite not_elem_of_cons in Hi'. destruct Hi' as [Hne Hr].
        rewrite (Hout' i' Hr). vec_strip.
        rewrite vec_put_entry by assumption.
        rewrite decide_False by (intros [_ E]; contradiction). reflexivity.
Qed.

Lemma init_msis_spec irq_info b w :
  length (entries (msis_of b (pdev w))) = Z.to_nat (nr_entries (msis_of b (pdev w))) ->
  wp (vfio_pci_init_msis irq_info b)
     (fun r w' => r = 0 -> init_same b w w' /\ vectors_initial w' b) w.
Proof.
  intros Hlen. unfold vfio_pci_init_msis.
  wp_step. wp_step. destruct (irq_info _) as [[r cnt] fl].
  wp_step; [wp_steps; unfold ENODEV; lia|].
  wp_step; [wp_steps; unfold EINVAL; lia|].
  wp_step; [wp_steps; unfold EINVAL; lia|].
  wp_step. wp_step. wp_step.
  eapply wp_mono; [apply (init_entries_spec b _ w)|].
  - repeat split; destruct b; reflexivity.
  - intros ? w' (HS & Hin & _). cbv beta. wp_steps. intros _. split; [exact HS|].
    intros i e Hv. apply (Hin i e); [|exact Hv].
    apply vec_lt in Hv. destruct HS as (_ & _ & HL & _). rewrite HL in Hv.
    rewrite Hlen in Hv. apply elem_of_seq. lia.
Qed.

Lemma truthy_nonzero r : truthy r = true -> r <> 0.
Proof. unfold truthy. intros H. apply negb_true_iff, Z.eqb_neq in H. exact H. Qed.
Lemma truthy_zero r : truthy r = false -> r = 0.
Proof. unfold truthy. intros H. apply negb_false_iff, Z.eqb_eq in H. exact H. Qed.

(** One capability's part of [vfio_pci_configure_dev_irqs]. *)
Lemma configure_cap irq_info b (c : bool) w :
  length (entries (msis_of b (pdev w))) = Z.to_nat (nr_entries (msis_of b (pdev w))) ->
  (c = false -> entries (msis_of b (pdev w)) = []) ->
  wp (if c then
        modify_msis b (set_info_index
                         (if b then VFIO_PCI_MSIX_IRQ_INDEX else VFIO_PCI_MSI_IRQ_INDEX)) ;;;
        r <- vfio_pci_init_msis irq_info b ;;
        ret (if truthy r then Some r else None)
      else ret None)
     (fun o w' => match o with
                  | Some r => r <> 0
                  | None => init_same b w w' /\ vectors_initial w' b
                  end) w.
Proof.
  intros Hlen Habs. destruct c.
  - wp_step. wp_step. wp_step.
    eapply wp_mono; [apply init_msis_spec|].
    + destruct b; exact Hlen.
    + intros r w' Hr. cbv beta in *. apply wp_ret. destruct (truthy r) eqn:E.
      * apply truthy_nonzero, E.
      * destruct (Hr (truthy_zero _ E)) as ((A & B & C & S) & D).
        split; [|exact D]. split; [|split; [|split]].
        -- rewrite A. destruct b; reflexivity.
        -- rewrite B. destruct b; reflexivity.
        -- rewrite C. destruct b; reflexivity.
        -- rewrite S. destruct b; reflexivity.
  - wp_steps. split; [apply init_same_refl|].
    intros i e Hv. unfold vec in Hv. rewrite (Habs eq_refl) in Hv. discriminate Hv.
Qed.

Lemma configure_dev_irqs_spec host irq_info off line w0 :
  boot_ok w0 ->
  wp (vfio_pci_configure_dev_irqs host irq_info off line)
     (fun r w => r = 0 ->
        vec_inv w /\ (forall b, vectors_initial w b)
        /\ excl_inv (irq_modes (pdev w0)) w
        /\ (forall b, ~ host_enabled w b)
        /\ (has_mode w0 VFIO_PCI_IRQ_MODE_INTX = true -> intx_armed w)) w0.
Proof.
  intros HB. unfold vfio_pci_configure_dev_irqs. wp_step. wp_step. wp_step.
  eapply wp_mono.
  { apply (configure_cap irq_info true _ w0 (boot_length w0 HB true)).
    exact (boot_absent_msix w0 HB). }
  intros [r|] w1; [intros Hr E; contradiction|]. intros ((A1 & B1 & _ & S1) & V1).
  cbn [negb msis_of] in A1. wp_step.
  eapply wp_mono.
  { apply (configure_cap irq_info false _ w1).
    - cbn [msis_of]. rewrite A1. exact (boot_length w0 HB false).
    - intros E. cbn [msis_of]. rewrite A1. apply (boot_absent_msi w0 HB).
      exact E. }
  intros [r|] w2; [intros Hr E; contradiction|]. intros ((A2 & B2 & _ & S2) & V2).
  cbn [negb msis_of] in A2.
  assert (V : forall b, vectors_initial w2 b).
  { intros [] i e Hv; [|exact (V2 i e Hv)].
    apply (V1 i e). unfold vec in *. cbn [msis_of] in *. rewrite <- A2. exact Hv. }
  injection B1 as _ M1 _ _ _ O1 R1. injection B2 as _ M2 _ _ _ O2 R2.
  assert (H0 : forall b, host_state (msis_of b (pdev w2)) = 0).
  { injection S1 as S1 _. injection S2 as S2 _. cbn [msis_of] in S1, S2.
    intros []; cbn [msis_of].
    - rewrite A2, S1. apply (boot_states w0 HB true).
    - rewrite S2, A1. apply (boot_states w0 HB false). }
  assert (Hnn : forall fd, fd ∈ open_fds w2 -> 0 <= fd).
  { rewrite O2, O1. apply Forall_forall, (boot_open_nonneg w0 HB). }
  assert (Hro : forall g fd, (g, fd) ∈ irqfds w2 -> fd ∈ open_fds w2).
  { rewrite O2, O1, R2, R1. intros g fd Hin.
    pose proof (boot_routes_open w0 HB) as F. rewrite Forall_forall in F.
    exact (F _ Hin). }
  wp_step.
  - (* INTx *)
    wp_step. wp_step. wp_step. unfold vfio_pci_init_intx.
    destruct (irq_info _) as [[r cnt] fl].
    wp_steps.
    all: try discriminate.
    all: try (intros E; unfold ENODEV, EINVAL in E; lia).
    match goal with
    | |- wp _ _ ?w3 => assert (HI3 : vec_inv w3)
    end.
    { apply vec_inv_initial; auto. intros (_ & Ha). apply Ha. reflexivity. }
    eapply wp_mono.
    { apply wp_conj; [apply wp_conj|].
      - apply (enable_intx_inv host _ HI3). unfold has_mode. projp.
        rewrite M2, M1. exact Heqb.
      - apply (enable_intx_step host _ _ (intx_step_refl _)).
      - apply twp_wp, enable_intx_runs. }
    intros r' w' ((HI' & HS') & (_ & Hrun)) Hr'. split; [exact HI'|].
    assert (Hno : forall b, ~ host_enabled w' b).
    { intros b. unfold host_enabled. rewrite (intx_step_msis b _ _ HS').
      pose proof (H0 b) as Z0. intros X. apply X.
      destruct b; projp; rewrite Z0; reflexivity. }
    split; [|split; [|split; [exact Hno|]]].
    + intros b i e Hv. apply (V b i e). unfold vec in *.
      rewrite (intx_step_msis b _ _ HS') in Hv. destruct b; exact Hv.
    + apply excl_none; [|exact Hno].
      rewrite (intx_step_modes _ _ HS'). projp. congruence.
    + intros _. split.
      * unfold has_mode. rewrite (intx_step_modes _ _ HS'). projp.
        rewrite M2, M1. exact Heqb.
      * destruct (Hrun eq_refl) as [(_ & Hfd & _)|(Hneg & _)]; lia.
  - wp_steps. intros _.
    assert (Hno : forall b, ~ host_enabled w2 b).
    { intros b. unfold host_enabled. rewrite (H0 b). intros X. apply X. reflexivity. }
    split; [|split; [exact V|split; [|split; [exact Hno|]]]].
    + apply vec_inv_initial; auto. intros (Ha & _). unfold has_mode in Ha.
      rewrite M2, M1 in Ha. congruence.
    + apply excl_none; [congruence|exact Hno].
    + intros Ha. unfold has_mode in Ha. congruence.
Qed.

(** ** The exclusion through the guest's entry points *)

Lemma excl_has_mode modes w m :
  excl_inv modes w -> has_mode w m = truthy (Z.land modes m).
Proof. intros (E & _). unfold has_mode. rewrite E. reflexivity. Qed.

Lemma update_msi_entry_excl host b i modes w :
  excl_inv modes w ->
  wp (vfio_pci_update_msi_entry host b i) (fun _ w' => excl_inv modes w') w.
Proof.
  intros HK. eapply wp_mono; [apply (update_msi_entry_frame host b i w w (frame_refl w))|].
  intros r w' HF. exact (excl_inv_frame _ _ _ HF HK).
Qed.

Lemma enable_msis_excl_modes host b modes w :
  truthy (Z.land modes (mode_of b)) = true ->
  excl_inv modes w ->
  wp (vfio_pci_enable_msis host b) (fun _ w' => excl_inv modes w') w.
Proof.
  intros Hb HK. apply enable_msis_excl; [exact HK|].
  rewrite (excl_has_mode _ _ _ HK). exact Hb.
Qed.

Lemma msix_cap_write_excl_modes host off bytes sz modes w :
  single_capability modes ->
  truthy (Z.land modes VFIO_PCI_IRQ_MODE_MSIX) = true ->
  excl_inv modes w ->
  wp (vfio_pci_msix_cap_write host off bytes sz) (fun _ w' => excl_inv modes w') w.
Proof.
  intros Hs Hb HK. apply msix_cap_write_excl; [exact Hs|exact HK|].
  rewrite (excl_has_mode _ _ _ HK). exact Hb.
Qed.

Lemma msi_cap_write_excl_modes host off bytes sz modes w :
  single_capability modes ->
  truthy (Z.land modes VFIO_PCI_IRQ_MODE_MSI) = true ->
  excl_inv modes w ->
  wp (vfio_pci_msi_cap_write host off bytes sz) (fun _ w' => excl_inv modes w') w.
Proof.
  intros Hs Hb HK. apply msi_cap_write_excl; [exact Hs|exact HK|].
  rewrite (excl_has_mode _ _ _ HK). exact Hb.
Qed.

Ltac excl_close :=
  match goal with
  | H : excl_inv _ ?w |- excl_inv _ ?w => exact H
  | H : excl_inv ?m ?w0 |- excl_inv _ ?W =>
      apply (excl_inv_kview m w0 W); [reflexivity | exact H]
  end.

Ltac excl_intro :=
  let H := fresh "HK" in intros ? ? H; cbv beta in H; cbv beta.

Ltac excl_step :=
  lazymatch goal with
  | |- wp (vfio_pci_update_msi_entry _ _ _) _ _ =>
      eapply wp_mono; [apply update_msi_entry_excl; excl_close | excl_intro]
  | |- wp (vfio_pci_enable_msis _ _) _ _ =>
      eapply wp_mono;
        [apply enable_msis_excl_modes; [eassumption | excl_close] | excl_intro]
  | |- wp (vfio_pci_msix_cap_write _ _ _ _) _ _ =>
      eapply wp_mono;
        [apply msix_cap_write_excl_modes; [eassumption | eassumption | excl_close]
        | excl_intro]
  | |- wp (vfio_pci_msi_cap_write _ _ _ _) _ _ =>
      eapply wp_mono;
        [apply msi_cap_write_excl_modes; [eassumption | eassumption | excl_close]
        | excl_intro]
  | _ => wp_step
  end.

Lemma msix_table_access_excl host addr buf len is_write modes w :
  truthy (Z.land modes VFIO_PCI_IRQ_MODE_MSIX) = true ->
  excl_inv modes w ->
  wp (vfio_pci_msix_table_access host addr buf len is_write)
     (fun _ w' => excl_inv modes w') w.
Proof.
  intros Hb HK. unfold vfio_pci_msix_table_access.
  change VFIO_PCI_IRQ_MODE_MSIX with (mode_of true) in Hb.
  repeat excl_step; excl_close.
Qed.

Lemma cfg_write_excl host offset bytes sz modes w :
  single_capability modes ->
  excl_inv modes w ->
  wp (vfio_pci_cfg_write host offset bytes sz) (fun _ w' => excl_inv modes w') w.
Proof.
  intros Hs HK. unfold vfio_pci_cfg_write, pwrite_cfg, pread_cfg.
  pose proof HK as (Hm & _).
  repeat excl_step. all: try excl_close.
  all: proj; rewrite ?Hm in *.
  all: repeat excl_step; excl_close.
Qed.

(** ** The interrupt modes of the device are fixed at set-up *)

Lemma intx_modes host (c : bool) m w :
  irq_modes (pdev w) = m ->
  wp (if c then vfio_pci_disable_intx host else ret tt)
     (fun _ w' => irq_modes (pdev w') = m) w.
Proof.
  intros Hm. eapply wp_mono; [apply maybe_disable_intx|].
  intros ? w' (HS & _). rewrite (intx_step_modes _ _ HS). exact Hm.
Qed.

Lemma enable_msis_modes host b m w :
  irq_modes (pdev w) = m ->
  wp (vfio_pci_enable_msis host b) (fun _ w' => irq_modes (pdev w') = m) w.
Proof.
  intros Hm. unfold vfio_pci_enable_msis.
  wp_step. wp_step. wp_step; [wp_steps; exact Hm|].
  wp_step. wp_step. wp_step.
  eapply wp_mono; [apply (intx_modes host _ m w Hm)|].
  intros ? w1 Hm1. cbv beta.
  wp_step.
  - wp_step.
    eapply wp_mono;
      [apply (fill_eventfds_step b _ _ w1 w1 (cap_step_refl b w1) eq_refl eq_refl)|].
    intros empty w2 (HC & _ & _). cbv beta.
    destruct (cap_step_other _ _ _ HC) as (C1 & _).
    unfold_host. wp_steps; destruct b; projp; congruence.
  - wp_step; [wp_steps; exact Hm1|].
    eapply wp_mono; [apply (update_vectors_cap host b _ 0 w1 w1 (cap_step_refl b w1))|].
    intros r w' HC. destruct (cap_step_other _ _ _ HC) as (C1 & _). congruence.
Qed.

Lemma disable_msis_modes host b m w :
  irq_modes (pdev w) = m ->
  wp (vfio_pci_disable_msis host b) (fun _ w' => irq_modes (pdev w') = m) w.
Proof.
  intros Hm. unfold vfio_pci_disable_msis. unfold_host.
  wp_step. wp_step. wp_step; [wp_steps; exact Hm|].
  wp_step. wp_step. wp_step. wp_step. wp_step. wp_step. wp_step. wp_step.
  - wp_steps. exact Hm.
  - wp_step. wp_step. wp_step. wp_step. wp_step.
    eapply wp_mono; [apply maybe_enable_intx|].
    intros r' w' HS. cbv beta. wp_steps.
    rewrite (intx_step_modes _ _ HS). destruct b; exact Hm.
Qed.

Lemma frame_modes w w' : frame w w' -> irq_modes (pdev w') = irq_modes (pdev w).
Proof. intros F. pose proof (frame_kview _ _ F) as E. unfold kview in E. congruence. Qed.

Lemma update_msi_entry_modes host b i m w :
  irq_modes (pdev w) = m ->
  wp (vfio_pci_update_msi_entry host b i) (fun _ w' => irq_modes (pdev w') = m) w.
Proof.
  intros Hm. eapply wp_mono; [apply (update_msi_entry_frame host b i w w (frame_refl w))|].
  intros r w' HF. rewrite (frame_modes _ _ HF). exact Hm.
Qed.

Lemma program_vectors_modes host idxs nr msg m w :
  irq_modes (pdev w) = m ->
  wp (program_vectors host idxs nr msg) (fun _ w' => irq_modes (pdev w') = m) w.
Proof.
  intros Hm. eapply wp_mono; [apply (program_vectors_frame host _ _ _ w w (frame_refl w))|].
  intros r w' HF. rewrite (frame_modes _ _ HF). exact Hm.
Qed.

Lemma msi_vector_write_modes host off bytes sz m w :
  irq_modes (pdev w) = m ->
  wp (vfio_pci_msi_vector_write host off bytes sz)
     (fun _ w' => irq_modes (pdev w') = m) w.
Proof.
  intros Hm.
  eapply wp_mono; [apply (msi_vector_write_frame host _ _ _ w w (frame_refl w))|].
  intros r w' HF. rewrite (frame_modes _ _ HF). exact Hm.
Qed.

Ltac modes_close :=
  match goal with
  | H : irq_modes (pdev ?w) = _ |- irq_modes (pdev ?w) = _ => exact H
  | H : irq_modes (pdev _) = ?m |- irq_modes (pdev _) = _ =>
      refine (eq_trans _ H); reflexivity
  end.

Ltac modes_intro :=
  let H := fresh "Hm" in intros ? ? H; cbv beta in H; cbv beta.

Ltac modes_step :=
  lazymatch goal with
  | |- wp (vfio_pci_update_msi_entry _ _ _) _ _ =>
      eapply wp_mono; [apply update_msi_entry_modes; modes_close | modes_intro]
  | |- wp (vfio_pci_enable_msis _ _) _ _ =>
      eapply wp_mono; [apply enable_msis_modes; modes_close | modes_intro]
  | |- wp (vfio_pci_disable_msis _ _) _ _ =>
      eapply wp_mono; [apply disable_msis_modes; modes_close | modes_intro]
  | |- wp (program_vectors _ _ _ _) _ _ =>
      eapply wp_mono; [apply program_vectors_modes; modes_close | modes_intro]
  | |- wp (vfio_pci_msi_vector_write _ _ _ _) _ _ =>
      eapply wp_mono; [apply msi_vector_write_modes; modes_close | modes_intro]
  | _ => wp_step
  end.

Lemma msix_cap_write_modes host off bytes sz m w :
  irq_modes (pdev w) = m ->
  wp (vfio_pci_msix_cap_write host off bytes sz)
     (fun _ w' => irq_modes (pdev w') = m) w.
Proof.
  intros Hm. unfold vfio_pci_msix_cap_write. repeat modes_step; modes_close.
Qed.

Lemma msi_cap_write_modes host off bytes sz m w :
  irq_modes (pdev w) = m ->
  wp (vfio_pci_msi_cap_write host off bytes sz)
     (fun _ w' => irq_modes (pdev w') = m) w.
Proof.
  intros Hm. unfold vfio_pci_msi_cap_write. repeat modes_step; modes_close.
Qed.

Lemma msix_table_access_modes host addr buf len is_write m w :
  irq_modes (pdev w) = m ->
  wp (vfio_pci_msix_table_access host addr buf len is_write)
     (fun _ w' => irq_modes (pdev w') = m) w.
Proof.
  intros Hm. unfold vfio_pci_msix_table_access. repeat modes_step; modes_close.
Qed.

Lemma cfg_write_modes host offset bytes sz m w :
  irq_modes (pdev w) = m ->
  wp (vfio_pci_cfg_write host offset bytes sz)
     (fun _ w' => irq_modes (pdev w') = m) w.
Proof.
  intros Hm. unfold vfio_pci_cfg_write, pwrite_cfg, pread_cfg.
  repeat lazymatch goal with
         | |- wp (vfio_pci_msix_cap_write _ _ _ _) _ _ =>
             eapply wp_mono; [apply msix_cap_write_modes; modes_close | modes_intro]
         | |- wp (vfio_pci_msi_cap_write _ _ _ _) _ _ =>
             eapply wp_mono; [apply msi_cap_write_modes; modes_close | modes_intro]
         | _ => wp_step
         end; modes_close.
Qed.

Lemma excl_inv_exclusion modes w :
  single_capability modes -> excl_inv modes w -> mode_exclusion w.
Proof.
  intros Hs (Hm & Habs & Harm). split; [|split].
  - intros (Ha & He). exact (Harm Ha false He).
  - intros (Ha & He). exact (Harm Ha true He).
  - intros (He1 & He2).
    destruct (has_mode w (mode_of false)) eqn:E1; [|exact (Habs false E1 He1)].
    destruct (has_mode w (mode_of true)) eqn:E2; [|exact (Habs true E2 He2)].
    apply Hs. unfold has_mode in E1, E2. rewrite Hm in E1, E2. split; assumption.
Qed.

Ltac vec_here :=
  vec_strip; rewrite vec_put_entry by assumption;
  rewrite decide_True by auto; reflexivity.

(** A vector after a successful [vfio_pci_update_msi_entry]. *)
Lemma update_msi_entry_reconciles host b i w :
  wp (vfio_pci_update_msi_entry host b i)
     (fun r w' =>
        r <= 0
        /\ (r = 0 ->
            exists e, vec w' b i = Some e /\ 0 <= eventfd e /\ 0 <= gsi e
                      /\ msi_is_masked (e_host_state e)
                         = msi_is_masked (e_guest_state e))) w.
Proof.
  unfold vfio_pci_update_msi_entry.
  apply wp_or_continue.
  eapply (wp_mono _ (fun o w1 =>
            match o with
            | Some v => v < 0
            | None => exists e, vec w1 b i = Some e /\ 0 <= eventfd e
            end)).
  { unfold_host. wp_steps; zify_bools; try lia.
    - destruct b; projp; lia.
    - pose proof (fresh_fd_nonneg (open_fds w)). lia.
    - eexists. split; [vec_here|]. apply fresh_fd_nonneg.
    - exists e. auto. }
  intros [v|] w1; [intros Hv; split; [lia|intros E; lia]|].
  intros (e1 & He1 & Hp1). clear w.
  apply wp_or_continue.
  eapply (wp_mono _ (fun o w2 =>
            match o with
            | Some v => v < 0
            | None => exists e, vec w2 b i = Some e /\ 0 <= eventfd e /\ 0 <= gsi e
            end)).
  { unfold_host. wp_steps; zify_bools; try lia.
    all: assert (e = e1) as -> by congruence.
    - eexists. split; [vec_here|]. split; [exact Hp1|exact Heqb1].
    - exists e1. auto. }
  intros [v|] w2; [intros Hv; split; [lia|intros E; lia]|].
  intros (e2 & He2 & Hp2 & Hg2). clear He1 Hp1 e1 w1.
  wp_step. wp_step. assert (e = e2) as -> by congruence.
  wp_step.
  { wp_steps. split; [lia|]. intros _. exists e2. zify_bools. auto. }
  unfold_host. wp_steps; zify_bools; try lia.
  all: (split; [lia|]); intros E0; try (exfalso; lia).
  all: eexists; (split; [vec_here|]).
  all: cbn [eventfd gsi e_host_state e_guest_state set_entry_host].
  all: (split; [exact Hp2|]); (split; [exact Hg2|]).
  all: rewrite is_masked_set.
  all: pose proof (masked_bit (e_guest_state e2)) as Mg.
  all: pose proof (masked_bit (e_host_state e2)) as Mh.
  all: unfold truthy; destruct (msi_is_masked (e_guest_state e2) =? 0) eqn:Eg;
       zify_bools; cbn [negb]; unfold msi_is_masked in *; lia.
Qed.

(** ** Enabling a capability tears INTx down first *)

Lemma update_vectors_ext host b idxs : forall r0 w0 w,
  log_ext (fun _ => True) w0 w ->
  wp (update_vectors host b idxs r0) (fun _ w' => log_ext (fun _ => True) w0 w') w.
Proof.
  induction idxs as [|i rest IH]; intros r0 w0 w HL; cbn [update_vectors].
  - wp_steps. exact HL.
  - unfold_host. wp_steps; try (apply IH); try assumption.
    all: eapply (log_ext_app _ _ _ _ _ HL); [log_chain | repeat constructor].
Qed.

Lemma enable_msis_teardown host b w :
  truthy (msi_is_enabled (guest_state (msis_of b (pdev w)))) = true ->
  has_mode w VFIO_PCI_IRQ_MODE_INTX = true ->
  wp (vfio_pci_enable_msis host b)
     (fun _ w' =>
        intx_fd (pdev w') = -1
        /\ (intx_fd (pdev w) <> -1 ->
            exists evs,
              log w' = evs ++ intx_teardown (host (length (log w))) w ++ log w)) w.
Proof.
  intros Hg Hmode. unfold vfio_pci_enable_msis.
  wp_step. wp_step. rewrite Hg. cbn [negb].
  wp_step. wp_step. wp_step.
  unfold has_mode in Hmode. rewrite Hmode.
  eapply wp_mono; [apply twp_wp, disable_intx_runs|].
  intros ? w1 (Hoff & Hon). cbv beta.
  assert (Hfd : intx_fd (pdev w1) = -1).
  { destruct (Z.eq_dec (intx_fd (pdev w)) (-1)) as [E|E].
    - rewrite (Hoff E). exact E.
    - destruct (Hon E) as (-> & _). reflexivity. }
  assert (Hlog : intx_fd (pdev w) <> -1 ->
                 log_ext (fun _ => True) w1 w1 /\
                 log w1 = intx_teardown (host (length (log w))) w ++ log w).
  { intros E. split; [apply log_ext_refl|]. apply (Hon E). }
  assert (Hfin : forall w',
             intx_fd (pdev w') = intx_fd (pdev w1) ->
             log_ext (fun _ => True) w1 w' ->
             intx_fd (pdev w') = -1
             /\ (intx_fd (pdev w) <> -1 ->
                 exists evs,
                   log w' = evs ++ intx_teardown (host (length (log w))) w ++ log w)).
  { intros w' E1 (evs & E2 & _). split; [congruence|].
    intros E. exists evs. rewrite E2. destruct (Hlog E) as (_ & ->). reflexivity. }
  clear Hoff Hon Hlog.
  wp_step.
  - wp_step.
    eapply wp_mono;
      [apply (fill_eventfds_step b _ _ w1 w1 (cap_step_refl b w1) eq_refl eq_refl)|].
    intros empty w2 (HC & _ & Hl). cbv beta.
    destruct (cap_step_other _ _ _ HC) as (_ & C2 & _).
    unfold_host. wp_steps; apply Hfin.
    all: try (destruct b; projp; exact C2).
    all: eapply (log_ext_app _ w1 w2);
      [apply (log_ext_same _ _ w1); [exact Hl|apply log_ext_refl]
      | log_chain | repeat constructor].
  - wp_step; [wp_steps; apply Hfin; [reflexivity|apply log_ext_refl]|].
    eapply wp_mono.
    + apply wp_conj.
      * apply (update_vectors_cap host b _ 0 w1 w1 (cap_step_refl b w1)).
      * apply (update_vectors_ext host b _ 0 w1 w1 (log_ext_refl _ w1)).
    + intros r w' (HC & HL). destruct (cap_step_other _ _ _ HC) as (_ & C2 & _).
      apply Hfin; assumption.
Qed.

(** ** The bulk request *)

Lemma eventfds_put_eventfd b i fd w :
  eventfds (msis_of b (pdev (put_eventfd b i fd w)))
  = <[i:=fd]> (eventfds (msis_of b (pdev w))).
Proof. unfold put_eventfd. destruct b; reflexivity. Qed.

Lemma host_state_put_eventfd b i fd w :
  host_state (msis_of b (pdev (put_eventfd b i fd w)))
  = host_state (msis_of b (pdev w)).
Proof. unfold put_eventfd. destruct b; reflexivity. Qed.

Lemma cap_step_put_eventfd b i fd w : cap_step b w (put_eventfd b i fd w).
Proof.
  unfold cap_step, cap_static, put_eventfd.
  destruct b; projp; rewrite length_insert; repeat split.
Qed.

Lemma fill_eventfds_runs b idxs : forall empty w,
  (forall i, i ∈ idxs ->
     (i < length (entries (msis_of b (pdev w))))%nat
     /\ (i < length (eventfds (msis_of b (pdev w))))%nat) ->
  twp (fill_eventfds b idxs empty)
    (fun r w' =>
       cap_step b w w'
       /\ log w' = log w
       /\ host_state (msis_of b (pdev w')) = host_state (msis_of b (pdev w))
       /\ (forall i, i ∈ idxs ->
             eventfds (msis_of b (pdev w')) !! i
             = entry_fd <$> entries (msis_of b (pdev w)) !! i)
       /\ (forall i, i ∉ idxs ->
             eventfds (msis_of b (pdev w')) !! i = eventfds (msis_of b (pdev w)) !! i)
       /\ (r = true <->
           empty = true
           /\ forall i e, i ∈ idxs -> entries (msis_of b (pdev w)) !! i = Some e ->
                          entry_fd e < 0)) w.
Proof.
  induction idxs as [|i rest IH]; intros empty w Hin; cbn [fill_eventfds].
  - twp_steps. split; [apply cap_step_refl|].
    split; [reflexivity|]. split; [reflexivity|]. split; [|split; [reflexivity|]].
    + intros j Hj. apply elem_of_nil in Hj. contradiction.
    + split; [|intros (-> & _); reflexivity].
      intros ->. split; [reflexivity|].
      intros j e Hj. apply elem_of_nil in Hj. contradiction.
  - destruct (Hin i (list_elem_of_here _ _)) as (Hi1 & Hi2).
    destruct (lookup_lt_is_Some_2 _ _ Hi1) as (e & He).
    twp_step. apply (twp_entry_at b i e); [exact He|].
    twp_step. apply twp_store_eventfd; [exact Hi2|].
    eapply twp_mono; [apply IH|].
    + intros j Hj. rewrite entries_put_eventfd, eventfds_put_eventfd, length_insert.
      apply Hin. apply list_elem_of_further, Hj.
    + intros r w' (HC & Hl & Hh & Hyes & Hno & Hr).
      rewrite entries_put_eventfd in Hyes, Hr.
      rewrite eventfds_put_eventfd in Hno. rewrite host_state_put_eventfd in Hh.
      split; [exact (cap_step_trans _ _ _ _ (cap_step_put_eventfd b i _ w) HC)|].
      split; [rewrite Hl; destruct b; reflexivity|].
      split; [exact Hh|]. split; [|split].
      * intros j Hj. destruct (decide (j ∈ rest)) as [Hr'|Hr']; [exact (Hyes j Hr')|].
        apply elem_of_cons in Hj as [->|Hj]; [|contradiction].
        rewrite (Hno i Hr'), He. apply list_lookup_insert_eq. exact Hi2.
      * intros j Hj. rewrite not_elem_of_cons in Hj. destruct Hj as [Hne Hj].
        rewrite (Hno j Hj). apply list_lookup_insert_ne. congruence.
      * rewrite Hr. split.
        -- intros (Hem & Hall).
           destruct (entry_fd e >=? 0) eqn:Efd; [discriminate Hem|].
           split; [exact Hem|]. intros j e' Hj He'.
           apply elem_of_cons in Hj as [->|Hj]; [|exact (Hall j e' Hj He')].
           assert (e' = e) as -> by congruence. zify_bools. lia.
        -- intros (-> & Hall). split.
           ++ pose proof (Hall i e (list_elem_of_here _ _) He) as Hneg.
              destruct (entry_fd e >=? 0) eqn:Efd; [|reflexivity].
              zify_bools. lia.
           ++ intros j e' Hj. apply Hall. apply list_elem_of_further, Hj.
Qed.

Lemma twp_wp_conj {A} (c : M A) (Q1 Q2 : A -> world -> Prop) w :
  twp c Q1 w -> wp c Q2 w -> twp c (fun a w' => Q1 a w' /\ Q2 a w') w.
Proof. unfold twp, wp. destruct (c w); auto. Qed.

Lemma maybe_disable_intx_runs host (c : bool) w :
  twp (if c then vfio_pci_disable_intx host else ret tt)
      (fun _ w1 => intx_step w w1
                   /\ (c = true -> intx_fd (pdev w1) = -1)
                   /\ (c = false \/ intx_fd (pdev w) = -1 -> w1 = w)) w.
Proof.
  destruct c.
  - eapply twp_mono.
    + apply twp_wp_conj;
        [apply disable_intx_runs|apply (maybe_disable_intx host true w)].
    + intros ? w1 (_ & H). exact H.
  - apply twp_ret. split; [apply intx_step_refl|]. split; [discriminate|auto].
Qed.

Lemma bulk_data b w w' :
  arrays_ok (msis_of b (pdev w)) ->
  cap_step b w w' ->
  (forall i, i ∈ seq 0 (Z.to_nat (nr_entries (msis_of b (pdev w)))) ->
     eventfds (msis_of b (pdev w')) !! i
     = entry_fd <$> entries (msis_of b (pdev w)) !! i) ->
  irq_set (msis_of b (pdev w')) = bulk_request (msis_of b (pdev w)).
Proof.
  intros (L1 & L2) (A & _) Hyes. unfold cap_static in A.
  injection A as A1 A2 A3 A4 A5 A6 A7 A8 A9 A10.
  unfold bulk_request. rewrite <- A6, <- A7, <- A8, <- A9.
  assert (E : data (irq_set (msis_of b (pdev w')))
              = entry_fd <$> entries (msis_of b (pdev w))).
  { apply list_eq. intros i. rewrite list_lookup_fmap.
    destruct (decide (i < Z.to_nat (nr_entries (msis_of b (pdev w))))%nat) as [Hi|Hi].
    - apply (Hyes i). apply elem_of_seq. lia.
    - rewrite !lookup_ge_None_2; [reflexivity| |].
      + rewrite L1. lia.
      + unfold eventfds in L2. rewrite A10, L2. lia. }
  rewrite <- E. destruct (irq_set (msis_of b (pdev w'))). reflexivity.
Qed.

Lemma enable_msis_bulk_runs host b w :
  truthy (msi_is_enabled (guest_state (msis_of b (pdev w)))) = true ->
  wants_bulk (msis_of b (pdev w)) = true ->
  arrays_ok (msis_of b (pdev w)) ->
  twp (vfio_pci_enable_msis host b)
    (fun r w' =>
       exists evs a,
         log w' = (SET_IRQS (bulk_request (msis_of b (pdev w))), a) :: evs ++ log w
         /\ Forall intx_only evs
         /\ (a < 0 ->
             r = a
             /\ host_state (msis_of b (pdev w')) = host_state (msis_of b (pdev w)))
         /\ (0 <= a ->
             r = 0
             /\ host_enabled w' b
             /\ (msi_is_empty (host_state (msis_of b (pdev w'))) <> 0 <->
                 forall e, e ∈ entries (msis_of b (pdev w)) -> entry_fd e < 0))) w.
Proof.
  intros Hg Hb Hok. unfold vfio_pci_enable_msis.
  twp_step. twp_step. rewrite Hg. cbn [negb].
  twp_step. twp_step. twp_step.
  eapply twp_mono; [apply maybe_disable_intx_runs|].
  intros ? w1 (HS & _). cbv beta.
  pose proof (intx_step_msis b _ _ HS) as Hm.
  destruct HS as (_ & evs & Hl1 & Hq).
  change (negb (truthy (msi_is_enabled (host_state (msis_of b (pdev w)))))
          || negb (truthy (msi_is_masked (guest_state (msis_of b (pdev w)))))
             && truthy (msi_is_empty (host_state (msis_of b (pdev w)))))
    with (wants_bulk (msis_of b (pdev w))).
  rewrite Hb. twp_step.
  eapply twp_mono.
  { apply fill_eventfds_runs. rewrite Hm. destruct Hok as (L1 & L2).
    intros i Hi. unfold vector_indices in Hi. apply elem_of_seq in Hi.
    rewrite L1, L2. lia. }
  intros empty w2 (HC & Hl2 & Hh2 & Hyes & _ & Hem). cbv beta.
  rewrite Hm in Hyes, Hem, Hh2.
  assert (Hirq : irq_set (msis_of b (pdev w2)) = bulk_request (msis_of b (pdev w))).
  { rewrite <- Hm. apply bulk_data; rewrite ?Hm; auto. }
  unfold ioctl_SET_IRQS. twp_step. twp_step. rewrite Hirq.
  twp_steps; zify_bools.
  - exists evs, (host (length (log w2))). split.
    { proj_put. rewrite Hl2, Hl1. reflexivity. }
    split; [exact Hq|]. split; [|intros; lia].
    intros _. split; [reflexivity|]. rewrite <- Hh2. destruct b; reflexivity.
  - exists evs, (host (length (log w2))). split.
    { destruct b; proj_put; cbn [log set_pdev]; rewrite Hl2, Hl1; reflexivity. }
    split; [exact Hq|]. split; [intros; lia|].
    intros _. split; [reflexivity|].
    assert (Hs : host_state (msis_of b (pdev
              (set_pdev (set_msis b (set_host_state
                 (msi_set_empty (msi_set_enabled
                    (host_state (msis_of b (pdev
                       (push_log (SET_IRQS (bulk_request (msis_of b (pdev w))))
                          (host (length (log w2))) w2)))) true) empty)
                 (msis_of b (pdev
                    (push_log (SET_IRQS (bulk_request (msis_of b (pdev w))))
                       (host (length (log w2))) w2))))
                 (pdev (push_log (SET_IRQS (bulk_request (msis_of b (pdev w))))
                          (host (length (log w2))) w2)))
                 (push_log (SET_IRQS (bulk_request (msis_of b (pdev w))))
                    (host (length (log w2))) w2))))
            = msi_set_empty (msi_set_enabled (host_state (msis_of b (pdev w2))) true)
                empty) by (destruct b; reflexivity).
    unfold host_enabled. rewrite Hs. split.
    + rewrite is_enabled_set_empty, is_enabled_set. discriminate.
    + rewrite is_empty_set. split.
      * intros Hne e He. destruct empty; [|contradiction].
        apply list_elem_of_lookup in He as (i & He).
        apply (proj2 (proj1 Hem eq_refl) i e); [|exact He].
        unfold vector_indices. apply elem_of_seq.
        apply lookup_lt_Some in He. destruct Hok as (L1 & _). lia.
      * intros Hall. destruct empty; [discriminate|].
        exfalso. assert (false = true); [|discriminate].
        apply Hem. split; [reflexivity|].
        intros i e _ He. apply Hall. apply list_elem_of_lookup. eauto.
Qed.

(** ** The masked capability *)

Lemma enable_msis_masked_runs host b w :
  truthy (msi_is_enabled (guest_state (msis_of b (pdev w)))) = true ->
  wants_bulk (msis_of b (pdev w)) = false ->
  truthy (msi_is_masked (guest_state (msis_of b (pdev w)))) = true ->
  twp (vfio_pci_enable_msis host b)
    (fun r w' =>
       r = 0 /\ intx_step w w'
       /\ (has_mode w VFIO_PCI_IRQ_MODE_INTX = false \/ intx_fd (pdev w) = -1 ->
           w' = w)) w.
Proof.
  intros Hg Hb Hmk. unfold vfio_pci_enable_msis.
  twp_step. twp_step. rewrite Hg. cbn [negb].
  twp_step. twp_step. twp_step.
  eapply twp_mono; [apply maybe_disable_intx_runs|].
  intros ? w1 (HS & _ & Hsame). cbv beta.
  change (negb (truthy (msi_is_enabled (host_state (msis_of b (pdev w)))))
          || negb (truthy (msi_is_masked (guest_state (msis_of b (pdev w)))))
             && truthy (msi_is_empty (host_state (msis_of b (pdev w)))))
    with (wants_bulk (msis_of b (pdev w))).
  rewrite Hb, Hmk. twp_step. split; [reflexivity|]. split; [exact HS|].
  intros [E|E]; apply Hsame; [left; exact E|right; exact E].
Qed.

Lemma frame_cap w w' b :
  frame w w' ->
  guest_state (msis_of b (pdev w')) = guest_state (msis_of b (pdev w))
  /\ host_state (msis_of b (pdev w')) = host_state (msis_of b (pdev w))
  /\ intx_fd (pdev w') = intx_fd (pdev w).
Proof.
  intros (A & _). unfold dev_hdr, cap_hdr in A.
  injection A as A1 A2 A3 A4 A5 A6 A7 A8 A9 A10 A11 A12 A13 A14 A15 A16 A17 A18 A19 A20 A21.
  destruct b; cbn [msis_of]; auto.
Qed.

Ltac frame_leaf_refl :=
  lazymatch goal with
  | |- frame ?w0 _ =>
      split; [|split];
      [ norm_hdr; reflexivity
      | proj_put; reflexivity
      | eapply (log_ext_app _ _ _ _ _ (log_ext_refl _ w0));
        [log_chain | repeat constructor] ]
  end.

(** A table access while the guest keeps MSI-X enabled and masked, on a
    capability that is enabled on the host and with INTx torn down. *)
Lemma table_access_masked_quiet host addr buf len is_write w :
  truthy (msi_is_enabled (guest_state (msix (pdev w)))) = true ->
  truthy (msi_is_masked (guest_state (msix (pdev w)))) = true ->
  truthy (msi_is_enabled (host_state (msix (pdev w)))) = true ->
  intx_fd (pdev w) = -1 ->
  wp (vfio_pci_msix_table_access host addr buf len is_write)
     (fun _ w' => frame w w') w.
Proof.
  intros Hg Hmk Hh Hfd. unfold vfio_pci_msix_table_access.
  repeat lazymatch goal with
         | |- wp (vfio_pci_update_msi_entry _ _ _) _ _ =>
             eapply wp_mono;
               [apply (update_msi_entry_frame host true _ w); frame_leaf_refl
               | let H := fresh "HF" in intros ? ? H; cbv beta in H; cbv beta]
         | |- wp (bind (vfio_pci_enable_msis _ _) _) _ _ => fail
         | _ => wp_step
         end.
  all: try (first [frame_leaf | frame_leaf_refl | apply frame_refl]).

  all: lazymatch goal with
       | |- wp _ _ ?W => assert (HFW : frame w W) by (first [exact HF | frame_leaf])
       end.
  all: destruct (frame_cap _ _ true HFW) as (F1 & F2 & F3); cbn [msis_of] in F1, F2.
  all: lazymatch goal with
       | |- wp _ _ ?W =>
           destruct (twp_elim _ _ _ (enable_msis_masked_runs host true W
              ltac:(cbn [msis_of]; rewrite F1; exact Hg)
              ltac:(unfold wants_bulk; cbn [msis_of]; rewrite F1, F2, Hh, Hmk;
                    reflexivity)
              ltac:(cbn [msis_of]; rewrite F1; exact Hmk)))
             as (r' & w2 & E & -> & _ & Hsame);
           rewrite (Hsame (or_intror (eq_trans F3 Hfd))) in E;
           unfold wp, bind; rewrite E;
           change (wp ((if truthy 0 then pr_err else ret tt) ;;; ret buf)
                     (fun _ w' => frame w w') W)
       end.
  all: wp_steps; exact HFW.
Qed.

Lemma is_masked_set_empty h v : msi_is_masked (msi_set_empty h v) = msi_is_masked h.
Proof.
  unfold msi_is_masked, msi_set_empty, msi_update_state,
    VFIO_PCI_MSI_STATE_MASKED, VFIO_PCI_MSI_STATE_EMPTY. destruct v.
  - rewrite Z.land_lor_distr_l. apply Z.lor_0_r.
  - rewrite <- Z.land_assoc. reflexivity.
Qed.
Lemma is_empty_set_masked h v : msi_is_empty (msi_set_masked h v) = msi_is_empty h.
Proof.
  unfold msi_is_empty, msi_set_masked, msi_update_state,
    VFIO_PCI_MSI_STATE_MASKED, VFIO_PCI_MSI_STATE_EMPTY. destruct v.
  - rewrite Z.land_lor_distr_l. apply Z.lor_0_r.
  - rewrite <- Z.land_assoc. reflexivity.
Qed.


(** * The vCPU reset *)

Lemma write_or_die_ok host r v c :
  0 <= host (length (Aarch64.calls c)) ->
  Aarch64.write_or_die host r v c
  = Aarch64.Returned tt
      (Aarch64.mk_cpu (Aarch64.cpu_id c) (Aarch64.set_reg r v (Aarch64.regs c))
         ((Aarch64.KVM_SET_ONE_REG r v, host (length (Aarch64.calls c)))
          :: Aarch64.calls c)).
Proof.
  intros H. unfold Aarch64.write_or_die, Aarch64.vbind, Aarch64.set_one_reg.
  apply Z.ltb_ge in H. rewrite H. reflexivity.
Qed.

Lemma write_or_die_fail host r v c :
  host (length (Aarch64.calls c)) < 0 ->
  Aarch64.write_or_die host r v c = Aarch64.Exited.
Proof.
  intros H. unfold Aarch64.write_or_die, Aarch64.vbind, Aarch64.set_one_reg.
  apply Z.ltb_lt in H. rewrite H. reflexivity.
Qed.

(** One register write of the reset: it either ends the process or
    leaves the register written and one more call in the journal. *)
Ltac reset_write :=
  lazymatch goal with
  | |- context [Aarch64.write_or_die ?h ?r ?v ?c] =>
      let E := fresh "E" in
      destruct (Z_lt_le_dec (h (length (Aarch64.calls c))) 0) as [E|E];
      [ rewrite (write_or_die_fail h r v c E)
      | rewrite (write_or_die_ok h r v c E) ];
      cbn [Aarch64.calls Aarch64.cpu_id Aarch64.regs length] in *
  end.

Ltac failing_call i := exists i; split; [lia | cbn [Nat.add]; assumption].

Lemma reset_aarch64_runs host k c :
  let n := if Aarch64.cpu_id c =? 0 then 6%nat else 4%nat in
  match Aarch64.reset_vcpu_aarch64 host k c with
  | Aarch64.Exited =>
      exists i, (i < n)%nat /\ host (i + length (Aarch64.calls c))%nat < 0
  | Aarch64.Returned _ c' =>
      Aarch64.calls_succeed host c n
      /\ Aarch64.cpu_id c' = Aarch64.cpu_id c
      /\ length (Aarch64.calls c') = (n + length (Aarch64.calls c))%nat
      /\ Aarch64.regs c' Aarch64.REG_PSTATE = Aarch64.reset_pstate
      /\ Aarch64.regs c' (Aarch64.REG_X 1) = 0
      /\ Aarch64.regs c' (Aarch64.REG_X 2) = 0
      /\ Aarch64.regs c' (Aarch64.REG_X 3) = 0
      /\ (Aarch64.cpu_id c = 0 ->
          Aarch64.regs c' (Aarch64.REG_X 0) = Aarch64.dtb_guest_start k
          /\ Aarch64.regs c' Aarch64.REG_PC = Aarch64.kern_guest_start k
          /\ forall r, r ∉ [Aarch64.REG_PSTATE; Aarch64.REG_X 1; Aarch64.REG_X 2;
                            Aarch64.REG_X 3; Aarch64.REG_X 0; Aarch64.REG_PC] ->
                       Aarch64.regs c' r = Aarch64.regs c r)
      /\ (Aarch64.cpu_id c <> 0 ->
          forall r, r ∉ [Aarch64.REG_PSTATE; Aarch64.REG_X 1; Aarch64.REG_X 2;
                         Aarch64.REG_X 3] ->
                    Aarch64.regs c' r = Aarch64.regs c r)
  end.
Proof.
  cbv zeta. unfold Aarch64.reset_vcpu_aarch64, Aarch64.vbind.
  destruct (Aarch64.cpu_id c =? 0) eqn:Hid.
  all: repeat (reset_write; rewrite ?Hid).
  all: try (first [failing_call 0%nat | failing_call 1%nat | failing_call 2%nat
                  | failing_call 3%nat | failing_call 4%nat | failing_call 5%nat]).
  all: first [rewrite Z.eqb_eq in Hid | rewrite Z.eqb_neq in Hid].
  all: (split; [intros i Hi;
                destruct i as [|[|[|[|[|[|]]]]]]; cbn [Nat.add]; (assumption || lia)|]).
  all: (split; [reflexivity|]); (split; [reflexivity|]).
  all: repeat (split; [reflexivity|]).
  all: split; intros Hc; try contradiction.
  all: repeat (split; [reflexivity|]).
  all: intros r Hr; unfold Aarch64.set_reg; cbn [Aarch64.regs];
       repeat (destruct (decide _) as [->|?];
               [exfalso; apply Hr;
                solve [repeat (apply list_elem_of_here || apply list_elem_of_further)]|]);
       reflexivity.
Qed.

Lemma reset_aarch32_runs host k c :
  let n := if Aarch64.cpu_id c =? 0 then 5%nat else 1%nat in
  match Aarch64.reset_vcpu_aarch32 host k c with
  | Aarch64.Exited =>
      exists i, (i < n)%nat /\ host (i + length (Aarch64.calls c))%nat < 0
  | Aarch64.Returned _ c' =>
      Aarch64.calls_succeed host c n
      /\ length (Aarch64.calls c') = (n + length (Aarch64.calls c))%nat
      /\ Aarch64.regs c' Aarch64.REG_PSTATE = 0xd3
      /\ (Aarch64.cpu_id c = 0 ->
          Aarch64.regs c' (Aarch64.REG_X 0) = 0
          /\ Aarch64.regs c' (Aarch64.REG_X 1) = 2 ^ 64 - 1
          /\ Aarch64.regs c' (Aarch64.REG_X 2) = Aarch64.dtb_guest_start k
          /\ Aarch64.regs c' Aarch64.REG_PC = Aarch64.kern_guest_start k)
      /\ (Aarch64.cpu_id c <> 0 ->
          forall r, r <> Aarch64.REG_PSTATE -> Aarch64.regs c' r = Aarch64.regs c r)
  end.
Proof.
  cbv zeta. unfold Aarch64.reset_vcpu_aarch32, Aarch64.vbind.
  reset_write.
  { destruct (Aarch64.cpu_id c =? 0); failing_call 0%nat. }
  destruct (Aarch64.cpu_id c =? 0) eqn:Hid; cbn [negb].
  all: repeat reset_write.
  all: try (first [failing_call 0%nat | failing_call 1%nat | failing_call 2%nat
                  | failing_call 3%nat | failing_call 4%nat]).
  all: first [rewrite Z.eqb_eq in Hid | rewrite Z.eqb_neq in Hid].
  all: (split; [intros i Hi;
                destruct i as [|[|[|[|[|]]]]]; cbn [Nat.add]; (assumption || lia)|]).
  all: repeat (split; [reflexivity|]).
  all: split; intros Hc; try contradiction.
  all: repeat (split; [reflexivity|]); try reflexivity.
  intros r Hr. unfold Aarch64.set_reg. cbn [Aarch64.regs].
  destruct (decide _) as [->|?]; [contradiction|reflexivity].
Qed.

(** The endianness query on a vCPU whose pstate is the one the AArch64
    reset writes. *)
Lemma land_pow2_testbit z k :
  0 <= k -> Z.land z (2 ^ k) = if Z.testbit z k then 2 ^ k else 0.
Proof.
  intros Hk. apply Z.bits_inj'. intros n Hn.
  rewrite Z.land_spec, Z.pow2_bits_eqb by lia.
  destruct (Z.eqb_spec k n) as [<-|Hne].
  - rewrite andb_true_r.
    destruct (Z.testbit z k); [rewrite Z.pow2_bits_eqb, Z.eqb_refl by lia; reflexivity|].
    rewrite Z.bits_0. reflexivity.
  - rewrite andb_false_r.
    destruct (Z.testbit z k); [rewrite Z.pow2_bits_eqb by lia|rewrite Z.bits_0];
      [apply Z.eqb_neq in Hne; rewrite Hne|]; reflexivity.
Qed.

Lemma get_endianness_el1h host c :
  Aarch64.regs c Aarch64.REG_PSTATE = Aarch64.reset_pstate ->
  Aarch64.calls_succeed host c 2 ->
  match Aarch64.kvm_cpu__get_endianness host c with
  | Aarch64.Returned e c' =>
      e = (if Z.testbit (Aarch64.regs c Aarch64.REG_SCTLR_EL1) 25
           then Aarch64.VIRTIO_ENDIAN_BE else Aarch64.VIRTIO_ENDIAN_LE)
      /\ Aarch64.regs c' = Aarch64.regs c
  | Aarch64.Exited => False
  end.
Proof.
  intros Hp Hs.
  pose proof (Hs 0%nat ltac:(lia)) as H0. pose proof (Hs 1%nat ltac:(lia)) as H1.
  cbn [Nat.add] in H0, H1. apply Z.ltb_ge in H0, H1.
  unfold Aarch64.kvm_cpu__get_endianness, Aarch64.vbind, Aarch64.get_one_reg.
  cbn [Aarch64.calls Aarch64.regs length]. rewrite H0, Hp.
  change (truthy (Z.land Aarch64.reset_pstate Aarch64.PSR_MODE32_BIT)) with false.
  cbv beta iota. cbn [Aarch64.calls Aarch64.regs length]. rewrite H1.
  change (Z.land Aarch64.reset_pstate Aarch64.PSR_MODE_MASK =? Aarch64.PSR_MODE_EL0t)
    with false.
  cbv iota. unfold Aarch64.vret. split; [|reflexivity].
  unfold truthy, Aarch64.SCTLR_EL1_EE_MASK.
  change (1 ≪ 25) with (2 ^ 25). rewrite land_pow2_testbit by lia.
  destruct (Z.testbit _ 25); reflexivity.
Qed.

(** * Properties of the interrupt code *)

(** The three flags of a state word are independent: setting or
    clearing ENABLED, MASKED or EMPTY with [msi_set_enabled],
    [msi_set_masked], [msi_set_empty] makes the matching [msi_is_...] test
    read the bit when set and 0 when cleared, and leaves the two other
    tests as they were. *)
Theorem msi_state_flags_independent s v :
  msi_is_enabled (msi_set_enabled s v) = (if v then VFIO_PCI_MSI_STATE_ENABLED else 0)
  /\ msi_is_masked (msi_set_enabled s v) = msi_is_masked s
  /\ msi_is_empty (msi_set_enabled s v) = msi_is_empty s
  /\ msi_is_masked (msi_set_masked s v) = (if v then VFIO_PCI_MSI_STATE_MASKED else 0)
  /\ msi_is_enabled (msi_set_masked s v) = msi_is_enabled s
  /\ msi_is_empty (msi_set_masked s v) = msi_is_empty s
  /\ msi_is_empty (msi_set_empty s v) = (if v then VFIO_PCI_MSI_STATE_EMPTY else 0)
  /\ msi_is_enabled (msi_set_empty s v) = msi_is_enabled s
  /\ msi_is_masked (msi_set_empty s v) = msi_is_masked s.
Proof.
  repeat split.
  - apply is_enabled_set.
  - apply is_masked_set_enabled.
  - apply is_empty_set_enabled.
  - apply is_masked_set.
  - apply is_enabled_set_masked.
  - apply is_empty_set_masked.
  - apply is_empty_set.
  - apply is_enabled_set_empty.
  - apply is_masked_set_empty.
Qed.

(** Whenever [vfio_pci_update_msi_entry] returns, its result is 0 or
    negative, it has sent no SET_IRQS and has changed nothing of the device
    but the contents of vectors; when the result is 0 the vector has an
    eventfd and a route ([eventfd >= 0], [gsi >= 0]) and its host mask bit
    equals its guest mask bit. *)
Theorem update_msi_entry_reconciles_mask host b i w r w' :
  vfio_pci_update_msi_entry host b i w = Ok r w' ->
  r <= 0
  /\ frame w w'
  /\ (r = 0 ->
      exists e, vec w' b i = Some e /\ 0 <= eventfd e /\ 0 <= gsi e
                /\ msi_is_masked (e_host_state e) = msi_is_masked (e_guest_state e)).
Proof.
  intros E.
  destruct (wp_elim _ _ _ _ _ (update_msi_entry_reconciles host b i w) E) as (H1 & H2).
  split; [exact H1|]. split; [|exact H2].
  exact (wp_elim _ _ _ _ _ (update_msi_entry_frame host b i w w (frame_refl w)) E).
Qed.

Lemma update_msi_entry_reconciles_mask_witness :
  0 <= 0
  /\ frame sample_masked sample_updated
  /\ (0 = 0 ->
      exists e, vec sample_updated true 0%nat = Some e /\ 0 <= eventfd e /\ 0 <= gsi e
                /\ msi_is_masked (e_host_state e) = msi_is_masked (e_guest_state e)).
Proof.
  refine (update_msi_entry_reconciles_mask host_ok true 0 sample_masked 0
            sample_updated _).
  vm_compute. reflexivity.
Defined.

(** [vfio_pci_update_msi_entry] keeps the invariant that ties vectors
    to descriptors and irqfd bindings, so that afterwards every vector is
    host-masked exactly when no irqfd binding is installed for its gsi and
    eventfd. *)
Theorem update_msi_entry_keeps_mask_route host b i w r w' :
  vec_inv w ->
  vfio_pci_update_msi_entry host b i w = Ok r w' ->
  vec_inv w' /\ mask_route_law w'.
Proof.
  intros HI E.
  pose proof (wp_elim _ _ _ _ _ (update_msi_entry_inv host b i w HI) E) as HI'.
  split; [exact HI'|apply vec_inv_law, HI'].
Qed.

Lemma sample_boot_ok modes :
  modes = 5 \/ modes = 7 -> boot_ok (sample_boot modes).
Proof.
  intros [-> | ->].
  all: constructor.
  all: try (repeat constructor; vm_compute; discriminate).
  all: try (intros []; vm_compute; reflexivity).
  all: try (vm_compute; intros; congruence).
  all: try (intros []; split; vm_compute; reflexivity).
  all: repeat constructor.
Qed.

Lemma sample_configured_facts modes :
  modes = 5 \/ modes = 7 ->
  vec_inv (sample_configured host_ok modes)
  /\ excl_inv modes (sample_configured host_ok modes).
Proof.
  intros Hm.
  assert (E : vfio_pci_configure_dev_irqs host_ok sample_irq_info 0 9 (sample_boot modes)
              = Ok 0 (sample_configured host_ok modes))
    by (destruct Hm as [-> | ->]; vm_compute; reflexivity).
  destruct (wp_elim _ _ _ _ _
              (configure_dev_irqs_spec host_ok sample_irq_info 0 9 _
                 (sample_boot_ok modes Hm)) E eq_refl) as (H1 & _ & H2 & _).
  split; [exact H1|].
  assert (Em : irq_modes (pdev (sample_boot modes)) = modes)
    by (destruct Hm as [-> | ->]; vm_compute; reflexivity).
  rewrite Em in H2. exact H2.
Qed.

Lemma sample_masked_facts : vec_inv sample_masked /\ excl_inv 5 sample_masked.
Proof.
  destruct (sample_configured_facts 5 (or_introl eq_refl)) as (HI & HK).
  assert (E : vfio_pci_cfg_write host_ok 0x62 [0x00; 0xC0] 2 (sample_configured host_ok 5)
              = Ok tt sample_masked) by (vm_compute; reflexivity).
  split.
  - exact (wp_elim _ _ _ _ _ (cfg_write_inv host_ok _ _ _ _ HI) E).
  - refine (wp_elim _ _ _ _ _ (cfg_write_excl host_ok _ _ _ 5 _ _ HK) E).
    intros (H & _). vm_compute in H. discriminate H.
Qed.

Lemma update_msi_entry_keeps_mask_route_witness :
  vec_inv sample_updated /\ mask_route_law sample_updated.
Proof.
  refine (update_msi_entry_keeps_mask_route host_ok true 0 sample_masked 0
            sample_updated (proj1 sample_masked_facts) _).
  vm_compute. reflexivity.
Defined.

(** [vfio_pci_enable_intx] always returns.  With INTx already armed it
    returns 0 and does nothing.  Otherwise it either returns 0 with INTx
    armed on two fresh, distinct, open descriptors and the irqfd binding
    of [intx_gsi] to the trigger descriptor installed; or it returns a
    negative result with the device as before, the same descriptors open
    as before and no irqfd binding added.  In every case both MSI
    capabilities are as before. *)
Theorem enable_intx_all_or_nothing host w :
  exists r w',
    vfio_pci_enable_intx host w = Ok r w'
    /\ msi (pdev w') = msi (pdev w) /\ msix (pdev w') = msix (pdev w)
    /\ (intx_fd (pdev w) <> -1 -> r = 0 /\ w' = w)
    /\ (intx_fd (pdev w) = -1 ->
        (r = 0
         /\ 0 <= intx_fd (pdev w') /\ 0 <= unmask_fd (pdev w')
         /\ intx_fd (pdev w') <> unmask_fd (pdev w')
         /\ (intx_fd (pdev w') ∉ open_fds w) /\ (unmask_fd (pdev w') ∉ open_fds w)
         /\ open_fds w' = unmask_fd (pdev w') :: intx_fd (pdev w') :: open_fds w
         /\ irqfds w' = (intx_gsi (pdev w), intx_fd (pdev w')) :: irqfds w)
        \/ (r < 0 /\ pdev w' = pdev w
            /\ (forall fd, fd ∈ open_fds w' <-> fd ∈ open_fds w)
            /\ (forall x, x ∈ irqfds w' -> x ∈ irqfds w))).
Proof.
  destruct (twp_elim _ _ _
              (twp_wp_conj _ _ _ _ (enable_intx_runs host w)
                 (enable_intx_step host w w (intx_step_refl w))))
    as (r & w' & E & (H1 & H2) & HS).
  exists r, w'. split; [exact E|].
  split; [exact (intx_step_msis false _ _ HS)|].
  split; [exact (intx_step_msis true _ _ HS)|].
  split; assumption.
Qed.

(** [vfio_pci_disable_intx] always returns.  With INTx not armed it
    does nothing.  Otherwise it sends the disarming SET_IRQS on the INTx
    index, removes the irqfd binding, closes both descriptors and sets
    [intx_fd] to -1, whatever the host answered to the SET_IRQS. *)
Theorem disable_intx_releases host w :
  exists w',
    vfio_pci_disable_intx host w = Ok tt w'
    /\ (intx_fd (pdev w) = -1 -> w' = w)
    /\ (intx_fd (pdev w) <> -1 ->
        pdev w' = set_intx_fd (-1) (pdev w)
        /\ open_fds w'
           = filter (fun x => x <> unmask_fd (pdev w))
               (filter (fun x => x <> intx_fd (pdev w)) (open_fds w))
        /\ irqfds w'
           = filter (fun x => x <> (intx_gsi (pdev w), intx_fd (pdev w))) (irqfds w)
        /\ log w' = intx_teardown (host (length (log w))) w ++ log w).
Proof.
  destruct (twp_elim _ _ _ (disable_intx_runs host w)) as ([] & w' & E & H).
  exists w'. split; [exact E|exact H].
Qed.

(** When the guest has enabled a capability of a device with INTx,
    [vfio_pci_enable_msis] leaves INTx torn down whatever the outcome of
    its own requests; if INTx was armed, the four steps of the teardown
    are the first thing it adds to the journal. *)
Theorem enable_msis_tears_intx_down host b w r w' :
  truthy (msi_is_enabled (guest_state (msis_of b (pdev w)))) = true ->
  has_mode w VFIO_PCI_IRQ_MODE_INTX = true ->
  vfio_pci_enable_msis host b w = Ok r w' ->
  intx_fd (pdev w') = -1
  /\ (intx_fd (pdev w) <> -1 ->
      exists evs, log w' = evs ++ intx_teardown (host (length (log w))) w ++ log w).
Proof.
  intros Hg Hm E. exact (wp_elim _ _ _ _ _ (enable_msis_teardown host b w Hg Hm) E).
Qed.

Lemma enable_msis_tears_intx_down_witness :
  intx_fd (pdev (sample_enabling host_ok 5)) <> -1
  /\ intx_fd (pdev sample_enabled) = -1
  /\ (intx_fd (pdev (sample_enabling host_ok 5)) <> -1 ->
      exists evs,
        log sample_enabled
        = evs ++ intx_teardown (host_ok (length (log (sample_enabling host_ok 5))))
                   (sample_enabling host_ok 5)
              ++ log (sample_enabling host_ok 5)).
Proof.
  split; [vm_compute; discriminate|].
  refine (enable_msis_tears_intx_down host_ok true (sample_enabling host_ok 5) 0
            sample_enabled _ _ _).
  - vm_compute. reflexivity.
  - vm_compute. reflexivity.
  - vm_compute. reflexivity.
Defined.

(** The bulk request.  When the guest has enabled a capability that is
    not yet enabled on the host, or that is unmasked while no vector has
    been registered, [vfio_pci_enable_msis] returns after exactly one
    SET_IRQS on the capability: the capability's [irq_set] with, for every
    vector, its eventfd if it has a route and -1 otherwise.  The only
    other requests are those of the INTx teardown.  If the host turns the
    request down its result is returned and [host_state] is unchanged; if
    it accepts, 0 is returned, the capability is enabled on the host, and
    EMPTY is set exactly when every slot of the request was negative. *)
Theorem enable_msis_bulk_request host b w :
  truthy (msi_is_enabled (guest_state (msis_of b (pdev w)))) = true ->
  wants_bulk (msis_of b (pdev w)) = true ->
  arrays_ok (msis_of b (pdev w)) ->
  exists r w' evs a,
    vfio_pci_enable_msis host b w = Ok r w'
    /\ log w' = (SET_IRQS (bulk_request (msis_of b (pdev w))), a) :: evs ++ log w
    /\ Forall intx_only evs
    /\ (a < 0 ->
        r = a /\ host_state (msis_of b (pdev w')) = host_state (msis_of b (pdev w)))
    /\ (0 <= a ->
        r = 0 /\ host_enabled w' b
        /\ (msi_is_empty (host_state (msis_of b (pdev w'))) <> 0 <->
            forall e, e ∈ entries (msis_of b (pdev w)) -> entry_fd e < 0)).
Proof.
  intros Hg Hb Hok.
  destruct (twp_elim _ _ _ (enable_msis_bulk_runs host b w Hg Hb Hok))
    as (r & w' & E & evs & a & H).
  exists r, w', evs, a. split; [exact E|exact H].
Qed.

Lemma enable_msis_bulk_request_witness :
  exists r w' evs a,
    vfio_pci_enable_msis host_ok true (sample_enabling host_ok 5) = Ok r w'
    /\ log w' = (SET_IRQS (bulk_request (msis_of true (pdev (sample_enabling host_ok 5)))),
                 a) :: evs ++ log (sample_enabling host_ok 5)
    /\ Forall intx_only evs.
Proof.
  destruct (enable_msis_bulk_request host_ok true (sample_enabling host_ok 5))
    as (r & w' & evs & a & E & Hl & Hq & _).
  - vm_compute. reflexivity.
  - vm_compute. reflexivity.
  - split; vm_compute; reflexivity.
  - exists r, w', evs, a. auto.
Defined.

(** While the guest keeps an enabled capability masked and the
    capability is already enabled on the host, [vfio_pci_enable_msis]
    returns 0 without any request on the capability: the two capabilities
    are untouched, any SET_IRQS it sends is on the INTx index, and with
    INTx absent or already torn down it changes nothing at all. *)
Theorem enable_msis_masked_is_quiet host b w :
  truthy (msi_is_enabled (guest_state (msis_of b (pdev w)))) = true ->
  wants_bulk (msis_of b (pdev w)) = false ->
  truthy (msi_is_masked (guest_state (msis_of b (pdev w)))) = true ->
  exists w',
    vfio_pci_enable_msis host b w = Ok 0 w'
    /\ intx_step w w'
    /\ (has_mode w VFIO_PCI_IRQ_MODE_INTX = false \/ intx_fd (pdev w) = -1 -> w' = w).
Proof.
  intros Hg Hb Hm.
  destruct (twp_elim _ _ _ (enable_msis_masked_runs host b w Hg Hb Hm))
    as (r & w' & E & -> & H).
  exists w'. split; [exact E|exact H].
Qed.

Lemma enable_msis_masked_is_quiet_witness :
  vfio_pci_enable_msis host_ok true sample_masked = Ok 0 sample_masked.
Proof.
  destruct (enable_msis_masked_is_quiet host_ok true sample_masked)
    as (w' & E & _ & Hsame).
  - vm_compute. reflexivity.
  - vm_compute. reflexivity.
  - vm_compute. reflexivity.
  - rewrite <- (Hsame (or_intror eq_refl)) at 2. exact E.
Defined.

(** Vector-table accesses accumulate in software while the capability
    is masked: with MSI-X enabled and masked by the guest, enabled on the
    host, and INTx torn down, a table access that returns has sent no
    SET_IRQS and has changed nothing of the device but the contents of
    vectors. *)
Theorem table_access_masked_sends_no_SET_IRQS host addr buf len is_write w buf' w' :
  truthy (msi_is_enabled (guest_state (msix (pdev w)))) = true ->
  truthy (msi_is_masked (guest_state (msix (pdev w)))) = true ->
  truthy (msi_is_enabled (host_state (msix (pdev w)))) = true ->
  intx_fd (pdev w) = -1 ->
  vfio_pci_msix_table_access host addr buf len is_write w = Ok buf' w' ->
  frame w w'.
Proof.
  intros Hg Hm Hh Hfd E.
  exact (wp_elim _ _ _ _ _
           (table_access_masked_quiet host addr buf len is_write w Hg Hm Hh Hfd) E).
Qed.

Lemma table_access_masked_sends_no_SET_IRQS_witness :
  frame sample_masked sample_ctrl_written.
Proof.
  refine (table_access_masked_sends_no_SET_IRQS host_ok 0x1000c [0; 0; 0; 0] 4 true
            sample_masked [0; 0; 0; 0] sample_ctrl_written _ _ _ _ _).
  all: vm_compute; reflexivity.
Defined.



(** Interrupt set-up.  When [vfio_pci_configure_dev_irqs] returns 0 on a
    device whose vector arrays were just allocated, every vector of both
    capabilities has no gsi, no eventfd and is masked on the host, neither
    capability is enabled on the host, INTx is armed if the device has
    it, and every vector is host-masked exactly when it has no irqfd
    binding. *)
Theorem configure_dev_irqs_initial_state host irq_info off line w0 w :
  boot_ok w0 ->
  vfio_pci_configure_dev_irqs host irq_info off line w0 = Ok 0 w ->
  (forall b, vectors_initial w b)
  /\ (forall b, ~ host_enabled w b)
  /\ (has_mode w0 VFIO_PCI_IRQ_MODE_INTX = true -> intx_armed w)
  /\ mask_route_law w.
Proof.
  intros HB E.
  destruct (wp_elim _ _ _ _ _ (configure_dev_irqs_spec host irq_info off line w0 HB)
              E eq_refl) as (H1 & H2 & _ & H3 & H4).
  split; [exact H2|]. split; [exact H3|]. split; [exact H4|exact (vec_inv_law _ H1)].
Qed.

Lemma configure_dev_irqs_initial_state_witness :
  (forall b, vectors_initial (sample_configured host_ok 7) b)
  /\ (forall b, ~ host_enabled (sample_configured host_ok 7) b)
  /\ (has_mode sample_boot_all VFIO_PCI_IRQ_MODE_INTX = true ->
      intx_armed (sample_configured host_ok 7))
  /\ mask_route_law (sample_configured host_ok 7).
Proof.
  refine (configure_dev_irqs_initial_state host_ok sample_irq_info 0 9 sample_boot_all
            (sample_configured host_ok 7) (sample_boot_ok 7 (or_intror eq_refl)) _).
  vm_compute. reflexivity.
Defined.

Lemma sample_vector0_facts : vec_inv sample_vector0 /\ excl_inv 5 sample_vector0.
Proof.
  destruct sample_masked_facts as (HI & HK).
  assert (Hx : truthy (Z.land 5 VFIO_PCI_IRQ_MODE_MSIX) = true) by reflexivity.
  unfold sample_vector0.
  set (w1 := after (vfio_pci_msix_table_access host_ok 0x10000
                      [0; 0; 0xE0; 0xFE; 0; 0; 0; 0] 8 true) sample_masked).
  set (w2 := after (vfio_pci_msix_table_access host_ok 0x10008 [0x41; 0; 0; 0] 4 true) w1).
  set (w3 := after (vfio_pci_msix_table_access host_ok 0x1000c [0; 0; 0; 0] 4 true) w2).
  assert (E1 : vfio_pci_msix_table_access host_ok 0x10000
                 [0; 0; 0xE0; 0xFE; 0; 0; 0; 0] 8 true sample_masked
               = Ok [0; 0; 0xE0; 0xFE; 0; 0; 0; 0] w1) by (vm_compute; reflexivity).
  assert (E2 : vfio_pci_msix_table_access host_ok 0x10008 [0x41; 0; 0; 0] 4 true w1
               = Ok [0x41; 0; 0; 0] w2) by (vm_compute; reflexivity).
  assert (E3 : vfio_pci_msix_table_access host_ok 0x1000c [0; 0; 0; 0] 4 true w2
               = Ok [0; 0; 0; 0] w3) by (vm_compute; reflexivity).
  pose proof (wp_elim _ _ _ _ _ (msix_table_access_inv host_ok _ _ _ _ _ HI) E1) as HI1.
  pose proof (wp_elim _ _ _ _ _ (msix_table_access_excl host_ok _ _ _ _ 5 _ Hx HK) E1)
    as HK1.
  pose proof (wp_elim _ _ _ _ _ (msix_table_access_inv host_ok _ _ _ _ _ HI1) E2) as HI2.
  pose proof (wp_elim _ _ _ _ _ (msix_table_access_excl host_ok _ _ _ _ 5 _ Hx HK1) E2)
    as HK2.
  split.
  - exact (wp_elim _ _ _ _ _ (msix_table_access_inv host_ok _ _ _ _ _ HI2) E3).
  - exact (wp_elim _ _ _ _ _ (msix_table_access_excl host_ok _ _ _ _ 5 _ Hx HK2) E3).
Qed.

(** An access to the MSI-X table keeps the mask/route agreement: from a
    state that satisfies the vector invariant, whatever the address, the
    bytes, the length and the host's answers, the state
    [vfio_pci_msix_table_access] leaves satisfies it again, and in it
    every vector is host-masked exactly when no irqfd binding is installed
    for its gsi and eventfd. *)
Theorem table_access_keeps_mask_route host addr buf len is_write w buf' w' :
  vec_inv w ->
  vfio_pci_msix_table_access host addr buf len is_write w = Ok buf' w' ->
  vec_inv w' /\ mask_route_law w'.
Proof.
  intros HI E.
  pose proof (wp_elim _ _ _ _ _ (msix_table_access_inv host addr buf len is_write w HI) E)
    as HI'.
  split; [exact HI'|exact (vec_inv_law _ HI')].
Qed.

Lemma table_access_keeps_mask_route_witness :
  vec_inv sample_ctrl_written /\ mask_route_law sample_ctrl_written.
Proof.
  refine (table_access_keeps_mask_route host_ok 0x1000c [0; 0; 0; 0] 4 true sample_masked
            [0; 0; 0; 0] sample_ctrl_written (proj1 sample_masked_facts) _).
  vm_compute. reflexivity.
Defined.

Lemma single_capability_5 : single_capability 5.
Proof. intros (H & _). vm_compute in H. discriminate H. Qed.

(** On a device with MSI-X, an access to the MSI-X table keeps the
    modes exclusive in the same sense. *)
Theorem table_access_keeps_exclusion host addr buf len is_write w buf' w' :
  has_mode w VFIO_PCI_IRQ_MODE_MSIX = true ->
  excl_inv (irq_modes (pdev w)) w ->
  vfio_pci_msix_table_access host addr buf len is_write w = Ok buf' w' ->
  excl_inv (irq_modes (pdev w)) w'.
Proof.
  intros Hx HK E.
  exact (wp_elim _ _ _ _ _
           (msix_table_access_excl host addr buf len is_write _ w Hx HK) E).
Qed.

Lemma table_access_keeps_exclusion_witness : excl_inv 5 sample_ctrl_written.
Proof.
  refine (table_access_keeps_exclusion host_ok 0x1000c [0; 0; 0; 0] 4 true sample_masked
            [0; 0; 0; 0] sample_ctrl_written _ (proj2 sample_masked_facts) _).
  all: vm_compute; reflexivity.
Defined.

(** * Properties of the vCPU reset *)

Ltac call_ok Hs :=
  cbn [Aarch64.calls Aarch64.cpu_id Aarch64.regs length];
  first [ exact (Hs 0%nat ltac:(lia)) | exact (Hs 1%nat ltac:(lia))
        | exact (Hs 2%nat ltac:(lia)) | exact (Hs 3%nat ltac:(lia))
        | exact (Hs 4%nat ltac:(lia)) | exact (Hs 5%nat ltac:(lia)) ].

Ltac reg_cases :=
  unfold Aarch64.set_reg;
  repeat (destruct (decide _) as [?|?]; try discriminate; try congruence);
  try reflexivity.

Lemma reset_aarch64_ok host k c :
  Aarch64.calls_succeed host c (reset_calls false c) ->
  exists c',
    Aarch64.reset_vcpu_aarch64 host k c = Aarch64.Returned tt c'
    /\ Aarch64.cpu_id c' = Aarch64.cpu_id c
    /\ (Aarch64.calls c').*1 = calls_of_reset64 k c ++ (Aarch64.calls c).*1
    /\ forall r, Aarch64.regs c' r = regs_after_reset64 k c r.
Proof.
  unfold reset_calls, calls_of_reset64, regs_after_reset64.
  intros Hs. unfold Aarch64.reset_vcpu_aarch64, Aarch64.vbind.
  destruct (Aarch64.cpu_id c =? 0) eqn:Hid.
  all: repeat (rewrite write_or_die_ok by call_ok Hs;
               cbn [Aarch64.calls Aarch64.cpu_id Aarch64.regs length]; rewrite ?Hid).
  all: eexists; split; [reflexivity|].
  all: cbn [Aarch64.calls Aarch64.cpu_id Aarch64.regs].
  all: split; [reflexivity|]; split; [reflexivity|].
  all: intros r; destruct r as [|[|[|[|[|n]]]]| |]; reg_cases.
Qed.

(** The AArch64 reset.  When its KVM_SET_ONE_REG calls succeed (six for
    the boot CPU, four for a secondary one), [reset_vcpu_aarch64] returns
    after exactly these calls, in this order: pstate with D, A, I and F
    masked in EL1h, x1, x2 and x3 zero and, for CPU 0 only, x0 the
    address of the device tree and pc the start of the kernel image.
    Every other register is as before; a secondary CPU keeps its x0 and
    pc. *)
Theorem reset_vcpu_aarch64_registers host k c :
  Aarch64.calls_succeed host c (reset_calls false c) ->
  exists c',
    Aarch64.reset_vcpu_aarch64 host k c = Aarch64.Returned tt c'
    /\ Aarch64.cpu_id c' = Aarch64.cpu_id c
    /\ (Aarch64.calls c').*1 = calls_of_reset64 k c ++ (Aarch64.calls c).*1
    /\ forall r, Aarch64.regs c' r = regs_after_reset64 k c r.
Proof. exact (reset_aarch64_ok host k c). Qed.

Lemma reset_vcpu_aarch64_registers_witness :
  exists c',
    Aarch64.reset_vcpu_aarch64 host_ok Aarch64.sample_kvm (Aarch64.sample_cpu 0)
    = Aarch64.Returned tt c'
    /\ Aarch64.regs c' (Aarch64.REG_X 0) = 0x4fe00000
    /\ Aarch64.regs c' Aarch64.REG_PC = 0x40080000
    /\ Aarch64.regs c' Aarch64.REG_PSTATE = 0x3c5
    /\ Aarch64.regs c' Aarch64.REG_SCTLR_EL1 = 0xdead.
Proof.
  destruct (reset_vcpu_aarch64_registers host_ok Aarch64.sample_kvm (Aarch64.sample_cpu 0))
    as (c' & E & _ & _ & Hr).
  - intros i _. unfold host_ok. lia.
  - exists c'. split; [exact E|]. rewrite !Hr. repeat split; reflexivity.
Defined.

Lemma reset_aarch32_ok host k c :
  Aarch64.calls_succeed host c (reset_calls true c) ->
  exists c',
    Aarch64.reset_vcpu_aarch32 host k c = Aarch64.Returned tt c'
    /\ Aarch64.cpu_id c' = Aarch64.cpu_id c
    /\ (Aarch64.calls c').*1 = calls_of_reset32 k c ++ (Aarch64.calls c).*1
    /\ forall r, Aarch64.regs c' r = regs_after_reset32 k c r.
Proof.
  unfold reset_calls, calls_of_reset32, regs_after_reset32.
  intros Hs. unfold Aarch64.reset_vcpu_aarch32, Aarch64.vbind.
  destruct (Aarch64.cpu_id c =? 0) eqn:Hid.
  all: repeat (rewrite write_or_die_ok by call_ok Hs;
               cbn [Aarch64.calls Aarch64.cpu_id Aarch64.regs length negb];
               rewrite ?Hid; cbn [negb]).
  all: eexists; split; [reflexivity|].
  all: cbn [Aarch64.calls Aarch64.cpu_id Aarch64.regs].
  all: split; [reflexivity|]; split; [reflexivity|].
  all: intros r; destruct r as [|[|[|[|n]]]| |]; reg_cases.
Qed.

(** The AArch32 reset.  When its KVM_SET_ONE_REG calls succeed (five for
    the boot CPU, one for a secondary one), [reset_vcpu_aarch32] returns
    after exactly these calls, in this order: pstate with I and F masked
    in SVC mode and, for CPU 0 only, r0 zero, r1 all ones (machine type
    -1 as a 64-bit value), r2 the address of the device tree and pc the
    start of the kernel image.  A secondary CPU has only its pstate
    written. *)
Theorem reset_vcpu_aarch32_registers host k c :
  Aarch64.calls_succeed host c (reset_calls true c) ->
  exists c',
    Aarch64.reset_vcpu_aarch32 host k c = Aarch64.Returned tt c'
    /\ Aarch64.cpu_id c' = Aarch64.cpu_id c
    /\ (Aarch64.calls c').*1 = calls_of_reset32 k c ++ (Aarch64.calls c).*1
    /\ forall r, Aarch64.regs c' r = regs_after_reset32 k c r.
Proof. exact (reset_aarch32_ok host k c). Qed.

Lemma reset_vcpu_aarch32_registers_witness :
  exists c',
    Aarch64.reset_vcpu_aarch32 host_ok sample_kvm32 (Aarch64.sample_cpu 0)
    = Aarch64.Returned tt c'
    /\ Aarch64.regs c' (Aarch64.REG_X 1) = 0xffffffffffffffff
    /\ Aarch64.regs c' (Aarch64.REG_X 2) = 0x4fe00000
    /\ Aarch64.regs c' Aarch64.REG_PC = 0x40080000.
Proof.
  destruct (reset_vcpu_aarch32_registers host_ok sample_kvm32 (Aarch64.sample_cpu 0))
    as (c' & E & _ & _ & Hr).
  - intros i _. unfold host_ok. lia.
  - exists c'. split; [exact E|]. rewrite !Hr. repeat split; reflexivity.
Defined.

(** Either reset ends the process exactly when one of its
    KVM_SET_ONE_REG calls returns a negative result; a secondary CPU
    makes fewer calls than the boot CPU, so later answers of the host do
    not matter for it. *)
Theorem reset_exits_iff_a_call_fails host k c :
  (Aarch64.reset_vcpu_aarch64 host k c = Aarch64.Exited <->
   exists i, (i < reset_calls false c)%nat
             /\ host (i + length (Aarch64.calls c))%nat < 0)
  /\ (Aarch64.reset_vcpu_aarch32 host k c = Aarch64.Exited <->
      exists i, (i < reset_calls true c)%nat
                /\ host (i + length (Aarch64.calls c))%nat < 0).
Proof.
  unfold reset_calls. split; split.
  - intros E. pose proof (reset_aarch64_runs host k c) as H. cbv zeta in H.
    rewrite E in H. exact H.
  - intros (i & Hi & Hf). pose proof (reset_aarch64_runs host k c) as H. cbv zeta in H.
    destruct (Aarch64.reset_vcpu_aarch64 host k c) as [[] c'|]; [|reflexivity].
    destruct H as (Hs & _). pose proof (Hs i Hi). lia.
  - intros E. pose proof (reset_aarch32_runs host k c) as H. cbv zeta in H.
    rewrite E in H. exact H.
  - intros (i & Hi & Hf). pose proof (reset_aarch32_runs host k c) as H. cbv zeta in H.
    destruct (Aarch64.reset_vcpu_aarch32 host k c) as [[] c'|]; [|reflexivity].
    destruct H as (Hs & _). pose proof (Hs i Hi). lia.
Qed.

Lemma get_endianness_svc host c :
  Aarch64.regs c Aarch64.REG_PSTATE = 0xd3 ->
  Aarch64.calls_succeed host c 1 ->
  match Aarch64.kvm_cpu__get_endianness host c with
  | Aarch64.Returned e c' =>
      e = Aarch64.VIRTIO_ENDIAN_LE /\ Aarch64.regs c' = Aarch64.regs c
  | Aarch64.Exited => False
  end.
Proof.
  intros Hp Hs.
  pose proof (Hs 0%nat ltac:(lia)) as H0. cbn [Nat.add] in H0. apply Z.ltb_ge in H0.
  unfold Aarch64.kvm_cpu__get_endianness, Aarch64.vbind, Aarch64.get_one_reg.
  cbn [Aarch64.calls Aarch64.regs length]. rewrite H0, Hp.
  change (truthy (Z.land 0xd3 Aarch64.PSR_MODE32_BIT)) with true.
  change (truthy (Z.land 0xd3 Aarch64.COMPAT_PSR_E_BIT)) with false.
  cbv iota. unfold Aarch64.vret. split; reflexivity.
Qed.

(** What the reset leaves in pstate and SCTLR_EL1. *)
Lemma reset_kind_regs host k c c' :
  (if Aarch64.aarch32_guest k then Aarch64.reset_vcpu_aarch32 host k c
   else Aarch64.reset_vcpu_aarch64 host k c) = Aarch64.Returned tt c' ->
  Aarch64.regs c' Aarch64.REG_PSTATE
  = (if Aarch64.aarch32_guest k then 0xd3 else Aarch64.reset_pstate)
  /\ Aarch64.regs c' Aarch64.REG_SCTLR_EL1 = Aarch64.regs c Aarch64.REG_SCTLR_EL1.
Proof.
  destruct (Aarch64.aarch32_guest k); intros E.
  - pose proof (reset_aarch32_runs host k c) as H. cbv zeta in H. rewrite E in H.
    destruct H as (Hs & _).
    destruct (reset_aarch32_ok host k c Hs) as (c2 & E2 & _ & _ & Hr).
    rewrite E in E2. injection E2 as <-. rewrite !Hr. split; reflexivity.
  - pose proof (reset_aarch64_runs host k c) as H. cbv zeta in H. rewrite E in H.
    destruct H as (Hs & _).
    destruct (reset_aarch64_ok host k c Hs) as (c2 & E2 & _ & _ & Hr).
    rewrite E in E2. injection E2 as <-. rewrite !Hr. split; reflexivity.
Qed.

(** Reset, then the endianness query.  On a vCPU that
    [kvm_cpu__reset_vcpu] has just reset, [kvm_cpu__get_endianness]
    returns, when its KVM_GET_ONE_REG calls succeed, little-endian for a
    32-bit guest, without reading SCTLR_EL1, and for a 64-bit guest
    big-endian exactly when bit 25 (EE) of the SCTLR_EL1 the vCPU had
    before the reset is set.  The query changes no register. *)
Theorem endianness_after_reset host k c c' :
  Aarch64.kvm_cpu__reset_vcpu host k c = Aarch64.Returned tt c' ->
  Aarch64.calls_succeed host c' (if Aarch64.aarch32_guest k then 1 else 2) ->
  exists c'',
    Aarch64.kvm_cpu__get_endianness host c'
    = Aarch64.Returned (endianness_at_reset k c) c''
    /\ Aarch64.regs c'' = Aarch64.regs c'
    /\ length (Aarch64.calls c'')
       = ((if Aarch64.aarch32_guest k then 1 else 2) + length (Aarch64.calls c'))%nat.
Proof.
  intros E Hs. unfold Aarch64.kvm_cpu__reset_vcpu, Aarch64.vbind in E.
  assert (exists c1, Aarch64.regs c1 = Aarch64.regs c
            /\ (if Aarch64.aarch32_guest k then Aarch64.reset_vcpu_aarch32 host k c1
                else Aarch64.reset_vcpu_aarch64 host k c1) = Aarch64.Returned tt c')
    as (c1 & Hr1 & E1).
  { destruct (Aarch64.vcpu_affinity_cpuset k).
    - unfold Aarch64.call_setaffinity in E.
      destruct (_ =? -1); [discriminate E|].
      unfold Aarch64.vret in E. eexists; split; [|destruct (Aarch64.aarch32_guest k); exact E].
      reflexivity.
    - unfold Aarch64.vret in E. exists c. split; [reflexivity|].
      destruct (Aarch64.aarch32_guest k); exact E. }
  destruct (reset_kind_regs host k c1 c' E1) as (Hp & Hsc).
  unfold endianness_at_reset. rewrite <- Hr1, <- Hsc.
  destruct (Aarch64.aarch32_guest k).
  - pose proof (get_endianness_svc host c' Hp Hs) as H.
    destruct (Aarch64.kvm_cpu__get_endianness host c') as [e c''|] eqn:Eq; [|contradiction].
    destruct H as (He & Hr); subst e. exists c''. split; [reflexivity|]. split; [exact Hr|].
    revert Eq. unfold Aarch64.kvm_cpu__get_endianness, Aarch64.vbind, Aarch64.get_one_reg.
    cbn [Aarch64.calls Aarch64.regs length]. rewrite Hp.
    change (truthy (Z.land 0xd3 Aarch64.PSR_MODE32_BIT)) with true. cbv iota.
    destruct (_ <? 0); [discriminate|]. unfold Aarch64.vret.
    intros Eq. injection Eq as <-. reflexivity.
  - pose proof (get_endianness_el1h host c' Hp Hs) as H.
    destruct (Aarch64.kvm_cpu__get_endianness host c') as [e c''|] eqn:Eq; [|contradiction].
    destruct H as (He & Hr); subst e. exists c''. split; [reflexivity|]. split; [exact Hr|].
    revert Eq. unfold Aarch64.kvm_cpu__get_endianness, Aarch64.vbind, Aarch64.get_one_reg.
    cbn [Aarch64.calls Aarch64.regs length]. rewrite Hp.
    change (truthy (Z.land Aarch64.reset_pstate Aarch64.PSR_MODE32_BIT)) with false.
    cbv iota.
    destruct (_ <? 0); [discriminate|]. cbv beta iota.
    cbn [Aarch64.calls Aarch64.regs length].
    destruct (_ <? 0); [discriminate|]. unfold Aarch64.vret.
    intros Eq. injection Eq as _ <-. reflexivity.
Qed.

Lemma endianness_after_reset_witness :
  exists c'',
    Aarch64.kvm_cpu__get_endianness host_ok sample_cpu_be_reset
    = Aarch64.Returned Aarch64.VIRTIO_ENDIAN_BE c''.
Proof.
  destruct (endianness_after_reset host_ok Aarch64.sample_kvm sample_cpu_be
              sample_cpu_be_reset) as (c'' & E & _).
  - vm_compute. reflexivity.
  - intros i _. unfold host_ok. lia.
  - exists c''. exact E.
Defined.

(** * The capability list *)

Lemma length_memcpy_at dst off src :
  (off + length src <= length dst)%nat -> length (memcpy_at dst off src) = length dst.
Proof.
  intros H. unfold memcpy_at. rewrite !length_app, length_take, length_drop. lia.
Qed.

Lemma lookup_memcpy_at_in dst off src i :
  (off + length src <= length dst)%nat -> (off <= i < off + length src)%nat ->
  memcpy_at dst off src !! i = src !! (i - off)%nat.
Proof.
  intros H Hi. unfold memcpy_at.
  rewrite lookup_app_r by (rewrite length_take; lia).
  rewrite length_take, Nat.min_l by lia.
  rewrite lookup_app_l by lia. reflexivity.
Qed.

Lemma lookup_memcpy_at_out dst off src i :
  (off + length src <= length dst)%nat -> ~ (off <= i < off + length src)%nat ->
  memcpy_at dst off src !! i = dst !! i.
Proof.
  intros H Hi. unfold memcpy_at.
  destruct (decide (i < off)%nat) as [Hlt|Hge].
  - rewrite lookup_app_l by (rewrite length_take; lia).
    apply lookup_take_lt. exact Hlt.
  - rewrite lookup_app_r by (rewrite length_take; lia).
    rewrite length_take, Nat.min_l by lia.
    rewrite lookup_app_r by lia.
    rewrite lookup_drop. f_equal. lia.
Qed.

Lemma length_bytes_at src off n :
  (off + n <= length src)%nat -> length (bytes_at src off n) = n.
Proof. intros H. unfold bytes_at. rewrite length_take, length_drop. lia. Qed.

Lemma lookup_bytes_at src off n j :
  (j < n)%nat -> bytes_at src off n !! j = src !! (off + j)%nat.
Proof.
  intros H. unfold bytes_at. rewrite lookup_take_lt by exact H. apply lookup_drop.
Qed.

Lemma twp_hdr_at off x (Q : Z -> world -> Prop) w :
  hdr (pdev w) !! Z.to_nat off = Some x -> Q x w -> twp (hdr_at off) Q w.
Proof. intros H HQ. unfold twp, hdr_at. rewrite H. exact HQ. Qed.

Lemma twp_hdr_put off x (Q : unit -> world -> Prop) w :
  (Z.to_nat off < length (hdr (pdev w)))%nat ->
  Q tt (set_pdev (set_hdr (<[Z.to_nat off := x]> (hdr (pdev w))) (pdev w)) w) ->
  twp (hdr_put off x) Q w.
Proof.
  intros H HQ. unfold twp, hdr_put. destruct (decide _); [exact HQ|contradiction].
Qed.

Lemma msi_cap_size_bounds ctrl : 10 <= vfio_pci_msi_cap_size ctrl <= 24.
Proof.
  unfold vfio_pci_msi_cap_size.
  destruct (truthy (Z.land ctrl PCI_MSI_FLAGS_64BIT));
    destruct (truthy (Z.land ctrl PCI_MSI_FLAGS_MASKBIT)); lia.
Qed.

Lemma cap_len_bounds h p : 2 <= cap_len h p <= 24.
Proof.
  unfold cap_len, PCI_CAP_MSIX_SIZEOF, PCI_CAP_EXP_RC_ENDPOINT_SIZEOF_V1.
  pose proof (msi_cap_size_bounds (byte_at h (p + 2) + 256 * byte_at h (p + 3))).
  repeat destruct (_ =? _); lia.
Qed.

Lemma cap_len_kept h p : kept_type (byte_at h p) = true -> 10 <= cap_len h p.
Proof.
  unfold kept_type, cap_len, PCI_CAP_MSIX_SIZEOF, PCI_CAP_EXP_RC_ENDPOINT_SIZEOF_V1.
  pose proof (msi_cap_size_bounds (byte_at h (p + 2) + 256 * byte_at h (p + 3))).
  repeat destruct (_ =? _); cbn; intros; try discriminate; lia.
Qed.

Lemma byte_at_some h i x : h !! Z.to_nat i = Some x -> byte_at h i = x.
Proof. intros H. unfold byte_at. rewrite H. reflexivity. Qed.

Lemma lookup_byte_at h i :
  (Z.to_nat i < length h)%nat -> h !! Z.to_nat i = Some (byte_at h i).
Proof.
  intros H. destruct (lookup_lt_is_Some_2 h _ H) as (x & Hx).
  rewrite (byte_at_some _ _ _ Hx). exact Hx.
Qed.

Lemma u8_small z : 0 <= z < 256 -> u8 z = z.
Proof. intros H. unfold u8, wrap. apply Z.mod_small. lia. Qed.

Lemma last_cap_ok v ks : forall fuel w l,
  links v ks -> Forall (fun k => k <> 0) ks -> last ks = Some l ->
  (length ks <= fuel)%nat ->
  last_cap fuel v (hd 0 ks) w = Ok (Some l) w.
Proof.
  induction ks as [|k rest IH]; intros fuel w l HL Hnz Hlast Hf; [discriminate Hlast|].
  destruct fuel as [|f]; [cbn in Hf; lia|].
  destruct HL as (Hk & HL). cbn [hd last_cap]. rewrite Hk.
  destruct rest as [|q r].
  - cbn [hd]. rewrite Z.eqb_refl. cbn in Hlast. injection Hlast as <-. reflexivity.
  - cbn [hd]. inversion Hnz as [|? ? _ Hnz']; subst.
    pose proof Hnz' as Hq. inversion Hq as [|? ? Hq0 _]; subst.
    apply Z.eqb_neq in Hq0. rewrite Hq0.
    apply (IH f w l HL Hnz').
    + exact Hlast.
    + cbn in Hf |- *. lia.
Qed.

(** What [vfio_pci_cap_size] returns for a capability of a kept type. *)
Lemma cap_size_ok h0 p (Q : Z -> world -> Prop) w :
  (Z.to_nat (p + 3) < length (hdr (pdev w)))%nat ->
  0 <= p ->
  byte_at (hdr (pdev w)) p = byte_at h0 p ->
  byte_at (hdr (pdev w)) (p + 2) = byte_at h0 (p + 2) ->
  byte_at (hdr (pdev w)) (p + 3) = byte_at h0 (p + 3) ->
  kept_type (byte_at h0 p) = true ->
  Q (cap_len h0 p) w ->
  twp (vfio_pci_cap_size p) Q w.
Proof.
  intros Hlen Hp H0 H2 H3 Hk HQ. unfold vfio_pci_cap_size.
  apply twp_bind. apply (twp_hdr_at _ (byte_at h0 p)).
  { rewrite <- H0. apply lookup_byte_at. lia. }
  unfold cap_len in HQ. unfold kept_type in Hk.
  destruct (byte_at h0 p =? PCI_CAP_ID_MSIX); [apply twp_ret; exact HQ|].
  destruct (byte_at h0 p =? PCI_CAP_ID_MSI).
  { apply twp_bind. apply (twp_hdr_at _ (byte_at h0 (p + 2))).
    { rewrite <- H2. apply lookup_byte_at. lia. }
    apply twp_bind. apply (twp_hdr_at _ (byte_at h0 (p + 3))).
    { rewrite <- H3. apply lookup_byte_at. lia. }
    apply twp_ret. exact HQ. }
  destruct (byte_at h0 p =? PCI_CAP_ID_EXP); [apply twp_ret; exact HQ|].
  discriminate Hk.
Qed.

Lemma last_elem_of {A} (l : list A) x : last l = Some x -> x ∈ l.
Proof.
  intros H. apply last_Some in H as (l' & ->). apply elem_of_app. right.
  apply list_elem_of_here.
Qed.

Lemma links_snoc v v' ks p :
  links v ks -> NoDup ks ->
  (forall k, k ∈ ks -> last ks <> Some k ->
             v' !! Z.to_nat (k + 1) = v !! Z.to_nat (k + 1)) ->
  (forall l, last ks = Some l -> v' !! Z.to_nat (l + 1) = Some p) ->
  v' !! Z.to_nat (p + 1) = Some 0 ->
  links v' (ks ++ [p]).
Proof.
  intros HL Hnd Hsame Hlast Hp. induction ks as [|k rest IH].
  - cbn. split; [exact Hp|exact I].
  - destruct HL as (Hk & HL). apply NoDup_cons in Hnd as (Hnotin & Hnd).
    cbn [app links]. split.
    + destruct rest as [|q r].
      * cbn. apply Hlast. reflexivity.
      * cbn [app hd]. rewrite Hsame.
        -- exact Hk.
        -- apply list_elem_of_here.
        -- intros E. change (last (q :: r) = Some k) in E.
           apply Hnotin. exact (last_elem_of _ _ E).
    + apply IH; [exact HL|exact Hnd| |].
      * intros k' Hin Hne. apply Hsame; [apply list_elem_of_further; exact Hin|].
        destruct rest as [|q r]; [inversion Hin|]. exact Hne.
      * intros l El. apply Hlast. destruct rest as [|q r]; [discriminate El|]. exact El.
Qed.

Ltac cap_nums :=
  unfold cap_fits, cap_apart, PCI_STD_HEADER_SIZEOF, PCI_DEV_CFG_SIZE_LEGACY,
    PCI_STATUS, PCI_CAPABILITY_LIST, PCI_STATUS_CAP_LIST in *.

(** One capability more: what [vfio_pci_add_cap] does to the header and
    to the scratch buffer keeps the invariant of the loop. *)
Lemma parse_inv_add h0 ks v h p :
  parse_inv h0 ks v h ->
  Forall (cap_fits h0) ks ->
  NoDup ks ->
  cap_fits h0 p ->
  (forall k, k ∈ ks -> cap_apart h0 k p) ->
  (forall a b, a ∈ ks -> b ∈ ks -> a = b \/ cap_apart h0 a b) ->
  let h1 := <[Z.to_nat (p + 1) := 0]> h in
  let h2 := match ks with
            | [] => <[Z.to_nat PCI_STATUS :=
                        Z.lor (Z.land (byte_at h0 PCI_STATUS) (Z.lnot PCI_STATUS_CAP_LIST))
                              PCI_STATUS_CAP_LIST]>
                      (<[Z.to_nat PCI_CAPABILITY_LIST := p]> h1)
            | _ => h1
            end in
  let v1 := match last ks with
            | Some l => <[Z.to_nat (l + 1) := p]> v
            | None => v
            end in
  parse_inv h0 (ks ++ [p])
    (memcpy_at v1 (Z.to_nat p) (bytes_at h2 (Z.to_nat p) (Z.to_nat (cap_len h0 p)))) h2.
Proof.
  intros HI Hfit Hnd Hp Hap Hpair h1 h2 v1.
  pose proof (cap_len_bounds h0 p) as Hn.
  pose proof (pi_len_h _ _ _ _ HI) as Lh. pose proof (pi_len_v _ _ _ _ HI) as Lv.
  rewrite Forall_forall in Hfit.
  assert (Lh1 : length h1 = 256%nat) by (unfold h1; rewrite length_insert; exact Lh).
  assert (Lh2 : length h2 = 256%nat).
  { unfold h2. destruct ks; rewrite ?length_insert; exact Lh1. }
  assert (Lv1 : length v1 = 256%nat).
  { unfold v1. destruct (last ks); rewrite ?length_insert; exact Lv. }
  assert (Lpay : length (bytes_at h2 (Z.to_nat p) (Z.to_nat (cap_len h0 p)))
                 = Z.to_nat (cap_len h0 p)).
  { apply length_bytes_at. cap_nums. lia. }
  assert (Hh2 : forall i, 0 <= i -> i <> p + 1 -> i <> 6 -> i <> 0x34 ->
                          h2 !! Z.to_nat i = h !! Z.to_nat i).
  { intros i Hi0 H1 H2 H3. unfold h2, h1. cap_nums.
    destruct ks; rewrite ?list_lookup_insert_ne by lia; reflexivity. }
  assert (Hh2p : h2 !! Z.to_nat (p + 1) = Some 0).
  { unfold h2, h1. cap_nums.
    destruct ks; rewrite ?list_lookup_insert_ne by lia;
      apply list_lookup_insert_eq; lia. }
  assert (Hlast : forall l, last ks = Some l -> l ∈ ks /\ cap_fits h0 l).
  { intros l El. pose proof (last_elem_of _ _ El) as Hin. split; [exact Hin|].
    apply Hfit, Hin. }
  assert (Hv1 : forall i, 0 <= i -> (forall l, last ks = Some l -> i <> l + 1) ->
                          v1 !! Z.to_nat i = v !! Z.to_nat i).
  { intros i Hi0 Hne. unfold v1. destruct (last ks) as [l|] eqn:El; [|reflexivity].
    destruct (Hlast l eq_refl) as (_ & Hl). cap_nums.
    apply list_lookup_insert_ne. pose proof (Hne l eq_refl). lia. }
  assert (Hout : forall i, 0 <= i -> ~ (p <= i < p + cap_len h0 p) ->
                           memcpy_at v1 (Z.to_nat p)
                             (bytes_at h2 (Z.to_nat p) (Z.to_nat (cap_len h0 p)))
                             !! Z.to_nat i = v1 !! Z.to_nat i).
  { intros i Hi0 Hni. apply lookup_memcpy_at_out; rewrite Lpay; cap_nums; lia. }
  assert (Hin : forall i, p <= i < p + cap_len h0 p ->
                          memcpy_at v1 (Z.to_nat p)
                            (bytes_at h2 (Z.to_nat p) (Z.to_nat (cap_len h0 p)))
                            !! Z.to_nat i = h2 !! Z.to_nat i).
  { intros i Hi. rewrite lookup_memcpy_at_in by (rewrite Lpay; cap_nums; lia).
    rewrite lookup_bytes_at by (cap_nums; lia). f_equal. cap_nums. lia. }
  constructor.
  - exact Lh2.
  - rewrite length_memcpy_at; [exact Lv1|]. rewrite Lpay, Lv1. cap_nums. lia.
  - intros i Hi Hne. rewrite Hh2.
    + apply (pi_hi _ _ _ _ HI); [exact Hi|].
      intros q Hq. apply Hne. apply elem_of_app. left. exact Hq.
    + cap_nums. lia.
    + apply Hne. apply elem_of_app. right. apply list_elem_of_here.
    + cap_nums. lia.
    + cap_nums. lia.
  - intros i Hi H6 H34. rewrite Hh2.
    + apply (pi_lo _ _ _ _ HI); assumption.
    + lia.
    + cap_nums. lia.
    + exact H6.
    + exact H34.
  - pose proof (pi_caps _ _ _ _ HI) as Hc. unfold h2, h1. cap_nums.
    destruct ks as [|k0 ks'].
    + cbn [app hd]. rewrite list_lookup_insert_ne by lia.
      apply list_lookup_insert_eq. rewrite length_insert. lia.
    + cbn [app hd] in *. rewrite list_lookup_insert_ne by lia. exact Hc.
  - pose proof (pi_status _ _ _ _ HI) as Hs. unfold h2, h1. cap_nums.
    destruct ks as [|k0 ks'].
    + cbn [app]. cbv zeta.
      apply list_lookup_insert_eq. rewrite !length_insert. lia.
    + cbn [app] in *. rewrite list_lookup_insert_ne by lia. exact Hs.
  - intros i Hi Hnc.
    assert (Hnp : ~ (p <= i < p + cap_len h0 p)).
    { intros Hr. apply Hnc. exists p. split; [|exact Hr].
      apply elem_of_app. right. apply list_elem_of_here. }
    assert (Hnk : ~ in_caps h0 ks i).
    { intros (q & Hq & Hr). apply Hnc. exists q. split; [|exact Hr].
      apply elem_of_app. left. exact Hq. }
    rewrite Hout by (lia || exact Hnp). rewrite Hv1.
    + apply (pi_zero _ _ _ _ HI); assumption.
    + lia.
    + intros l El Eq. destruct (Hlast l El) as (Hl & Hfl). apply Hnk.
      exists l. split; [exact Hl|]. pose proof (cap_len_bounds h0 l). lia.
  - intros q i Hq Hr Hne. apply elem_of_app in Hq as [Hq|Hq].
    + pose proof (Hap q Hq) as Hqp. pose proof (Hfit q Hq) as Hfq.
      rewrite Hout by (cap_nums; lia). rewrite Hv1.
      * apply (pi_copy _ _ _ _ HI q); assumption.
      * cap_nums. lia.
      * intros l El Eq. destruct (Hlast l El) as (Hl & Hfl).
        pose proof (cap_len_bounds h0 l).
        destruct (Hpair q l Hq Hl) as [->|Hql]; [lia|]. cap_nums. lia.
    + apply list_elem_of_singleton in Hq. subst q.
      rewrite Hin by exact Hr. rewrite Hh2 by (cap_nums; lia).
      apply (pi_hi _ _ _ _ HI); [cap_nums; lia|].
      intros k Hk Eq. pose proof (Hap k Hk). pose proof (cap_len_bounds h0 k).
      cap_nums. lia.
  - apply (links_snoc v); [exact (pi_links _ _ _ _ HI)|exact Hnd| | |].
    + intros k Hk Hnl. pose proof (Hap k Hk). pose proof (Hfit k Hk).
      pose proof (cap_len_bounds h0 k).
      rewrite Hout by (cap_nums; lia). apply Hv1; [cap_nums; lia|].
      intros l El Eq. apply Hnl. rewrite El. f_equal. lia.
    + intros l El. destruct (Hlast l El) as (Hl & Hfl).
      pose proof (Hap l Hl). pose proof (cap_len_bounds h0 l).
      rewrite Hout by (cap_nums; lia). unfold v1. rewrite El.
      apply list_lookup_insert_eq. rewrite Lv. cap_nums. lia.
    + rewrite Hin by lia. exact Hh2p.
Qed.

Lemma byte_at_eq h h' i : h !! Z.to_nat i = h' !! Z.to_nat i -> byte_at h i = byte_at h' i.
Proof. intros H. unfold byte_at. rewrite H. reflexivity. Qed.

Lemma add_cap_ok fuel h0 ks v p w :
  parse_inv h0 ks v (hdr (pdev w)) ->
  Forall (cap_fits h0) ks ->
  NoDup ks ->
  cap_fits h0 p ->
  (forall k, k ∈ ks -> cap_apart h0 k p) ->
  (forall a b, a ∈ ks -> b ∈ ks -> a = b \/ cap_apart h0 a b) ->
  kept_type (byte_at h0 p) = true ->
  (length ks <= fuel)%nat ->
  twp (vfio_pci_add_cap fuel v p)
      (fun r w' => exists v' h',
         r = Some v' /\ w' = set_pdev (set_hdr h' (pdev w)) w
         /\ parse_inv h0 (ks ++ [p]) v' h') w.
Proof.
  intros HI Hfit Hnd Hp Hap Hpair Hk Hfuel.
  pose proof (parse_inv_add h0 ks v _ p HI Hfit Hnd Hp Hap Hpair) as HA. cbv zeta in HA.
  pose proof (cap_len_bounds h0 p) as Hn. pose proof (cap_len_kept h0 p Hk) as Hn10.
  pose proof (pi_len_h _ _ _ _ HI) as Lh. pose proof (pi_len_v _ _ _ _ HI) as Lv.
  pose proof (pi_caps _ _ _ _ HI) as Hc. pose proof (pi_status _ _ _ _ HI) as Hs.
  assert (Hbytes : forall i, p <= i < p + cap_len h0 p -> i <> p + 1 ->
            forall h2,
            (forall j, PCI_STD_HEADER_SIZEOF <= j < PCI_DEV_CFG_SIZE_LEGACY ->
                       (forall q, q ∈ ks ++ [p] -> j <> q + 1) ->
                       h2 !! Z.to_nat j = h0 !! Z.to_nat j) ->
            byte_at h2 i = byte_at h0 i).
  { intros i Hi Hne h2 Hhi. apply byte_at_eq, Hhi; [cap_nums; lia|].
    intros q Hq. apply elem_of_app in Hq as [Hq|Hq].
    - pose proof (Hap q Hq). pose proof (cap_len_bounds h0 q). cap_nums. lia.
    - apply list_elem_of_singleton in Hq. subst q. exact Hne. }
  rewrite Forall_forall in Hfit.
  unfold vfio_pci_add_cap.
  apply twp_bind. apply twp_hdr_put; [rewrite Lh; cap_nums; lia|].
  apply twp_bind. apply (twp_hdr_at _ (hd 0 ks)).
  { cbn [pdev set_pdev hdr set_hdr]. cap_nums.
    rewrite list_lookup_insert_ne by lia. exact Hc. }
  apply twp_bind.
  destruct ks as [|k0 ks'].
  - cbn [hd]. rewrite Z.eqb_refl.
    apply twp_bind. apply twp_hdr_put.
    { cbn [pdev set_pdev hdr set_hdr]. rewrite length_insert, Lh. cap_nums. lia. }
    apply twp_bind.
    apply (twp_hdr_at _ (Z.land (byte_at h0 PCI_STATUS) (Z.lnot PCI_STATUS_CAP_LIST))).
    { cbn [pdev set_pdev hdr set_hdr]. cap_nums.
      rewrite !list_lookup_insert_ne by lia. exact Hs. }
    apply twp_bind. apply twp_hdr_put.
    { cbn [pdev set_pdev hdr set_hdr]. rewrite !length_insert, Lh. cap_nums. lia. }
    apply twp_ret. cbv beta iota.
    cbn [pdev set_pdev hdr set_hdr]. rewrite (u8_small p) by (cap_nums; lia).
    cbn [last] in HA.
    apply twp_bind. apply (cap_size_ok h0).
    + cbn [pdev set_pdev hdr set_hdr]. rewrite (pi_len_h _ _ _ _ HA). cap_nums. lia.
    + cap_nums. lia.
    + cbn [pdev set_pdev hdr set_hdr].
      apply (Hbytes p); [lia|lia|exact (pi_hi _ _ _ _ HA)].
    + cbn [pdev set_pdev hdr set_hdr].
      apply (Hbytes (p + 2)); [lia|lia|exact (pi_hi _ _ _ _ HA)].
    + cbn [pdev set_pdev hdr set_hdr].
      apply (Hbytes (p + 3)); [lia|lia|exact (pi_hi _ _ _ _ HA)].
    + exact Hk.
    + apply twp_bind. apply twp_get_pdev. cbn [pdev set_pdev hdr set_hdr].
      rewrite (pi_len_h _ _ _ _ HA), Lv.
      replace ((p + cap_len h0 p <=? Z.of_nat (Z.to_nat PCI_DEV_CFG_SIZE_LEGACY))
               && (p + cap_len h0 p <=? Z.of_nat (Z.to_nat PCI_DEV_CFG_SIZE_LEGACY)))
        with true by (symmetry; apply andb_true_intro; cap_nums; split; apply Z.leb_le; lia).
      apply twp_ret. eexists _, _. split; [reflexivity|]. split; [reflexivity|].
      exact HA.
  - cbn [hd]. assert (Hk0 : cap_fits h0 k0) by (apply Hfit, list_elem_of_here).
    replace (k0 =? 0) with false by (symmetry; apply Z.eqb_neq; cap_nums; lia).
    destruct (last (k0 :: ks')) as [l|] eqn:El; [|apply last_None in El; discriminate El].
    assert (Hl : cap_fits h0 l) by (apply Hfit, (last_elem_of _ _ El)).
    pose proof (cap_len_bounds h0 l) as Hnl.
    apply twp_bind. unfold twp at 1.
    rewrite (last_cap_ok v (k0 :: ks') fuel _ l (pi_links _ _ _ _ HI)).
    + rewrite decide_True by (rewrite Lv; cap_nums; lia).
      apply twp_ret. apply twp_ret. cbv beta iota.
      rewrite (u8_small p) by (cap_nums; lia).
      apply twp_bind. apply (cap_size_ok h0).
      * cbn [pdev set_pdev hdr set_hdr]. rewrite (pi_len_h _ _ _ _ HA). cap_nums. lia.
      * cap_nums. lia.
      * cbn [pdev set_pdev hdr set_hdr].
        apply (Hbytes p); [lia|lia|exact (pi_hi _ _ _ _ HA)].
      * cbn [pdev set_pdev hdr set_hdr].
        apply (Hbytes (p + 2)); [lia|lia|exact (pi_hi _ _ _ _ HA)].
      * cbn [pdev set_pdev hdr set_hdr].
        apply (Hbytes (p + 3)); [lia|lia|exact (pi_hi _ _ _ _ HA)].
      * exact Hk.
      * apply twp_bind. apply twp_get_pdev. cbn [pdev set_pdev hdr set_hdr].
        rewrite (pi_len_h _ _ _ _ HA), length_insert, Lv.
        replace ((p + cap_len h0 p <=? Z.of_nat (Z.to_nat PCI_DEV_CFG_SIZE_LEGACY))
                 && (p + cap_len h0 p <=? Z.of_nat (Z.to_nat PCI_DEV_CFG_SIZE_LEGACY)))
          with true
          by (symmetry; apply andb_true_intro; cap_nums; split; apply Z.leb_le; lia).
        apply twp_ret. eexists _, _. split; [reflexivity|]. split; [reflexivity|].
        exact HA.
    + apply Forall_forall. intros q Hq. pose proof (Hfit q Hq). cap_nums. lia.
    + exact El.
    + exact Hfuel.
Qed.

Lemma modes_of_caps_snoc h ks p :
  modes_of_caps h (ks ++ [p])
  = Z.lor (modes_of_caps h ks)
          (Z.lor (if byte_at h p =? PCI_CAP_ID_MSI then VFIO_PCI_IRQ_MODE_MSI else 0)
                 (if byte_at h p =? PCI_CAP_ID_MSIX then VFIO_PCI_IRQ_MODE_MSIX else 0)).
Proof.
  unfold modes_of_caps. rewrite !existsb_app. cbn [existsb]. rewrite !orb_false_r.
  destruct (existsb _ ks); destruct (existsb _ ks);
    destruct (byte_at h p =? PCI_CAP_ID_MSI); destruct (byte_at h p =? PCI_CAP_ID_MSIX);
    reflexivity.
Qed.

Lemma recorded_pos_snoc h ks p b old :
  recorded_pos h (ks ++ [p]) b old
  = if decide (byte_at h p = cap_id_of b) then p else recorded_pos h ks b old.
Proof.
  unfold recorded_pos. rewrite filter_app.
  destruct (decide (byte_at h p = cap_id_of b)) as [E|E].
  - rewrite (filter_cons_True _ p []) by exact E. rewrite filter_nil, last_snoc.
    reflexivity.
  - rewrite (filter_cons_False _ p []) by exact E. rewrite filter_nil, app_nil_r.
    reflexivity.
Qed.

Lemma kept_caps_snoc exp h done p :
  kept_caps exp h (done ++ [p])
  = if cap_kept exp h p then kept_caps exp h done ++ [p] else kept_caps exp h done.
Proof.
  unfold kept_caps. rewrite filter_app.
  destruct (cap_kept exp h p) eqn:E.
  - rewrite (filter_cons_True _ p []) by exact E. reflexivity.
  - rewrite (filter_cons_False _ p []) by (rewrite E; discriminate).
    rewrite filter_nil, app_nil_r. reflexivity.
Qed.

Lemma kept_caps_elem exp h ps p : p ∈ kept_caps exp h ps -> p ∈ ps.
Proof. unfold kept_caps. rewrite list_elem_of_filter. intros (_ & H). exact H. Qed.

Lemma parse_frame_refl w : parse_frame w w.
Proof. split; [reflexivity|intros b; reflexivity]. Qed.

(** What the statements after [vfio_pci_add_cap] record for an MSI or
    MSI-X capability. *)
Lemma parse_record_step h0 w0 ks w h' p b0 :
  byte_at h0 p = cap_id_of b0 ->
  parse_frame w0 w ->
  parse_recorded h0 w0 ks w ->
  let w1 := set_pdev (set_hdr h' (pdev w)) w in
  let w2 := set_pdev (set_msis b0 (set_pos p (msis_of b0 (pdev w1))) (pdev w1)) w1 in
  let w3 := set_pdev (set_irq_modes (Z.lor (irq_modes (pdev w2)) (mode_of b0)) (pdev w2))
              w2 in
  hdr (pdev w3) = h' /\ parse_frame w0 w3 /\ parse_recorded h0 w0 (ks ++ [p]) w3.
Proof.
  intros Hty (HF1 & HF2) (HR1 & HR2). cbv zeta. split; [destruct b0; reflexivity|]. split.
  - split; [destruct b0; exact HF1|].
    intros b. rewrite <- (HF2 b). destruct b0, b; reflexivity.
  - split.
    + rewrite modes_of_caps_snoc, Hty.
      transitivity (Z.lor (irq_modes (pdev w)) (mode_of b0)); [destruct b0; reflexivity|].
      rewrite HR1, <- Z.lor_assoc. destruct b0; reflexivity.
    + intros b. rewrite recorded_pos_snoc, Hty.
      destruct (decide (cap_id_of b0 = cap_id_of b)) as [E|E].
      * destruct b0, b; try discriminate E; reflexivity.
      * rewrite <- (HR2 b). destruct b0, b; try reflexivity; contradiction E; reflexivity.
Qed.

(** A capability that is added without being recorded (PCI Express). *)
Lemma parse_plain_step h0 w0 ks w h' p :
  byte_at h0 p <> PCI_CAP_ID_MSI -> byte_at h0 p <> PCI_CAP_ID_MSIX ->
  parse_frame w0 w ->
  parse_recorded h0 w0 ks w ->
  let w1 := set_pdev (set_hdr h' (pdev w)) w in
  hdr (pdev w1) = h' /\ parse_frame w0 w1 /\ parse_recorded h0 w0 (ks ++ [p]) w1.
Proof.
  intros H1 H2 (HF1 & HF2) (HR1 & HR2). cbv zeta. split; [reflexivity|]. split.
  - split; [exact HF1|]. intros b. rewrite <- (HF2 b). destruct b; reflexivity.
  - split.
    + rewrite modes_of_caps_snoc.
      apply Z.eqb_neq in H1, H2. rewrite H1, H2, Z.lor_0_r. exact HR1.
    + intros b. rewrite recorded_pos_snoc.
      rewrite decide_False by (destruct b; assumption).
      rewrite <- (HR2 b). destruct b; reflexivity.
Qed.

Lemma parse_loop_ok exp h0 w0 rest : forall done v w fuel fuel' pos,
  parse_inv h0 (kept_caps exp h0 done) v (hdr (pdev w)) ->
  parse_frame w0 w ->
  parse_recorded h0 w0 (kept_caps exp h0 done) w ->
  is_chain h0 pos rest ->
  Forall (cap_fits h0) (done ++ rest) ->
  NoDup (done ++ rest) ->
  (forall a b, a ∈ done ++ rest -> b ∈ done ++ rest -> a = b \/ cap_apart h0 a b) ->
  (length rest < fuel)%nat ->
  (length (done ++ rest) <= fuel')%nat ->
  twp (parse_loop exp fuel fuel' pos v)
      (fun r w' => exists v',
         r = Some v'
         /\ parse_inv h0 (kept_caps exp h0 (done ++ rest)) v' (hdr (pdev w'))
         /\ parse_frame w0 w'
         /\ parse_recorded h0 w0 (kept_caps exp h0 (done ++ rest)) w') w.
Proof.
  induction rest as [|p rest IH];
    intros done v w fuel fuel' pos HI HF HR Hch Hfit Hnd Hpair Hfu Hfu'.
  - cbn in Hch. subst pos. destruct fuel as [|f]; [cbn in Hfu; lia|].
    cbn [parse_loop]. rewrite Z.eqb_refl. apply twp_ret. exists v.
    rewrite app_nil_r. auto.
  - destruct Hch as (-> & Hp0 & next & Hnext & Hch).
    destruct fuel as [|f]; [cbn in Hfu; lia|]. cbn [parse_loop].
    rewrite (proj2 (Z.eqb_neq p 0) Hp0).
    assert (Eapp : done ++ p :: rest = (done ++ [p]) ++ rest)
      by (rewrite <- app_assoc; reflexivity).
    rewrite Eapp in *.
    assert (Hpin : p ∈ (done ++ [p]) ++ rest).
    { apply elem_of_app. left. apply elem_of_app. right. apply list_elem_of_here. }
    assert (Hfp : cap_fits h0 p) by (rewrite Forall_forall in Hfit; apply Hfit, Hpin).
    pose proof (cap_len_bounds h0 p) as Hn.
    assert (Hdone : forall k, k ∈ kept_caps exp h0 done ->
                              k ∈ (done ++ [p]) ++ rest /\ cap_apart h0 k p).
    { intros k Hk. apply kept_caps_elem in Hk.
      assert (Hkin : k ∈ (done ++ [p]) ++ rest).
      { apply elem_of_app. left. apply elem_of_app. left. exact Hk. }
      split; [exact Hkin|].
      destruct (Hpair k p Hkin Hpin) as [->|Hap]; [|exact Hap].
      exfalso. apply NoDup_app in Hnd as (Hnd & _ & _).
      apply NoDup_app in Hnd as (_ & Hnd & _). apply (Hnd p Hk), list_elem_of_here. }
    pose proof (pi_len_h _ _ _ _ HI) as Lh.
    assert (Hsame : forall i, p <= i < p + cap_len h0 p ->
                              hdr (pdev w) !! Z.to_nat i = h0 !! Z.to_nat i).
    { intros i Hi. apply (pi_hi _ _ _ _ HI); [cap_nums; lia|].
      intros k Hk. destruct (Hdone k Hk) as (_ & Hap).
      pose proof (cap_len_bounds h0 k). cap_nums. lia. }
    set (Q := fun (r : option (list Z)) (w' : world) => _).
    assert (Hrec : forall v' w',
              parse_inv h0 (kept_caps exp h0 (done ++ [p])) v' (hdr (pdev w')) ->
              parse_frame w0 w' ->
              parse_recorded h0 w0 (kept_caps exp h0 (done ++ [p])) w' ->
              twp (parse_loop exp f fuel' next v') Q w').
    { intros v' w' HI' HF' HR'. apply IH; try assumption. cbn in Hfu. lia. }
    assert (Hadd : kept_type (byte_at h0 p) = true ->
              twp (vfio_pci_add_cap fuel' v p)
                  (fun r w' => exists v' h',
                     r = Some v' /\ w' = set_pdev (set_hdr h' (pdev w)) w
                     /\ parse_inv h0 (kept_caps exp h0 done ++ [p]) v' h') w).
    { intros Hk. apply (add_cap_ok fuel' h0); try assumption.
      - apply Forall_forall. intros k Hk'. rewrite Forall_forall in Hfit.
        apply Hfit. apply (Hdone k Hk').
      - apply NoDup_filter. apply NoDup_app in Hnd as (Hnd & _ & _).
        apply NoDup_app in Hnd as (Hnd & _ & _). exact Hnd.
      - intros k Hk'. apply (Hdone k Hk').
      - intros a b Ha Hb. apply Hpair; [apply (Hdone a Ha)|apply (Hdone b Hb)].
      - etransitivity; [|exact Hfu'].
        transitivity (length done).
        + unfold kept_caps. apply length_filter.
        + rewrite !length_app. lia. }
    apply twp_bind. apply (twp_hdr_at _ (byte_at h0 p)).
    { rewrite Hsame by lia. rewrite <- Hsame by lia.
      rewrite (byte_at_eq _ _ _ (eq_sym (Hsame p ltac:(lia)))).
      apply lookup_byte_at. rewrite Lh. cap_nums. lia. }
    apply twp_bind. apply (twp_hdr_at _ next).
    { rewrite Hsame by lia. exact Hnext. }
    pose proof (kept_caps_snoc exp h0 done p) as Ekc. unfold cap_kept in Ekc.
    destruct (byte_at h0 p =? PCI_CAP_ID_MSIX) eqn:E1.
    { apply Z.eqb_eq in E1. cbn [orb] in Ekc.
      apply twp_bind. eapply twp_mono; [apply Hadd; unfold kept_type; rewrite E1; reflexivity|].
      intros r w1 (v' & h' & -> & -> & HI'). cbv beta iota.
      apply twp_bind. apply twp_modify_msis. apply twp_bind. apply twp_modify_pdev.
      destruct (parse_record_step h0 w0 _ w h' p true E1 HF HR) as (Hh & HF' & HR').
      cbv zeta in Hh, HF', HR'. unfold mode_of in Hh, HF', HR'.
      apply Hrec; rewrite ?Ekc; [rewrite Hh; exact HI'|exact HF'|exact HR']. }
    destruct (byte_at h0 p =? PCI_CAP_ID_MSI) eqn:E2.
    { apply Z.eqb_eq in E2. cbn [orb] in Ekc.
      apply twp_bind. eapply twp_mono; [apply Hadd; unfold kept_type; rewrite E2; reflexivity|].
      intros r w1 (v' & h' & -> & -> & HI'). cbv beta iota.
      apply twp_bind. apply twp_modify_msis. apply twp_bind. apply twp_modify_pdev.
      destruct (parse_record_step h0 w0 _ w h' p false E2 HF HR) as (Hh & HF' & HR').
      cbv zeta in Hh, HF', HR'. unfold mode_of in Hh, HF', HR'.
      apply Hrec; rewrite ?Ekc; [rewrite Hh; exact HI'|exact HF'|exact HR']. }
    apply Z.eqb_neq in E1, E2. cbn [orb] in Ekc.
    destruct (byte_at h0 p =? PCI_CAP_ID_EXP) eqn:E3.
    { destruct exp; cbn [negb andb] in *.
      - apply twp_bind.
        eapply twp_mono; [apply Hadd; unfold kept_type; rewrite E3; apply orb_true_r|].
        intros r w1 (v' & h' & -> & -> & HI'). cbv beta iota.
        destruct (parse_plain_step h0 w0 _ w h' p E2 E1 HF HR) as (Hh & HF' & HR').
        cbv zeta in Hh, HF', HR'.
        apply Hrec; rewrite ?Ekc; [rewrite Hh; exact HI'|exact HF'|exact HR'].
      - apply Hrec; rewrite ?Ekc; assumption. }
    cbn [andb] in Ekc. apply Hrec; rewrite ?Ekc; assumption.
Qed.

Lemma cap_chain_is_chain h : forall fuel pos ps,
  cap_chain fuel h pos = Some ps -> is_chain h pos ps /\ (length ps < fuel)%nat.
Proof.
  induction fuel as [|f IH]; intros pos ps H; [discriminate H|].
  cbn [cap_chain] in H. destruct (pos =? 0) eqn:E.
  - injection H as <-. apply Z.eqb_eq in E. split; [exact E|cbn; lia].
  - destruct (h !! Z.to_nat (pos + 1)) as [next|] eqn:En; [|discriminate H].
    destruct (cap_chain f h next) as [tl|] eqn:Et; [|discriminate H].
    injection H as <-. destruct (IH next tl Et) as (Hc & Hl).
    apply Z.eqb_neq in E. split; [|cbn; lia].
    split; [reflexivity|]. split; [exact E|]. exists next. split; assumption.
Qed.

Lemma links_cap_chain v : forall ks fuel,
  links v ks -> Forall (fun k => k <> 0) ks -> (length ks < fuel)%nat ->
  cap_chain fuel v (hd 0 ks) = Some ks.
Proof.
  induction ks as [|k rest IH]; intros fuel HL Hnz Hf.
  - destruct fuel; [lia|]. reflexivity.
  - destruct fuel as [|f]; [cbn in Hf; lia|]. destruct HL as (Hk & HL).
    inversion Hnz as [|? ? Hk0 Hnz']; subst.
    cbn [hd cap_chain]. rewrite (proj2 (Z.eqb_neq k 0) Hk0), Hk.
    rewrite (IH f HL Hnz'); [reflexivity|]. cbn in Hf. lia.
Qed.

Lemma cap_apart_irrefl h p : ~ cap_apart h p p.
Proof. pose proof (cap_len_bounds h p). unfold cap_apart. lia. Qed.

Lemma caps_apart_pairs h ps :
  caps_apart h ps ->
  NoDup ps /\ forall a b, a ∈ ps -> b ∈ ps -> a = b \/ cap_apart h a b.
Proof.
  induction ps as [|p rest IH]; intros H.
  - split; [constructor|]. intros a b Ha. inversion Ha.
  - destruct H as (Hp & Hrest). destruct (IH Hrest) as (Hnd & Hpair).
    rewrite Forall_forall in Hp. split.
    + constructor; [|exact Hnd]. intros Hin. exact (cap_apart_irrefl h p (Hp p Hin)).
    + intros a b Ha Hb. apply elem_of_cons in Ha, Hb.
      destruct Ha as [->|Ha], Hb as [->|Hb].
      * left. reflexivity.
      * right. exact (Hp b Hb).
      * right. pose proof (Hp a Ha) as Hq. unfold cap_apart in *. lia.
      * exact (Hpair a b Ha Hb).
Qed.

(** The header once the loop is over and the capability space is
    overwritten from the scratch buffer. *)
Lemma wipe_lookup hL v i :
  length hL = 256%nat -> length v = 256%nat -> 0 <= i < 256 ->
  memcpy_at hL 64 (bytes_at v 64 192) !! Z.to_nat i
  = if decide (64 <= i) then v !! Z.to_nat i else hL !! Z.to_nat i.
Proof.
  intros Lh Lv Hi.
  assert (Lp : length (bytes_at v 64 192) = 192%nat) by (apply length_bytes_at; lia).
  destruct (decide (64 <= i)) as [Hge|Hlt].
  - rewrite lookup_memcpy_at_in by (rewrite Lp; lia).
    rewrite lookup_bytes_at by lia. f_equal. lia.
  - apply lookup_memcpy_at_out; rewrite Lp; lia.
Qed.

Lemma parse_caps_ok exp w ps :
  chain_ok (hdr (pdev w)) ps ->
  twp (vfio_pci_parse_caps exp (S (length ps)))
      (fun r w' =>
         r = Some 0
         /\ parse_frame w w'
         /\ parse_recorded (hdr (pdev w)) w (kept_caps exp (hdr (pdev w)) ps) w'
         /\ exists v hL,
             parse_inv (hdr (pdev w)) (kept_caps exp (hdr (pdev w)) ps) v hL
             /\ hdr (pdev w') = memcpy_at hL 64 (bytes_at v 64 192)) w.
Proof.
  intros (Lh & Hst & Hch & Hfit & Hap).
  set (h := hdr (pdev w)) in *.
  destruct (cap_chain_is_chain h _ _ _ Hch) as (Hic & _).
  destruct (caps_apart_pairs h ps Hap) as (Hnd & Hpair).
  assert (H6 : h !! Z.to_nat PCI_STATUS = Some (byte_at h PCI_STATUS))
    by (apply lookup_byte_at; rewrite Lh; cap_nums; lia).
  assert (H34 : h !! Z.to_nat PCI_CAPABILITY_LIST = Some (byte_at h PCI_CAPABILITY_LIST))
    by (apply lookup_byte_at; rewrite Lh; cap_nums; lia).
  set (h1 := <[Z.to_nat PCI_CAPABILITY_LIST := 0]>
               (<[Z.to_nat PCI_STATUS :=
                    Z.land (byte_at h PCI_STATUS) (Z.lnot PCI_STATUS_CAP_LIST)]> h)).
  assert (HI1 : parse_inv h (kept_caps exp h []) (replicate 256 0) h1).
  { change (kept_caps exp h []) with (@nil Z).
    constructor.
    - unfold h1. rewrite !length_insert. exact Lh.
    - apply length_replicate.
    - intros i Hi _. unfold h1. cap_nums. rewrite !list_lookup_insert_ne by lia.
      reflexivity.
    - intros i Hi Hn6 Hn34. unfold h1. cap_nums. rewrite !list_lookup_insert_ne by lia.
      reflexivity.
    - unfold h1. apply list_lookup_insert_eq. rewrite length_insert, Lh. cap_nums. lia.
    - unfold h1. cap_nums. rewrite list_lookup_insert_ne by lia.
      apply list_lookup_insert_eq. rewrite Lh. lia.
    - intros i Hi _. apply lookup_replicate_2. cap_nums. lia.
    - intros p i Hp. inversion Hp.
    - exact I. }
  unfold vfio_pci_parse_caps.
  apply twp_bind. apply (twp_hdr_at _ _ _ _ H6). rewrite Hst. cbn [negb].
  apply twp_bind. apply (twp_hdr_at _ _ _ _ H34).
  apply twp_bind. apply twp_hdr_put; [fold h; rewrite Lh; cap_nums; lia|].
  apply twp_bind. apply twp_hdr_put.
  { cbn [pdev set_pdev hdr set_hdr]. fold h. rewrite length_insert, Lh. cap_nums. lia. }
  apply twp_bind. eapply twp_mono.
  { apply (parse_loop_ok exp h w ps [] (replicate 256 0)).
    - exact HI1.
    - split; [reflexivity|intros []; reflexivity].
    - split; [|intros []; reflexivity].
      cbn [pdev set_pdev hdr set_hdr irq_modes].
      change (modes_of_caps h (kept_caps exp h [])) with 0. rewrite Z.lor_0_r. reflexivity.
    - exact Hic.
    - exact Hfit.
    - exact Hnd.
    - exact Hpair.
    - cbn [app]. lia.
    - cbn [app]. lia. }
  cbn [app]. intros r w2 (v' & -> & HI2 & HF2 & HR2). cbv beta iota.
  apply twp_bind. apply twp_get_pdev.
  rewrite decide_True by (rewrite (pi_len_h _ _ _ _ HI2); cap_nums; lia).
  apply twp_bind. apply twp_modify_pdev. apply twp_ret.
  split; [reflexivity|]. split; [|split].
  - destruct HF2 as (A & B). split; [exact A|]. intros b. rewrite <- (B b).
    destruct b; reflexivity.
  - destruct HR2 as (A & B). split; [exact A|]. intros b. rewrite <- (B b).
    destruct b; reflexivity.
  - exists v', (hdr (pdev w2)). split; [exact HI2|reflexivity].
Qed.

Lemma modes_of_caps_kept exp h ps :
  modes_of_caps h (kept_caps exp h ps) = modes_of_caps h ps.
Proof.
  induction ps as [|p rest IH]; [reflexivity|].
  change (p :: rest) with ([p] ++ rest).
  unfold kept_caps in *. rewrite filter_app.
  assert (E : forall l1 l2, modes_of_caps h (l1 ++ l2)
              = Z.lor (modes_of_caps h l1) (modes_of_caps h l2)).
  { intros l1 l2. unfold modes_of_caps. rewrite !existsb_app.
    destruct (existsb _ l1), (existsb _ l2), (existsb _ l1), (existsb _ l2); reflexivity. }
  rewrite !E, IH. f_equal.
  unfold cap_kept, modes_of_caps.
  destruct (decide (((byte_at h p =? PCI_CAP_ID_MSIX) || (byte_at h p =? PCI_CAP_ID_MSI)
                     || (byte_at h p =? PCI_CAP_ID_EXP) && exp) = true)) as [Hk|Hk].
  - rewrite (filter_cons_True _ p []) by exact Hk. reflexivity.
  - rewrite (filter_cons_False _ p []) by exact Hk. rewrite filter_nil.
    cbn [existsb]. rewrite !orb_false_r.
    destruct (byte_at h p =? PCI_CAP_ID_MSIX); [contradiction Hk; reflexivity|].
    destruct (byte_at h p =? PCI_CAP_ID_MSI); [contradiction Hk; reflexivity|].
    reflexivity.
Qed.

Lemma recorded_pos_kept exp h ps b old :
  recorded_pos h (kept_caps exp h ps) b old = recorded_pos h ps b old.
Proof.
  unfold recorded_pos, kept_caps. f_equal. f_equal.
  induction ps as [|p rest IH]; [reflexivity|].
  destruct (decide (byte_at h p = cap_id_of b)) as [E|E].
  - assert (Hk : cap_kept exp h p = true).
    { unfold cap_kept. rewrite E. destruct b; reflexivity. }
    rewrite (filter_cons_True (fun p => cap_kept exp h p = true)) by exact Hk.
    rewrite !filter_cons_True by exact E. f_equal. exact IH.
  - rewrite (filter_cons_False (fun p => byte_at h p = cap_id_of b) p rest) by exact E.
    destruct (decide (cap_kept exp h p = true)) as [Hk|Hk].
    + rewrite (filter_cons_True (fun p => cap_kept exp h p = true)) by exact Hk.
      rewrite filter_cons_False by exact E. exact IH.
    + rewrite (filter_cons_False (fun p => cap_kept exp h p = true)) by exact Hk.
      exact IH.
Qed.

Lemma links_ext v v' ks :
  links v ks ->
  (forall k, k ∈ ks -> v' !! Z.to_nat (k + 1) = v !! Z.to_nat (k + 1)) ->
  links v' ks.
Proof.
  induction ks as [|k rest IH]; intros HL Hsame; [exact I|].
  destruct HL as (Hk & HL). split.
  - rewrite Hsame by apply list_elem_of_here. exact Hk.
  - apply IH; [exact HL|]. intros q Hq. apply Hsame, list_elem_of_further, Hq.
Qed.

Lemma cap_kept_type exp h p : cap_kept exp h p = true -> kept_type (byte_at h p) = true.
Proof.
  unfold cap_kept, kept_type.
  destruct (byte_at h p =? PCI_CAP_ID_MSIX), (byte_at h p =? PCI_CAP_ID_MSI),
    (byte_at h p =? PCI_CAP_ID_EXP), exp; cbn; congruence.
Qed.

Lemma kept_caps_fit exp h ps :
  Forall (cap_fits h) ps -> Forall (cap_fits h) (kept_caps exp h ps).
Proof.
  rewrite !Forall_forall. intros H p Hp. apply H, (kept_caps_elem _ _ _ _ Hp).
Qed.

Lemma land_clear_bit x b : Z.land (Z.land x (Z.lnot b)) b = 0.
Proof.
  rewrite <- Z.land_assoc. rewrite (Z.land_comm (Z.lnot b) b), Z.land_lnot_diag.
  apply Z.land_0_r.
Qed.

Lemma land_set_bit x b : Z.land (Z.lor x b) b = b.
Proof.
  rewrite Z.land_lor_distr_l, Z.land_diag. apply lor_land_absorb.
Qed.

Lemma sample_chain_ok : chain_ok (hdr (pdev sample_unparsed)) sample_caps.
Proof.
  split; [vm_compute; reflexivity|]. split; [vm_compute; reflexivity|].
  split; [vm_compute; reflexivity|]. split.
  - repeat constructor; vm_compute; discriminate.
  - cbn [caps_apart sample_caps]. unfold cap_apart.
    repeat split; repeat constructor; vm_compute; intuition discriminate.
Qed.

(** The header after the wipe says CAP_LIST exactly when it has a first
    capability. *)
Lemma parse_inv_consistent h ks v hL :
  parse_inv h ks v hL -> Forall (cap_fits h) ks ->
  let h' := memcpy_at hL 64 (bytes_at v 64 192) in
  h' !! Z.to_nat PCI_CAPABILITY_LIST = Some (hd 0 ks)
  /\ h' !! Z.to_nat PCI_STATUS
     = Some (let st := Z.land (byte_at h PCI_STATUS) (Z.lnot PCI_STATUS_CAP_LIST) in
             match ks with [] => st | _ => Z.lor st PCI_STATUS_CAP_LIST end)
  /\ cap_list_consistent h'.
Proof.
  intros HI Hkfit h'.
  pose proof (pi_len_h _ _ _ _ HI) as Lh. pose proof (pi_len_v _ _ _ _ HI) as Lv.
  assert (E34 : h' !! Z.to_nat PCI_CAPABILITY_LIST = Some (hd 0 ks)).
  { unfold h'. rewrite wipe_lookup by (assumption || (cap_nums; lia)).
    rewrite decide_False by (cap_nums; lia). exact (pi_caps _ _ _ _ HI). }
  pose proof (pi_status _ _ _ _ HI) as E6.
  replace (hL !! Z.to_nat PCI_STATUS) with (h' !! Z.to_nat PCI_STATUS) in E6.
  2:{ unfold h'. rewrite wipe_lookup by (assumption || (cap_nums; lia)).
      rewrite decide_False by (cap_nums; lia). reflexivity. }
  split; [exact E34|]. split; [exact E6|]. cbv zeta in E6.
  eexists _, _. split; [exact E6|]. split; [exact E34|].
  destruct ks as [|k ks'].
  - cbn [hd]. rewrite land_clear_bit. tauto.
  - cbn [hd]. rewrite land_set_bit. inversion Hkfit as [|? ? Hk _]; subst.
    cap_nums. split; intros _; lia.
Qed.

(** [vfio_pci_parse_caps] on a header whose CAP_LIST bit is set and whose
    capability list ends, with capabilities that lie apart from one
    another behind the standard header: the parse returns 0 and leaves a
    header in which CAP_LIST is set exactly when [capabilities] is not
    null; [capabilities] is the offset of the first capability of a kept
    type (MSI, MSI-X and, where the architecture emulates it, PCI
    Express), or null when there is none, and no other bit of the low
    status byte has changed. *)
Theorem parse_caps_cap_list_consistent exp w ps :
  chain_ok (hdr (pdev w)) ps ->
  exists w',
    vfio_pci_parse_caps exp (S (length ps)) w = Ok (Some 0) w'
    /\ cap_list_consistent (hdr (pdev w'))
    /\ byte_at (hdr (pdev w')) PCI_CAPABILITY_LIST
       = hd 0 (kept_caps exp (hdr (pdev w)) ps)
    /\ Z.land (byte_at (hdr (pdev w')) PCI_STATUS) (Z.lnot PCI_STATUS_CAP_LIST)
       = Z.land (byte_at (hdr (pdev w)) PCI_STATUS) (Z.lnot PCI_STATUS_CAP_LIST).
Proof.
  intros Hok.
  destruct (twp_elim _ _ _ (parse_caps_ok exp w ps Hok))
    as (r & w' & E & -> & _ & _ & v & hL & HI & Eh).
  exists w'. split; [exact E|].
  destruct Hok as (_ & _ & _ & Hfit & _).
  destruct (parse_inv_consistent _ _ _ _ HI (kept_caps_fit exp _ _ Hfit))
    as (E34 & E6 & Hc).
  rewrite <- Eh in E34, E6, Hc. cbv zeta in E6.
  split; [exact Hc|]. split; [exact (byte_at_some _ _ _ E34)|].
  rewrite (byte_at_some _ _ _ E6).
  destruct (kept_caps exp (hdr (pdev w)) ps) as [|k ks'].
  - rewrite <- Z.land_assoc, Z.land_diag. reflexivity.
  - rewrite Z.land_lor_distr_l.
    rewrite (Z.land_comm PCI_STATUS_CAP_LIST), Z.land_lnot_diag, Z.lor_0_r.
    rewrite <- Z.land_assoc, Z.land_diag. reflexivity.
Qed.

Lemma parse_caps_cap_list_consistent_witness :
  exists w',
    vfio_pci_parse_caps true 5 sample_unparsed = Ok (Some 0) w'
    /\ cap_list_consistent (hdr (pdev w'))
    /\ byte_at (hdr (pdev w')) PCI_CAPABILITY_LIST = 0x50.
Proof.
  destruct (parse_caps_cap_list_consistent true sample_unparsed sample_caps
              sample_chain_ok) as (w' & E & Hc & H34 & _).
  exists w'. split; [exact E|]. split; [exact Hc|]. rewrite H34. vm_compute. reflexivity.
Defined.

(** The virtual capability list.  Under the same conditions, walking
    the list of the header the parse leaves, from [capabilities] along
    the [next] bytes, ends and visits exactly the capabilities of the
    device that have a kept type, in the order of the device's list and
    at their offsets; each has the type it had in the device's header,
    one of MSI, MSI-X and PCI Express. *)
Theorem parse_caps_virtual_chain exp w ps :
  chain_ok (hdr (pdev w)) ps ->
  exists w',
    vfio_pci_parse_caps exp (S (length ps)) w = Ok (Some 0) w'
    /\ cap_chain (S (length ps)) (hdr (pdev w'))
         (byte_at (hdr (pdev w')) PCI_CAPABILITY_LIST)
       = Some (kept_caps exp (hdr (pdev w)) ps)
    /\ Forall (fun p => byte_at (hdr (pdev w')) p = byte_at (hdr (pdev w)) p
                        /\ kept_type (byte_at (hdr (pdev w')) p) = true)
              (kept_caps exp (hdr (pdev w)) ps).
Proof.
  intros Hok.
  destruct (twp_elim _ _ _ (parse_caps_ok exp w ps Hok))
    as (r & w' & E & -> & _ & _ & v & hL & HI & Eh).
  exists w'. split; [exact E|].
  destruct Hok as (_ & _ & _ & Hfit & _).
  pose proof (kept_caps_fit exp _ _ Hfit) as Hkfit.
  set (h := hdr (pdev w)) in *. set (ks := kept_caps exp h ps) in *.
  pose proof (pi_len_h _ _ _ _ HI) as Lh. pose proof (pi_len_v _ _ _ _ HI) as Lv.
  rewrite Forall_forall in Hkfit.
  assert (Hhi : forall i, 64 <= i < 256 -> hdr (pdev w') !! Z.to_nat i = v !! Z.to_nat i).
  { intros i Hi. rewrite Eh, wipe_lookup by (assumption || lia).
    rewrite decide_True by lia. reflexivity. }
  assert (E34 : byte_at (hdr (pdev w')) PCI_CAPABILITY_LIST = hd 0 ks).
  { apply byte_at_some. rewrite Eh, wipe_lookup by (assumption || (cap_nums; lia)).
    rewrite decide_False by (cap_nums; lia). exact (pi_caps _ _ _ _ HI). }
  split.
  - rewrite E34. apply links_cap_chain.
    + apply (links_ext v); [exact (pi_links _ _ _ _ HI)|].
      intros k Hk. pose proof (Hkfit k Hk). pose proof (cap_len_bounds h k).
      apply Hhi. cap_nums. lia.
    + apply Forall_forall. intros k Hk. pose proof (Hkfit k Hk). cap_nums. lia.
    + unfold ks, kept_caps. pose proof (length_filter (fun p => cap_kept exp h p = true) ps).
      lia.
  - apply Forall_forall. intros k Hk. pose proof (Hkfit k Hk) as Hf.
    pose proof (cap_len_bounds h k).
    assert (Ek : byte_at (hdr (pdev w')) k = byte_at h k).
    { apply byte_at_eq. rewrite Hhi by (cap_nums; lia).
      apply (pi_copy _ _ _ _ HI k); [exact Hk|lia|lia]. }
    split; [exact Ek|]. rewrite Ek. apply (cap_kept_type exp).
    unfold ks, kept_caps in Hk. apply list_elem_of_filter in Hk. apply Hk.
Qed.

Lemma parse_caps_virtual_chain_witness :
  exists w',
    vfio_pci_parse_caps true 5 sample_unparsed = Ok (Some 0) w'
    /\ cap_chain 5 (hdr (pdev w')) (byte_at (hdr (pdev w')) PCI_CAPABILITY_LIST)
       = Some [0x50; 0x60].
Proof.
  destruct (parse_caps_virtual_chain true sample_unparsed sample_caps sample_chain_ok)
    as (w' & E & Hc & _).
  exists w'. split; [exact E|]. etransitivity; [exact Hc|]. vm_compute. reflexivity.
Defined.

(** What the parse copies and what it wipes.  Under the same
    conditions the header the parse leaves has 256 bytes; behind the
    standard header every byte outside the kept capabilities is zero and
    every byte of a kept capability but its [next] byte is the byte of
    the device's header; in the standard header only the CAP_LIST bit and
    [capabilities] may differ from the device's. *)
Theorem parse_caps_copies_kept_and_wipes_rest exp w ps :
  chain_ok (hdr (pdev w)) ps ->
  exists w',
    vfio_pci_parse_caps exp (S (length ps)) w = Ok (Some 0) w'
    /\ length (hdr (pdev w')) = Z.to_nat PCI_DEV_CFG_SIZE_LEGACY
    /\ (forall i, PCI_STD_HEADER_SIZEOF <= i < PCI_DEV_CFG_SIZE_LEGACY ->
                  ~ in_caps (hdr (pdev w)) (kept_caps exp (hdr (pdev w)) ps) i ->
                  hdr (pdev w') !! Z.to_nat i = Some 0)
    /\ (forall p i, p ∈ kept_caps exp (hdr (pdev w)) ps ->
                    p <= i < p + cap_len (hdr (pdev w)) p -> i <> p + 1 ->
                    hdr (pdev w') !! Z.to_nat i = hdr (pdev w) !! Z.to_nat i)
    /\ (forall i, 0 <= i < PCI_STD_HEADER_SIZEOF ->
                  i <> PCI_STATUS -> i <> PCI_CAPABILITY_LIST ->
                  hdr (pdev w') !! Z.to_nat i = hdr (pdev w) !! Z.to_nat i).
Proof.
  intros Hok.
  destruct (twp_elim _ _ _ (parse_caps_ok exp w ps Hok))
    as (r & w' & E & -> & _ & _ & v & hL & HI & Eh).
  exists w'. split; [exact E|].
  destruct Hok as (_ & _ & _ & Hfit & _).
  pose proof (kept_caps_fit exp _ _ Hfit) as Hkfit.
  set (h := hdr (pdev w)) in *. set (ks := kept_caps exp h ps) in *.
  pose proof (pi_len_h _ _ _ _ HI) as Lh. pose proof (pi_len_v _ _ _ _ HI) as Lv.
  rewrite Forall_forall in Hkfit.
  assert (Hhi : forall i, 64 <= i < 256 -> hdr (pdev w') !! Z.to_nat i = v !! Z.to_nat i).
  { intros i Hi. rewrite Eh, wipe_lookup by (assumption || lia).
    rewrite decide_True by lia. reflexivity. }
  split; [|split; [|split]].
  - rewrite Eh. rewrite length_memcpy_at; [exact Lh|].
    rewrite length_bytes_at by (rewrite Lv; cap_nums; lia). rewrite Lh. cap_nums. lia.
  - intros i Hi Hn. rewrite Hhi by (cap_nums; lia).
    apply (pi_zero _ _ _ _ HI); [cap_nums; lia|exact Hn].
  - intros p i Hp Hi Hne. pose proof (Hkfit p Hp).
    rewrite Hhi by (cap_nums; lia). apply (pi_copy _ _ _ _ HI p); assumption.
  - intros i Hi H6 H34. rewrite Eh, wipe_lookup by (assumption || (cap_nums; lia)).
    rewrite decide_False by (cap_nums; lia). apply (pi_lo _ _ _ _ HI); assumption.
Qed.

(** On the sample header the power-management capability at 0x40 and
    the vendor capability at 0x70 are gone, and the address bytes of the
    MSI capability are those of the device. *)
Lemma parse_caps_copies_kept_and_wipes_rest_witness :
  exists w',
    vfio_pci_parse_caps true 5 sample_unparsed = Ok (Some 0) w'
    /\ hdr (pdev w') !! Z.to_nat 0x40 = Some 0
    /\ hdr (pdev w') !! Z.to_nat 0x72 = Some 0
    /\ hdr (pdev w') !! Z.to_nat 0x54 = Some 0xAA.
Proof.
  destruct (parse_caps_copies_kept_and_wipes_rest true sample_unparsed sample_caps
              sample_chain_ok) as (w' & E & _ & Hz & Hc & _).
  assert (Hout : forall i, i = 0x40 \/ i = 0x72 ->
            ~ in_caps (hdr (pdev sample_unparsed))
                (kept_caps true (hdr (pdev sample_unparsed)) sample_caps) i).
  { intros i Hi (p & Hp & Hr).
    change (kept_caps true (hdr (pdev sample_unparsed)) sample_caps)
      with [0x50; 0x60] in Hp.
    apply elem_of_cons in Hp as [->|Hp];
      [|apply list_elem_of_singleton in Hp; subst p];
      vm_compute in Hr; destruct Hr as (H1 & H2), Hi as [-> | ->];
      first [apply H1; reflexivity | discriminate H2]. }
  exists w'. split; [exact E|]. split; [|split].
  - apply Hz; [vm_compute; split; [discriminate|reflexivity]|apply Hout; left; reflexivity].
  - apply Hz; [vm_compute; split; [discriminate|reflexivity]|apply Hout; right; reflexivity].
  - rewrite (Hc 0x50 0x54).
    + vm_compute. reflexivity.
    + change (kept_caps true (hdr (pdev sample_unparsed)) sample_caps) with [0x50; 0x60].
      apply list_elem_of_here.
    + vm_compute. split; [discriminate|reflexivity].
    + discriminate.
Defined.

(** What the parse records.  Under the same conditions the parse adds
    to [irq_modes] the MSI mode exactly when the list has an MSI
    capability and the MSI-X mode exactly when it has an MSI-X capability,
    leaving the modes already set; [msi.pos] and [msix.pos] become the
    offset of the last capability of their type, or stay as they were
    when there is none; nothing else of the device changes but the
    header, and no request is made and no diagnostic printed. *)
Theorem parse_caps_records_modes exp w ps :
  chain_ok (hdr (pdev w)) ps ->
  exists w',
    vfio_pci_parse_caps exp (S (length ps)) w = Ok (Some 0) w'
    /\ parse_frame w w'
    /\ irq_modes (pdev w') = Z.lor (irq_modes (pdev w)) (modes_of_caps (hdr (pdev w)) ps)
    /\ forall b, pos (msis_of b (pdev w'))
                 = recorded_pos (hdr (pdev w)) ps b (pos (msis_of b (pdev w))).
Proof.
  intros Hok.
  destruct (twp_elim _ _ _ (parse_caps_ok exp w ps Hok))
    as (r & w' & E & -> & HF & (HR1 & HR2) & _).
  exists w'. split; [exact E|]. split; [exact HF|]. split.
  - rewrite HR1, modes_of_caps_kept. reflexivity.
  - intros b. rewrite HR2, recorded_pos_kept. reflexivity.
Qed.

Lemma parse_caps_records_modes_witness :
  exists w',
    vfio_pci_parse_caps true 5 sample_unparsed = Ok (Some 0) w'
    /\ irq_modes (pdev w') = 7
    /\ pos (msi (pdev w')) = 0x50 /\ pos (msix (pdev w')) = 0x60.
Proof.
  destruct (parse_caps_records_modes true sample_unparsed sample_caps sample_chain_ok)
    as (w' & E & _ & Hm & Hp).
  exists w'. split; [exact E|]. split; [|split].
  - rewrite Hm. vm_compute. reflexivity.
  - etransitivity; [exact (Hp false)|]. vm_compute. reflexivity.
  - etransitivity; [exact (Hp true)|]. vm_compute. reflexivity.
Defined.

Lemma parse_loop_self_loop exp p v w : forall fuel fuel',
  hdr (pdev w) !! Z.to_nat p = Some (byte_at (hdr (pdev w)) p) ->
  hdr (pdev w) !! Z.to_nat (p + 1) = Some p ->
  p <> 0 ->
  cap_kept exp (hdr (pdev w)) p = false ->
  parse_loop exp fuel fuel' p v w = Ok None w.
Proof.
  intros fuel fuel' Hty Hnext Hp Hk. induction fuel as [|f IH]; [reflexivity|].
  cbn [parse_loop]. rewrite (proj2 (Z.eqb_neq p 0) Hp).
  unfold bind at 1. unfold hdr_at at 1. rewrite Hty.
  unfold bind at 1. unfold hdr_at at 1. rewrite Hnext.
  unfold cap_kept in Hk.
  destruct (byte_at (hdr (pdev w)) p =? PCI_CAP_ID_MSIX); [discriminate Hk|].
  destruct (byte_at (hdr (pdev w)) p =? PCI_CAP_ID_MSI); [discriminate Hk|].
  destruct (byte_at (hdr (pdev w)) p =? PCI_CAP_ID_EXP).
  - destruct exp; [discriminate Hk|]. cbn [negb]. exact IH.
  - exact IH.
Qed.

(** A capability list that does not end.  When the first capability of
    the device has a type the parse drops and names itself as the next
    capability, the loop of [vfio_pci_parse_caps] is still running after
    any number of iterations: the parse does not return. *)
Theorem parse_caps_self_loop_never_returns exp w p :
  length (hdr (pdev w)) = Z.to_nat PCI_DEV_CFG_SIZE_LEGACY ->
  truthy (Z.land (byte_at (hdr (pdev w)) PCI_STATUS) PCI_STATUS_CAP_LIST) = true ->
  Z.land (byte_at (hdr (pdev w)) PCI_CAPABILITY_LIST) (Z.lnot 3) = p ->
  PCI_STD_HEADER_SIZEOF <= p < PCI_DEV_CFG_SIZE_LEGACY - 1 ->
  cap_kept exp (hdr (pdev w)) p = false ->
  byte_at (hdr (pdev w)) (p + 1) = p ->
  forall fuel, exists w', vfio_pci_parse_caps exp fuel w = Ok None w'.
Proof.
  intros Lh Hst Hpos Hp Hk Hnext fuel.
  set (h := hdr (pdev w)) in *.
  assert (H6 : h !! Z.to_nat PCI_STATUS = Some (byte_at h PCI_STATUS))
    by (apply lookup_byte_at; rewrite Lh; cap_nums; lia).
  assert (H34 : h !! Z.to_nat PCI_CAPABILITY_LIST = Some (byte_at h PCI_CAPABILITY_LIST))
    by (apply lookup_byte_at; rewrite Lh; cap_nums; lia).
  eexists. unfold vfio_pci_parse_caps.
  unfold bind at 1. unfold hdr_at at 1. fold h. rewrite H6, Hst. cbn [negb].
  unfold bind at 1. unfold hdr_at at 1. fold h. rewrite H34, Hpos.
  unfold bind at 1. unfold hdr_put at 1. fold h.
  rewrite decide_True by (rewrite Lh; cap_nums; lia).
  unfold bind at 1. unfold hdr_put at 1. cbn [pdev set_pdev hdr set_hdr].
  rewrite decide_True by (rewrite length_insert, Lh; cap_nums; lia).
  unfold bind at 1. rewrite parse_loop_self_loop; [reflexivity| | | |].
  - cbn [pdev set_pdev hdr set_hdr]. apply lookup_byte_at.
    rewrite !length_insert, Lh. cap_nums. lia.
  - cbn [pdev set_pdev hdr set_hdr]. cap_nums.
    rewrite !list_lookup_insert_ne by lia. rewrite <- Hnext at 2.
    apply lookup_byte_at. rewrite Lh. lia.
  - cap_nums. lia.
  - cbn [pdev set_pdev hdr set_hdr]. rewrite <- Hk. unfold cap_kept.
    assert (Eb : byte_at (<[Z.to_nat PCI_CAPABILITY_LIST := 0]>
                   (<[Z.to_nat PCI_STATUS := Z.land (byte_at h PCI_STATUS)
                                               (Z.lnot PCI_STATUS_CAP_LIST)]> h)) p
                 = byte_at h p).
    { apply byte_at_eq. cap_nums. rewrite !list_lookup_insert_ne by lia. reflexivity. }
    rewrite Eb. reflexivity.
Qed.

Lemma parse_caps_self_loop_never_returns_witness :
  exists w', vfio_pci_parse_caps false 1000 sample_looping = Ok None w'.
Proof.
  refine (parse_caps_self_loop_never_returns false sample_looping 0x40 _ _ _ _ _ _ 1000%nat).
  - vm_compute. reflexivity.
  - vm_compute. reflexivity.
  - vm_compute. reflexivity.
  - vm_compute. split; [discriminate|reflexivity].
  - vm_compute. reflexivity.
  - vm_compute. reflexivity.
Defined.

(** * Powers of two *)

(** [is_power_of_two] holds exactly of the powers of two. *)
Lemma is_power_of_two_spec x :
  is_power_of_two x = true <-> exists k, 0 <= k /\ x = 2 ^ k.
Proof.
  unfold is_power_of_two. split.
  - destruct (x >? 0) eqn:Hpos; [|discriminate]. intros H.
    apply Z.gtb_lt in Hpos. apply Z.eqb_eq in H.
    exists (Z.log2 x). split; [apply Z.log2_nonneg|].
    destruct (Z.log2_spec x Hpos) as (Hlo & Hhi).
    destruct (Z.eq_dec x (2 ^ Z.log2 x)) as [E|E]; [exact E|]. exfalso.
    assert (Hk : Z.log2 (x - 1) = Z.log2 x).
    { apply Z.log2_unique; [apply Z.log2_nonneg|]. lia. }
    pose proof (Z.bit_log2 x Hpos) as B1.
    assert (Hpos' : 0 < x - 1) by (pose proof (Z.pow_pos_nonneg 2 (Z.log2 x)
                                     ltac:(lia) (Z.log2_nonneg x)); lia).
    pose proof (Z.bit_log2 (x - 1) Hpos') as B2. rewrite Hk in B2.
    pose proof (Z.land_spec x (x - 1) (Z.log2 x)) as B.
    rewrite H, B1, B2, Z.bits_0 in B. discriminate B.
  - intros (k & Hk & ->).
    pose proof (Z.pow_pos_nonneg 2 k ltac:(lia) Hk) as Hp.
    replace (2 ^ k >? 0) with true by (symmetry; apply Z.gtb_lt; lia).
    apply Z.eqb_eq.
    replace (2 ^ k - 1) with (Z.ones k) by (rewrite Z.ones_equiv; lia).
    rewrite Z.land_ones by exact Hk. apply Z.mod_same. lia.
Qed.

(** Region sizes.  When the VFIO_DEVICE_GET_REGION_INFO ioctl succeeds,
    [vfio_pci_get_region_info] returns 0 exactly when the size the host
    reports is zero or a power of two (1, 2, 4, ...), and -EINVAL
    otherwise: a size with two bits set is refused, an absent region is
    accepted. *)
Theorem get_region_info_power_of_two region_answer idx err sz :
  region_answer idx = (0, err, sz) ->
  ((vfio_pci_get_region_info region_answer idx).1 = 0 <->
   sz = 0 \/ exists k, 0 <= k /\ sz = 2 ^ k)
  /\ ((vfio_pci_get_region_info region_answer idx).1 <> 0 ->
      (vfio_pci_get_region_info region_answer idx).1 = - EINVAL)
  /\ (vfio_pci_get_region_info region_answer idx).2 = sz.
Proof.
  intros E. unfold vfio_pci_get_region_info. rewrite E. cbn [truthy Z.eqb negb].
  pose proof (is_power_of_two_spec sz) as Hp.
  unfold truthy. destruct (Z.eqb_spec sz 0) as [->|Hnz]; cbn [negb andb fst snd].
  - split; [|split; [intros H; contradiction H|]]; try reflexivity.
    split; [intros _; left|]; reflexivity.
  - destruct (is_power_of_two sz); cbn [negb fst snd].
    + split; [|split; [intros H; contradiction H|]]; try reflexivity.
      split; [intros _; right; apply Hp|]; reflexivity.
    + split; [|split; [intros _|]]; try reflexivity.
      split; [unfold EINVAL; discriminate|].
      intros [->|Hk]; [contradiction Hnz; reflexivity|].
      apply Hp in Hk. discriminate Hk.
Qed.

Lemma get_region_info_power_of_two_witness :
  (vfio_pci_get_region_info sample_region 0).1 = 0
  <-> 0x1000 = 0 \/ exists k, 0 <= k /\ 0x1000 = 2 ^ k.
Proof.
  exact (proj1 (get_region_info_power_of_two sample_region 0 0 0x1000 eq_refl)).
Defined.

(** * The MSI-X table read back *)

Lemma table_view_put_entry b i e e' w :
  vec w b i = Some e -> config e' = config e ->
  table_view (put_entry b i e' w) = table_view w.
Proof.
  intros Hv Hc. unfold table_view, put_entry, vec in *. destruct b; [|reflexivity].
  cbn [msis_of] in *. proj. f_equal.
  rewrite list_fmap_insert, Hc. apply list_insert_id.
  rewrite list_lookup_fmap, Hv. reflexivity.
Qed.

Ltac tv_leaf :=
  repeat first
    [ assumption
    | erewrite table_view_put_entry; [ | eassumption | reflexivity ]
    | progress change (table_view (push_log ?c ?r ?w)) with (table_view w)
    | progress change (table_view (push_diag ?l ?w)) with (table_view w)
    | progress change (table_view (set_errno ?x ?w)) with (table_view w)
    | progress change (table_view (set_open_fds ?x ?w)) with (table_view w)
    | progress change (table_view (set_irqfds ?x ?w)) with (table_view w)
    | progress change (table_view (put_eventfd ?b ?i ?x ?w)) with (table_view w) ].

Lemma update_msi_entry_table_view host b i w0 w :
  table_view w = table_view w0 ->
  wp (vfio_pci_update_msi_entry host b i) (fun _ w' => table_view w' = table_view w0) w.
Proof.
  intros HT. unfold vfio_pci_update_msi_entry. unfold_host.
  wp_steps; tv_leaf.
Qed.

Lemma intx_step_table_view w w' : intx_step w w' -> table_view w' = table_view w.
Proof.
  intros (A & _). injection A as A1 A2 A3 A4 A5 A6 A7 A8.
  unfold table_view. rewrite A2, A6. reflexivity.
Qed.

Lemma cap_step_table_view b w w' : cap_step b w w' -> table_view w' = table_view w.
Proof.
  intros (A & B & C). unfold cap_static in A.
  injection A as A1 A2 A3 A4 A5 A6 A7 A8 A9 A10.
  injection C as C1 C2 C3 C4 C5 C6 C7 C8 C9 C10.
  unfold table_view. rewrite C6. destruct b; cbn [msis_of negb] in *; congruence.
Qed.

Lemma enable_msis_table_view host b w :
  wp (vfio_pci_enable_msis host b) (fun _ w' => table_view w' = table_view w) w.
Proof.
  unfold vfio_pci_enable_msis.
  wp_step. wp_step. wp_step; [wp_steps; reflexivity|].
  wp_step. wp_step. wp_step.
  eapply wp_mono; [apply maybe_disable_intx|].
  intros ? w1 (HI & _ & _). cbv beta.
  pose proof (intx_step_table_view _ _ HI) as H1.
  wp_step.
  - wp_step.
    eapply wp_mono;
      [apply (fill_eventfds_step b _ _ w1 w1 (cap_step_refl b w1) eq_refl eq_refl)|].
    intros empty w2 (HC & _ & _). cbv beta.
    pose proof (cap_step_table_view _ _ _ HC) as H2.
    unfold_host. wp_steps.
    + change (table_view w2 = table_view w). congruence.
    + rewrite <- H1, <- H2. destruct b; reflexivity.
  - wp_step; [wp_steps; exact H1|].
    eapply wp_mono; [apply (update_vectors_cap host b _ 0 w1 w1 (cap_step_refl b w1))|].
    intros r w' HC. rewrite (cap_step_table_view _ _ _ HC). exact H1.
Qed.

Lemma bytes_at_memcpy_at dst off src :
  (off + length src <= length dst)%nat ->
  bytes_at (memcpy_at dst off src) off (length src) = src.
Proof.
  intros H. apply list_eq. intros j.
  destruct (decide (j < length src)%nat) as [Hj|Hj].
  - rewrite lookup_bytes_at by exact Hj.
    rewrite lookup_memcpy_at_in by lia. f_equal. lia.
  - rewrite (lookup_ge_None_2 src) by lia.
    apply lookup_ge_None_2. rewrite length_bytes_at; [lia|].
    rewrite length_memcpy_at by exact H. exact H.
Qed.

Lemma good_table_access_checks p addr len :
  ~ bad_table_access p addr len ->
  (u64 (addr - guest_phys_addr (msix_table p)) >=? size (msix_table p)) = false
  /\ (negb (len =? 4) && negb (len =? 8)) || truthy (Z.land addr (u32 (len - 1))) = false.
Proof.
  intros Hg. unfold bad_table_access in Hg. split.
  - rewrite Z.geb_leb. apply Z.leb_gt. lia.
  - assert (Hlen : len = 4 \/ len = 8) by lia.
    assert (Hal : Z.land addr (len - 1) = 0).
    { destruct (Z.eq_dec (Z.land addr (len - 1)) 0); [assumption|]. exfalso. auto. }
    destruct Hlen as [-> | ->]; cbn [Z.eqb negb andb orb Pos.eqb];
      rewrite u32_small by (cbn; lia); unfold truthy;
      change (4 - 1) with 3 in *; change (8 - 1) with 7 in *; rewrite Hal; reflexivity.
Qed.

(** What a write that is not turned away leaves in the table. *)
Lemma table_write_view host addr data len w :
  ~ bad_table_access (pdev w) addr len ->
  wp (vfio_pci_msix_table_access host addr data len true)
     (fun _ w' =>
        let offset := u64 (addr - guest_phys_addr (msix_table (pdev w))) in
        let vector := Z.to_nat (offset / PCI_MSIX_ENTRY_SIZE) in
        let field := offset mod PCI_MSIX_ENTRY_SIZE in
        exists e,
          vec w true vector = Some e
          /\ field + len <= PCI_MSIX_ENTRY_SIZE
          /\ table_view w'
             = table_view
                 (put_entry true vector
                    (set_entry_config
                       (memcpy_at (config e) (Z.to_nat field) (take (Z.to_nat len) data)) e)
                    w)) w.
Proof.
  intros Hg. destruct (good_table_access_checks _ _ _ Hg) as (Hoff & Hchk).
  unfold vfio_pci_msix_table_access.
  apply wp_bind. apply wp_get_pdev. rewrite Hoff, Hchk.
  apply wp_bind. apply wp_entry_at. intros e Hv.
  destruct (_ >? PCI_MSIX_ENTRY_SIZE) eqn:Hfl; [apply wp_fault|].
  rewrite Z.gtb_ltb in Hfl. apply Z.ltb_ge in Hfl.
  cbn [negb]. apply wp_bind. apply wp_store_entry. intros Hlt.
  set (w1 := put_entry true _ _ w).
  destruct (_ <=? PCI_MSIX_ENTRY_VECTOR_CTRL).
  { apply wp_ret. exists e. auto. }
  apply wp_bind. apply wp_entry_at. intros e1 Hv1.
  apply wp_bind. apply wp_store_entry. intros Hlt1.
  apply wp_bind. eapply wp_mono.
  { apply (update_msi_entry_table_view host true _ w1).
    eapply table_view_put_entry; [exact Hv1|reflexivity]. }
  intros r w2 H2. cbv beta.
  apply wp_bind.
  apply (wp_mono _ (fun _ w3 => table_view w3 = table_view w1)).
  { destruct (r <? 0); [apply wp_pr_err|apply wp_ret]; exact H2. }
  intros _ w3 H3. apply wp_bind. eapply wp_mono; [apply enable_msis_table_view|].
  intros r' w4 H4. cbv beta.
  apply wp_bind.
  apply (wp_mono _ (fun _ w5 => table_view w5 = table_view w1)).
  { destruct (truthy r'); [apply wp_pr_err|apply wp_ret];
      (etransitivity; [exact H4|exact H3]). }
  intros _ w5 H5. apply wp_ret. exists e. auto.
Qed.

(** Write, then read.  After a write to the MSI-X table that is not
    turned away (4 or 8 bytes, aligned, inside the table) and that
    returns, a read of the same length at the same address returns the
    bytes written, whatever the write made of the vector on the host side
    (eventfd, route, irqfd, SET_IRQS) and whatever the host answered; the
    read changes nothing. *)
Theorem table_write_then_read host addr data len w data' w' buf :
  ~ bad_table_access (pdev w) addr len ->
  (forall e, e ∈ entries (msix (pdev w)) -> length (config e) = 16%nat) ->
  (Z.to_nat len <= length data)%nat ->
  vfio_pci_msix_table_access host addr data len true w = Ok data' w' ->
  vfio_pci_msix_table_access host addr buf len false w'
  = Ok (take (Z.to_nat len) data ++ drop (Z.to_nat len) buf) w'.
Proof.
  intros Hg H16 Hdata E.
  pose proof (wp_elim _ _ _ _ _ (table_write_view host addr data len w Hg) E) as H.
  cbv zeta in H. destruct H as (e & Hv & Hfl & HT).
  destruct (good_table_access_checks _ _ _ Hg) as (Hoff & Hchk).
  set (offset := u64 (addr - guest_phys_addr (msix_table (pdev w)))) in *.
  pose proof (vec_lt _ _ _ _ Hv) as Hlt.
  assert (Hlen : len = 4 \/ len = 8) by (unfold bad_table_access in Hg; lia).
  assert (Hfield : 0 <= offset mod PCI_MSIX_ENTRY_SIZE)
    by (apply Z.mod_pos_bound; reflexivity).
  unfold table_view in HT. injection HT as HT1 HT2.
  change (msix_table (pdev (put_entry true _ _ w))) with (msix_table (pdev w)) in HT1.
  assert (He' : exists e',
             entries (msix (pdev w')) !! Z.to_nat (offset / PCI_MSIX_ENTRY_SIZE) = Some e'
             /\ config e' = memcpy_at (config e) (Z.to_nat (offset mod PCI_MSIX_ENTRY_SIZE))
                              (take (Z.to_nat len) data)).
  { apply (f_equal (fun l => l !! Z.to_nat (offset / PCI_MSIX_ENTRY_SIZE))) in HT2.
    rewrite !list_lookup_fmap in HT2. unfold put_entry in HT2. proj.
    cbn [msis_of] in HT2. proj.
    rewrite list_lookup_insert_eq in HT2 by exact Hlt.
    destruct (entries (msix (pdev w')) !! _) as [e'|]; [|discriminate HT2].
    exists e'. split; [reflexivity|]. cbn in HT2. injection HT2 as HT2. exact HT2. }
  destruct He' as (e' & Hv' & Hc').
  unfold vfio_pci_msix_table_access, bind, get_pdev. rewrite HT1.
  fold offset. rewrite Hoff, Hchk. unfold entry_at. cbn [msis_of]. rewrite Hv'.
  replace (offset mod PCI_MSIX_ENTRY_SIZE + len >? PCI_MSIX_ENTRY_SIZE) with false
    by (symmetry; rewrite Z.gtb_ltb; apply Z.ltb_ge; exact Hfl).
  cbn [negb]. unfold ret. f_equal. f_equal. rewrite Hc'.
  assert (Hl : length (take (Z.to_nat len) data) = Z.to_nat len)
    by (rewrite length_take; lia).
  rewrite <- Hl at 2. apply bytes_at_memcpy_at. rewrite Hl.
  rewrite (H16 e) by (apply (list_elem_of_lookup_2 _ _ _ Hv)).
  unfold PCI_MSIX_ENTRY_SIZE in *. lia.
Qed.

Lemma table_write_then_read_witness :
  vfio_pci_msix_table_access host_ok 0x10010 (replicate 8 0) 8 false sample_addr_written
  = Ok [0x00; 0x10; 0xE0; 0xFE; 0x01; 0x00; 0x00; 0x00] sample_addr_written.
Proof.
  refine (table_write_then_read host_ok 0x10010
            [0x00; 0x10; 0xE0; 0xFE; 0x01; 0x00; 0x00; 0x00] 8 sample_masked
            [0x00; 0x10; 0xE0; 0xFE; 0x01; 0x00; 0x00; 0x00] sample_addr_written
            (replicate 8 0) _ _ _ _).
  - unfold bad_table_access. vm_compute. intuition discriminate.
  - intros e He. vm_compute in He.
    repeat (apply elem_of_cons in He as [->|He]; [reflexivity|]). inversion He.
  - vm_compute. lia.
  - vm_compute. reflexivity.
Defined.

(** * The order of a configuration-space write *)

Lemma frame_grows w w' : frame w w' -> log_ext (fun _ => True) w w'.
Proof. intros (_ & _ & H). revert H. apply log_ext_mono. auto. Qed.

Lemma intx_step_grows w w' : intx_step w w' -> log_ext (fun _ => True) w w'.
Proof. intros (_ & H). revert H. apply log_ext_mono. auto. Qed.

Ltac grows_close :=
  match goal with
  | H : log_ext (fun _ => True) ?w0 ?w |- log_ext (fun _ => True) ?w0 _ =>
      first [ exact H
            | refine (log_ext_same _ _ w _ _ H); reflexivity
            | eapply (log_ext_app _ _ _ _ _ H); [log_chain | repeat constructor] ]
  end.

Lemma enable_msis_grows host b w0 w :
  log_ext (fun _ => True) w0 w ->
  wp (vfio_pci_enable_msis host b) (fun _ w' => log_ext (fun _ => True) w0 w') w.
Proof.
  intros HL. unfold vfio_pci_enable_msis.
  wp_step. wp_step. wp_step; [wp_steps; exact HL|].
  wp_step. wp_step. wp_step.
  eapply wp_mono; [apply maybe_disable_intx|].
  intros ? w1 (HS & _). cbv beta.
  pose proof (log_ext_trans _ _ _ _ HL (intx_step_grows _ _ HS)) as HL1.
  wp_step.
  - wp_step.
    eapply wp_mono;
      [apply (fill_eventfds_step b _ _ w1 w1 (cap_step_refl b w1) eq_refl eq_refl)|].
    intros empty w2 (_ & _ & Hlog). cbv beta.
    pose proof (log_ext_same _ _ _ _ Hlog HL1) as HL2. clear HL HL1.
    unfold_host. wp_steps; grows_close.
  - wp_step; [wp_steps; exact HL1|].
    apply update_vectors_ext. exact HL1.
Qed.

Lemma disable_msis_grows host b w0 w :
  log_ext (fun _ => True) w0 w ->
  wp (vfio_pci_disable_msis host b) (fun _ w' => log_ext (fun _ => True) w0 w') w.
Proof.
  intros HL. unfold vfio_pci_disable_msis. unfold_host.
  wp_step. wp_step. wp_step; [wp_steps; exact HL|].
  wp_step. wp_step. wp_step. wp_step. wp_step. wp_step. wp_step. wp_step.
  - wp_steps. grows_close.
  - wp_step. wp_step. wp_step. wp_step. wp_step.
    match goal with
    | |- wp _ _ ?w1 => assert (HL1 : log_ext (fun _ => True) w0 w1) by grows_close
    end.
    eapply wp_mono; [apply maybe_enable_intx|].
    intros r' w' HS. cbv beta. wp_steps.
    exact (log_ext_trans _ _ _ _ HL1 (intx_step_grows _ _ HS)).
Qed.

Lemma update_msi_entry_grows host b i w0 w :
  log_ext (fun _ => True) w0 w ->
  wp (vfio_pci_update_msi_entry host b i) (fun _ w' => log_ext (fun _ => True) w0 w') w.
Proof.
  intros HL. eapply wp_mono; [apply (update_msi_entry_frame host b i w w (frame_refl w))|].
  intros r w' HF. exact (log_ext_trans _ _ _ _ HL (frame_grows _ _ HF)).
Qed.

Lemma program_vectors_grows host idxs nr msg w0 w :
  log_ext (fun _ => True) w0 w ->
  wp (program_vectors host idxs nr msg) (fun _ w' => log_ext (fun _ => True) w0 w') w.
Proof.
  intros HL. eapply wp_mono; [apply (program_vectors_frame host _ _ _ w w (frame_refl w))|].
  intros r w' HF. exact (log_ext_trans _ _ _ _ HL (frame_grows _ _ HF)).
Qed.

Lemma msi_vector_write_grows host off bytes sz w0 w :
  log_ext (fun _ => True) w0 w ->
  wp (vfio_pci_msi_vector_write host off bytes sz)
     (fun _ w' => log_ext (fun _ => True) w0 w') w.
Proof.
  intros HL.
  eapply wp_mono; [apply (msi_vector_write_frame host _ _ _ w w (frame_refl w))|].
  intros r w' HF. exact (log_ext_trans _ _ _ _ HL (frame_grows _ _ HF)).
Qed.

Ltac grows_intro :=
  let H := fresh "HL" in intros ? ? H; cbv beta in H; cbv beta.

Ltac grows_with lem :=
  match goal with
  | H : log_ext (fun _ => True) ?w0 _ |- _ =>
      eapply wp_mono; [apply (lem w0); grows_close | grows_intro]
  end.

Ltac grows_step :=
  lazymatch goal with
  | |- wp (vfio_pci_update_msi_entry ?h ?b ?i) _ _ =>
      grows_with (update_msi_entry_grows h b i)
  | |- wp (vfio_pci_enable_msis ?h ?b) _ _ =>
      grows_with (enable_msis_grows h b)
  | |- wp (vfio_pci_disable_msis ?h ?b) _ _ =>
      grows_with (disable_msis_grows h b)
  | |- wp (program_vectors ?h ?idxs ?nr ?msg) _ _ =>
      grows_with (program_vectors_grows h idxs nr msg)
  | |- wp (vfio_pci_msi_vector_write ?h ?off ?bytes ?sz) _ _ =>
      grows_with (msi_vector_write_grows h off bytes sz)
  | _ => wp_step
  end.

Lemma msix_cap_write_grows host off bytes sz w0 w :
  log_ext (fun _ => True) w0 w ->
  wp (vfio_pci_msix_cap_write host off bytes sz)
     (fun _ w' => log_ext (fun _ => True) w0 w') w.
Proof.
  intros HL. unfold vfio_pci_msix_cap_write. repeat grows_step; grows_close.
Qed.

Lemma msi_cap_write_grows host off bytes sz w0 w :
  log_ext (fun _ => True) w0 w ->
  wp (vfio_pci_msi_cap_write host off bytes sz)
     (fun _ w' => log_ext (fun _ => True) w0 w') w.
Proof.
  intros HL. unfold vfio_pci_msi_cap_write. repeat grows_step; grows_close.
Qed.

Lemma cfg_write_journal host offset data sz w :
  (sz >? 4) = false -> (offset =? PCI_ROM_ADDRESS) = false ->
  wp (vfio_pci_cfg_write host offset data sz)
     (fun _ w' =>
        exists evs r,
          log w' = (PreadCfg offset sz, r) :: evs
                   ++ (PwriteCfg offset (take (Z.to_nat sz) data), host (length (log w)))
                      :: log w) w.
Proof.
  intros Hsz Hoff. unfold vfio_pci_cfg_write. rewrite Hsz, Hoff.
  unfold pwrite_cfg at 1. wp_step. wp_step. wp_step. wp_step. wp_step.
  match goal with
  | |- wp _ _ ?w1 => set (W1 := w1);
                     assert (HL : log_ext (fun _ => True) W1 W1) by apply log_ext_refl
  end.
  assert (HW : log W1 = (PwriteCfg offset (take (Z.to_nat sz) data), host (length (log w)))
                        :: log w) by reflexivity.
  clearbody W1. unfold pread_cfg.
  repeat lazymatch goal with
         | |- wp (vfio_pci_msix_cap_write ?h ?o ?d ?s) _ _ =>
             grows_with (msix_cap_write_grows h o d s)
         | |- wp (vfio_pci_msi_cap_write ?h ?o ?d ?s) _ _ =>
             grows_with (msi_cap_write_grows h o d s)
         | _ => wp_step
         end.
  all: lazymatch goal with
       | HW' : log ?b = _ |- context [push_log (PreadCfg _ _) _ ?wk] =>
           let HF := fresh "HF" in
           let evs := fresh "evs" in
           let Hevs := fresh "Hevs" in
           let K := fresh "K" in
           assert (HF : log_ext (fun _ => True) b wk) by grows_close;
           set (K := wk) in *; clearbody K;
           destruct HF as (evs & Hevs & _); exists evs; eexists;
           proj_put; rewrite Hevs, HW'; reflexivity
       end.
Qed.

(** The order of a configuration-space write.  A write of more than
    four bytes fails the assertion.  A write to the expansion-ROM
    register is ignored: nothing reaches the device and nothing changes.
    Any other write that returns has first forwarded its bytes to the
    device with pwrite, then run the capability handlers, and read the
    register back with pread as the last request. *)
Theorem cfg_write_device_first host offset data sz w :
  (4 < sz -> vfio_pci_cfg_write host offset data sz w = Died)
  /\ (sz <= 4 -> offset = PCI_ROM_ADDRESS ->
      vfio_pci_cfg_write host offset data sz w = Ok tt w)
  /\ (sz <= 4 -> offset <> PCI_ROM_ADDRESS ->
      forall w', vfio_pci_cfg_write host offset data sz w = Ok tt w' ->
      exists evs r,
        log w' = (PreadCfg offset sz, r) :: evs
                 ++ (PwriteCfg offset (take (Z.to_nat sz) data), host (length (log w)))
                    :: log w).
Proof.
  split; [|split].
  - intros H. unfold vfio_pci_cfg_write.
    replace (sz >? 4) with true by (symmetry; apply Z.gtb_lt; lia). reflexivity.
  - intros H ->. unfold vfio_pci_cfg_write.
    replace (sz >? 4) with false by (symmetry; rewrite Z.gtb_ltb; apply Z.ltb_ge; lia).
    reflexivity.
  - intros H Hne w' E.
    refine (wp_elim _ _ _ _ _ (cfg_write_journal host offset data sz w _ _) E).
    + rewrite Z.gtb_ltb. apply Z.ltb_ge. lia.
    + apply Z.eqb_neq. exact Hne.
Qed.

(** * Reading the configuration space *)

Lemma twp_elim_value {A} (c : M A) (a0 : A) (P : world -> Prop) w :
  twp c (fun a w' => a = a0 /\ P w') w -> exists w', c w = Ok a0 w' /\ P w'.
Proof.
  intros H. destruct (twp_elim _ _ _ H) as (a & w' & E & -> & HP). eauto.
Qed.

(** [vfio_pci_parse_cfg_space] on a device whose region array holds the
    configuration region (index 7 below [num_regions]), whose region has
    a non-zero size, whose 256-byte read the host answers in full and
    whose header type, bit 7 apart, is the normal one: with a capability
    list as above the function returns 0; [header_type] is stored without
    the multifunction bit; the device gets the INTx mode exactly when
    [irq_pin] is not zero, besides the modes of its MSI and MSI-X
    capabilities; CAP_LIST and [capabilities] agree; the journal gains the
    VFIO_DEVICE_GET_REGION_INFO request for region 7 and then the
    256-byte read of the configuration space, and nothing else; no
    diagnostic is printed. *)
Theorem parse_cfg_space_modes exp host num_regions config_size bytes ps w :
  VFIO_PCI_CONFIG_REGION_INDEX < num_regions ->
  config_size <> 0 ->
  host (S (length (log w))) = PCI_DEV_CFG_SIZE_LEGACY ->
  Z.land (byte_at bytes PCI_HEADER_TYPE) 0x7f = PCI_HEADER_TYPE_NORMAL ->
  chain_ok (<[Z.to_nat PCI_HEADER_TYPE := 0]> bytes) ps ->
  exists w',
    vfio_pci_parse_cfg_space exp host num_regions config_size bytes
      (S (length ps)) w = Ok (Some 0) w'
    /\ irq_modes (pdev w')
       = Z.lor (Z.lor (irq_modes (pdev w))
                      (if truthy (byte_at bytes PCI_INTERRUPT_PIN)
                       then VFIO_PCI_IRQ_MODE_INTX else 0))
               (modes_of_caps (<[Z.to_nat PCI_HEADER_TYPE := 0]> bytes) ps)
    /\ hdr (pdev w') !! Z.to_nat PCI_HEADER_TYPE = Some 0
    /\ cap_list_consistent (hdr (pdev w'))
    /\ log w' = (PreadCfg 0 PCI_DEV_CFG_SIZE_LEGACY, PCI_DEV_CFG_SIZE_LEGACY)
                :: (GET_REGION_INFO VFIO_PCI_CONFIG_REGION_INDEX, host (length (log w)))
                :: log w
    /\ (diag w', open_fds w', irqfds w') = (diag w, open_fds w, irqfds w).
Proof.
  intros Hreg Hsz Hrd Hty Hok. apply twp_elim_value.
  pose proof Hok as (Lh & _ & _ & Hfit & _). rewrite length_insert in Lh.
  unfold vfio_pci_parse_cfg_space, region_slot.
  replace (num_regions <? VFIO_PCI_CONFIG_REGION_INDEX) with false
    by (symmetry; apply Z.ltb_ge; lia).
  replace (VFIO_PCI_CONFIG_REGION_INDEX <? num_regions) with true
    by (symmetry; apply Z.ltb_lt; exact Hreg).
  replace (truthy config_size) with true
    by (symmetry; unfold truthy; apply negb_true_iff, Z.eqb_neq; exact Hsz).
  cbn [negb andb]. cbv beta iota. change (0 <=? VFIO_PCI_CONFIG_REGION_INDEX) with true.
  cbn [negb andb].
  unfold ioctl_GET_REGION_INFO, pread_cfg.
  apply twp_bind. apply twp_bind. apply twp_answer.
  apply twp_bind. apply twp_modify. apply twp_ret.
  apply twp_bind. apply twp_bind. apply twp_answer.
  apply twp_bind. apply twp_modify. apply twp_ret.
  cbn [log push_log length]. rewrite Hrd.
  apply twp_bind. apply twp_modify_pdev. rewrite Z.eqb_refl. cbn [negb].
  apply twp_bind. apply (twp_hdr_at _ (byte_at bytes PCI_HEADER_TYPE)).
  { cbn [pdev set_pdev hdr set_hdr push_log]. apply lookup_byte_at. rewrite Lh. cap_nums.
    unfold PCI_HEADER_TYPE. lia. }
  rewrite Hty. apply twp_bind. apply twp_hdr_put.
  { cbn [pdev set_pdev hdr set_hdr push_log]. rewrite Lh. unfold PCI_HEADER_TYPE. cap_nums. lia. }
  cbn [pdev set_pdev hdr set_hdr push_log]. rewrite Z.eqb_refl. cbn [negb].
  apply twp_bind. apply (twp_hdr_at _ (byte_at bytes PCI_INTERRUPT_PIN)).
  { cbn [pdev set_pdev hdr set_hdr].
    rewrite list_lookup_insert_ne by (unfold PCI_HEADER_TYPE, PCI_INTERRUPT_PIN; lia).
    apply lookup_byte_at. rewrite Lh. unfold PCI_INTERRUPT_PIN. cap_nums. lia. }
  set (h := <[Z.to_nat PCI_HEADER_TYPE := 0]> bytes) in *.
  apply twp_bind.
  apply (twp_mono _ (fun _ wa =>
           hdr (pdev wa) = h
           /\ irq_modes (pdev wa)
              = Z.lor (irq_modes (pdev w))
                      (if truthy (byte_at bytes PCI_INTERRUPT_PIN)
                       then VFIO_PCI_IRQ_MODE_INTX else 0)
           /\ log wa = (PreadCfg 0 PCI_DEV_CFG_SIZE_LEGACY, PCI_DEV_CFG_SIZE_LEGACY)
                       :: (GET_REGION_INFO VFIO_PCI_CONFIG_REGION_INDEX,
                           host (length (log w)))
                       :: log w
           /\ (diag wa, open_fds wa, irqfds wa) = (diag w, open_fds w, irqfds w))).
  { destruct (truthy (byte_at bytes PCI_INTERRUPT_PIN)).
    - apply twp_modify_pdev. repeat split; reflexivity.
    - apply twp_ret. split; [reflexivity|]. split; [|split; reflexivity].
      cbn [pdev set_pdev irq_modes set_hdr push_log]. rewrite Z.lor_0_r. reflexivity. }
  intros _ wa (Hh & Hm & Hlog & Hrest). cbv beta.
  apply twp_bind. eapply twp_mono.
  { apply (parse_caps_ok exp wa ps). rewrite Hh. exact Hok. }
  rewrite Hh. intros r w' (-> & (HF1 & _) & (HR1 & _) & v & hL & HI & Eh). cbv beta iota.
  apply twp_ret. split; [reflexivity|].
  destruct (parse_inv_consistent _ _ _ _ HI (kept_caps_fit exp _ _ Hfit)) as (_ & _ & Hc).
  rewrite <- Eh in Hc.
  split; [|split; [|split; [exact Hc|]]].
  - rewrite HR1, Hm, modes_of_caps_kept. reflexivity.
  - rewrite Eh, wipe_lookup
      by (first [exact (pi_len_h _ _ _ _ HI) | exact (pi_len_v _ _ _ _ HI)
                | unfold PCI_HEADER_TYPE; lia]).
    rewrite decide_False by (unfold PCI_HEADER_TYPE; lia).
    rewrite (pi_lo _ _ _ _ HI) by (unfold PCI_HEADER_TYPE; cap_nums; lia).
    unfold h. apply list_lookup_insert_eq. rewrite Lh. unfold PCI_HEADER_TYPE. cap_nums. lia.
  - injection HF1 as F1 F2 F3 F4 F5 F6 F7 F8 F9 F10 F11.
    injection Hrest as R2 R3 R4. split; [|congruence]. rewrite F10. exact Hlog.
Qed.

Lemma parse_cfg_space_modes_witness :
  exists w',
    vfio_pci_parse_cfg_space true (fun _ => 256) 9 0x1000 sample_config_bytes
      5 (sample_blank 0) = Ok (Some 0) w'
    /\ irq_modes (pdev w') = 7
    /\ hdr (pdev w') !! Z.to_nat PCI_HEADER_TYPE = Some 0
    /\ log w' = [(PreadCfg 0 256, 256); (GET_REGION_INFO 7, 256)].
Proof.
  destruct (parse_cfg_space_modes true (fun _ => 256) 9 0x1000 sample_config_bytes
              sample_caps (sample_blank 0)) as (w' & E & Hm & Ht & _ & Hl & _).
  - vm_compute. reflexivity.
  - discriminate.
  - reflexivity.
  - vm_compute. reflexivity.
  - split; [vm_compute; reflexivity|]. split; [vm_compute; reflexivity|].
    split; [vm_compute; reflexivity|]. split.
    + repeat constructor; vm_compute; discriminate.
    + cbn [caps_apart sample_caps]. unfold cap_apart.
      repeat split; repeat constructor; vm_compute; intuition discriminate.
  - exists w'. split; [exact E|]. split; [|split; [exact Ht|]].
    + rewrite Hm. vm_compute. reflexivity.
    + rewrite Hl. reflexivity.
Defined.

(** * Accesses that return *)

(** ** The shape of the device *)

Lemma frame_shape w w' : frame w w' -> shape w' = shape w.
Proof.
  intros (A & _). unfold dev_hdr, cap_hdr in A. unfold shape, cap_shape, eventfds.
  injection A as _ A2 _ _ _ A6 _ B1 B2 B3 B4 B5 B6 B7 C1 C2 C3 C4 C5 C6 C7.
  congruence.
Qed.

Lemma intx_step_shape w w' : intx_step w w' -> shape w' = shape w.
Proof.
  intros (A & _). injection A as A1 A2 _ A4 _ A6 _ _. unfold shape. congruence.
Qed.

Lemma cap_step_shape b w w' : cap_step b w w' -> shape w' = shape w.
Proof.
  intros (A & B & C). unfold cap_static in A.
  injection A as A1 _ _ A4 A5 _ _ _ _ A10.
  injection C as _ C2 _ _ _ C6 _ _ _ _.
  unfold shape, cap_shape, eventfds. destruct b; cbn [msis_of negb] in *; congruence.
Qed.

Lemma shape_len_entries b w w0 :
  shape w = shape w0 ->
  length (entries (msis_of b (pdev w))) = length (entries (msis_of b (pdev w0))).
Proof.
  unfold shape, cap_shape. intros H. injection H as _ _ _ _ A _ _ _ B _.
  destruct b; assumption.
Qed.

Lemma shape_len_eventfds b w w0 :
  shape w = shape w0 ->
  length (eventfds (msis_of b (pdev w))) = length (eventfds (msis_of b (pdev w0))).
Proof.
  unfold shape, cap_shape. intros H. injection H as _ _ _ _ _ A _ _ _ B.
  destruct b; assumption.
Qed.

Lemma shape_nr_entries b w w0 :
  shape w = shape w0 ->
  nr_entries (msis_of b (pdev w)) = nr_entries (msis_of b (pdev w0)).
Proof.
  unfold shape, cap_shape. intros H. injection H as _ _ _ A _ _ _ B _ _.
  destruct b; assumption.
Qed.

Lemma shape_pos b w w0 :
  shape w = shape w0 -> pos (msis_of b (pdev w)) = pos (msis_of b (pdev w0)).
Proof.
  unfold shape, cap_shape. intros H. injection H as _ _ A _ _ _ B _ _ _.
  destruct b; assumption.
Qed.

Lemma shape_modes w w0 : shape w = shape w0 -> irq_modes (pdev w) = irq_modes (pdev w0).
Proof. unfold shape. intros H. injection H as A _ _ _. exact A. Qed.

Lemma shape_table w w0 : shape w = shape w0 -> msix_table (pdev w) = msix_table (pdev w0).
Proof. unfold shape. intros H. injection H as _ A _ _. exact A. Qed.

Lemma sized_shape w w' : shape w' = shape w -> sized w -> sized w'.
Proof.
  intros HS [HA HM HT]. unfold has_mode in *. split; unfold has_mode.
  - intros b Hb. rewrite (shape_modes _ _ HS) in Hb. destruct (HA b Hb) as (A1 & A2).
    split.
    + rewrite (shape_len_entries b _ _ HS), (shape_nr_entries b _ _ HS). exact A1.
    + rewrite (shape_len_eventfds b _ _ HS), (shape_nr_entries b _ _ HS). exact A2.
  - intros Hb. rewrite (shape_modes _ _ HS) in Hb.
    pose proof (shape_nr_entries false _ _ HS) as E. cbn [msis_of] in E.
    rewrite E. exact (HM Hb).
  - intros Hb. rewrite (shape_modes _ _ HS) in Hb.
    pose proof (shape_nr_entries true _ _ HS) as E. cbn [msis_of] in E.
    rewrite (shape_table _ _ HS), E. exact (HT Hb).
Qed.

(** A shape goal whose world is a chain of setters over the world of a
    shape at hand. *)
Ltac shape_leaf :=
  match goal with
  | HS : shape ?w = shape ?w0 |- shape _ = shape ?w0 =>
      rewrite <- HS; unfold shape, cap_shape;
      repeat match goal with b : bool |- _ => destruct b end;
      projp; rewrite ?length_insert; reflexivity
  end.

Lemma tot_entry_at w0 b i Q w :
  shape w = shape w0 ->
  (i < length (entries (msis_of b (pdev w0))))%nat ->
  (forall e, vec w b i = Some e -> Q e w) ->
  twp (entry_at b i) Q w.
Proof.
  intros HS Hi HQ. rewrite <- (shape_len_entries b w w0 HS) in Hi.
  apply lookup_lt_is_Some_2 in Hi. destruct Hi as [e He].
  apply (twp_entry_at b i e); [exact He|apply HQ, He].
Qed.

Lemma tot_store_entry w0 b i e (Q : unit -> world -> Prop) w :
  shape w = shape w0 ->
  (i < length (entries (msis_of b (pdev w0))))%nat ->
  Q tt (put_entry b i e w) ->
  twp (store_entry b i e) Q w.
Proof.
  intros HS Hi HQ. rewrite <- (shape_len_entries b w w0 HS) in Hi.
  apply twp_store_entry; assumption.
Qed.

Lemma tot_eventfd_at w0 b i Q w :
  shape w = shape w0 ->
  (i < length (eventfds (msis_of b (pdev w0))))%nat ->
  (forall fd, eventfds (msis_of b (pdev w)) !! i = Some fd -> Q fd w) ->
  twp (eventfd_at b i) Q w.
Proof.
  intros HS Hi HQ. rewrite <- (shape_len_eventfds b w w0 HS) in Hi.
  apply lookup_lt_is_Some_2 in Hi. destruct Hi as [e He].
  apply (twp_eventfd_at b i e); [exact He|apply HQ, He].
Qed.

Lemma tot_store_eventfd w0 b i fd (Q : unit -> world -> Prop) w :
  shape w = shape w0 ->
  (i < length (eventfds (msis_of b (pdev w0))))%nat ->
  Q tt (put_eventfd b i fd w) ->
  twp (store_eventfd b i fd) Q w.
Proof.
  intros HS Hi HQ. rewrite <- (shape_len_eventfds b w w0 HS) in Hi.
  apply twp_store_eventfd; assumption.
Qed.

Lemma tot_shl_int x i (Q : Z -> world -> Prop) w :
  (i < 32)%nat -> Q (u32 (Z.shiftl x (Z.of_nat i))) w -> twp (shl_int x i) Q w.
Proof.
  intros Hi HQ. unfold shl_int. destruct (decide _); [exact HQ|contradiction].
Qed.

(** One step through a computation that is shown to return: the array
    accesses are discharged from the shape at hand. *)
Ltac tot_step :=
  match goal with
  | HS : shape _ = shape ?w0 |- twp (entry_at _ _) _ _ =>
      apply (tot_entry_at w0); [shape_leaf | assumption | intros ? ?]
  | HS : shape _ = shape ?w0 |- twp (store_entry _ _ _) _ _ =>
      apply (tot_store_entry w0); [shape_leaf | assumption | ]
  | HS : shape _ = shape ?w0 |- twp (eventfd_at _ _) _ _ =>
      apply (tot_eventfd_at w0); [shape_leaf | assumption | intros ? ?]
  | HS : shape _ = shape ?w0 |- twp (store_eventfd _ _ _) _ _ =>
      apply (tot_store_eventfd w0); [shape_leaf | assumption | ]
  | |- twp (shl_int _ _) _ _ => apply tot_shl_int; [assumption|]
  | |- _ => twp_step
  end; cbv beta.

Lemma update_msi_entry_total host b i w0 w :
  shape w = shape w0 ->
  (i < length (entries (msis_of b (pdev w0))))%nat ->
  twp (vfio_pci_update_msi_entry host b i) (fun _ w' => shape w' = shape w0) w.
Proof.
  intros HS Hi. unfold vfio_pci_update_msi_entry. unfold_host.
  repeat tot_step; shape_leaf.
Qed.

Lemma enable_intx_total host w0 w :
  shape w = shape w0 ->
  twp (vfio_pci_enable_intx host) (fun _ w' => shape w' = shape w0) w.
Proof.
  intros HS. eapply twp_mono.
  - apply twp_wp_conj;
      [apply enable_intx_runs|apply (enable_intx_step host w w (intx_step_refl w))].
  - intros r w' (_ & H). cbv beta in H. rewrite (intx_step_shape _ _ H). exact HS.
Qed.

Lemma disable_intx_total host w0 w :
  shape w = shape w0 ->
  twp (vfio_pci_disable_intx host) (fun _ w' => shape w' = shape w0) w.
Proof.
  intros HS. eapply twp_mono.
  - apply twp_wp_conj;
      [apply disable_intx_runs|apply (disable_intx_step host w w (intx_step_refl w))].
  - intros r w' (_ & H & _). rewrite (intx_step_shape _ _ H). exact HS.
Qed.

Lemma vector_indices_in_arrays b w w0 :
  shape w = shape w0 ->
  arrays_ok (msis_of b (pdev w0)) ->
  Forall (in_arrays w0 b) (vector_indices (msis_of b (pdev w))).
Proof.
  intros HS (A1 & A2). unfold vector_indices. rewrite (shape_nr_entries b _ _ HS).
  apply Forall_forall. intros i Hi. apply elem_of_seq in Hi.
  unfold in_arrays. rewrite A1, A2. lia.
Qed.

Lemma fill_eventfds_total b idxs w0 : forall empty w,
  shape w = shape w0 ->
  Forall (in_arrays w0 b) idxs ->
  twp (fill_eventfds b idxs empty) (fun _ w' => shape w' = shape w0) w.
Proof.
  induction idxs as [|i rest IH]; intros empty w HS HF; cbn [fill_eventfds].
  - apply twp_ret. exact HS.
  - inversion HF as [|? ? [Hi Hj] HF']; subst.
    repeat lazymatch goal with
           | |- twp (fill_eventfds _ _ _) _ _ => apply IH; [shape_leaf | exact HF']
           | _ => tot_step
           end.
Qed.

Lemma update_vectors_total host b idxs w0 : forall r0 w,
  shape w = shape w0 ->
  Forall (in_arrays w0 b) idxs ->
  twp (update_vectors host b idxs r0) (fun _ w' => shape w' = shape w0) w.
Proof.
  induction idxs as [|i rest IH]; intros r0 w HS HF; cbn [update_vectors].
  - apply twp_ret. exact HS.
  - inversion HF as [|? ? [Hi Hj] HF']; subst. unfold_host.
    repeat lazymatch goal with
           | |- twp (update_vectors _ _ _ _) _ _ => apply IH; [shape_leaf | exact HF']
           | _ => tot_step
           end; shape_leaf.
Qed.

(** A call that returns with the shape kept, continued. *)
Ltac tot_call lem :=
  eapply twp_mono; [apply lem; first [shape_leaf | eassumption] | (let H := fresh "HS" in intros ? ? H; cbv beta in H |- *)].

Lemma enable_msis_total host b w0 w :
  shape w = shape w0 ->
  arrays_ok (msis_of b (pdev w0)) ->
  twp (vfio_pci_enable_msis host b) (fun _ w' => shape w' = shape w0) w.
Proof.
  intros HS HA. unfold vfio_pci_enable_msis. unfold_host.
  pose proof (vector_indices_in_arrays b w w0 HS HA) as HF.
  repeat lazymatch goal with
         | |- twp (vfio_pci_disable_intx _) _ _ => tot_call (disable_intx_total host w0)
         | |- twp (fill_eventfds _ _ _) _ _ =>
             eapply twp_mono;
             [apply (fill_eventfds_total b _ w0); [first [shape_leaf|assumption] | exact HF]
             | (let H := fresh "HS" in intros ? ? H; cbv beta in H |- *)]
         | |- twp (update_vectors _ _ _ _) _ _ =>
             apply (update_vectors_total host b _ w0); [first [shape_leaf|assumption] | exact HF]
         | _ => tot_step
         end; first [shape_leaf | assumption].
Qed.

Lemma disable_msis_total host b w0 w :
  shape w = shape w0 ->
  twp (vfio_pci_disable_msis host b) (fun _ w' => shape w' = shape w0) w.
Proof.
  intros HS. unfold vfio_pci_disable_msis. unfold_host.
  repeat lazymatch goal with
         | |- twp (vfio_pci_enable_intx _) _ _ => tot_call (enable_intx_total host w0)
         | _ => tot_step
         end; first [shape_leaf | assumption].
Qed.

Lemma current_mask_total idxs w0 : forall mask w,
  shape w = shape w0 ->
  Forall (fun i => (i < 32)%nat /\ (i < length (entries (msi (pdev w0))))%nat) idxs ->
  twp (current_mask idxs mask) (fun _ w' => w' = w) w.
Proof.
  induction idxs as [|i rest IH]; intros mask w HS HF; cbn [current_mask].
  - apply twp_ret. reflexivity.
  - inversion HF as [|? ? [Hi Hj] HF']; subst.
    change (msi (pdev w0)) with (msis_of false (pdev w0)) in Hj.
    tot_step. tot_step. tot_step. tot_step. apply IH; assumption.
Qed.

Lemma apply_mask_total host idxs w0 : forall mask w,
  shape w = shape w0 ->
  Forall (fun i => (i < 32)%nat /\ (i < length (entries (msi (pdev w0))))%nat) idxs ->
  twp (apply_mask host idxs mask) (fun _ w' => shape w' = shape w0) w.
Proof.
  induction idxs as [|i rest IH]; intros mask w HS HF; cbn [apply_mask].
  - apply twp_ret. exact HS.
  - inversion HF as [|? ? [Hi Hj] HF']; subst.
    change (msi (pdev w0)) with (msis_of false (pdev w0)) in Hj.
    repeat lazymatch goal with
           | |- twp (apply_mask _ _ _) _ _ =>
               apply IH; [first [shape_leaf|assumption] | exact HF']
           | |- twp (vfio_pci_update_msi_entry _ _ _) _ _ =>
               eapply twp_mono;
               [apply (update_msi_entry_total host false i w0); [shape_leaf | exact Hj]
               | (let H := fresh "HS" in intros ? ? H; cbv beta in H |- *)]
           | _ => tot_step
           end.
Qed.

Lemma program_vectors_total host idxs nr w0 : forall msg w,
  shape w = shape w0 ->
  Forall (fun i => (i < length (entries (msi (pdev w0))))%nat) idxs ->
  twp (program_vectors host idxs nr msg) (fun _ w' => shape w' = shape w0) w.
Proof.
  induction idxs as [|i rest IH]; intros [[lo hi] d] w HS HF; cbn [program_vectors].
  - apply twp_ret. exact HS.
  - inversion HF as [|? ? Hj HF']; subst.
    change (msi (pdev w0)) with (msis_of false (pdev w0)) in Hj.
    repeat lazymatch goal with
           | |- twp (program_vectors _ _ _ _) _ _ =>
               apply IH; [first [shape_leaf|assumption] | exact HF']
           | |- twp (vfio_pci_update_msi_entry _ _ _) _ _ =>
               eapply twp_mono;
               [apply (update_msi_entry_total host false i w0); [shape_leaf | exact Hj]
               | (let H := fresh "HS" in intros ? ? H; cbv beta in H |- *)]
           | _ => tot_step
           end.
Qed.

Lemma u16_range z : 0 <= u16 z < 65536.
Proof. unfold u16, wrap. apply Z.mod_pos_bound. reflexivity. Qed.

Lemma msi_vector_write_total host off data sz w0 w :
  shape w = shape w0 ->
  arrays_ok (msi (pdev w0)) ->
  nr_entries (msi (pdev w0)) <= 32 ->
  twp (vfio_pci_msi_vector_write host off data sz) (fun _ w' => shape w' = shape w0) w.
Proof.
  intros HS HA Hnr. unfold vfio_pci_msi_vector_write.
  assert (HF : Forall (fun i => (i < 32)%nat /\ (i < length (entries (msi (pdev w0))))%nat)
                 (vector_indices (msi (pdev w)))).
  { destruct HA as (A1 & _). unfold vector_indices.
    pose proof (shape_nr_entries false _ _ HS) as E. cbn [msis_of] in E. rewrite E.
    apply Forall_forall. intros i Hi. apply elem_of_seq in Hi. rewrite A1. lia. }
  twp_step. twp_step. twp_step; [exact HS|]. twp_step; [twp_step; exact HS|].
  twp_step. eapply twp_mono; [apply (current_mask_total _ w0); assumption|].
  intros mask w' ->. cbv beta.
  twp_step. eapply twp_mono; [apply (apply_mask_total host _ w0); assumption|].
  intros ? w' HS'. cbv beta in *. twp_step. exact HS'.
Qed.

Lemma msix_cap_write_total host off data sz w0 w :
  shape w = shape w0 ->
  arrays_ok (msix (pdev w0)) ->
  0 <= sz -> (Z.to_nat sz <= length data)%nat ->
  twp (vfio_pci_msix_cap_write host off data sz) (fun _ w' => shape w' = shape w0) w.
Proof.
  intros HS HA Hsz Hlen. unfold vfio_pci_msix_cap_write.
  twp_step. twp_step. twp_step; [exact HS|].
  apply orb_false_iff in Heqb as (H1 & H2).
  rewrite Z.gtb_ltb in H1. apply Z.ltb_ge in H1. apply Z.leb_gt in H2.
  pose proof (u16_range (off - pos (msix (pdev w)))) as Hr.
  destruct (data !! _) as [byte|] eqn:Hd.
  2:{ apply lookup_ge_None in Hd. unfold PCI_MSIX_FLAGS in *. lia. }
  repeat lazymatch goal with
         | |- twp (vfio_pci_enable_msis _ _) _ _ =>
             tot_call (enable_msis_total host true w0)
         | |- twp (vfio_pci_disable_msis _ _) _ _ =>
             tot_call (disable_msis_total host true w0)
         | _ => tot_step
         end; first [shape_leaf | assumption].
Qed.

Lemma msi_cap_write_total host off data sz w0 w :
  shape w = shape w0 ->
  arrays_ok (msi (pdev w0)) ->
  nr_entries (msi (pdev w0)) <= 32 ->
  0 <= sz <= 4 -> (Z.to_nat sz <= length data)%nat ->
  msi_ctrl_overruns (msi (pdev w0)) off data sz = false ->
  twp (vfio_pci_msi_cap_write host off data sz) (fun _ w' => shape w' = shape w0) w.
Proof.
  intros HS HA Hnr Hsz Hlen Hov. unfold vfio_pci_msi_cap_write.
  pose proof (shape_pos false _ _ HS) as Epos. cbn [msis_of] in Epos.
  twp_step. twp_step. twp_step.
  eapply twp_mono; [apply (msi_vector_write_total host _ _ _ w0); assumption|].
  intros r w1 HS1. cbv beta in *.
  twp_step; [twp_step; exact HS1|]. twp_step; [twp_step; exact HS1|].
  apply orb_false_iff in Heqb0 as (H1 & H2).
  rewrite Z.gtb_ltb in H1. apply Z.ltb_ge in H1. apply Z.leb_gt in H2.
  pose proof (u16_range (off - pos (msi (pdev w)))) as Hr.
  rewrite u32_small in H2 by lia.
  destruct (data !! _) as [ctrl|] eqn:Hd.
  2:{ apply lookup_ge_None in Hd. unfold PCI_MSI_FLAGS in *. lia. }
  unfold msi_ctrl_overruns in Hov. rewrite <- Epos, Hd in Hov.
  replace (u16 (off - pos (msi (pdev w))) <=? PCI_MSI_FLAGS) with true in Hov
    by (symmetry; apply Z.leb_le; exact H1).
  replace (PCI_MSI_FLAGS <? u16 (off - pos (msi (pdev w))) + sz) with true in Hov
    by (symmetry; apply Z.ltb_lt; exact H2).
  cbn [andb] in Hov.
  repeat lazymatch goal with
         | |- twp (vfio_pci_disable_msis _ _) _ _ =>
             tot_call (disable_msis_total host false w0)
         | _ => tot_step
         end; try (first [shape_leaf | assumption]).
  match goal with
  | H : negb (truthy (msi_is_enabled _)) = false |- _ =>
      cbn [pdev set_pdev msis_of set_msis msi msix guest_state set_guest_state] in H;
      rewrite is_enabled_set in H;
      destruct (truthy (Z.land ctrl PCI_MSI_FLAGS_ENABLE)); [|discriminate H]
  end.
  cbn [andb] in Hov. apply Z.ltb_ge in Hov.
  eapply twp_mono.
  { apply (program_vectors_total host _ _ w0); [shape_leaf|].
    destruct HA as (A1 & _). apply Forall_forall. intros i Hi.
    apply elem_of_seq in Hi. rewrite A1. lia. }
  intros ? w2 HS2. cbv beta in *.
  repeat lazymatch goal with
         | |- twp (vfio_pci_enable_msis _ _) _ _ =>
             tot_call (enable_msis_total host false w0)
         | _ => tot_step
         end; first [shape_leaf | assumption].
Qed.

Lemma land_low_bits addr len :
  len = 4 \/ len = 8 -> Z.land addr (len - 1) = 0 -> addr mod len = 0.
Proof.
  intros [-> | ->] H.
  - change (4 - 1) with (Z.ones 2) in H. rewrite Z.land_ones in H by lia. exact H.
  - change (8 - 1) with (Z.ones 3) in H. rewrite Z.land_ones in H by lia. exact H.
Qed.

(** An aligned access that passes the range check stays inside one
    table entry when the table lies at a multiple of 8. *)
Lemma table_field_fits gpa addr len :
  len = 4 \/ len = 8 -> addr mod len = 0 -> gpa mod 8 = 0 ->
  u64 (addr - gpa) mod PCI_MSIX_ENTRY_SIZE + len <= PCI_MSIX_ENTRY_SIZE.
Proof.
  intros Hlen Ha Hg. unfold u64, wrap, PCI_MSIX_ENTRY_SIZE.
  assert (Hd8 : (len | 8)) by (destruct Hlen as [-> | ->]; [exists 2|exists 1]; reflexivity).
  assert (Hd16 : (len | 16)) by (destruct Hlen as [-> | ->]; [exists 4|exists 2]; reflexivity).
  assert (Hd64 : (len | 2 ^ 64))
    by (destruct Hlen as [-> | ->]; [exists (2 ^ 62)|exists (2 ^ 61)]; reflexivity).
  assert (Hl : 0 < len) by lia.
  assert (Hg' : gpa mod len = 0).
  { rewrite <- (Z.mod_mod_divide gpa 8 len Hd8), Hg. apply Z.mod_0_l. lia. }
  assert (Hx : (addr - gpa) mod len = 0).
  { rewrite Zminus_mod, Ha, Hg'. apply Z.mod_0_l. lia. }
  set (o := (addr - gpa) mod 2 ^ 64) in *.
  assert (Ho : o mod len = 0).
  { unfold o. rewrite (Z.mod_mod_divide _ _ _ Hd64). exact Hx. }
  assert (Hf : (o mod 16) mod len = 0).
  { rewrite (Z.mod_mod_divide _ _ _ Hd16). exact Ho. }
  pose proof (Z.mod_pos_bound o 16 ltac:(lia)) as Hb.
  apply Z.mod_divide in Hf; [|lia]. destruct Hf as [k Hk].
  destruct Hlen as [-> | ->]; lia.
Qed.

Lemma table_access_total host addr data len is_write w0 w :
  shape w = shape w0 ->
  arrays_ok (msix (pdev w0)) ->
  size (msix_table (pdev w0)) <= PCI_MSIX_ENTRY_SIZE * nr_entries (msix (pdev w0)) ->
  guest_phys_addr (msix_table (pdev w0)) mod 8 = 0 ->
  twp (vfio_pci_msix_table_access host addr data len is_write)
      (fun _ w' => shape w' = shape w0) w.
Proof.
  intros HS HA Hsize Hgpa. unfold vfio_pci_msix_table_access.
  pose proof (shape_table _ _ HS) as Et.
  twp_step. twp_step. twp_step; [repeat twp_step; shape_leaf|].
  twp_step; [repeat twp_step; shape_leaf|].
  rewrite Z.geb_leb in Heqb. apply Z.leb_gt in Heqb.
  apply orb_false_iff in Heqb0 as (H1 & H2).
  assert (Hlen : len = 4 \/ len = 8).
  { destruct (Z.eqb_spec len 4); [auto|]. destruct (Z.eqb_spec len 8); [auto|].
    discriminate H1. }
  assert (Hal : addr mod len = 0).
  { apply land_low_bits; [exact Hlen|].
    unfold truthy in H2. apply negb_false_iff, Z.eqb_eq in H2.
    rewrite u32_small in H2 by (destruct Hlen as [-> | ->]; cbn; lia). exact H2. }
  rewrite Et in *.
  set (offset := u64 (addr - guest_phys_addr (msix_table (pdev w0)))) in *.
  assert (H0 : 0 <= offset) by (apply Z.mod_pos_bound; reflexivity).
  assert (Hv : (Z.to_nat (offset / PCI_MSIX_ENTRY_SIZE)
                < length (entries (msis_of true (pdev w0))))%nat).
  { destruct HA as (A1 & _). cbn [msis_of]. rewrite A1.
    assert (offset / PCI_MSIX_ENTRY_SIZE < nr_entries (msix (pdev w0))).
    { unfold PCI_MSIX_ENTRY_SIZE in *. apply Z.div_lt_upper_bound; lia. }
    assert (0 <= offset / PCI_MSIX_ENTRY_SIZE)
      by (unfold PCI_MSIX_ENTRY_SIZE; apply Z.div_pos; lia).
    lia. }
  pose proof (table_field_fits (guest_phys_addr (msix_table (pdev w0))) addr len
                Hlen Hal Hgpa) as Hfit.
  fold offset in Hfit.
  replace (offset mod PCI_MSIX_ENTRY_SIZE + len >? PCI_MSIX_ENTRY_SIZE) with false
    by (symmetry; rewrite Z.gtb_ltb; apply Z.ltb_ge; exact Hfit).
  tot_step. tot_step.
  repeat lazymatch goal with
         | |- twp (vfio_pci_enable_msis _ _) _ _ =>
             tot_call (enable_msis_total host true w0)
         | |- twp (vfio_pci_update_msi_entry _ _ _) _ _ =>
             eapply twp_mono;
             [apply (update_msi_entry_total host true _ w0); [shape_leaf | exact Hv]
             | (let H := fresh "HS" in intros ? ? H; cbv beta in H |- *)]
         | _ => tot_step
         end; first [shape_leaf | assumption].
Qed.

Lemma cfg_write_total host offset data sz w :
  sized w ->
  0 <= sz <= 4 -> (Z.to_nat sz <= length data)%nat ->
  cfg_write_overruns (pdev w) offset data sz = false ->
  twp (vfio_pci_cfg_write host offset data sz) (fun _ w' => shape w' = shape w) w.
Proof.
  intros [HA HM _] Hsz Hlen Hov. unfold vfio_pci_cfg_write. unfold_host.
  unfold has_mode, cfg_write_overruns in *.
  twp_step; [rewrite Z.gtb_ltb in Heqb; apply Z.ltb_lt in Heqb; lia|].
  twp_step; [twp_step; reflexivity|].
  twp_step. twp_step. twp_step. twp_step. twp_step. twp_step. twp_step.
  eapply (twp_mono _ (fun _ w' => shape w' = shape w));
    [destruct (negb _); twp_step; reflexivity|].
  intros ? w1 HS1. cbv beta in *.
  twp_step. twp_step. cbv beta. twp_step.
  eapply (twp_mono _ (fun _ w' => shape w' = shape w)).
  { rewrite (shape_modes _ _ HS1).
    destruct (truthy (Z.land (irq_modes (pdev w)) VFIO_PCI_IRQ_MODE_MSIX)) eqn:Hx.
    - apply (msix_cap_write_total host _ _ _ w); [exact HS1|exact (HA true Hx)|lia|exact Hlen].
    - twp_step. exact HS1. }
  intros ? w2 HS2. cbv beta in *.
  twp_step.
  eapply (twp_mono _ (fun _ w' => shape w' = shape w)).
  { rewrite (shape_modes _ _ HS1).
    destruct (truthy (Z.land (irq_modes (pdev w)) VFIO_PCI_IRQ_MODE_MSI)) eqn:Hx.
    - apply (msi_cap_write_total host _ _ _ w);
        [exact HS2|exact (HA false Hx)|exact (HM eq_refl)|exact Hsz|exact Hlen|exact Hov].
    - twp_step. exact HS2. }
  intros ? w3 HS3. cbv beta in *.
  repeat twp_step; shape_leaf.
Qed.

(** ** Writes to configuration space *)

(** A guest write to configuration space returns and keeps the
    mask/route agreement.  On a device laid out as bring-up leaves it, in
    a state that satisfies the vector invariant, a write of at most four
    bytes, whatever its offset, its bytes and the host's answers, returns
    unless it is the overrunning write, the one that sets the MSI enable bit
    with a Multiple Message Enable field beyond the vectors of the
    capability; the state it leaves satisfies the invariant again, every
    vector in it is host-masked exactly when no irqfd binding is
    installed for its gsi and eventfd, and the layout is unchanged. *)
Theorem cfg_write_keeps_mask_route host offset data sz w :
  vec_inv w ->
  sized w ->
  0 <= sz <= 4 -> (Z.to_nat sz <= length data)%nat ->
  cfg_write_overruns (pdev w) offset data sz = false ->
  exists w',
    vfio_pci_cfg_write host offset data sz w = Ok tt w'
    /\ vec_inv w' /\ mask_route_law w' /\ sized w'.
Proof.
  intros HI HZ Hsz Hlen Hov.
  destruct (twp_elim _ _ _
              (twp_wp_conj _ _ _ _
                 (cfg_write_total host offset data sz w HZ Hsz Hlen Hov)
                 (cfg_write_inv host offset data sz w HI)))
    as ([] & w' & E & HS & HI').
  exists w'. split; [exact E|]. split; [exact HI'|].
  split; [exact (vec_inv_law _ HI')|exact (sized_shape _ _ HS HZ)].
Qed.

Lemma sample_vector0_sized : sized sample_vector0.
Proof.
  split.
  - intros [] H; [split; vm_compute; reflexivity|vm_compute in H; discriminate H].
  - intros H. vm_compute in H. discriminate H.
  - intros _. split; vm_compute; [discriminate|reflexivity].
Qed.

Lemma cfg_write_keeps_mask_route_witness :
  exists w',
    vfio_pci_cfg_write host_ok 0x62 [0x00; 0x80] 2 sample_vector0 = Ok tt w'
    /\ vec_inv w' /\ mask_route_law w' /\ sized w'.
Proof.
  refine (cfg_write_keeps_mask_route host_ok 0x62 [0x00; 0x80] 2 sample_vector0
            (proj1 sample_vector0_facts) sample_vector0_sized _ _ _).
  - lia.
  - vm_compute. lia.
  - vm_compute. reflexivity.
Defined.

(** On a device that exposes at most one of MSI and MSI-X, a guest write
    to configuration space returns and keeps the modes exclusive.  With
    the layout of bring-up, if before the write a capability the device
    lacks is not enabled on the host and no capability is enabled on the
    host while INTx is armed, then a write of at most four bytes other
    than the overrunning write returns, the same holds after it, at most one of
    INTx, MSI and MSI-X is enabled on the host, and the layout is
    unchanged. *)
Theorem cfg_write_keeps_exclusion host offset data sz w :
  single_capability (irq_modes (pdev w)) ->
  excl_inv (irq_modes (pdev w)) w ->
  sized w ->
  0 <= sz <= 4 -> (Z.to_nat sz <= length data)%nat ->
  cfg_write_overruns (pdev w) offset data sz = false ->
  exists w',
    vfio_pci_cfg_write host offset data sz w = Ok tt w'
    /\ excl_inv (irq_modes (pdev w)) w' /\ mode_exclusion w' /\ sized w'.
Proof.
  intros Hs HK HZ Hsz Hlen Hov.
  destruct (twp_elim _ _ _
              (twp_wp_conj _ _ _ _
                 (cfg_write_total host offset data sz w HZ Hsz Hlen Hov)
                 (cfg_write_excl host offset data sz _ w Hs HK)))
    as ([] & w' & E & HS & HK').
  exists w'. split; [exact E|]. split; [exact HK'|].
  split; [exact (excl_inv_exclusion _ _ Hs HK')|exact (sized_shape _ _ HS HZ)].
Qed.

Lemma cfg_write_keeps_exclusion_witness :
  exists w',
    vfio_pci_cfg_write host_ok 0x62 [0x00; 0x80] 2 sample_vector0 = Ok tt w'
    /\ excl_inv 5 w' /\ mode_exclusion w' /\ sized w'.
Proof.
  refine (cfg_write_keeps_exclusion host_ok 0x62 [0x00; 0x80] 2 sample_vector0
            single_capability_5 (proj2 sample_vector0_facts) sample_vector0_sized _ _ _).
  - lia.
  - vm_compute. lia.
  - vm_compute. reflexivity.
Defined.

(** ** Sequences of accesses *)

Lemma shape_layout w w' : shape w' = shape w -> layout w' = layout w.
Proof.
  unfold shape, layout. intros H. injection H as A _ B1 B2 B3 B4 C1 C2 C3 C4.
  unfold cap_shape. congruence.
Qed.

Lemma access_ok_layout w w' a :
  layout w' = layout w -> access_ok (pdev w) a -> access_ok (pdev w') a.
Proof.
  unfold layout, cap_shape. intros H. injection H as A B C _ _ _ _ _ _.
  unfold has_mode.
  destruct a as [offset data sz|addr data len is_write|h|x]; cbn [access_ok].
  - unfold cfg_write_overruns, msi_ctrl_overruns. rewrite A, B, C. exact id.
  - rewrite A. exact id.
  - exact id.
  - exact id.
Qed.

Lemma sized_bar_activate a w :
  a mod 8 = 0 -> sized w -> sized (set_pdev (set_table_addr a (pdev w)) w).
Proof.
  intros Ha [HA HM HT]. split.
  - exact HA.
  - exact HM.
  - intros Hx. destruct (HT Hx) as (H1 & _). split; [exact H1|exact Ha].
Qed.

(** An access the device is given returns, and leaves the layout as it
    was. *)
Lemma access_total host a w :
  sized w -> access_ok (pdev w) a ->
  twp (access host a) (fun _ w' => sized w' /\ layout w' = layout w) w.
Proof.
  intros HZ Hok.
  destruct a as [offset data sz|addr data len is_write|h|x]; cbn [access access_ok] in *.
  - destruct Hok as (Hsz & Hlen & Hov).
    eapply twp_mono; [apply (cfg_write_total host offset data sz w HZ Hsz Hlen Hov)|].
    intros ? w' HS. split; [exact (sized_shape _ _ HS HZ)|exact (shape_layout _ _ HS)].
  - destruct HZ as [HA HM HT]. destruct (HT Hok) as (H1 & H2).
    apply twp_bind. eapply twp_mono.
    + apply (table_access_total host addr data len is_write w w eq_refl (HA true Hok) H1 H2).
    + intros ? w' HS. cbv beta in HS. apply twp_ret.
      split; [|exact (shape_layout _ _ HS)].
      apply (sized_shape _ _ HS). split; assumption.
  - apply twp_modify_pdev. split; [|reflexivity]. destruct HZ as [HA HM HT].
    split; assumption.
  - apply twp_modify_pdev. split; [|reflexivity]. apply sized_bar_activate; assumption.
Qed.

Lemma access_inv host a w :
  vec_inv w -> wp (access host a) (fun _ w' => vec_inv w') w.
Proof.
  intros HI. destruct a as [offset data sz|addr data len is_write|h|x]; cbn [access].
  - apply cfg_write_inv. exact HI.
  - apply wp_bind. eapply wp_mono; [apply msix_table_access_inv; exact HI|].
    intros ? w' HI'. apply wp_ret. exact HI'.
  - apply wp_modify_pdev. revert HI. apply vec_inv_view. reflexivity.
  - apply wp_modify_pdev. revert HI. apply vec_inv_view. reflexivity.
Qed.

Lemma access_excl host a modes w :
  single_capability modes -> excl_inv modes w -> access_ok (pdev w) a ->
  wp (access host a) (fun _ w' => excl_inv modes w') w.
Proof.
  intros Hs HK Hok.
  destruct a as [offset data sz|addr data len is_write|h|x]; cbn [access access_ok] in *.
  - apply cfg_write_excl; assumption.
  - pose proof HK as (Hm & _). rewrite Hm in Hok.
    apply wp_bind. eapply wp_mono; [apply msix_table_access_excl; [exact Hok|exact HK]|].
    intros ? w' HK'. apply wp_ret. exact HK'.
  - apply wp_modify_pdev. revert HK. apply excl_inv_kview. reflexivity.
  - apply wp_modify_pdev. revert HK. apply excl_inv_kview. reflexivity.
Qed.

(** A sequence of accesses the device is given runs to its end, and
    what every access keeps holds at the end. *)
Lemma run_accesses_total host (I : world -> Prop) l :
  (forall a w, I w -> access_ok (pdev w) a ->
               wp (access host a) (fun _ w' => I w') w) ->
  forall w,
    I w -> sized w -> Forall (access_ok (pdev w)) l ->
    twp (run_accesses host l) (fun _ w' => I w' /\ sized w' /\ layout w' = layout w) w.
Proof.
  intros Hstep. induction l as [|a rest IH]; intros w HI HZ HF; cbn [run_accesses].
  - apply twp_ret. auto.
  - inversion HF as [|? ? Ha HF']; subst.
    apply twp_bind. eapply twp_mono.
    + apply twp_wp_conj; [apply (access_total host a w HZ Ha)|apply (Hstep a w HI Ha)].
    + intros ? w1 ((HZ1 & HL1) & HI1). cbv beta in *.
      eapply twp_mono.
      * apply (IH w1 HI1 HZ1). eapply Forall_impl; [exact HF'|].
        intros b. apply access_ok_layout. exact HL1.
      * intros ? w2 (HI2 & HZ2 & HL2). split; [exact HI2|]. split; [exact HZ2|].
        congruence.
Qed.

(** The mask/route agreement in every state the guest can drive the
    device into.  After a successful interrupt set-up that leaves the
    layout of bring-up, every sequence of accesses the device is given,
    in any number and order and with any answers of the host --
    configuration-space writes of at most four bytes other than the
    overrunning write, MSI-X table accesses on a device with MSI-X, stores into the
    header and moves of the table to a multiple of 8 -- runs to its end,
    and in the state it ends in every vector is host-masked exactly when
    no irqfd binding is installed for its gsi and eventfd. *)
Theorem accesses_keep_mask_route host irq_info off line w0 l :
  configured host irq_info off line w0 ->
  sized w0 ->
  Forall (access_ok (pdev w0)) l ->
  exists w,
    run_accesses host l w0 = Ok tt w
    /\ vec_inv w /\ mask_route_law w /\ sized w.
Proof.
  intros (wb & HB & E) HZ HF.
  pose proof (proj1 (wp_elim _ _ _ _ _
                (configure_dev_irqs_spec host irq_info off line wb HB) E eq_refl)) as HI.
  destruct (twp_elim _ _ _
              (run_accesses_total host vec_inv l
                 (fun a w H _ => access_inv host a w H) w0 HI HZ HF))
    as ([] & w & Er & HI' & HZ' & _).
  exists w. split; [exact Er|]. split; [exact HI'|].
  split; [exact (vec_inv_law _ HI')|exact HZ'].
Qed.

Lemma sample_configured_ok modes :
  modes = 5 \/ modes = 7 ->
  configured host_ok sample_irq_info 0 9 (sample_configured host_ok modes).
Proof.
  intros Hm. exists (sample_boot modes). split.
  - exact (sample_boot_ok modes Hm).
  - destruct Hm as [-> | ->]; vm_compute; reflexivity.
Qed.

Lemma sample_configured_sized : sized (sample_configured host_ok 5).
Proof.
  split.
  - intros [] H; [split; vm_compute; reflexivity|vm_compute in H; discriminate H].
  - intros H. vm_compute in H. discriminate H.
  - intros _. split; vm_compute; [discriminate|reflexivity].
Qed.

Lemma sample_accesses_ok :
  Forall (access_ok (pdev (sample_configured host_ok 5))) sample_accesses.
Proof.
  unfold sample_accesses. repeat apply List.Forall_cons; try apply List.Forall_nil.
  all: cbn [access_ok].
  all: try (split; [lia|split; [vm_compute; lia|vm_compute; reflexivity]]).
  all: vm_compute; reflexivity.
Qed.

Lemma accesses_keep_mask_route_witness :
  exists w,
    run_accesses host_ok sample_accesses (sample_configured host_ok 5) = Ok tt w
    /\ vec_inv w /\ mask_route_law w /\ sized w.
Proof.
  exact (accesses_keep_mask_route host_ok sample_irq_info 0 9
           (sample_configured host_ok 5) sample_accesses
           (sample_configured_ok 5 (or_introl eq_refl))
           sample_configured_sized sample_accesses_ok).
Defined.

(** Mutual exclusion on a single-capability device.  After a successful
    interrupt set-up, with the layout of bring-up, of a device that
    exposes at most one of MSI and MSI-X, every sequence of accesses the
    device is given (as above: no overrunning write among them) runs to its
    end, and in the state it ends in at most one of INTx, MSI and MSI-X
    is enabled on the host. *)
Theorem accesses_keep_single_capability_exclusive host irq_info off line w0 l :
  configured host irq_info off line w0 ->
  single_capability (irq_modes (pdev w0)) ->
  sized w0 ->
  Forall (access_ok (pdev w0)) l ->
  exists w,
    run_accesses host l w0 = Ok tt w
    /\ mode_exclusion w /\ sized w.
Proof.
  intros (wb & HB & E) Hs HZ HF.
  pose proof (wp_elim _ _ _ _ _
                (configure_dev_irqs_spec host irq_info off line wb HB) E eq_refl)
    as (_ & _ & HK & _).
  assert (HK0 : excl_inv (irq_modes (pdev w0)) w0).
  { destruct HK as (Hm & HK). rewrite Hm. split; [exact Hm|exact HK]. }
  destruct (twp_elim _ _ _
              (run_accesses_total host (excl_inv (irq_modes (pdev w0))) l
                 (fun a w H Ha => access_excl host a _ w Hs H Ha) w0 HK0 HZ HF))
    as ([] & w & Er & HK' & HZ' & _).
  exists w. split; [exact Er|].
  split; [exact (excl_inv_exclusion _ _ Hs HK')|exact HZ'].
Qed.

Lemma accesses_keep_single_capability_exclusive_witness :
  exists w,
    run_accesses host_ok sample_accesses (sample_configured host_ok 5) = Ok tt w
    /\ mode_exclusion w /\ sized w.
Proof.
  refine (accesses_keep_single_capability_exclusive host_ok sample_irq_info 0 9
            (sample_configured host_ok 5) sample_accesses
            (sample_configured_ok 5 (or_introl eq_refl)) _
            sample_configured_sized sample_accesses_ok).
  intros (H & _). vm_compute in H. discriminate H.
Defined.
